(* ===== verification/_CoqProject ===== *)
-Q . S2P
Prelude.v
Serialize.v
ArithUint256.v
Script.v
Sha256.v
Ripemd160.v
Sha1.v
Hash.v
Interpreter.v
Primitives.v
Sighash.v
Standard.v
Coins.v
Chain.v
Params.v
TxVerify.v
Undo.v
Connect.v
Merkle.v
Work.v
Stake.v
Block.v
Reward.v
