(* ===== verification/Prelude.v ===== *)
(** * Verification of the Hydra node

    The node in [src/] descends from Bitcoin and Qtum: a chain of blocks that is
    extended by proof of work at first and by proof of stake later, a set of unspent
    coins that transactions move, scripts that guard the coins, and contracts
    that are run by an Ethereum virtual machine.  This development models its
    consensus core, from the hash functions up to connecting and disconnecting a block.

    ** Parts and files

    Bottom up; each file requires those it uses.

    - [Prelude]: machine integers ([u8], [u32], [u64], [i32], [i64] are the wraps), bytes,
      lists, tactics, the hint databases [hydra], [width] and [bytes].
    - [Serialize] ([serialize.h], [streams.h]): readers and codecs; class [Lawful].
    - [ArithUint256] ([arith_uint256]): words with carries, shifts, division, the
      compact format of targets.
    - [Sha256], [Ripemd160], [Sha1] ([crypto/]): compression functions; [Hash]
      ([crypto/], [hash.h]): the buffering hashers and what is built on them.
    - [Script] ([script/script]): numbers, decoding, building and recognising scripts;
      [Interpreter] ([script/interpreter]): [EvalScript] and [VerifyScript];
      [Sighash]: what signatures sign, and the checkers; [Standard] ([script/standard]):
      output templates and destinations.
    - [Primitives] ([primitives/], [amount.h]): transactions, blocks and their formats.
    - [Coins] ([coins], [CCoinsViewDB]): classes [CoinsView] and [CoinsViewLaws], caches and
      the database.
    - [Chain] ([chain], part of [validation.cpp]): the block index, the active chain,
      locators, forks, work; [Params] ([consensus/params.h], [chainparams.cpp]).
    - [TxVerify] ([consensus/tx_verify]): rules for transactions, lock times.
    - [Undo] and [Connect] ([validation.cpp]): [DisconnectBlock] and [ConnectBlock] as far
      as they deal with coins and scripts.
    - [Merkle] ([consensus/merkle]); [Work] ([pow.cpp]): the target of the next block;
      [Stake] ([pos.cpp]): kernels and the coins that stake.
    - [Block] ([CheckBlock]) and [Reward] ([GetBlockSubsidy], [CheckReward]).

    A block passes [Block.CheckBlock], which gives it the shape
    ([Connect.block_shape]) that [Connect.ConnectBlock] relies on; connecting it moves the
    coins of [Coins] through the class [CoinsView], runs scripts by [Interpreter] with
    the checkers of [Sighash], and leaves the records from which
    [Undo.DisconnectBlock] restores the coins.  [Reward.CheckReward] compares the
    sums that [ConnectBlock] forms with the subsidy.  [Work] and [Stake] walk the
    tree of [Chain].

    ** Conventions

    An integer is a [Z] with its wraps written out, a byte string a [list Z], a
    256-bit blob 32 bytes.  A pointer to a block index entry is a position in a
    memory.  Failure is a value: [None] or a constructor for an exception, a failed
    assertion or an access out of range, and a rejection with its reason and ban
    score where the code records one.

    ** What the theorems show

    - Scripts: fewer flags accept more, but for one, which only ever enlarges what
      is accepted; pay-to-public-key-hash outputs are spent exactly by
      the key; no assertion fails; stacks stay bounded; lock times bind.
    - Coins: any stack of caches refines a map; an interrupted write is
      recoverable; no transaction creates value.
    - Blocks: with script checks on, every input was verified against the coin in
      the set at that point, unless the answer was in the cache.  Connecting and
      disconnecting is a round trip and the money supply tracks the coins, both
      for blocks in which no coin is spent twice if a coinstake is put off.  The
      supply grows by exactly the subsidy less what is burned.  The merkle root
      binds the hashes at the same height of two trees, unless two different inputs
      hashed in these trees have the same double SHA-256.
    - Tree and targets: invariants over all reachable states, [GetAncestor] as the
      walk it shortens, locators, forks; the next target exists and is in range.
    - Stake: when a kernel is accepted, in integers; a coin that stakes is mature
      and fresh; the kernel cache is transparent; fees survive the split.
    - Formats and hashes: round trips, and equality of the unrolled and specialised
      routines and of the streaming hashers with the definitions of the standards, which
      are written down apart from the code ([Sha256.fips], [Sha1.fips1],
      [Ripemd160.rmd], [Hash.std_hash]).
    - Flaws found: [Reward.double_spend_unnoticed],
      [Reward.subsidy_votes_overrun], [Standard.sender_templates_unreachable],
      [Interpreter.sender_flag_expands].

    ** Bounds and fuel

    Walks over parents take the height as fuel, which [tree_ok] shows to be enough.
    [Work.mul_exp] has fuel for [2 * p / q] terms, while they may grow, and 256
    more, as each is then at most half the one before.  The merkle loop has one step per
    hash.  Theorems that a function returns are proved as such.

    ** Arguments that stand for other code

    libsecp256k1 (verifying and recovering), the memory usage of an allocation, the
    clock, the contents of block and undo files, and what contracts answer: the
    virtual machine, [cpp-ethereum], is a submodule that is not part of the sources.

    ** Not modelled

    - Contract execution and what depends on its results: the glue in [qtum/] and
      [locktrip/], the contract part of [ConnectBlock], [CheckProofOfStake]'s use of the
      delegation contract.  The machine they call is not in the sources.
    - The address, log, stake and delegate indexes, files and databases ([txdb], [dbwrapper],
      [index/]), apart from the batches of the coin database: input and output.
    - [ContextualCheckBlock], [ActivateBestChain] and deployment states; the memory
      pool, the miner, policy: not reached yet.
    - Network, RPC, wallet, user interface: no part of what makes a block valid.
    - [leveldb], [secp256k1], [univalue], [cryptopp], [libff]: libraries kept in
      the tree.
*)
From Stdlib Require Import ZArith Lia List Bool.
Import ListNotations.

Declare Scope hydra_scope.
Delimit Scope hydra_scope with hydra.
#[global] Open Scope Z_scope.

Create HintDb hydra.
Create Rewrite HintDb width.
Create Rewrite HintDb bytes.

(** ** Machine integers

    An unsigned C++ integer of width [w] is a [Z] in [0 <= x < 2^w]; each
    operation that can leave that range is followed by an explicit wrap. *)

Definition two32 : Z := 4294967296.
Definition two64 : Z := 18446744073709551616.

Definition u8 (x : Z) : Z := x mod 256.
Definition u32 (x : Z) : Z := x mod two32.
Definition u64 (x : Z) : Z := x mod two64.

(** Two's complement reading of the low [w] bits (conversion to [intN_t]). *)
Definition signed (w x : Z) : Z :=
  let y := x mod 2 ^ w in if y <? 2 ^ (w - 1) then y else y - 2 ^ w.

Definition i32 (x : Z) : Z := signed 32 x.
Definition i64 (x : Z) : Z := signed 64 x.

Definition is_u8 (x : Z) : Prop := 0 <= x < 256.
Definition is_u32 (x : Z) : Prop := 0 <= x < two32.
Definition is_u64 (x : Z) : Prop := 0 <= x < two64.
Definition is_i32 (x : Z) : Prop := - 2147483648 <= x < 2147483648.
Definition is_i64 (x : Z) : Prop :=
  - 9223372036854775808 <= x < 9223372036854775808.

Lemma two32_pow : two32 = 2 ^ 32.
Proof. reflexivity. Qed.

Lemma two64_pow : two64 = 2 ^ 64.
Proof. reflexivity. Qed.

Lemma u32_range x : is_u32 (u32 x).
Proof. apply Z.mod_pos_bound. reflexivity. Qed.

Lemma u64_range x : is_u64 (u64 x).
Proof. apply Z.mod_pos_bound. reflexivity. Qed.

Lemma u8_range x : is_u8 (u8 x).
Proof. apply Z.mod_pos_bound. reflexivity. Qed.

Lemma u32_small x : is_u32 x -> u32 x = x.
Proof. apply Z.mod_small. Qed.

Lemma u64_small x : is_u64 x -> u64 x = x.
Proof. apply Z.mod_small. Qed.

Lemma u8_small x : is_u8 x -> u8 x = x.
Proof. apply Z.mod_small. Qed.

Lemma signed_small w x :
  0 < w -> - 2 ^ (w - 1) <= x < 2 ^ (w - 1) -> signed w x = x.
Proof.
  intros Hw Hx. unfold signed.
  assert (E : 2 ^ w = 2 * 2 ^ (w - 1)).
  { rewrite <- Z.pow_succ_r by lia. f_equal. lia. }
  destruct (Z.lt_ge_cases x 0).
  - replace (x mod 2 ^ w) with (x + 2 ^ w).
    + destruct (Z.ltb_spec (x + 2 ^ w) (2 ^ (w - 1))); lia.
    + apply Z.mod_unique with (-1); lia.
  - rewrite Z.mod_small by lia. destruct (Z.ltb_spec x (2 ^ (w - 1))); lia.
Qed.

Lemma i64_small x : is_i64 x -> i64 x = x.
Proof. intros H. apply signed_small; [lia|]. exact H. Qed.

Lemma i32_small x : is_i32 x -> i32 x = x.
Proof. intros H. apply signed_small; [lia|]. exact H. Qed.

Lemma i64_range x : is_i64 (i64 x).
Proof.
  unfold is_i64, i64, signed. change (64 - 1) with 63. change (2 ^ 64) with (2 * 2 ^ 63).
  pose proof (Z.mod_pos_bound x (2 * 2 ^ 63) ltac:(lia)). destruct (Z.ltb_spec (x mod (2 * 2 ^ 63)) (2 ^ 63)); lia.
Qed.

Lemma i64_mod x : i64 x mod 2 ^ 64 = x mod 2 ^ 64.
Proof.
  unfold i64, signed. destruct (x mod 2 ^ 64 <? 2 ^ (64 - 1)).
  - apply Z.mod_mod. lia.
  - replace (x mod 2 ^ 64 - 2 ^ 64) with (x mod 2 ^ 64 + -1 * 2 ^ 64) by lia.
    rewrite Z.mod_add by lia. apply Z.mod_mod. lia.
Qed.

Lemma i64_add_l a b : i64 (i64 a + b) = i64 (a + b).
Proof.
  assert (E : forall x y, x mod 2 ^ 64 = y mod 2 ^ 64 -> i64 x = i64 y) by (intros x y E; unfold i64, signed; now rewrite E).
  apply E. rewrite <- Zplus_mod_idemp_l, i64_mod. apply Zplus_mod_idemp_l.
Qed.

Lemma u64_sub a b : u64 (u64 a - u64 b) = u64 (a - b).
Proof. unfold u64. now rewrite <- Zminus_mod. Qed.

#[export] Hint Resolve u8_range u32_range u64_range : hydra.
#[export] Hint Rewrite u8_small u32_small u64_small i32_small i64_small
  using (first [assumption | unfold is_u8, is_u32, is_u64, is_i32, is_i64, two32, two64 in *; lia])
  : width.

(** Case analysis on the boolean comparisons of a goal or hypothesis. *)
Ltac bcase :=
  repeat match goal with
  | |- context [Z.ltb ?a ?b] => destruct (Z.ltb_spec a b)
  | |- context [Z.leb ?a ?b] => destruct (Z.leb_spec a b)
  | |- context [Z.eqb ?a ?b] => destruct (Z.eqb_spec a b)
  | |- context [Nat.ltb ?a ?b] => destruct (Nat.ltb_spec a b)
  | |- context [Nat.leb ?a ?b] => destruct (Nat.leb_spec a b)
  | |- context [Nat.eqb ?a ?b] => destruct (Nat.eqb_spec a b)
  | H : context [Z.ltb ?a ?b] |- _ => destruct (Z.ltb_spec a b)
  | H : context [Z.leb ?a ?b] |- _ => destruct (Z.leb_spec a b)
  | H : context [Z.eqb ?a ?b] |- _ => destruct (Z.eqb_spec a b)
  | H : context [Nat.ltb ?a ?b] |- _ => destruct (Nat.ltb_spec a b)
  | H : context [Nat.leb ?a ?b] |- _ => destruct (Nat.leb_spec a b)
  | H : context [Nat.eqb ?a ?b] |- _ => destruct (Nat.eqb_spec a b)
  end.

(** Break the conjunctions and existentials of the context. *)
Ltac split_hyps :=
  repeat match goal with
  | H : _ /\ _ |- _ => destruct H
  | H : exists _, _ |- _ => destruct H
  end.

(** ** Loops

    [for_upto n body s] is [for (int i = 0; i < n; i++) body] on state [s]. *)

Definition for_upto {S : Type} (n : nat) (body : nat -> S -> S) (s : S) : S :=
  fold_left (fun s i => body i s) (seq 0 n) s.

Lemma for_upto_S {S : Type} n (body : nat -> S -> S) s :
  for_upto (Datatypes.S n) body s = body n (for_upto n body s).
Proof.
  unfold for_upto. rewrite seq_S, fold_left_app. reflexivity.
Qed.

(** The rule of a loop invariant. *)
Lemma for_upto_inv {S : Type} (P : nat -> S -> Prop) n body s :
  P 0%nat s ->
  (forall i s, (i < n)%nat -> P i s -> P (Datatypes.S i) (body i s)) ->
  P n (for_upto n body s).
Proof.
  intros H0 Hstep. induction n as [|n IH]; [exact H0|].
  rewrite for_upto_S. apply Hstep; [lia|]. apply IH. auto.
Qed.

(** [injection] without the simplification it performs. *)
Lemma Some_inj {A : Type} (a b : A) : Some a = Some b -> a = b.
Proof. congruence. Qed.

(** ** Arrays as lists *)

(** [a[i] = f(a[i])]; out of range it changes nothing (the code's loops stay
    in range). *)
Fixpoint upd {A : Type} (l : list A) (i : nat) (f : A -> A) : list A :=
  match l, i with
  | [], _ => []
  | x :: l', O => f x :: l'
  | x :: l', S i' => x :: upd l' i' f
  end.

Lemma length_upd {A : Type} (l : list A) i f : length (upd l i f) = length l.
Proof.
  revert i. induction l as [|x l IH]; intros [|i]; simpl; auto.
Qed.

Lemma nth_upd {A : Type} (l : list A) i j f d :
  nth j (upd l i f) d =
  if (Nat.eqb i j && Nat.ltb j (length l))%bool then f (nth j l d) else nth j l d.
Proof.
  revert i j. induction l as [|x l IH]; intros [|i] [|j]; simpl;
    rewrite ?andb_false_r, ?IH; auto.
Qed.

Lemma Forall_upd {A : Type} (P : A -> Prop) l i f :
  Forall P l -> (forall x, P x -> P (f x)) -> Forall P (upd l i f).
Proof.
  intros Hl Hf. revert i. induction Hl; intros [|i]; simpl; auto.
Qed.

Lemma Forall_nth_default {A : Type} (P : A -> Prop) l i d :
  Forall P l -> P d -> P (nth i l d).
Proof.
  intros Hl Hd. revert i. induction Hl; intros [|i]; simpl; auto.
Qed.

Lemma Forall_firstn {A : Type} (P : A -> Prop) n l : Forall P l -> Forall P (firstn n l).
Proof. intros H. revert n. induction H; intros [|n]; simpl; auto. Qed.

Lemma Forall_skipn {A : Type} (P : A -> Prop) n l : Forall P l -> Forall P (skipn n l).
Proof. intros H. revert n. induction H; intros [|n]; simpl; auto. Qed.

Lemma firstn_app_exact {A : Type} n (l1 l2 : list A) : length l1 = n -> firstn n (l1 ++ l2) = l1.
Proof. intros <-. rewrite firstn_app, Nat.sub_diag, firstn_all. apply app_nil_r. Qed.

Lemma skipn_app_exact {A : Type} n (l1 l2 : list A) : length l1 = n -> skipn n (l1 ++ l2) = l2.
Proof. intros <-. rewrite skipn_app, Nat.sub_diag, skipn_all. reflexivity. Qed.

Lemma nth_repeat_same {A : Type} (x : A) n i : nth i (repeat x n) x = x.
Proof. revert i. induction n; intros [|i]; simpl; auto. Qed.

Lemma firstn_add_skipn {A : Type} a b (l : list A) :
  firstn a l ++ firstn b (skipn a l) = firstn (a + b) l.
Proof. revert l. induction a as [|a IH]; intros [|x l]; simpl; f_equal; auto using firstn_nil. Qed.

Lemma flat_map_nth {A B : Type} (f : A -> list B) l d :
  flat_map f l = flat_map (fun i => f (nth i l d)) (seq 0 (length l)).
Proof.
  induction l as [|x l IH]; [reflexivity|]. cbn [flat_map length seq nth].
  rewrite IH, <- seq_shift, !flat_map_concat_map, map_map. reflexivity.
Qed.

(** A loop that rewrites each element of an array in turn. *)
Lemma length_for_upto_upd {A : Type} n (g : nat -> A -> A) l :
  length (for_upto n (fun i l => upd l i (g i)) l) = length l.
Proof.
  apply (for_upto_inv (fun _ l' => length l' = length l)); [reflexivity|].
  intros i s _ <-. apply length_upd.
Qed.

Lemma nth_for_upto_upd {A : Type} n (g : nat -> A -> A) l j d :
  (j < length l)%nat ->
  nth j (for_upto n (fun i l => upd l i (g i)) l) d = if (j <? n)%nat then g j (nth j l d) else nth j l d.
Proof.
  intros Hj. induction n as [|n IH]; [reflexivity|].
  rewrite for_upto_S, nth_upd, length_for_upto_upd, IH.
  destruct (Nat.eqb_spec n j), (Nat.ltb_spec j (length l)), (Nat.ltb_spec j n), (Nat.ltb_spec j (S n));
    cbn; subst; try lia; reflexivity.
Qed.

(** ** Bit lemmas *)

Lemma land_ones32 n : Z.land n 4294967295 = n mod two32.
Proof. change 4294967295 with (Z.ones 32). now rewrite Z.land_ones. Qed.

Lemma shiftr32_div n : Z.shiftr n 32 = n / two32.
Proof. now rewrite Z.shiftr_div_pow2. Qed.

Lemma testbit_small n p i : 0 <= n < 2 ^ p -> 0 <= p <= i -> Z.testbit n i = false.
Proof.
  intros Hn Hp. rewrite <- (Z.mod_small n (2 ^ p)) by lia.
  apply Z.mod_pow2_bits_high. lia.
Qed.

Lemma lt_pow2_testbit n p :
  0 <= n -> 0 <= p -> (forall i, p <= i -> Z.testbit n i = false) -> n < 2 ^ p.
Proof.
  intros Hn Hp H. destruct (Z.lt_ge_cases n (2 ^ p)) as [|Hge]; [assumption|].
  assert (Hl : p <= Z.log2 n) by (apply Z.log2_le_pow2; [|lia]; pose proof (Z.pow_pos_nonneg 2 p); lia).
  specialize (H _ Hl). rewrite Z.bit_log2 in H; [discriminate|].
  pose proof (Z.pow_pos_nonneg 2 p). lia.
Qed.

Lemma lor_range w a b :
  0 <= w -> 0 <= a < 2 ^ w -> 0 <= b < 2 ^ w -> 0 <= Z.lor a b < 2 ^ w.
Proof.
  intros Hw Ha Hb. split; [apply Z.lor_nonneg; lia|].
  apply lt_pow2_testbit; [apply Z.lor_nonneg; lia|lia|].
  intros i Hi. rewrite Z.lor_spec, (testbit_small a w), (testbit_small b w); auto; lia.
Qed.

Lemma land_range w a b :
  0 <= w -> 0 <= a < 2 ^ w -> 0 <= b -> 0 <= Z.land a b < 2 ^ w.
Proof.
  intros Hw Ha Hb. split; [apply Z.land_nonneg; lia|].
  apply lt_pow2_testbit; [apply Z.land_nonneg; lia|lia|].
  intros i Hi. rewrite Z.land_spec, (testbit_small a w); auto; lia.
Qed.

Lemma lxor_range w a b :
  0 <= w -> 0 <= a < 2 ^ w -> 0 <= b < 2 ^ w -> 0 <= Z.lxor a b < 2 ^ w.
Proof.
  intros Hw Ha Hb. split; [apply Z.lxor_nonneg; lia|].
  apply lt_pow2_testbit; [apply Z.lxor_nonneg; lia|lia|].
  intros i Hi. rewrite Z.lxor_spec, (testbit_small a w), (testbit_small b w); auto; lia.
Qed.

(** Disjoint bit sets: [lor] is addition. *)
Lemma lor_add_disjoint a b : Z.land a b = 0 -> Z.lor a b = a + b.
Proof. intros H. rewrite Z.add_nocarry_lxor, Z.lxor_lor; auto. Qed.

(** ** Byte order: [src/src/crypto/common.h]

    A pointer into memory is the list of the bytes from there on. *)

(** Case analysis of a list of known length. *)
Lemma list5 (P : list Z -> Prop) :
  (forall a b c d e, P [a; b; c; d; e]) -> forall l, length l = 5%nat -> P l.
Proof. intros H l Hl. do 6 (destruct l as [|? l]; try discriminate Hl). apply H. Qed.

(** The first [n] blocks of 64 bytes of a message. *)
Fixpoint parse_blocks (n : nat) (m : list Z) : list (list Z) :=
  match n with
  | O => []
  | S n' => firstn 64 m :: parse_blocks n' (skipn 64 m)
  end.

Lemma parse_blocks_app n k m1 m2 :
  length m1 = (64 * n)%nat ->
  parse_blocks (n + k) (m1 ++ m2) = parse_blocks n m1 ++ parse_blocks k m2.
Proof.
  revert m1. induction n as [|n IH]; intros m1 H; [now destruct m1|].
  cbn [parse_blocks Nat.add app]. rewrite firstn_app, skipn_app.
  replace (64 - length m1)%nat with O by lia.
  rewrite firstn_O, skipn_O, app_nil_r. f_equal. apply IH. rewrite length_skipn. lia.
Qed.

Lemma parse_blocks_firstn n m : parse_blocks n (firstn (64 * n) m) = parse_blocks n m.
Proof.
  revert m. induction n as [|n IH]; intros m; [reflexivity|].
  cbn [parse_blocks]. rewrite firstn_firstn, skipn_firstn_comm. f_equal.
  - f_equal. lia.
  - replace (64 * S n - 64)%nat with (64 * n)%nat by lia. apply IH.
Qed.

(** The integer cube root, for roots of at most [bits] bits. *)
Fixpoint cbrt_from (bits : nat) (acc n : Z) : Z :=
  match bits with
  | O => acc
  | S b =>
      let r := acc + 2 ^ Z.of_nat b in
      cbrt_from b (if r * r * r <=? n then r else acc) n
  end.

Definition bytes (l : list Z) : Prop := Forall is_u8 l.

(** Little-endian value of a byte list. *)
Fixpoint le_value (b : list Z) : Z :=
  match b with
  | [] => 0
  | x :: b' => x + 256 * le_value b'
  end.

(** The [n] low bytes of [x], least significant first. *)
Fixpoint le_bytes (n : nat) (x : Z) : list Z :=
  match n with
  | O => []
  | S n' => u8 x :: le_bytes n' (x / 256)
  end.

Definition ReadLE16 (b : list Z) : Z := le_value (firstn 2 b).
Definition ReadLE32 (b : list Z) : Z := le_value (firstn 4 b).
Definition ReadLE64 (b : list Z) : Z := le_value (firstn 8 b).
Definition WriteLE16 (x : Z) : list Z := le_bytes 2 x.
Definition WriteLE32 (x : Z) : list Z := le_bytes 4 x.
Definition WriteLE64 (x : Z) : list Z := le_bytes 8 x.
Definition ReadBE32 (b : list Z) : Z := le_value (rev (firstn 4 b)).
Definition WriteBE32 (x : Z) : list Z := rev (le_bytes 4 x).
Definition WriteBE64 (x : Z) : list Z := rev (le_bytes 8 x).

Lemma length_le_bytes n x : length (le_bytes n x) = n.
Proof. revert x. induction n; intros x; simpl; auto. Qed.

(** Big-endian value and bytes: the digits to base 256. *)
Definition be_value (b : list Z) : Z := fold_left (fun v x => 256 * v + x) b 0.

Fixpoint be_bytes (n : nat) (x : Z) : list Z :=
  match n with
  | O => []
  | S n' => (x / 256 ^ Z.of_nat n') mod 256 :: be_bytes n' x
  end.

Lemma be_value_rev b : be_value b = le_value (rev b).
Proof.
  unfold be_value. rewrite <- (rev_involutive b) at 1. rewrite <- fold_left_rev_right, rev_involutive.
  induction (rev b) as [|x l IH]; cbn [fold_right le_value]; [reflexivity|]. rewrite IH. lia.
Qed.

Lemma le_bytes_snoc n x : le_bytes (S n) x = le_bytes n x ++ [u8 (x / 256 ^ Z.of_nat n)].
Proof.
  revert x. induction n as [|n IH]; intros x; [cbn; now rewrite Z.div_1_r|].
  change (le_bytes (S (S n)) x) with (u8 x :: le_bytes (S n) (x / 256)).
  rewrite IH, Z.div_div by lia. cbn [le_bytes app]. do 5 f_equal.
  rewrite Nat2Z.inj_succ, Z.pow_succ_r by lia. reflexivity.
Qed.

(** Only the low bytes count. *)
Lemma le_bytes_mod n x : le_bytes n (x mod 256 ^ Z.of_nat n) = le_bytes n x.
Proof.
  revert x. induction n as [|n IH]; intros x; [reflexivity|]. cbn [le_bytes].
  assert (Hp : 0 < 256 ^ Z.of_nat n) by lia.
  rewrite Nat2Z.inj_succ, Z.pow_succ_r, (Z.mul_comm 256), Z.mul_comm by lia. f_equal.
  - unfold u8. rewrite Z.rem_mul_r, (Z.mul_comm 256), Z.mod_add, Z.mod_mod by lia. reflexivity.
  - rewrite Z.rem_mul_r, (Z.mul_comm 256), Z.div_add, (Z.div_small (x mod 256)), Z.add_0_l by (try apply Z.mod_pos_bound; lia).
    apply IH.
Qed.

Lemma be_bytes_rev n x : be_bytes n x = rev (le_bytes n x).
Proof. induction n as [|n IH]; [reflexivity|]. rewrite le_bytes_snoc, rev_app_distr, <- IH. reflexivity. Qed.

Lemma length_WriteBE64 x : length (WriteBE64 x) = 8%nat.
Proof. unfold WriteBE64. now rewrite length_rev, length_le_bytes. Qed.

Lemma bytes_le_bytes n x : bytes (le_bytes n x).
Proof.
  revert x. induction n as [|n IH]; intros x; constructor; [apply u8_range|apply IH].
Qed.

Lemma le_value_bytes n x : le_value (le_bytes n x) = x mod 256 ^ Z.of_nat n.
Proof.
  revert x. induction n as [|n IH]; intros x.
  - cbn. now rewrite Z.mod_1_r.
  - cbn [le_bytes le_value]. rewrite IH, Nat2Z.inj_succ, Z.pow_succ_r by lia.
    rewrite Z.rem_mul_r by (try apply Z.pow_pos_nonneg; try apply Z.pow_nonzero; lia). reflexivity.
Qed.

Lemma le_value_range b : bytes b -> 0 <= le_value b < 256 ^ Z.of_nat (length b).
Proof.
  induction 1 as [|x b Hx Hb IH]; [cbn; lia|].
  cbn [le_value length]. rewrite Nat2Z.inj_succ, Z.pow_succ_r by lia. unfold is_u8 in Hx. nia.
Qed.

Lemma le_bytes_value b : bytes b -> le_bytes (length b) (le_value b) = b.
Proof.
  induction 1 as [|x b Hx Hb IH]; [reflexivity|].
  cbn [length le_value le_bytes]. unfold u8, is_u8 in *. f_equal.
  - rewrite Z.mul_comm, Z.mod_add by lia. apply Z.mod_small. exact Hx.
  - rewrite Z.mul_comm, Z.div_add, Z.div_small by lia. exact IH.
Qed.

Lemma bytes_repeat x n : is_u8 x -> bytes (repeat x n).
Proof. intros Hx. apply Forall_forall. intros y Hy%repeat_spec. now subst. Qed.

(** [bytes] of a computed list, by evaluation. *)
Definition bytesb (l : list Z) : bool := forallb (fun x => (0 <=? x) && (x <? 256))%bool l.

Lemma bytes_check l : bytesb l = true -> bytes l.
Proof.
  intros H. apply Forall_forall. intros x Hx. unfold bytesb in H. rewrite forallb_forall in H.
  specialize (H x Hx). apply andb_prop in H as [H1 H2]. unfold is_u8. lia.
Qed.

(** Closes [bytes l] for a literal list, and for appended literals and repeats. *)
Ltac bytes_concrete :=
  unfold bytes; repeat (apply Forall_app; split);
  first [ apply bytes_repeat; unfold is_u8; lia
        | repeat (apply Forall_cons; [unfold is_u8; lia|]); apply Forall_nil ].

#[export] Hint Resolve bytes_le_bytes : hydra.
#[export] Hint Rewrite length_le_bytes le_value_bytes : bytes.
