(* ===== verification/Serialize.v ===== *)
(** * Serialization: [src/src/serialize.h], [CDataStream] of [src/src/streams.h]

    A stream being read is the list of its unread bytes; a [reader] consumes
    a prefix of it or fails, failing being the [std::ios_base::failure] the
    code throws.  [SerializationOp] of the source is one template for both
    directions; its counterpart is a [codec], a writer, a reader and the
    values the wire format can carry, and [READWRITE] of consecutive fields is
    [seq_codec] and [view_codec].  The class [Lawful] is what a codec promises
    to the formats built from it: reading succeeds exactly on the written form
    of a valid value, so every valid value is read back and no value has two
    encodings. *)
From Stdlib Require Import ZArith Lia List Bool.
From S2P Require Import Prelude.
Import ListNotations.

(** ** Readers *)

Definition reader (A : Type) : Type := list Z -> option (A * list Z).

Definition ret {A : Type} (x : A) : reader A := fun s => Some (x, s).

Definition failure {A : Type} : reader A := fun _ => None.

Definition bind {A B : Type} (m : reader A) (k : A -> reader B) : reader B :=
  fun s => match m s with Some (x, s') => k x s' | None => None end.

Notation "x <- m ;; k" := (bind m (fun x => k))
  (at level 62, m at next level, right associativity) : hydra_scope.
#[local] Open Scope hydra_scope.

(** [CDataStream::read] *)
Definition read (nSize : nat) : reader (list Z) :=
  fun s => if (length s <? nSize)%nat then None else Some (firstn nSize s, skipn nSize s).

(** ** Codecs *)

Record codec (A : Type) : Type := Codec {
  ser : A -> list Z;
  unser : reader A;
  ok : A -> Prop
}.
Arguments Codec {A} _ _ _.
Arguments ser {A} _ _.
Arguments unser {A} _ _.
Arguments ok {A} _ _.

(** Two fields, one after the other. *)
Definition seq_codec {A B : Type} (a : codec A) (b : codec B) : codec (A * B) :=
  Codec (fun p => ser a (fst p) ++ ser b (snd p))
        (x <- unser a ;; y <- unser b ;; ret (x, y))
        (fun p => ok a (fst p) /\ ok b (snd p)).

(** The fields [from x] of an object [x], which [to] rebuilds. *)
Definition view_codec {A B : Type} (to : A -> B) (from : B -> A) (a : codec A) : codec B :=
  Codec (fun y => ser a (from y))
        (x <- unser a ;; ret (to x))
        (fun y => ok a (from y) /\ to (from y) = y).

Infix "*>" := seq_codec (at level 55, right associativity) : hydra_scope.

(** ** Integers *)

(** [ser_writedata8] .. [ser_writedata64], [ser_readdata8] .. [ser_readdata64] *)
Definition ser_writedata (n : nat) (obj : Z) : list Z := le_bytes n obj.
Definition ser_readdata (n : nat) : reader Z := b <- read n ;; ret (le_value b).

Definition uint_codec (n : nat) : codec Z :=
  Codec (ser_writedata n) (ser_readdata n) (fun x => 0 <= x < 256 ^ Z.of_nat n).

Definition uint8_codec : codec Z := uint_codec 1.
Definition uint32_codec : codec Z := uint_codec 4.

(** [int32_t] and [int64_t] are converted to and from the unsigned type. *)
Definition int32_codec : codec Z :=
  Codec (fun x => ser_writedata 4 (u32 x)) (x <- ser_readdata 4 ;; ret (i32 x)) is_i32.
Definition int64_codec : codec Z :=
  Codec (fun x => ser_writedata 8 (u64 x)) (x <- ser_readdata 8 ;; ret (i64 x)) is_i64.

(** A fixed array of [n] bytes ([uint256], [uint160]). *)
Definition blob_codec (n : nat) : codec (list Z) :=
  Codec (fun b => b) (read n) (fun b => length b = n /\ bytes b).

Definition uint256_codec : codec (list Z) := blob_codec 32.

(** ** Compact sizes *)

Definition MAX_SIZE : Z := 268435456.

Definition GetSizeOfCompactSize (nSize : Z) : Z :=
  if nSize <? 253 then 1
  else if nSize <=? 65535 then 1 + 2
  else if nSize <=? 4294967295 then 1 + 4
  else 1 + 8.

Definition WriteCompactSize (nSize : Z) : list Z :=
  if nSize <? 253 then ser_writedata 1 nSize
  else if nSize <=? 65535 then ser_writedata 1 253 ++ ser_writedata 2 nSize
  else if nSize <=? 4294967295 then ser_writedata 1 254 ++ ser_writedata 4 nSize
  else ser_writedata 1 255 ++ ser_writedata 8 nSize.

Definition ReadCompactSize : reader Z :=
  chSize <- ser_readdata 1 ;;
  nSizeRet <-
    (if chSize <? 253 then ret chSize
     else if chSize =? 253 then
       n <- ser_readdata 2 ;; if n <? 253 then failure else ret n
     else if chSize =? 254 then
       n <- ser_readdata 4 ;; if n <? 65536 then failure else ret n
     else
       n <- ser_readdata 8 ;; if n <? 4294967296 then failure else ret n) ;;
  if MAX_SIZE <? nSizeRet then failure else ret nSizeRet.

Definition compact_size_codec : codec Z :=
  Codec WriteCompactSize ReadCompactSize (fun n => 0 <= n <= MAX_SIZE).

(** ** Variable-length integers

    [bits] is the width of the unsigned type; the mode [NONNEGATIVE_SIGNED]
    of an [int] is [bits = 31]. *)

Definition varint_max (bits : Z) : Z := 2 ^ bits - 1.

(** [while (true)] of [GetSizeOfVarInt]; [fuel] bounds the digits. *)
Fixpoint GetSizeOfVarInt (fuel : nat) (n : Z) : option Z :=
  match fuel with
  | O => None
  | S fuel' =>
      if n <=? 127 then Some 1
      else match GetSizeOfVarInt fuel' (Z.shiftr n 7 - 1) with
           | Some k => Some (k + 1)
           | None => None
           end
  end.

(** The loop of [WriteVarInt]: [tmp] is the part of the array filled so far,
    last entry first, [room] the entries left; [None] is a write past its end. *)
Fixpoint WriteVarInt_loop (room : nat) (tmp : list Z) (n : Z) : option (list Z) :=
  match room with
  | O => None
  | S room' =>
      let tmp := Z.lor (Z.land n 127) (if (length tmp =? 0)%nat then 0 else 128) :: tmp in
      if n <=? 127 then Some tmp
      else WriteVarInt_loop room' tmp (Z.shiftr n 7 - 1)
  end.

Definition WriteVarInt (size : Z) (n : Z) : option (list Z) :=
  WriteVarInt_loop (Z.to_nat ((size * 8 + 6) / 7)) [] n.

Fixpoint ReadVarInt_loop (max n : Z) (s : list Z) : option (Z * list Z) :=
  match s with
  | [] => None
  | chData :: s' =>
      if Z.shiftr max 7 <? n then None
      else
        let n := Z.lor (Z.shiftl n 7) (Z.land chData 127) in
        if Z.land chData 128 =? 0 then Some (n, s')
        else if n =? max then None
        else ReadVarInt_loop max (n + 1) s'
  end.

Definition ReadVarInt (max : Z) : reader Z := ReadVarInt_loop max 0.

Definition varint_codec (size max : Z) : codec Z :=
  Codec (fun n => match WriteVarInt size n with Some b => b | None => [] end)
        (ReadVarInt max)
        (fun n => 0 <= n <= max).

(** ** Vectors *)

(** The chunked read of a vector of bytes; [fuel] bounds the chunks. *)
Fixpoint read_chunks (fuel : nat) (n : Z) : reader (list Z) :=
  match fuel with
  | O => failure
  | S fuel' =>
      if n <=? 0 then ret []
      else
        let blk := Z.min n (1 + 4999999) in
        b <- read (Z.to_nat blk) ;;
        r <- read_chunks fuel' (n - blk) ;;
        ret (b ++ r)
  end.

#[global] Arguments read_chunks : simpl never.

(** [Serialize_impl] and [Unserialize_impl] of a vector of [unsigned char];
    54 chunks of five million bytes cover [MAX_SIZE]. *)
Definition vch_codec : codec (list Z) :=
  Codec (fun v => WriteCompactSize (Z.of_nat (length v)) ++ v)
        (nSize <- ReadCompactSize ;; read_chunks 55 nSize)
        (fun v => Z.of_nat (length v) <= MAX_SIZE /\ bytes v).

Fixpoint read_items {A : Type} (r : reader A) (n : nat) : reader (list A) :=
  match n with
  | O => ret []
  | S n' => x <- r ;; l <- read_items r n' ;; ret (x :: l)
  end.

(** [Serialize_impl] and [Unserialize_impl] of a vector of objects; its
    growth in steps of five million bytes concerns the allocation only. *)
Definition vector_codec {A : Type} (c : codec A) : codec (list A) :=
  Codec (fun v => WriteCompactSize (Z.of_nat (length v)) ++ flat_map (ser c) v)
        (nSize <- ReadCompactSize ;; read_items (unser c) (Z.to_nat nSize))
        (fun v => Z.of_nat (length v) <= MAX_SIZE /\ Forall (ok c) v).

(** ** The laws *)

Class Lawful {A : Type} (c : codec A) : Prop := {
  ser_bytes : forall x, ok c x -> bytes (ser c x);
  unser_iff : forall s x rest, bytes s ->
    (unser c s = Some (x, rest) <-> ok c x /\ s = ser c x ++ rest)
}.

Lemma bytes_app a b : bytes (a ++ b) <-> bytes a /\ bytes b.
Proof. apply Forall_app. Qed.

Lemma unser_ser {A : Type} (c : codec A) `{Lawful A c} x rest :
  ok c x -> bytes rest -> unser c (ser c x ++ rest) = Some (x, rest).
Proof.
  intros Hx Hr. apply unser_iff; [|now split].
  apply bytes_app. split; [now apply ser_bytes|exact Hr].
Qed.

Lemma bind_ser {A B : Type} (c : codec A) `{Lawful A c} (k : A -> reader B) x rest :
  ok c x -> bytes rest -> (y <- unser c ;; k y) (ser c x ++ rest) = k x rest.
Proof. intros Hx Hr. unfold bind. now rewrite unser_ser. Qed.

Lemma unser_inv {A : Type} (c : codec A) `{Lawful A c} s x rest :
  bytes s -> unser c s = Some (x, rest) -> ok c x /\ s = ser c x ++ rest /\ bytes rest.
Proof.
  intros Hs Hu. apply unser_iff in Hu as [Hx ->]; [|exact Hs].
  repeat split; auto. now apply bytes_app in Hs.
Qed.

Lemma bind_iff {A B : Type} (m : reader A) (k : A -> reader B) s y rest :
  (x <- m ;; k x) s = Some (y, rest) <->
  exists x s', m s = Some (x, s') /\ k x s' = Some (y, rest).
Proof.
  unfold bind. destruct (m s) as [[x s']|]; split; intros H; split_hyps; try congruence; eauto.
Qed.

Lemma read_iff n s b rest :
  read n s = Some (b, rest) <-> length b = n /\ s = b ++ rest.
Proof.
  unfold read. destruct (Nat.ltb_spec (length s) n) as [Hl|Hl]; split.
  - discriminate.
  - intros [Hb ->]. rewrite length_app in Hl. lia.
  - intros [= <- <-]. rewrite length_firstn, firstn_skipn. split; [lia|reflexivity].
  - intros [Hb ->]. now rewrite firstn_app_exact, skipn_app_exact.
Qed.

(** From a reader that inverts its writer both ways, the laws of the codec. *)
Lemma lawful_intro {A : Type} (c : codec A) :
  (forall x, ok c x -> bytes (ser c x)) ->
  (forall x rest, ok c x -> bytes rest -> unser c (ser c x ++ rest) = Some (x, rest)) ->
  (forall s x rest, bytes s -> unser c s = Some (x, rest) -> ok c x /\ s = ser c x ++ rest) ->
  Lawful c.
Proof.
  intros Hb Hs Hu. split; [exact Hb|]. intros s x rest Hbs. split; [now apply Hu|].
  intros [Hx ->]. apply bytes_app in Hbs as [_ Hr]. now apply Hs.
Qed.

#[export] Instance seq_lawful {A B : Type} (a : codec A) (b : codec B) :
  Lawful a -> Lawful b -> Lawful (a *> b).
Proof.
  intros Ha Hb. apply lawful_intro.
  - intros [x y] [Hx Hy]. apply bytes_app. split; now apply ser_bytes.
  - intros [x y] rest [Hx Hy] Hr. cbn. rewrite <- app_assoc. unfold bind.
    rewrite unser_ser, unser_ser; auto. apply bytes_app. split; [now apply ser_bytes|exact Hr].
  - intros s [x y] rest Hs H. cbn in H. apply bind_iff in H as (x' & s1 & H1 & H).
    apply bind_iff in H as (y' & s2 & H2 & [= -> -> ->]).
    apply unser_inv in H1 as (Hx & -> & Hs1); auto.
    apply unser_inv in H2 as (Hy & -> & Hs2); auto.
    cbn. rewrite <- app_assoc. auto.
Qed.

(** A view is lawful when [to] and [from] are inverse on what is read. *)
Lemma view_lawful {A B : Type} (to : A -> B) (from : B -> A) (a : codec A) :
  (forall x, ok a x -> from (to x) = x) -> Lawful a -> Lawful (view_codec to from a).
Proof.
  intros Hft Ha. apply lawful_intro.
  - intros y [Hy _]. now apply (ser_bytes (c := a)).
  - intros y rest [Hy Ey] Hr. cbn. unfold bind. rewrite unser_ser by auto.
    unfold ret. now rewrite Ey.
  - intros s y rest Hs H. cbn in H. apply bind_iff in H as (x & s1 & H1 & [= <- ->]).
    apply unser_inv in H1 as (Hx & -> & Hs1); auto. cbn. rewrite (Hft x Hx). auto.
Qed.

#[export] Instance blob_lawful n : Lawful (blob_codec n).
Proof.
  apply lawful_intro; cbn.
  - now intros x [_ Hx].
  - intros x rest [Hl Hx] Hr. now apply read_iff.
  - intros s x rest Hs [Hl ->]%read_iff. apply bytes_app in Hs as [Hx _]. auto.
Qed.

#[export] Instance uint_lawful n : Lawful (uint_codec n).
Proof.
  apply lawful_intro; cbn; unfold ser_writedata, ser_readdata.
  - intros x _. apply bytes_le_bytes.
  - intros x rest Hx Hr. unfold bind.
    replace (read n (le_bytes n x ++ rest)) with (Some (le_bytes n x, rest)).
    + unfold ret. now rewrite le_value_bytes, Z.mod_small.
    + symmetry. apply read_iff. now rewrite length_le_bytes.
  - intros s x rest Hs H. apply bind_iff in H as (b & s1 & H1 & [= <- ->]).
    apply read_iff in H1 as [Hl ->]. apply bytes_app in Hs as [Hb _].
    subst n. rewrite le_bytes_value by exact Hb. split; [now apply le_value_range|reflexivity].
Qed.

(** The signed types: any [to], [from] inverse on the ranges. *)
Lemma sint_lawful n (P : Z -> Prop) (to from : Z -> Z) :
  (forall x, P x -> 0 <= from x < 256 ^ Z.of_nat n /\ to (from x) = x) ->
  (forall y, 0 <= y < 256 ^ Z.of_nat n -> P (to y) /\ from (to y) = y) ->
  Lawful (Codec (fun x => ser_writedata n (from x)) (y <- ser_readdata n ;; ret (to y)) P).
Proof.
  intros H1 H2. pose proof (uint_lawful n) as Hu. apply lawful_intro; cbn.
  - intros x _. apply bytes_le_bytes.
  - intros x rest Hx Hr. destruct (H1 x Hx) as [Hf Ht]. unfold bind.
    pose proof (unser_ser (uint_codec n) (from x) rest Hf Hr) as E. cbn in E. rewrite E.
    unfold ret. now rewrite Ht.
  - intros s x rest Hs H. apply bind_iff in H as (y & s1 & Hy & [= <- ->]).
    apply (unser_inv (uint_codec n)) in Hy as (Hy & -> & _); auto.
    destruct (H2 y Hy) as [Hp Hf]. rewrite Hf. auto.
Qed.

Lemma signed_wrap w x :
  0 < w -> - 2 ^ (w - 1) <= x < 2 ^ (w - 1) ->
  0 <= x mod 2 ^ w < 2 ^ w /\ signed w (x mod 2 ^ w) = x.
Proof.
  intros Hw Hx. split; [apply Z.mod_pos_bound; lia|].
  unfold signed. rewrite Z.mod_mod by lia. now apply signed_small in Hx.
Qed.

Lemma wrap_signed w y :
  0 < w -> 0 <= y < 2 ^ w ->
  - 2 ^ (w - 1) <= signed w y < 2 ^ (w - 1) /\ signed w y mod 2 ^ w = y.
Proof.
  intros Hw Hy. unfold signed. rewrite (Z.mod_small y) by lia.
  assert (E : 2 ^ w = 2 * 2 ^ (w - 1)) by (rewrite <- Z.pow_succ_r by lia; f_equal; lia).
  destruct (Z.ltb_spec y (2 ^ (w - 1))).
  - split; [lia|]. now apply Z.mod_small.
  - split; [lia|]. symmetry. apply Z.mod_unique with (-1); lia.
Qed.

#[export] Instance int32_lawful : Lawful int32_codec.
Proof.
  apply (sint_lawful 4 is_i32 i32 u32).
  - intros x Hx. apply (signed_wrap 32); [lia|exact Hx].
  - intros y Hy. apply (wrap_signed 32); [lia|exact Hy].
Qed.

#[export] Instance int64_lawful : Lawful int64_codec.
Proof.
  apply (sint_lawful 8 is_i64 i64 u64).
  - intros x Hx. apply (signed_wrap 64); [lia|exact Hx].
  - intros y Hy. apply (wrap_signed 64); [lia|exact Hy].
Qed.

(** *** Compact sizes *)

Lemma readdata_iff n s x rest :
  bytes s ->
  ser_readdata n s = Some (x, rest) <->
  0 <= x < 256 ^ Z.of_nat n /\ s = ser_writedata n x ++ rest.
Proof. apply (unser_iff (c := uint_codec n)). Qed.

Lemma readdata_write n x rest :
  0 <= x < 256 ^ Z.of_nat n -> bytes rest ->
  ser_readdata n (ser_writedata n x ++ rest) = Some (x, rest).
Proof. apply (unser_ser (uint_codec n)). Qed.

Lemma bytes_writedata n x : bytes (ser_writedata n x).
Proof. apply bytes_le_bytes. Qed.

#[export] Hint Resolve bytes_writedata : hydra.

Lemma bytes_WriteCompactSize n : bytes (WriteCompactSize n).
Proof.
  unfold WriteCompactSize. bcase; rewrite ?bytes_app; auto with hydra.
Qed.

Lemma ReadCompactSize_write n rest :
  0 <= n <= MAX_SIZE -> bytes rest ->
  ReadCompactSize (WriteCompactSize n ++ rest) = Some (n, rest).
Proof.
  unfold ReadCompactSize, WriteCompactSize, bind, MAX_SIZE. intros Hn Hr.
  assert (B : forall k x, bytes (ser_writedata k x ++ rest)) by (intros; apply bytes_app; auto with hydra).
  destruct (Z.ltb_spec n 253); [|destruct (Z.leb_spec n 65535); [|destruct (Z.leb_spec n 4294967295)]];
    rewrite <- ?app_assoc; try (rewrite readdata_write by (auto; cbn; lia); cbn [Z.ltb Z.eqb Z.compare Pos.compare Pos.compare_cont Pos.eqb]).
  - destruct (Z.ltb_spec n 253); [|lia]. cbn. destruct (Z.ltb_spec 268435456 n); [lia|reflexivity].
  - rewrite readdata_write by (auto; cbn; lia).
    destruct (Z.ltb_spec n 253); [lia|]. cbn. destruct (Z.ltb_spec 268435456 n); [lia|reflexivity].
  - rewrite readdata_write by (auto; cbn; lia).
    destruct (Z.ltb_spec n 65536); [lia|]. cbn. destruct (Z.ltb_spec 268435456 n); [lia|reflexivity].
  - lia.
Qed.

Lemma ReadCompactSize_inv s n rest :
  bytes s -> ReadCompactSize s = Some (n, rest) ->
  0 <= n <= MAX_SIZE /\ s = WriteCompactSize n ++ rest.
Proof.
  intros Hs H. unfold ReadCompactSize in H.
  apply bind_iff in H as (ch & s1 & H1 & H). apply bind_iff in H as (n' & s2 & H2 & H).
  apply readdata_iff in H1 as [Hch ->]; [|exact Hs]. apply bytes_app in Hs as [_ Hs].
  destruct (Z.ltb_spec MAX_SIZE n') as [|Hm]; [discriminate|]. injection H as -> ->.
  unfold WriteCompactSize, MAX_SIZE in *. cbn in Hch.
  assert (L : forall k lo, (x <- ser_readdata k ;; (if x <? lo then failure else ret x)) s1 = Some (n, rest) ->
    lo <= n < 256 ^ Z.of_nat k /\ 0 <= n /\ s1 = ser_writedata k n ++ rest).
  { intros k lo E. apply bind_iff in E as (x & s3 & E1 & E).
    apply readdata_iff in E1 as [Hx ->]; [|exact Hs].
    destruct (Z.ltb_spec x lo); [discriminate|]. injection E as -> ->. repeat split; lia. }
  destruct (Z.ltb_spec ch 253); [|destruct (Z.eqb_spec ch 253); [|destruct (Z.eqb_spec ch 254)]].
  - injection H2 as -> ->. destruct (Z.ltb_spec n 253); [|lia]. split; [lia|reflexivity].
  - apply L in H2 as (H2 & ? & ->). cbn in H2. subst ch.
    destruct (Z.ltb_spec n 253); [lia|]. destruct (Z.leb_spec n 65535); [|lia].
    rewrite app_assoc. split; [lia|reflexivity].
  - apply L in H2 as (H2 & ? & ->). cbn in H2. subst ch.
    destruct (Z.ltb_spec n 253); [lia|]. destruct (Z.leb_spec n 65535); [lia|].
    destruct (Z.leb_spec n 4294967295); [|lia]. rewrite app_assoc. split; [lia|reflexivity].
  - apply L in H2 as (H2 & _). lia.
Qed.

#[export] Instance compact_size_lawful : Lawful compact_size_codec.
Proof.
  apply lawful_intro.
  - intros n _. apply bytes_WriteCompactSize.
  - intros n rest. apply ReadCompactSize_write.
  - intros s n rest. apply ReadCompactSize_inv.
Qed.

(** The size computed without writing is the size written. *)
Lemma GetSizeOfCompactSize_spec n :
  GetSizeOfCompactSize n = Z.of_nat (length (WriteCompactSize n)).
Proof.
  unfold GetSizeOfCompactSize, WriteCompactSize, ser_writedata.
  bcase; rewrite ?length_app, ?length_le_bytes; reflexivity.
Qed.

(** *** Vectors *)

Lemma read_chunks_read fuel n s :
  n <= 5000000 * (Z.of_nat fuel - 1) -> (0 < fuel)%nat ->
  read_chunks fuel n s = read (Z.to_nat n) s.
Proof.
  revert n s. induction fuel as [|fuel IH]; intros n s Hn Hf; [lia|].
  unfold read_chunks; fold read_chunks. destruct (Z.leb_spec n 0).
  - replace (Z.to_nat n) with O by lia. unfold read. cbn. reflexivity.
  - set (blk := Z.min n (1 + 4999999)). assert (0 < blk <= n) by lia.
    unfold bind, read.
    destruct (Nat.ltb_spec (length s) (Z.to_nat blk)).
    + destruct (Nat.ltb_spec (length s) (Z.to_nat n)); [reflexivity|lia].
    + rewrite IH by lia. unfold read, ret. rewrite length_skipn.
      destruct (Nat.ltb_spec (length s) (Z.to_nat n)).
      * destruct (Nat.ltb_spec (length s - Z.to_nat blk) (Z.to_nat (n - blk))); [reflexivity|lia].
      * destruct (Nat.ltb_spec (length s - Z.to_nat blk) (Z.to_nat (n - blk))); [lia|].
        replace (Z.to_nat n) with (Z.to_nat blk + Z.to_nat (n - blk))%nat by lia.
        rewrite <- firstn_add_skipn, skipn_skipn. do 2 f_equal. f_equal. lia.
Qed.

#[export] Instance vch_lawful : Lawful vch_codec.
Proof.
  assert (C : forall n s, 0 <= n <= MAX_SIZE -> read_chunks 55 n s = read (Z.to_nat n) s)
    by (unfold MAX_SIZE; intros; apply read_chunks_read; lia).
  apply lawful_intro; cbn [ser unser ok vch_codec].
  - intros v [_ Hv]. apply bytes_app. split; [apply bytes_WriteCompactSize|exact Hv].
  - intros v rest [Hl Hv] Hr. unfold bind. rewrite <- app_assoc.
    rewrite ReadCompactSize_write; [|lia|now apply bytes_app].
    rewrite C by lia. apply read_iff. split; [lia|reflexivity].
  - intros s v rest Hs H. apply bind_iff in H as (n & s1 & H1 & H).
    apply ReadCompactSize_inv in H1 as [Hn ->]; [|exact Hs].
    rewrite C in H by lia. apply read_iff in H as [Hl ->].
    apply bytes_app in Hs as [_ Hs]. apply bytes_app in Hs as [Hv _].
    replace (Z.of_nat (length v)) with n by lia. rewrite app_assoc. repeat split; auto. lia.
Qed.

Section Items.
Context {A : Type} (c : codec A) `{Lawful A c}.

Lemma bytes_items l : Forall (ok c) l -> bytes (flat_map (ser c) l).
Proof.
  induction 1; cbn; [constructor|]. apply bytes_app. split; [now apply ser_bytes|assumption].
Qed.

Lemma read_items_ser l rest :
  Forall (ok c) l -> bytes rest ->
  read_items (unser c) (length l) (flat_map (ser c) l ++ rest) = Some (l, rest).
Proof.
  intros Hl Hr. induction Hl as [|x l Hx Hl IH]; [reflexivity|].
  cbn. rewrite <- app_assoc. unfold bind. rewrite unser_ser; auto.
  - now rewrite IH.
  - apply bytes_app. split; [now apply bytes_items|exact Hr].
Qed.

Lemma read_items_inv n s l rest :
  bytes s -> read_items (unser c) n s = Some (l, rest) ->
  length l = n /\ Forall (ok c) l /\ s = flat_map (ser c) l ++ rest.
Proof.
  revert s l. induction n as [|n IH]; intros s l Hs E.
  - injection E as <- <-. auto.
  - apply bind_iff in E as (x & s1 & Hx & E). apply bind_iff in E as (l' & s2 & Hl & [= <- ->]).
    apply unser_inv in Hx as (Hx & -> & Hs1); auto.
    apply IH in Hl as (<- & Hl & ->); auto. cbn. rewrite <- app_assoc. auto.
Qed.

#[export] Instance vector_lawful : Lawful (vector_codec c).
Proof.
  apply lawful_intro; cbn.
  - intros v [_ Hv]. apply bytes_app. split; [apply bytes_WriteCompactSize|now apply bytes_items].
  - intros v rest [Hl Hv] Hr. unfold bind. rewrite <- app_assoc.
    rewrite ReadCompactSize_write; [|lia|apply bytes_app; split; auto using bytes_items].
    rewrite Nat2Z.id. now apply read_items_ser.
  - intros s v rest Hs E. apply bind_iff in E as (n & s1 & H1 & E).
    apply ReadCompactSize_inv in H1 as [Hn ->]; [|exact Hs].
    apply bytes_app in Hs as [_ Hs]. apply read_items_inv in E as (Hl & Hv & ->); [|exact Hs].
    replace (Z.of_nat (length v)) with n by lia. rewrite app_assoc. repeat split; auto. lia.
Qed.
End Items.

(** *** Variable-length integers

    The encoding the comment of the source describes: [prefix_digits n l]
    holds when [l] is [n] written with the continuation bit on every digit. *)

Inductive prefix_digits : Z -> list Z -> Prop :=
| prefix_one n : 0 <= n <= 127 -> prefix_digits n [n + 128]
| prefix_more n l : 127 < n -> prefix_digits (n / 128 - 1) l ->
    prefix_digits n (l ++ [n mod 128 + 128]).

Definition varint_digits (n : Z) (l : list Z) : Prop :=
  (0 <= n <= 127 /\ l = [n]) \/
  (127 < n /\ exists p, prefix_digits (n / 128 - 1) p /\ l = p ++ [n mod 128]).

(** What the reader has consumed when it holds [a]. *)
Definition consumed (a : Z) (p : list Z) : Prop :=
  (a = 0 /\ p = []) \/ (0 < a /\ prefix_digits (a - 1) p).

Lemma prefix_digits_fun n l1 l2 : prefix_digits n l1 -> prefix_digits n l2 -> l1 = l2.
Proof.
  intros H1. revert l2. induction H1 as [n Hn|n l1 Hn H1 IH]; intros l2 H2;
    inversion H2; subst; try lia; auto. f_equal. auto.
Qed.

Lemma varint_digits_fun n l1 l2 : varint_digits n l1 -> varint_digits n l2 -> l1 = l2.
Proof.
  intros [[H1 ->]|(H1 & p1 & P1 & ->)] [[H2 ->]|(H2 & p2 & P2 & ->)]; try lia; auto.
  f_equal. eapply prefix_digits_fun; eauto.
Qed.

Lemma land127 n : Z.land n 127 = n mod 128.
Proof. change 127 with (Z.ones 7). now rewrite Z.land_ones. Qed.

(** Seven low bits beside a multiple of 128. *)
Lemma lor_mul128 n d : 0 <= d < 128 -> Z.lor (n * 128) d = n * 128 + d.
Proof.
  intros Hd. apply lor_add_disjoint. change 128 with (2 ^ 7). apply Z.bits_inj'. intros i Hi.
  rewrite Z.land_spec, Z.bits_0, Z.mul_pow2_bits by lia. destruct (Z.lt_ge_cases i 7).
  - now rewrite Z.testbit_neg_r by lia.
  - rewrite (testbit_small d 7) by lia. apply andb_false_r.
Qed.

Lemma land127_cont n : Z.lor (Z.land n 127) 128 = n mod 128 + 128.
Proof.
  rewrite land127, Z.lor_comm. change 128 with (1 * 128) at 1.
  rewrite lor_mul128 by (apply Z.mod_pos_bound; lia). lia.
Qed.

Lemma pow_room room : 2 ^ (7 * Z.of_nat (S room)) = 128 * 2 ^ (7 * Z.of_nat room).
Proof. change 128 with (2 ^ 7). rewrite <- Z.pow_add_r by lia. f_equal. lia. Qed.

Lemma next_digit_range n B : 127 < n < 128 * B -> 0 <= n / 128 - 1 < B.
Proof.
  intros H. pose proof (Z_div_mod_eq_full n 128). pose proof (Z.mod_pos_bound n 128). nia.
Qed.

Lemma WriteVarInt_loop_prefix room tmp n :
  tmp <> [] -> (0 < room)%nat -> 0 <= n < 2 ^ (7 * Z.of_nat room) ->
  exists l, prefix_digits n l /\ WriteVarInt_loop room tmp n = Some (l ++ tmp).
Proof.
  revert tmp n. induction room as [|room IH]; intros tmp n Ht Hr Hn; [lia|].
  cbn [WriteVarInt_loop]. destruct (Nat.eqb_spec (length tmp) 0) as [E|E];
    [now destruct tmp|clear E].
  rewrite land127_cont, Z.shiftr_div_pow2 by lia. change (2 ^ 7) with 128.
  rewrite pow_room in Hn. destruct (Z.leb_spec n 127).
  - exists [n + 128]. rewrite Z.mod_small by lia. split; [now constructor|reflexivity].
  - destruct (IH ((n mod 128 + 128) :: tmp) (n / 128 - 1)) as (l & Hl & ->);
      [discriminate|destruct room; [cbn in *|]; lia|apply next_digit_range; lia|].
    exists (l ++ [n mod 128 + 128]). rewrite <- app_assoc. split; [now constructor|reflexivity].
Qed.

(** The array [tmp] is large enough for every value of the type. *)
Lemma WriteVarInt_digits size n :
  0 < size -> 0 <= n < 2 ^ (8 * size) ->
  exists l, varint_digits n l /\ WriteVarInt size n = Some l.
Proof.
  intros Hs Hn. unfold WriteVarInt. set (room := Z.to_nat ((size * 8 + 6) / 7)).
  assert (Hr : 8 * size <= 7 * Z.of_nat room).
  { subst room. pose proof (Z.div_pos (size * 8 + 6) 7).
    pose proof (Z_div_mod_eq_full (size * 8 + 6) 7). pose proof (Z.mod_pos_bound (size * 8 + 6) 7). lia. }
  assert (Hn' : 0 <= n < 2 ^ (7 * Z.of_nat room))
    by (pose proof (Z.pow_le_mono_r 2 (8 * size) (7 * Z.of_nat room)); lia).
  clearbody room. destruct room as [|room]; [lia|]. cbn [WriteVarInt_loop length Nat.eqb].
  rewrite Z.lor_0_r, land127, Z.shiftr_div_pow2 by lia. change (2 ^ 7) with 128.
  rewrite pow_room in Hn'. destruct (Z.leb_spec n 127).
  - exists [n]. rewrite Z.mod_small by lia. split; [left; split; [lia|reflexivity]|reflexivity].
  - destruct (WriteVarInt_loop_prefix room [n mod 128] (n / 128 - 1)) as (l & Hl & ->);
      [discriminate|destruct room; [cbn in *|]; lia|apply next_digit_range; lia|].
    exists (l ++ [n mod 128]). split; [right; eauto|reflexivity].
Qed.

Lemma land128 ch : is_u8 ch -> Z.land ch 128 = if ch <? 128 then 0 else 128.
Proof.
  intros Hc. assert (A : forall k, (k < 256)%nat ->
    Z.land (Z.of_nat k) 128 = if Z.of_nat k <? 128 then 0 else 128).
  { intros k Hk. do 256 (destruct k as [|k]; [reflexivity|]). lia. }
  unfold is_u8 in Hc. rewrite <- (Z2Nat.id ch) by lia. apply A. lia.
Qed.

(** One digit read. *)
Lemma ReadVarInt_loop_cons max n ch s :
  0 <= n -> is_u8 ch ->
  ReadVarInt_loop max n (ch :: s) =
  if max / 128 <? n then None
  else if ch <? 128 then Some (n * 128 + ch, s)
  else if n * 128 + (ch - 128) =? max then None
  else ReadVarInt_loop max (n * 128 + (ch - 128) + 1) s.
Proof.
  intros Hn Hc. cbn [ReadVarInt_loop]. rewrite land128 by exact Hc. unfold is_u8 in Hc.
  rewrite Z.shiftr_div_pow2, Z.shiftl_mul_pow2, land127 by lia. change (2 ^ 7) with 128.
  rewrite lor_mul128 by (apply Z.mod_pos_bound; lia).
  destruct (max / 128 <? n); [reflexivity|]. destruct (Z.ltb_spec ch 128); cbn [Z.eqb].
  - now rewrite Z.mod_small by lia.
  - replace (ch mod 128) with (ch - 128); [reflexivity|]. apply Z.mod_unique with 1; lia.
Qed.

Lemma ReadVarInt_loop_prefix max n l r :
  prefix_digits n l -> n < max ->
  0 <= n /\ ReadVarInt_loop max 0 (l ++ r) = ReadVarInt_loop max (n + 1) r.
Proof.
  intros H. revert r. induction H as [n Hn|n l Hn H IH]; intros r Hm.
  - split; [lia|]. cbn [app]. rewrite ReadVarInt_loop_cons by (unfold is_u8; lia).
    pose proof (Z.div_pos max 128).
    destruct (Z.ltb_spec (max / 128) 0); [lia|]. destruct (Z.ltb_spec (n + 128) 128); [lia|].
    replace (0 * 128 + (n + 128 - 128)) with n by lia.
    destruct (Z.eqb_spec n max); [lia|reflexivity].
  - pose proof (Z_div_mod_eq_full n 128). pose proof (Z.mod_pos_bound n 128).
    pose proof (Z.div_le_mono n max 128).
    destruct (IH ([n mod 128 + 128] ++ r)) as [_ E]; [lia|]. split; [lia|].
    rewrite <- app_assoc, E. cbn [app]. rewrite ReadVarInt_loop_cons by (unfold is_u8; lia).
    destruct (Z.ltb_spec (max / 128) (n / 128 - 1 + 1)); [lia|].
    destruct (Z.ltb_spec (n mod 128 + 128) 128); [lia|].
    replace ((n / 128 - 1 + 1) * 128 + (n mod 128 + 128 - 128)) with n by lia.
    destruct (Z.eqb_spec n max); [lia|reflexivity].
Qed.

Lemma ReadVarInt_digits max n l r :
  varint_digits n l -> n <= max -> ReadVarInt max (l ++ r) = Some (n, r).
Proof.
  unfold ReadVarInt. intros [[Hn ->]|(Hn & p & Hp & ->)] Hm.
  - cbn [app]. rewrite ReadVarInt_loop_cons by (unfold is_u8; lia). pose proof (Z.div_pos max 128).
    destruct (Z.ltb_spec (max / 128) 0); [lia|]. destruct (Z.ltb_spec n 128); [reflexivity|lia].
  - pose proof (Z_div_mod_eq_full n 128). pose proof (Z.mod_pos_bound n 128).
    pose proof (Z.div_le_mono n max 128).
    rewrite <- app_assoc. destruct (ReadVarInt_loop_prefix max _ _ ([n mod 128] ++ r) Hp) as [_ ->]; [lia|].
    cbn [app]. rewrite ReadVarInt_loop_cons by (unfold is_u8; lia).
    destruct (Z.ltb_spec (max / 128) (n / 128 - 1 + 1)); [lia|].
    destruct (Z.ltb_spec (n mod 128) 128); [|lia]. do 2 f_equal. lia.
Qed.

Lemma mul_add_div128 a d : 0 <= d < 128 -> (a * 128 + d) / 128 = a /\ (a * 128 + d) mod 128 = d.
Proof.
  intros Hd. rewrite Z.add_comm, Z.div_add, Z.mod_add, Z.div_small, Z.mod_small by lia. lia.
Qed.

Lemma ReadVarInt_loop_inv max a p s n rest :
  max mod 128 = 127 ->
  consumed a p -> bytes s -> ReadVarInt_loop max a s = Some (n, rest) ->
  exists d, s = d ++ rest /\ varint_digits n (p ++ d) /\ 0 <= n <= max.
Proof.
  intros Hmax. revert a p. induction s as [|ch s IH]; intros a p Ha Hs E; [discriminate|].
  inversion Hs as [|? ? Hc Hs']; subst. assert (H0 : 0 <= a) by (destruct Ha; lia).
  rewrite ReadVarInt_loop_cons in E by auto. unfold is_u8 in Hc.
  destruct (Z.ltb_spec (max / 128) a); [discriminate|].
  pose proof (Z_div_mod_eq_full max 128).
  destruct (Z.ltb_spec ch 128).
  - injection E as <- ->. exists [ch]. repeat split; try lia.
    destruct Ha as [[-> ->]|[Ha Hp]]; [left; split; [lia|reflexivity]|].
    right. destruct (mul_add_div128 a ch) as [-> ->]; [lia|]. split; [lia|eauto].
  - destruct (Z.eqb_spec (a * 128 + (ch - 128)) max); [discriminate|].
    apply (IH _ (p ++ [ch])) in E as (d & -> & Hd & Hn); [|right|exact Hs'].
    + exists (ch :: d). rewrite <- app_assoc in Hd. auto.
    + split; [lia|]. rewrite Z.add_simpl_r.
      destruct Ha as [[-> ->]|[Ha Hp]].
      * replace [ch] with [ch - 128 + 128] by (f_equal; lia). constructor. lia.
      * destruct (mul_add_div128 a (ch - 128)) as [Ed Em]; [lia|].
        replace [ch] with [(a * 128 + (ch - 128)) mod 128 + 128] by (f_equal; lia).
        constructor; [lia|]. now rewrite Ed.
Qed.

Lemma bytes_prefix_digits n l : prefix_digits n l -> bytes l.
Proof.
  induction 1; [repeat constructor; unfold is_u8; lia|].
  apply bytes_app. split; [assumption|]. pose proof (Z.mod_pos_bound n 128).
  repeat constructor; unfold is_u8; lia.
Qed.

Lemma bytes_varint_digits n l : varint_digits n l -> bytes l.
Proof.
  intros [[Hn ->]|(Hn & p & Hp & ->)]; [repeat constructor; unfold is_u8; lia|].
  apply bytes_app. split; [eapply bytes_prefix_digits; eauto|].
  pose proof (Z.mod_pos_bound n 128). repeat constructor; unfold is_u8; lia.
Qed.

Lemma varint_lawful size max :
  0 < size -> max < 2 ^ (8 * size) -> max mod 128 = 127 -> Lawful (varint_codec size max).
Proof.
  intros Hs Hm H127.
  assert (W : forall n, 0 <= n <= max ->
    exists l, varint_digits n l /\ ser (varint_codec size max) n = l).
  { intros n Hn. destruct (WriteVarInt_digits size n) as (l & Hl & E); [lia|lia|].
    exists l. cbn. now rewrite E. }
  apply lawful_intro.
  - intros n Hn. destruct (W n Hn) as (l & Hl & ->). eapply bytes_varint_digits; eauto.
  - intros n rest Hn _. destruct (W n Hn) as (l & Hl & ->). cbn in Hn. apply ReadVarInt_digits; [assumption|lia].
  - intros s n rest Hb E. apply (ReadVarInt_loop_inv max 0 []) in E as (d & -> & Hd & Hn); auto.
    + split; [exact Hn|]. destruct (W n Hn) as (l & Hl & ->). f_equal. eapply varint_digits_fun; eauto.
    + now left.
Qed.

(** The two unsigned widths the code uses, and a non-negative [int]. *)
#[export] Instance varint32_lawful : Lawful (varint_codec 4 4294967295).
Proof. now apply varint_lawful. Qed.

#[export] Instance varint64_lawful : Lawful (varint_codec 8 18446744073709551615).
Proof. now apply varint_lawful. Qed.

#[export] Instance varint_int_lawful : Lawful (varint_codec 4 2147483647).
Proof. now apply varint_lawful. Qed.

(** The size computed without writing is the size written. *)
Lemma GetSizeOfVarInt_spec room tmp n :
  match WriteVarInt_loop room tmp n with
  | Some l => GetSizeOfVarInt room n = Some (Z.of_nat (length l) - Z.of_nat (length tmp))
  | None => GetSizeOfVarInt room n = None
  end.
Proof.
  revert tmp n. induction room as [|room IH]; intros tmp n; [reflexivity|].
  cbn [WriteVarInt_loop GetSizeOfVarInt]. destruct (n <=? 127).
  - f_equal. cbn [length]. lia.
  - match goal with |- context [WriteVarInt_loop room ?t ?m] => specialize (IH t m) end.
    destruct (WriteVarInt_loop room _ _) as [l|]; rewrite IH; [|reflexivity].
    f_equal. cbn [length]. lia.
Qed.
