(* ===== verification/ArithUint256.v ===== *)
(** * 256-bit arithmetic: [src/src/arith_uint256.h], [src/src/arith_uint256.cpp]

    [base_uint<BITS>] is an array [pn] of 32-bit words, least significant
    first; here a [list Z].  Every operation is translated word by word, with
    its carries and shifts, and is then proved to compute on [val pn], the
    integer that the words denote.  [SetCompact] and [GetCompact] are the
    floating-point like format in which blocks carry their target. *)
From Stdlib Require Import ZArith Lia List Bool.
From S2P Require Import Prelude.
Import ListNotations.

(** [BITS / 32] for [arith_uint256]. *)
Definition WIDTH : nat := 8.

(** The value of an array of words. *)
Fixpoint val (pn : list Z) : Z :=
  match pn with
  | [] => 0
  | w :: pn' => w + two32 * val pn'
  end.

Definition words (pn : list Z) : Prop := Forall is_u32 pn.

(** Number of values that [n] words can hold. *)
Definition modulus (n : nat) : Z := two32 ^ Z.of_nat n.

(** The type invariant of [arith_uint256]. *)
Definition wf256 (pn : list Z) : Prop := length pn = WIDTH /\ words pn.

Module BaseUint.

Definition zero (width : nat) : list Z := repeat 0 width.

(** [base_uint(uint64_t b)] and [operator=(uint64_t b)]. *)
Definition of_u64 (width : nat) (b : Z) : list Z :=
  u32 b :: u32 (Z.shiftr b 32) :: repeat 0 (width - 2).

Definition op_not (pn : list Z) : list Z :=
  map (fun w => Z.lxor w 4294967295) pn.

(** [operator++]: carry on while the word wraps to zero. *)
Fixpoint op_incr (pn : list Z) : list Z :=
  match pn with
  | [] => []
  | w :: pn' =>
      let w' := u32 (w + 1) in
      if w' =? 0 then w' :: op_incr pn' else w' :: pn'
  end.

(** [operator--]: borrow while the word wraps to the maximum. *)
Fixpoint op_decr (pn : list Z) : list Z :=
  match pn with
  | [] => []
  | w :: pn' =>
      let w' := u32 (w - 1) in
      if w' =? 4294967295 then w' :: op_decr pn' else w' :: pn'
  end.

Definition op_neg (pn : list Z) : list Z := op_incr (op_not pn).

Fixpoint map2 (f : Z -> Z -> Z) (a b : list Z) : list Z :=
  match a, b with
  | x :: a', y :: b' => f x y :: map2 f a' b'
  | _, _ => []
  end.

Definition op_xor : list Z -> list Z -> list Z := map2 Z.lxor.
Definition op_and : list Z -> list Z -> list Z := map2 Z.land.
Definition op_or : list Z -> list Z -> list Z := map2 Z.lor.

(** [operator+=]: [uint64_t n = carry + pn[i] + b.pn[i]]. *)
Fixpoint add_loop (carry : Z) (a b : list Z) : list Z :=
  match a, b with
  | x :: a', y :: b' =>
      let n := u64 (carry + x + y) in
      Z.land n 4294967295 :: add_loop (Z.shiftr n 32) a' b'
  | _, _ => []
  end.

Definition op_add (a b : list Z) : list Z := add_loop 0 a b.
Definition op_sub (a b : list Z) : list Z := op_add a (op_neg b).

(** [operator*=(uint32_t b32)]. *)
Fixpoint mul32_loop (carry b32 : Z) (a : list Z) : list Z :=
  match a with
  | [] => []
  | x :: a' =>
      let n := u64 (carry + b32 * x) in
      Z.land n 4294967295 :: mul32_loop (Z.shiftr n 32) b32 a'
  end.

Definition op_mul32 (a : list Z) (b32 : Z) : list Z := mul32_loop 0 (u32 b32) a.

(** The inner loop of [operator*=(const base_uint& b)]: [acc] is the part of
    the result from word [j] on, so [acc[i]] is [a.pn[i + j]] and the loop stops
    where [i + j] reaches [WIDTH]. *)
Fixpoint mul_row (carry pj : Z) (acc b : list Z) : list Z :=
  match acc, b with
  | x :: acc', y :: b' =>
      let n := u64 (carry + x + pj * y) in
      Z.land n 4294967295 :: mul_row (Z.shiftr n 32) pj acc' b'
  | _, _ => acc
  end.

(** The outer loop, over the words [pn[j]]. *)
Fixpoint mul_loop (pn b acc : list Z) : list Z :=
  match pn with
  | [] => acc
  | pj :: pn' =>
      match mul_row 0 pj acc b with
      | [] => []
      | w :: acc' => w :: mul_loop pn' b acc'
      end
  end.

Definition op_mul (pn b : list Z) : list Z := mul_loop pn b (zero (length pn)).

(** [operator<<=]. *)
Definition shl_step (a : list Z) (k : nat) (shift : Z) (i : nat) (pn : list Z) : list Z :=
  let width := length a in
  let pn := if (Nat.ltb (i + k + 1) width && negb (shift =? 0))%bool
            then upd pn (i + k + 1) (fun w => Z.lor w (Z.shiftr (nth i a 0) (32 - shift)))
            else pn in
  if Nat.ltb (i + k) width
  then upd pn (i + k) (fun w => Z.lor w (u32 (Z.shiftl (nth i a 0) shift)))
  else pn.

Definition op_shl (a : list Z) (shift : Z) : list Z :=
  for_upto (length a) (shl_step a (Z.to_nat (shift / 32)) (shift mod 32)) (zero (length a)).

(** [operator>>=]. *)
Definition shr_step (a : list Z) (k : nat) (shift : Z) (i : nat) (pn : list Z) : list Z :=
  let pn := if (Nat.leb (k + 1) i && negb (shift =? 0))%bool
            then upd pn (i - k - 1) (fun w => Z.lor w (u32 (Z.shiftl (nth i a 0) (32 - shift))))
            else pn in
  if Nat.leb k i
  then upd pn (i - k) (fun w => Z.lor w (Z.shiftr (nth i a 0) shift))
  else pn.

Definition op_shr (a : list Z) (shift : Z) : list Z :=
  for_upto (length a) (shr_step a (Z.to_nat (shift / 32)) (shift mod 32)) (zero (length a)).

(** [CompareTo]: from the most significant word down. *)
Fixpoint compare_words (n : nat) (a b : list Z) : Z :=
  match n with
  | O => 0
  | S i =>
      if nth i a 0 <? nth i b 0 then -1
      else if nth i b 0 <? nth i a 0 then 1
      else compare_words i a b
  end.

Definition CompareTo (a b : list Z) : Z := compare_words (length a) a b.

Definition op_gt (a b : list Z) : bool := 0 <? CompareTo a b.
Definition op_lt (a b : list Z) : bool := CompareTo a b <? 0.
Definition op_ge (a b : list Z) : bool := 0 <=? CompareTo a b.
Definition op_le (a b : list Z) : bool := CompareTo a b <=? 0.

(** [EqualTo(uint64_t b)]. *)
Definition EqualTo (a : list Z) (b : Z) : bool :=
  if existsb (fun w => negb (w =? 0)) (skipn 2 a) then false
  else if negb (nth 1 a 0 =? Z.shiftr b 32) then false
  else if negb (nth 0 a 0 =? Z.land b 4294967295) then false
  else true.

(** [bits()]: the inner loop runs [nbits] from 31 down to 1. *)
Fixpoint bits_word (nbits : nat) (w : Z) : Z :=
  match nbits with
  | O => 1
  | S m =>
      if negb (Z.land w (Z.shiftl 1 (Z.of_nat nbits)) =? 0)
      then Z.of_nat nbits + 1
      else bits_word m w
  end.

Fixpoint bits_from (n : nat) (pn : list Z) : Z :=
  match n with
  | O => 0
  | S pos =>
      if negb (nth pos pn 0 =? 0)
      then 32 * Z.of_nat pos + bits_word 31 (nth pos pn 0)
      else bits_from pos pn
  end.

Definition bits (pn : list Z) : Z := bits_from (length pn) pn.

Definition GetLow64 (pn : list Z) : Z :=
  Z.lor (nth 0 pn 0) (u64 (Z.shiftl (nth 1 pn 0) 32)).

(** [operator/=]: schoolbook long division in base two.  [div_loop n] runs the
    [while (shift >= 0)] loop for [shift = n - 1, ..., 0]. *)
Definition set_bit (pn : list Z) (shift : nat) : list Z :=
  upd pn (shift / 32) (fun w => Z.lor w (Z.shiftl 1 (Z.of_nat (shift mod 32)))).

Fixpoint div_loop (n : nat) (quo num div : list Z) : list Z * list Z :=
  match n with
  | O => (quo, num)
  | S shift =>
      if op_ge num div
      then div_loop shift (set_bit quo shift) (op_sub num div) (op_shr div 1)
      else div_loop shift quo num (op_shr div 1)
  end.

(** [None] is [throw uint_error("Division by zero")]. *)
Definition op_div (num b : list Z) : option (list Z) :=
  let num_bits := bits num in
  let div_bits := bits b in
  if div_bits =? 0 then None
  else if num_bits <? div_bits then Some (zero (length num))
  else
    let shift := num_bits - div_bits in
    Some (fst (div_loop (S (Z.to_nat shift)) (zero (length num)) num (op_shl b shift))).

End BaseUint.

(** ** The compact format *)

(** [arith_uint256::SetCompact]: the value and the two flags it reports. *)
Definition SetCompact (nCompact : Z) : list Z * bool * bool :=
  let nSize := Z.shiftr nCompact 24 in
  let nWord := Z.land nCompact 8388607 in
  let '(this, nWord) :=
    if nSize <=? 3 then
      let nWord := Z.shiftr nWord (8 * (3 - nSize)) in
      (BaseUint.of_u64 WIDTH nWord, nWord)
    else
      (BaseUint.op_shl (BaseUint.of_u64 WIDTH nWord) (8 * (nSize - 3)), nWord) in
  let fNegative := (negb (nWord =? 0) && negb (Z.land nCompact 8388608 =? 0))%bool in
  let fOverflow := (negb (nWord =? 0) &&
                    ((34 <? nSize) || ((255 <? nWord) && (33 <? nSize))
                     || ((65535 <? nWord) && (32 <? nSize))))%bool in
  (this, fNegative, fOverflow).

Definition compact_target (nCompact : Z) : list Z := fst (fst (SetCompact nCompact)).

(** [arith_uint256::GetCompact]; [None] is a failed [assert]. *)
Definition GetCompact (pn : list Z) (fNegative : bool) : option Z :=
  let nSize := (BaseUint.bits pn + 7) / 8 in
  let nCompact :=
    if nSize <=? 3 then u32 (u64 (Z.shiftl (BaseUint.GetLow64 pn) (8 * (3 - nSize))))
    else u32 (BaseUint.GetLow64 (BaseUint.op_shr pn (8 * (nSize - 3)))) in
  let '(nCompact, nSize) :=
    if negb (Z.land nCompact 8388608 =? 0)
    then (Z.shiftr nCompact 8, nSize + 1) else (nCompact, nSize) in
  if negb (Z.land nCompact (u32 (Z.lnot 8388607)) =? 0) then None
  else if negb (nSize <? 256) then None
  else
    let nCompact := Z.lor nCompact (u32 (Z.shiftl nSize 24)) in
    Some (Z.lor nCompact
      (if (fNegative && negb (Z.land nCompact 8388607 =? 0))%bool then 8388608 else 0)).

(** A [uint256] is its 32 bytes, the first one the least significant. *)
Definition ArithToUint256 (a : list Z) : list Z := flat_map WriteLE32 a.

Fixpoint read_words (n : nat) (b : list Z) : list Z :=
  match n with
  | O => []
  | S n' => ReadLE32 (firstn 4 b) :: read_words n' (skipn 4 b)
  end.

Definition UintToArith256 (b : list Z) : list Z := read_words WIDTH b.

(** ** The value of the word operations *)
Section Values.
Import BaseUint.

Lemma modulus_S n : modulus (S n) = two32 * modulus n.
Proof.
  unfold modulus. rewrite Nat2Z.inj_succ, Z.pow_succ_r; lia.
Qed.

Lemma modulus_pos n : 0 < modulus n.
Proof. apply Z.pow_pos_nonneg; [reflexivity|lia]. Qed.

Lemma modulus_pow n : modulus n = 2 ^ (32 * Z.of_nat n).
Proof. unfold modulus. rewrite two32_pow, <- Z.pow_mul_r; lia. Qed.

Lemma mod_modulus_0 x : x mod modulus 0 = 0.
Proof. exact (Z.mod_1_r x). Qed.

Lemma val_range l : words l -> 0 <= val l < modulus (length l).
Proof.
  induction 1 as [|w l Hw _ IH]; [easy|].
  cbn [val length]. rewrite modulus_S. unfold is_u32 in Hw.
  pose proof (eq_refl : two32 = 4294967296). nia.
Qed.

(** One limb of a carry loop: the low word now, the rest carried on. *)
Lemma limb_step t X M :
  0 < M ->
  t mod two32 + two32 * ((t / two32 + X) mod M) = (t + two32 * X) mod (two32 * M).
Proof.
  intros HM. rewrite Z.rem_mul_r by (unfold two32; lia).
  rewrite (Z.mul_comm two32 X), Z.mod_add, Z.div_add by (unfold two32; lia).
  reflexivity.
Qed.

(** The low word and the carry of a 64-bit sum that does not wrap. *)
Lemma low_high_word t :
  is_u64 t ->
  Z.land (u64 t) 4294967295 = t mod two32 /\ Z.shiftr (u64 t) 32 = t / two32
  /\ is_u32 (t mod two32) /\ is_u32 (t / two32).
Proof.
  intros Ht. rewrite u64_small, land_ones32, shiftr32_div by assumption.
  repeat split; try (apply Z.mod_pos_bound; reflexivity).
  - apply Z.div_pos; [apply Ht|reflexivity].
  - apply Z.div_lt_upper_bound; [reflexivity|]. apply Ht.
Qed.

Lemma add_loop_spec a b carry :
  words a -> words b -> length a = length b -> 0 <= carry <= 1 ->
  val (add_loop carry a b) = (carry + val a + val b) mod modulus (length a)
  /\ words (add_loop carry a b) /\ length (add_loop carry a b) = length a.
Proof.
  intros Ha. revert b carry.
  induction Ha as [|x a Hx Ha IH]; intros [|y b] carry Hb Hl Hc; try discriminate.
  - cbn [val length add_loop]. rewrite mod_modulus_0. repeat constructor.
  - inversion Hb as [|? ? Hy Hb']; subst. injection Hl as Hl.
    assert (Ht : is_u64 (carry + x + y)) by (unfold is_u32, is_u64, two32, two64 in *; lia).
    destruct (low_high_word _ Ht) as (El & Eh & Hlo & Hhi).
    cbn [add_loop val length]. rewrite El, Eh, modulus_S.
    destruct (IH b ((carry + x + y) / two32)) as (IHv & IHw & IHl); auto.
    { split; [apply Z.div_pos; unfold is_u64, two32 in *; lia|].
      apply Z.lt_succ_r, Z.div_lt_upper_bound; unfold is_u32, two32 in *; lia. }
    rewrite IHv, <- (Z.add_assoc (_ / _)), limb_step by apply modulus_pos.
    repeat split; [f_equal; ring|constructor; auto|congruence].
Qed.

Lemma op_add_spec a b :
  words a -> words b -> length a = length b ->
  val (op_add a b) = (val a + val b) mod modulus (length a)
  /\ words (op_add a b) /\ length (op_add a b) = length a.
Proof.
  intros Ha Hb Hl. apply (add_loop_spec a b 0); auto; lia.
Qed.

Lemma op_not_word w : is_u32 w -> Z.lxor w 4294967295 = 4294967295 - w.
Proof.
  intros Hw. change 4294967295 with (Z.ones 32).
  rewrite Z.lxor_comm, Z.sub_nocarry_ldiff.
  - apply Z.bits_inj'. intros i Hi. rewrite Z.lxor_spec, Z.ldiff_spec.
    destruct (Z.lt_ge_cases i 32).
    + rewrite Z.ones_spec_low by lia. now destruct (Z.testbit w i).
    + rewrite Z.ones_spec_high, (testbit_small w 32) by (try exact Hw; lia). reflexivity.
  - apply Z.bits_inj'. intros i Hi. rewrite Z.ldiff_spec, Z.bits_0.
    destruct (Z.lt_ge_cases i 32).
    + rewrite Z.ones_spec_low by lia. now rewrite andb_false_r.
    + rewrite (testbit_small w 32) by (try exact Hw; lia). reflexivity.
Qed.

Lemma op_not_spec a :
  words a ->
  val (op_not a) = modulus (length a) - 1 - val a
  /\ words (op_not a) /\ length (op_not a) = length a.
Proof.
  induction 1 as [|w a Hw Ha (IHv & IHw & IHl)]; [repeat constructor|].
  cbn [op_not map val length]. fold (op_not a). rewrite modulus_S, op_not_word, IHv by assumption.
  repeat split; [unfold two32; ring| |congruence].
  constructor; [unfold is_u32, two32 in *; lia|assumption].
Qed.

Lemma op_incr_spec a :
  words a ->
  val (op_incr a) = (val a + 1) mod modulus (length a)
  /\ words (op_incr a) /\ length (op_incr a) = length a.
Proof.
  induction 1 as [|w a Hw Ha (IHv & IHw & IHl)]; [repeat constructor|].
  cbn [op_incr]. pose proof (val_range a Ha) as Hr. pose proof (modulus_pos (length a)).
  destruct (Z.eq_dec w 4294967295) as [->|Hne].
  - change (u32 (4294967295 + 1)) with 0. rewrite Z.eqb_refl.
    cbn [val length]. rewrite modulus_S, IHv.
    replace (4294967295 + two32 * val a + 1) with ((val a + 1) * two32) by (unfold two32; ring).
    rewrite (Z.mul_comm two32 (modulus _)), Z.mul_mod_distr_r by (unfold two32; lia).
    repeat split; [ring| |congruence]. constructor; [unfold is_u32, two32; lia|assumption].
  - rewrite u32_small by (unfold is_u32, two32 in *; lia).
    destruct (Z.eqb_spec (w + 1) 0); [unfold is_u32 in Hw; lia|].
    cbn [val length]. rewrite modulus_S.
    repeat split; [|constructor; [unfold is_u32, two32 in *; lia|assumption]].
    rewrite Z.mod_small; [ring|]. unfold is_u32, two32 in *. nia.
Qed.

Lemma op_decr_spec a :
  words a ->
  val (op_decr a) = (val a - 1) mod modulus (length a)
  /\ words (op_decr a) /\ length (op_decr a) = length a.
Proof.
  induction 1 as [|w a Hw Ha (IHv & IHw & IHl)]; [repeat constructor|].
  cbn [op_decr]. pose proof (val_range a Ha) as Hr. pose proof (modulus_pos (length a)).
  destruct (Z.eq_dec w 0) as [->|Hne].
  - change (u32 (0 - 1)) with 4294967295. rewrite Z.eqb_refl.
    cbn [val length]. rewrite modulus_S, IHv.
    replace (0 + two32 * val a - 1) with (4294967295 + two32 * (val a - 1)) by (unfold two32; ring).
    rewrite <- limb_step by assumption.
    change (4294967295 mod two32) with 4294967295. change (4294967295 / two32) with 0.
    repeat split; [|congruence]. constructor; [unfold is_u32, two32; lia|assumption].
  - rewrite u32_small by (unfold is_u32, two32 in *; lia).
    destruct (Z.eqb_spec (w - 1) 4294967295); [unfold is_u32, two32 in Hw; lia|].
    cbn [val length]. rewrite modulus_S.
    repeat split; [|constructor; [unfold is_u32, two32 in *; lia|assumption]].
    rewrite Z.mod_small; [ring|]. unfold is_u32, two32 in *. nia.
Qed.

Lemma op_neg_spec a :
  words a ->
  val (op_neg a) = (- val a) mod modulus (length a)
  /\ words (op_neg a) /\ length (op_neg a) = length a.
Proof.
  intros Ha. destruct (op_not_spec a Ha) as (Ev & Ew & El).
  destruct (op_incr_spec _ Ew) as (Fv & Fw & Fl). unfold op_neg.
  rewrite Fv, Ev, El. repeat split; auto; [|congruence].
  replace (modulus (length a) - 1 - val a + 1) with (- val a + 1 * modulus (length a)) by ring.
  apply Z.mod_add. pose proof (modulus_pos (length a)). lia.
Qed.

Lemma op_sub_spec a b :
  words a -> words b -> length a = length b ->
  val (op_sub a b) = (val a - val b) mod modulus (length a)
  /\ words (op_sub a b) /\ length (op_sub a b) = length a.
Proof.
  intros Ha Hb Hl. destruct (op_neg_spec b Hb) as (Ev & Ew & El).
  unfold op_sub. destruct (op_add_spec a (op_neg b)) as (Fv & Fw & Fl); auto; [congruence|].
  rewrite Fv, Ev, Hl, Zplus_mod_idemp_r. repeat split; auto. congruence.
Qed.

Lemma mul32_loop_spec a b32 carry :
  words a -> is_u32 b32 -> is_u32 carry ->
  val (mul32_loop carry b32 a) = (carry + b32 * val a) mod modulus (length a)
  /\ words (mul32_loop carry b32 a) /\ length (mul32_loop carry b32 a) = length a.
Proof.
  intros Ha Hb. revert carry. induction Ha as [|x a Hx Ha IH]; intros carry Hc.
  - cbn [val length mul32_loop]. rewrite mod_modulus_0. repeat constructor.
  - assert (Ht : is_u64 (carry + b32 * x)) by (unfold is_u32, is_u64, two32, two64 in *; nia).
    destruct (low_high_word _ Ht) as (El & Eh & Hlo & Hhi).
    cbn [mul32_loop val length]. rewrite El, Eh, modulus_S.
    destruct (IH _ Hhi) as (IHv & IHw & IHl).
    rewrite IHv, limb_step by apply modulus_pos.
    repeat split; [f_equal; ring|constructor; auto|congruence].
Qed.

Lemma mul_row_spec acc b pj carry :
  words acc -> words b -> (length acc <= length b)%nat -> is_u32 pj -> is_u32 carry ->
  val (mul_row carry pj acc b) = (carry + val acc + pj * val b) mod modulus (length acc)
  /\ words (mul_row carry pj acc b) /\ length (mul_row carry pj acc b) = length acc.
Proof.
  intros Ha Hb Hl Hp. revert b carry Hb Hl.
  induction Ha as [|x a Hx Ha IH]; intros [|y b] carry Hb Hl Hc; cbn [length] in Hl; try lia.
  - cbn [val length mul_row]. rewrite mod_modulus_0. repeat constructor.
  - cbn [val length mul_row]. rewrite mod_modulus_0. repeat constructor.
  - inversion Hb as [|? ? Hy Hb']; subst.
    assert (Ht : is_u64 (carry + x + pj * y)) by (unfold is_u32, is_u64, two32, two64 in *; nia).
    destruct (low_high_word _ Ht) as (El & Eh & Hlo & Hhi).
    cbn [mul_row val length]. rewrite El, Eh, modulus_S.
    destruct (IH b _ Hb' ltac:(lia) Hhi) as (IHv & IHw & IHl).
    rewrite IHv, <- (Z.add_assoc (_ / _)), limb_step by apply modulus_pos.
    repeat split; [f_equal; ring|constructor; auto|congruence].
Qed.

Lemma mul_loop_spec pn b acc :
  words pn -> words acc -> words b -> (length acc <= length b)%nat ->
  length pn = length acc ->
  val (mul_loop pn b acc) = (val acc + val pn * val b) mod modulus (length acc)
  /\ words (mul_loop pn b acc) /\ length (mul_loop pn b acc) = length acc.
Proof.
  intros Hp. revert acc.
  induction Hp as [|pj pn Hpj Hp IH]; intros acc Hacc Hb Hle Hl.
  - destruct acc; [|discriminate]. cbn [val length mul_loop]. rewrite mod_modulus_0. repeat constructor.
  - destruct (mul_row_spec acc b pj 0) as (Rv & Rw & Rl); auto;
      [unfold is_u32, two32; lia|].
    cbn [mul_loop]. destruct (mul_row 0 pj acc b) as [|w acc'] eqn:E.
    { cbn [length] in *. lia. }
    inversion Rw as [|? ? Hw Hacc']; subst. cbn [length] in Rl, Hl.
    destruct (IH acc') as (IHv & IHw & IHl); auto; [lia..|].
    cbn [val length] in Rv |- *. rewrite IHv, <- Rl, modulus_S in *.
    repeat split; [|constructor; auto|congruence].
    replace (w + two32 * ((val acc' + val pn * val b) mod modulus (length acc')))
      with (w mod two32 + two32 * ((w / two32 + (val acc' + val pn * val b)) mod modulus (length acc')))
      by (rewrite Z.mod_small, Z.div_small by exact Hw; reflexivity).
    rewrite limb_step by apply modulus_pos.
    rewrite Z.mul_add_distr_l, Z.add_assoc, Rv, Zplus_mod_idemp_l. f_equal. ring.
Qed.

Lemma words_zero n : words (zero n).
Proof. induction n; constructor; auto. unfold is_u32, two32. lia. Qed.

Lemma val_zero n : val (zero n) = 0.
Proof. induction n as [|n IH]; cbn; [reflexivity|]. fold (zero n). rewrite IH. lia. Qed.

Lemma op_mul32_spec a b32 :
  words a -> is_u32 b32 ->
  val (op_mul32 a b32) = (val a * b32) mod modulus (length a)
  /\ words (op_mul32 a b32) /\ length (op_mul32 a b32) = length a.
Proof.
  intros Ha Hb. unfold op_mul32. rewrite u32_small by assumption.
  destruct (mul32_loop_spec a b32 0) as (Ev & Ew & El); auto; [unfold is_u32, two32; lia|].
  rewrite Ev. repeat split; auto. f_equal. ring.
Qed.

Lemma op_mul_spec a b :
  words a -> words b -> length a = length b ->
  val (op_mul a b) = (val a * val b) mod modulus (length a)
  /\ words (op_mul a b) /\ length (op_mul a b) = length a.
Proof.
  intros Ha Hb Hl. unfold op_mul.
  assert (Hz : length (zero (length a)) = length a) by apply repeat_length.
  destruct (mul_loop_spec a b (zero (length a))) as (Ev & Ew & El);
    auto using words_zero; [lia|].
  rewrite Ev, val_zero, Hz in *. auto.
Qed.

(** ** Values by prefixes and bits *)

Lemma val_app a b : val (a ++ b) = val a + modulus (length a) * val b.
Proof.
  induction a as [|x a IH]; cbn [app val length].
  - unfold modulus. change (Z.of_nat 0) with 0. rewrite Z.pow_0_r. ring.
  - rewrite IH, modulus_S. ring.
Qed.

Lemma words_nth a i : words a -> is_u32 (nth i a 0).
Proof. intros H. apply Forall_nth_default; [assumption|]. unfold is_u32, two32; lia. Qed.

Lemma words_firstn n a : words a -> words (firstn n a).
Proof. apply Forall_firstn. Qed.

Lemma firstn_S_nth n (a : list Z) :
  (n < length a)%nat -> firstn (S n) a = firstn n a ++ [nth n a 0].
Proof.
  revert a. induction n as [|n IH]; intros [|x a] H; cbn [length] in H; try lia.
  - reflexivity.
  - cbn [firstn nth app]. rewrite <- IH by lia. reflexivity.
Qed.

Lemma val_firstn_S n a :
  (n < length a)%nat -> val (firstn (S n) a) = val (firstn n a) + modulus n * nth n a 0.
Proof.
  intros H. rewrite firstn_S_nth, val_app, length_firstn, Nat.min_l by lia. cbn [val]. ring.
Qed.

Lemma val_firstn_range n a :
  words a -> (n <= length a)%nat -> 0 <= val (firstn n a) < modulus n.
Proof.
  intros Ha Hn. pose proof (val_range _ (words_firstn n a Ha)) as H.
  rewrite length_firstn, Nat.min_l in H by assumption. exact H.
Qed.

Lemma compare_words_spec n a b :
  words a -> words b -> (n <= length a)%nat -> (n <= length b)%nat ->
  compare_words n a b =
  match val (firstn n a) ?= val (firstn n b) with Lt => -1 | Eq => 0 | Gt => 1 end.
Proof.
  intros Ha Hb. induction n as [|n IH]; intros Hla Hlb; [reflexivity|].
  cbn [compare_words]. rewrite !val_firstn_S by lia.
  pose proof (val_firstn_range n a Ha ltac:(lia)). pose proof (val_firstn_range n b Hb ltac:(lia)).
  pose proof (modulus_pos n).
  destruct (Z.ltb_spec (nth n a 0) (nth n b 0)).
  - assert (E : val (firstn n a) + modulus n * nth n a 0 < val (firstn n b) + modulus n * nth n b 0) by nia.
    apply Z.compare_lt_iff in E. now rewrite E.
  - destruct (Z.ltb_spec (nth n b 0) (nth n a 0)).
    + assert (E : val (firstn n b) + modulus n * nth n b 0 < val (firstn n a) + modulus n * nth n a 0) by nia.
      apply Z.compare_gt_iff in E. now rewrite E.
    + replace (nth n b 0) with (nth n a 0) by lia.
      rewrite IH, !(Z.add_comm _ (modulus n * _)), Z.add_compare_mono_l by lia. reflexivity.
Qed.

Lemma CompareTo_spec a b :
  words a -> words b -> length a = length b ->
  CompareTo a b = match val a ?= val b with Lt => -1 | Eq => 0 | Gt => 1 end.
Proof.
  intros Ha Hb Hl. unfold CompareTo. rewrite compare_words_spec by (auto; lia).
  rewrite firstn_all, Hl, firstn_all. reflexivity.
Qed.

Lemma op_ge_spec a b :
  words a -> words b -> length a = length b -> op_ge a b = (val b <=? val a).
Proof.
  intros. unfold op_ge. rewrite CompareTo_spec by assumption.
  destruct (Z.compare_spec (val a) (val b)); symmetry; [apply Z.leb_le|apply Z.leb_gt|apply Z.leb_le]; lia.
Qed.

Lemma op_gt_spec a b :
  words a -> words b -> length a = length b -> op_gt a b = (val b <? val a).
Proof.
  intros. unfold op_gt. rewrite CompareTo_spec by assumption.
  destruct (Z.compare_spec (val a) (val b)); symmetry; [apply Z.ltb_ge|apply Z.ltb_ge|apply Z.ltb_lt]; lia.
Qed.

Lemma op_le_spec a b :
  words a -> words b -> length a = length b -> op_le a b = (val a <=? val b).
Proof.
  intros. unfold op_le. rewrite CompareTo_spec by assumption.
  destruct (Z.compare_spec (val a) (val b)); symmetry; [apply Z.leb_le|apply Z.leb_le|apply Z.leb_gt]; lia.
Qed.

Lemma op_lt_spec a b :
  words a -> words b -> length a = length b -> op_lt a b = (val a <? val b).
Proof.
  intros. unfold op_lt. rewrite CompareTo_spec by assumption.
  destruct (Z.compare_spec (val a) (val b)); symmetry; [apply Z.ltb_ge|apply Z.ltb_lt|apply Z.ltb_ge]; lia.
Qed.

Lemma val_zero_iff a : words a -> (val a = 0 <-> existsb (fun w => negb (w =? 0)) a = false).
Proof.
  induction 1 as [|w a Hw Ha IH]; cbn [val existsb]; [tauto|].
  pose proof (val_range a Ha). unfold is_u32, two32 in *.
  destruct (Z.eqb_spec w 0); cbn [negb orb]; [rewrite <- IH; lia|split; [lia|discriminate]].
Qed.

Lemma EqualTo_zero a : words a -> (2 <= length a)%nat -> EqualTo a 0 = (val a =? 0).
Proof.
  intros Ha Hl. pose proof (val_zero_iff a Ha) as E. unfold EqualTo.
  destruct a as [|w0 [|w1 a]]; cbn [length] in Hl; try lia. cbn [skipn nth existsb] in *.
  change (Z.shiftr 0 32) with 0. change (Z.land 0 4294967295) with 0.
  destruct (Z.eqb_spec (val (w0 :: w1 :: a)) 0) as [H|H];
    destruct (existsb _ a), (Z.eqb_spec w1 0), (Z.eqb_spec w0 0); cbn [negb orb] in *; intuition congruence.
Qed.

(** [bits]: the position of the highest bit set plus one, or zero. *)
Definition bit_length (z : Z) : Z := if z =? 0 then 0 else Z.log2 z + 1.

Lemma bit_length_bounds z :
  0 < z -> 0 < bit_length z /\ 2 ^ (bit_length z - 1) <= z < 2 ^ bit_length z.
Proof.
  intros Hz. unfold bit_length. destruct (Z.eqb_spec z 0); [lia|].
  pose proof (Z.log2_spec z Hz). pose proof (Z.log2_nonneg z).
  replace (Z.log2 z + 1 - 1) with (Z.log2 z) by ring. rewrite Z.add_1_r. lia.
Qed.

Lemma land_pow2_testbit w n : 0 <= n ->
  negb (Z.land w (Z.shiftl 1 n) =? 0) = Z.testbit w n.
Proof.
  intros Hn. destruct (Z.testbit w n) eqn:E.
  - destruct (Z.eqb_spec (Z.land w (Z.shiftl 1 n)) 0) as [H|]; [|reflexivity].
    apply (f_equal (fun z => Z.testbit z n)) in H.
    rewrite Z.land_spec, Z.shiftl_spec, Z.sub_diag, E, Z.bits_0 in H by assumption. discriminate.
  - apply negb_false_iff, Z.eqb_eq, Z.bits_inj'. intros i Hi.
    rewrite Z.land_spec, Z.bits_0, Z.shiftl_1_l, Z.pow2_bits_eqb by assumption.
    destruct (Z.eqb_spec n i) as [<-|]; [now rewrite E|apply andb_false_r].
Qed.

Lemma bits_word_spec m w :
  0 < w < 2 ^ (Z.of_nat m + 1) -> bits_word m w = bit_length w.
Proof.
  induction m as [|m IH]; intros Hw.
  - replace w with 1 by (cbn in Hw; lia). reflexivity.
  - cbn [bits_word]. rewrite land_pow2_testbit by lia.
    unfold bit_length in *. destruct (Z.eqb_spec w 0); [lia|].
    destruct (Z.testbit w (Z.of_nat (S m))) eqn:E.
    + f_equal. symmetry. apply Z.log2_unique; [lia|]. rewrite Z.add_1_r in Hw.
      split; [|lia]. destruct (Z.lt_ge_cases w (2 ^ Z.of_nat (S m))); [|assumption].
      rewrite (testbit_small w (Z.of_nat (S m))) in E; [discriminate|lia..].
    + apply IH. split; [lia|]. replace (Z.of_nat m + 1) with (Z.of_nat (S m)) by lia.
      apply lt_pow2_testbit; try lia. intros i Hi.
      destruct (Z.eq_dec i (Z.of_nat (S m))) as [->|]; [assumption|].
      apply (testbit_small w (Z.of_nat (S m) + 1)); lia.
Qed.

Lemma bits_from_spec n a :
  words a -> (n <= length a)%nat -> bits_from n a = bit_length (val (firstn n a)).
Proof.
  intros Ha. induction n as [|n IH]; intros Hn; [reflexivity|].
  cbn [bits_from]. rewrite val_firstn_S by lia.
  pose proof (val_firstn_range n a Ha ltac:(lia)) as Hr.
  pose proof (words_nth a n Ha) as Hw. unfold is_u32 in Hw.
  destruct (Z.eqb_spec (nth n a 0) 0) as [->|Hne]; cbn [negb].
  - rewrite Z.mul_0_r, Z.add_0_r. apply IH. lia.
  - assert (H0 : 0 < nth n a 0) by lia. rewrite bits_word_spec by exact (conj H0 (proj2 Hw)).
    unfold bit_length. rewrite modulus_pow in *.
    assert (HP : 0 < 2 ^ (32 * Z.of_nat n)) by (apply Z.pow_pos_nonneg; lia).
    destruct (Z.eqb_spec (nth n a 0) 0); [lia|].
    destruct (Z.eqb_spec (val (firstn n a) + 2 ^ (32 * Z.of_nat n) * nth n a 0) 0); [nia|].
    rewrite Z.add_assoc. f_equal. symmetry. apply Z.log2_unique.
    + pose proof (Z.log2_nonneg (nth n a 0)). lia.
    + pose proof (Z.log2_spec (nth n a 0) H0) as [L1 L2].
      pose proof (Z.log2_nonneg (nth n a 0)).
      rewrite <- Z.add_succ_r, !Z.pow_add_r by lia. nia.
Qed.

Lemma bits_spec a : words a -> bits a = bit_length (val a).
Proof.
  intros Ha. unfold bits. rewrite bits_from_spec by auto. now rewrite firstn_all.
Qed.

(** Bit [32 q + r] of the value is bit [r] of word [q]. *)
Lemma val_testbit a q r :
  words a -> 0 <= r < 32 ->
  Z.testbit (val a) (32 * Z.of_nat q + r) = Z.testbit (nth q a 0) r.
Proof.
  intros Ha Hr. revert q. induction Ha as [|w a Hw Ha IH]; intros q.
  - cbn [val]. destruct q; now rewrite !Z.bits_0.
  - assert (E : val (w :: a) = Z.lor w (Z.shiftl (val a) 32)).
    { cbn [val]. rewrite Z.shiftl_mul_pow2, <- two32_pow, (Z.mul_comm (val a)) by lia.
      symmetry. apply lor_add_disjoint, Z.bits_inj'. intros i Hi.
      rewrite Z.land_spec, Z.bits_0, Z.mul_comm, two32_pow, <- Z.shiftl_mul_pow2, Z.shiftl_spec by lia.
      destruct (Z.lt_ge_cases i 32).
      - rewrite (Z.testbit_neg_r _ (i - 32)) by lia. apply andb_false_r.
      - rewrite (testbit_small w 32) by (try exact Hw; lia). reflexivity. }
    rewrite E, Z.lor_spec, Z.shiftl_spec by lia. destruct q as [|q].
    + rewrite (Z.testbit_neg_r _ (32 * Z.of_nat 0 + r - 32)), orb_false_r by lia.
      cbn [nth]. f_equal; lia.
    + rewrite (testbit_small w 32) by (try exact Hw; lia). cbn [nth].
      rewrite <- IH. cbn [orb]. f_equal. lia.
Qed.

Lemma val_eq_bits a x :
  words a -> 0 <= x < modulus (length a) ->
  (forall q r, (q < length a)%nat -> 0 <= r < 32 ->
     Z.testbit (nth q a 0) r = Z.testbit x (32 * Z.of_nat q + r)) ->
  val a = x.
Proof.
  intros Ha Hx H. apply Z.bits_inj'. intros i Hi.
  pose proof (Z.div_mod i 32 ltac:(lia)) as E. pose proof (Z.mod_pos_bound i 32 ltac:(lia)).
  assert (0 <= i / 32) by (apply Z.div_pos; lia).
  replace i with (32 * Z.of_nat (Z.to_nat (i / 32)) + i mod 32) by lia.
  rewrite val_testbit by auto.
  destruct (Nat.lt_ge_cases (Z.to_nat (i / 32)) (length a)) as [Hl|Hl]; [auto|].
  rewrite nth_overflow by assumption. rewrite modulus_pow in Hx.
  rewrite Z.bits_0, (testbit_small x (32 * Z.of_nat (length a))); auto; lia.
Qed.

(** ** Shifts *)

Lemma length_zero n : length (zero n) = n.
Proof. apply repeat_length. Qed.

Lemma nth_zero n i : nth i (zero n) 0 = 0.
Proof. apply nth_repeat_same. Qed.

Lemma u32_shiftl_testbit w s r :
  0 <= s -> 0 <= r < 32 -> Z.testbit (u32 (Z.shiftl w s)) r = Z.testbit w (r - s).
Proof.
  intros Hs Hr. unfold u32. rewrite two32_pow, Z.mod_pow2_bits_low, Z.shiftl_spec by lia.
  reflexivity.
Qed.

(** The contributions to word [j] after [n] rounds of the left shift. *)
Definition shl_hi (a : list Z) (k : nat) (s : Z) (n j : nat) : Z :=
  if (Nat.leb (k + 1) j && Nat.ltb (j - k - 1) n && negb (s =? 0))%bool
  then Z.shiftr (nth (j - k - 1) a 0) (32 - s) else 0.
Definition shl_lo (a : list Z) (k : nat) (s : Z) (n j : nat) : Z :=
  if (Nat.leb k j && Nat.ltb (j - k) n)%bool
  then u32 (Z.shiftl (nth (j - k) a 0) s) else 0.

Lemma shl_loop_words a k s n :
  (n <= length a)%nat ->
  let pn := for_upto n (shl_step a k s) (zero (length a)) in
  length pn = length a /\
  forall j, (j < length a)%nat -> nth j pn 0 = Z.lor (shl_hi a k s n j) (shl_lo a k s n j).
Proof.
  induction n as [|n IH]; intros Hn; cbn zeta.
  - split; [apply length_zero|]. intros j Hj. unfold for_upto. cbn [seq fold_left].
    rewrite nth_zero. unfold shl_hi, shl_lo.
    replace (Nat.ltb (j - k - 1) 0) with false by (symmetry; apply Nat.ltb_ge; lia).
    replace (Nat.ltb (j - k) 0) with false by (symmetry; apply Nat.ltb_ge; lia).
    now rewrite !andb_false_r.
  - rewrite for_upto_S. destruct IH as [IHl IH]; [lia|]. cbv zeta in IHl, IH.
    set (pn := for_upto n (shl_step a k s) (zero (length a))) in *. unfold shl_step.
    split; [repeat match goal with |- context [if ?b then _ else _] => destruct b end;
            rewrite ?length_upd; exact IHl|].
    intros j Hj. unfold shl_hi, shl_lo in *.
    replace (nth j (if Nat.ltb (n + k) (length a) then _ else _) 0) with
      (Z.lor (if (Nat.eqb (n + k + 1) j && negb (s =? 0))%bool
              then Z.lor (nth j pn 0) (Z.shiftr (nth n a 0) (32 - s)) else nth j pn 0)
             (if Nat.eqb (n + k) j then u32 (Z.shiftl (nth n a 0) s) else 0)).
    2: { destruct (s =? 0); cbn [negb]; bcase; cbn [andb]; rewrite ?nth_upd, ?length_upd, ?IHl;
         bcase; cbn [andb]; rewrite ?nth_upd, ?IHl; bcase; cbn [andb]; rewrite ?Z.lor_0_r; try lia; reflexivity. }
    rewrite IH by assumption. destruct (s =? 0) eqn:Es; cbn [negb];
    bcase; cbn [andb]; subst; rewrite ?Z.lor_0_r, ?Z.lor_0_l; try lia; try reflexivity;
      repeat (f_equal; try lia).
Qed.

Lemma words_by_nth l :
  (forall i, (i < length l)%nat -> is_u32 (nth i l 0)) -> words l.
Proof.
  induction l as [|x l IH]; intros H; constructor.
  - exact (H 0%nat ltac:(cbn; lia)).
  - apply IH. intros i Hi. exact (H (S i) ltac:(cbn; lia)).
Qed.

Lemma is_u32_0 : is_u32 0.
Proof. unfold is_u32, two32; lia. Qed.

Lemma is_u32_shiftr w s : is_u32 w -> 0 <= s -> is_u32 (Z.shiftr w s).
Proof.
  intros Hw Hs. unfold is_u32 in *. rewrite Z.shiftr_div_pow2 by assumption.
  pose proof (Z.pow_pos_nonneg 2 s ltac:(lia) Hs).
  split; [apply Z.div_pos; lia|]. apply Z.div_lt_upper_bound; nia.
Qed.

Lemma shl_words_range a k s n j :
  words a -> 0 <= s < 32 -> is_u32 (Z.lor (shl_hi a k s n j) (shl_lo a k s n j)).
Proof.
  intros Ha Hs. apply (lor_range 32); [lia| |].
  - unfold shl_hi. destruct (_ && _)%bool; [|exact is_u32_0].
    apply is_u32_shiftr; [now apply words_nth|lia].
  - unfold shl_lo. destruct (_ && _)%bool; [apply u32_range|exact is_u32_0].
Qed.

Lemma op_shl_spec a shift :
  words a -> 0 <= shift ->
  val (op_shl a shift) = (val a * 2 ^ shift) mod modulus (length a)
  /\ words (op_shl a shift) /\ length (op_shl a shift) = length a.
Proof.
  intros Ha Hs. unfold op_shl.
  set (k := Z.to_nat (shift / 32)). set (s := shift mod 32).
  destruct (shl_loop_words a k s (length a) (le_n _)) as [Hl Hn].
  set (pn := for_upto _ _ _) in *.
  assert (Hs' : 0 <= s < 32) by (apply Z.mod_pos_bound; lia).
  assert (Hsh : shift = 32 * Z.of_nat k + s).
  { unfold k, s. rewrite Z2Nat.id by (apply Z.div_pos; lia). apply Z.div_mod. lia. }
  assert (Hw : words pn).
  { apply words_by_nth. intros i Hi. rewrite Hn by lia. now apply shl_words_range. }
  repeat split; auto. pose proof (modulus_pos (length a)) as HM.
  apply val_eq_bits; [assumption|rewrite Hl; now apply Z.mod_pos_bound|].
  intros q r Hq Hr. rewrite Hl in Hq. rewrite Hn by assumption.
  rewrite modulus_pow, <- Z.shiftl_mul_pow2, Z.mod_pow2_bits_low, Z.shiftl_spec by lia.
  rewrite Z.lor_spec. unfold shl_hi, shl_lo.
  destruct (Nat.leb_spec k q) as [Hk|Hk]; cbn [andb].
  - replace (Nat.ltb (q - k) (length a)) with true by (symmetry; apply Nat.ltb_lt; lia).
    rewrite u32_shiftl_testbit by lia. destruct (Z.lt_ge_cases r s) as [Hrs|Hrs].
    + rewrite (Z.testbit_neg_r _ (r - s)), orb_false_r by lia.
      destruct (Nat.leb_spec (k + 1) q); cbn [andb].
      * replace (Nat.ltb (q - k - 1) (length a)) with true by (symmetry; apply Nat.ltb_lt; lia).
        destruct (Z.eqb_spec s 0); [lia|]. cbn [andb negb]. rewrite Z.shiftr_spec by lia.
        rewrite <- (val_testbit a (q - k - 1) (r + (32 - s))) by (auto; lia). f_equal. lia.
      * rewrite Z.bits_0, Z.testbit_neg_r; [reflexivity|lia].
    + replace (Z.testbit (if (_ && _)%bool then _ else 0) r) with false.
      * rewrite orb_false_l, <- (val_testbit a (q - k)) by (auto; lia). f_equal. lia.
      * symmetry. destruct (_ && _)%bool; [|apply Z.bits_0].
        rewrite Z.shiftr_spec by lia. apply (testbit_small _ 32); [apply words_nth; auto|lia].
  - replace (Nat.leb (k + 1) q) with false by (symmetry; apply Nat.leb_gt; lia). cbn [andb].
    rewrite !Z.bits_0, Z.testbit_neg_r; [reflexivity|lia].
Qed.

(** The contributions to word [j] after [n] rounds of the right shift. *)
Definition shr_hi (a : list Z) (k : nat) (s : Z) (n j : nat) : Z :=
  if (Nat.ltb (j + k + 1) n && negb (s =? 0))%bool
  then u32 (Z.shiftl (nth (j + k + 1) a 0) (32 - s)) else 0.
Definition shr_lo (a : list Z) (k : nat) (s : Z) (n j : nat) : Z :=
  if Nat.ltb (j + k) n then Z.shiftr (nth (j + k) a 0) s else 0.

Lemma shr_loop_words a k s n :
  (n <= length a)%nat ->
  let pn := for_upto n (shr_step a k s) (zero (length a)) in
  length pn = length a /\
  forall j, (j < length a)%nat -> nth j pn 0 = Z.lor (shr_lo a k s n j) (shr_hi a k s n j).
Proof.
  induction n as [|n IH]; intros Hn; cbn zeta.
  - split; [apply length_zero|]. intros j Hj. apply nth_zero.
  - rewrite for_upto_S. destruct IH as [IHl IH]; [lia|]. cbv zeta in IHl, IH.
    set (pn := for_upto n (shr_step a k s) (zero (length a))) in *. unfold shr_step.
    split; [repeat match goal with |- context [if ?b then _ else _] => destruct b end;
            rewrite ?length_upd; exact IHl|].
    intros j Hj. unfold shr_hi, shr_lo in *.
    replace (nth j (if Nat.leb k n then _ else _) 0) with
      (Z.lor (if (Nat.eqb n (j + k + 1) && negb (s =? 0))%bool
              then Z.lor (nth j pn 0) (u32 (Z.shiftl (nth n a 0) (32 - s))) else nth j pn 0)
             (if Nat.eqb n (j + k) then Z.shiftr (nth n a 0) s else 0)).
    2: { destruct (s =? 0); cbn [negb]; bcase; cbn [andb]; rewrite ?nth_upd, ?length_upd, ?IHl;
         bcase; cbn [andb]; rewrite ?nth_upd, ?IHl; bcase; cbn [andb]; rewrite ?Z.lor_0_r; try lia; reflexivity. }
    rewrite IH by assumption. destruct (s =? 0) eqn:Es; cbn [negb];
    bcase; cbn [andb]; subst; rewrite ?Z.lor_0_r, ?Z.lor_0_l; try lia; reflexivity.
Qed.

Lemma shr_words_range a k s n j :
  words a -> 0 <= s < 32 -> is_u32 (Z.lor (shr_lo a k s n j) (shr_hi a k s n j)).
Proof.
  intros Ha Hs. apply (lor_range 32); [lia| |].
  - unfold shr_lo. destruct (Nat.ltb _ _); [|exact is_u32_0].
    apply is_u32_shiftr; [now apply words_nth|lia].
  - unfold shr_hi. destruct (_ && _)%bool; [apply u32_range|exact is_u32_0].
Qed.

Lemma op_shr_spec a shift :
  words a -> 0 <= shift ->
  val (op_shr a shift) = val a / 2 ^ shift
  /\ words (op_shr a shift) /\ length (op_shr a shift) = length a.
Proof.
  intros Ha Hs. unfold op_shr.
  set (k := Z.to_nat (shift / 32)). set (s := shift mod 32).
  destruct (shr_loop_words a k s (length a) (le_n _)) as [Hl Hn].
  set (pn := for_upto _ _ _) in *.
  assert (Hs' : 0 <= s < 32) by (apply Z.mod_pos_bound; lia).
  assert (Hsh : shift = 32 * Z.of_nat k + s).
  { unfold k, s. rewrite Z2Nat.id by (apply Z.div_pos; lia). apply Z.div_mod. lia. }
  assert (Hw : words pn).
  { apply words_by_nth. intros i Hi. rewrite Hn by lia. now apply shr_words_range. }
  repeat split; auto. pose proof (val_range a Ha) as HR.
  assert (HP : 0 < 2 ^ shift) by (apply Z.pow_pos_nonneg; lia).
  apply val_eq_bits; [assumption|rewrite Hl; split;
    [apply Z.div_pos; lia|apply Z.div_lt_upper_bound; nia]|].
  intros q r Hq Hr. rewrite Hl in Hq. rewrite Hn by assumption.
  rewrite <- Z.shiftr_div_pow2, Z.shiftr_spec, Z.lor_spec by lia. unfold shr_hi, shr_lo.
  replace (32 * Z.of_nat q + r + shift) with (32 * Z.of_nat (q + k) + (r + s)) by lia.
  destruct (Z.lt_ge_cases (r + s) 32) as [Hrs|Hrs].
  - rewrite val_testbit by (auto; lia).
    replace (Z.testbit (if (_ && _)%bool then _ else 0) r) with false.
    + rewrite orb_false_r. destruct (Nat.ltb_spec (q + k) (length a)).
      * apply Z.shiftr_spec. lia.
      * rewrite nth_overflow by lia. now rewrite !Z.bits_0.
    + symmetry. destruct (_ && _)%bool; [|apply Z.bits_0].
      rewrite u32_shiftl_testbit, Z.testbit_neg_r by lia. reflexivity.
  - replace (32 * Z.of_nat (q + k) + (r + s)) with (32 * Z.of_nat (q + k + 1) + (r + s - 32)) by lia.
    rewrite val_testbit by (auto; lia).
    replace (Z.testbit (if Nat.ltb (q + k) (length a) then _ else 0) r) with false.
    + rewrite orb_false_l. destruct (Nat.ltb_spec (q + k + 1) (length a)); cbn [andb].
      * destruct (Z.eqb_spec s 0); [lia|]. cbn [negb]. rewrite u32_shiftl_testbit by lia. f_equal. lia.
      * rewrite nth_overflow by lia. now rewrite !Z.bits_0.
    + symmetry. destruct (Nat.ltb _ _); [|apply Z.bits_0].
      rewrite Z.shiftr_spec by lia. apply (testbit_small _ 32); [apply words_nth; auto|lia].
Qed.

(** ** Division *)

Lemma set_bit_spec quo n :
  words quo -> (n < 32 * length quo)%nat -> val quo mod 2 ^ (Z.of_nat n + 1) = 0 ->
  val (set_bit quo n) = val quo + 2 ^ Z.of_nat n
  /\ words (set_bit quo n) /\ length (set_bit quo n) = length quo.
Proof.
  intros Hq Hn Hz. unfold set_bit.
  pose proof (Nat.mod_upper_bound n 32 ltac:(lia)) as Hr.
  pose proof (Nat.div_mod_eq n 32) as Hd.
  assert (Hb : is_u32 (Z.shiftl 1 (Z.of_nat (n mod 32)))).
  { rewrite Z.shiftl_1_l. unfold is_u32. rewrite two32_pow.
    split; [apply Z.pow_nonneg; lia|apply Z.pow_lt_mono_r; lia]. }
  assert (Hw : words (upd quo (n / 32) (fun w => Z.lor w (Z.shiftl 1 (Z.of_nat (n mod 32)))))).
  { apply Forall_upd; [assumption|]. intros x Hx. apply (lor_range 32); [lia|exact Hx|exact Hb]. }
  repeat split; [|assumption|apply length_upd].
  assert (Hdis : Z.land (val quo) (2 ^ Z.of_nat n) = 0).
  { apply Z.bits_inj'. intros i Hi. rewrite Z.land_spec, Z.pow2_bits_eqb, Z.bits_0 by lia.
    destruct (Z.eqb_spec (Z.of_nat n) i) as [<-|]; [|apply andb_false_r].
    rewrite <- (Z.mod_pow2_bits_low (val quo) (Z.of_nat n + 1)) by lia. now rewrite Hz, Z.bits_0. }
  rewrite <- lor_add_disjoint by assumption.
  apply Z.bits_inj'. intros i Hi. rewrite Z.lor_spec, Z.pow2_bits_eqb by lia.
  pose proof (Z.div_mod i 32 ltac:(lia)). pose proof (Z.mod_pos_bound i 32 ltac:(lia)).
  assert (0 <= i / 32) by (apply Z.div_pos; lia).
  replace i with (32 * Z.of_nat (Z.to_nat (i / 32)) + i mod 32) by lia.
  rewrite !val_testbit, nth_upd by (assumption || lia).
  destruct (Nat.eqb_spec (n / 32) (Z.to_nat (i / 32))) as [Eq|Eq]; cbn [andb].
  - destruct (Nat.ltb_spec (Z.to_nat (i / 32)) (length quo)); [|lia].
    rewrite Z.lor_spec, Z.shiftl_1_l, Z.pow2_bits_eqb by lia. f_equal.
    bcase; auto; lia.
  - destruct (Z.eqb_spec (Z.of_nat n) (32 * Z.of_nat (Z.to_nat (i / 32)) + i mod 32)) as [E|];
      [|now rewrite orb_false_r].
    exfalso. apply Eq. lia.
Qed.

(** The loop invariant of the long division: [div] is the divisor [D] shifted
    to the current bit, [num] is what is left to divide, and the quotient bits
    below the current one are still clear. *)
Lemma div_loop_spec n quo num div D :
  words quo -> words num -> words div ->
  length quo = length num -> length div = length num -> (n <= 32 * length quo)%nat ->
  0 < D -> val num < D * 2 ^ Z.of_nat n ->
  (n = 0%nat \/ val div = D * 2 ^ (Z.of_nat n - 1)) ->
  val quo mod 2 ^ Z.of_nat n = 0 ->
  let res := div_loop n quo num div in
  val (fst res) = val quo + val num / D /\ val (snd res) = val num mod D
  /\ words (fst res) /\ length (fst res) = length quo.
Proof.
  revert quo num div. induction n as [|n IH];
    intros quo num div Hq Hnum Hdiv Hl Hl' Hn HD Hlt Hd Hz res; subst res; cbn [div_loop].
  - change (2 ^ Z.of_nat 0) with 1 in Hlt. cbn [fst snd]. pose proof (val_range num Hnum).
    rewrite Z.div_small, Z.mod_small by lia. repeat split; auto; lia.
  - destruct Hd as [Hd|Hd]; [discriminate|].
    replace (Z.of_nat (S n) - 1) with (Z.of_nat n) in Hd by lia.
    assert (HP : 0 < 2 ^ Z.of_nat n) by (apply Z.pow_pos_nonneg; lia).
    rewrite Nat2Z.inj_succ, Z.pow_succ_r in Hlt by lia.
    destruct (op_shr_spec div 1 Hdiv ltac:(lia)) as (Sv & Sw & Sl).
    assert (Hs : n = 0%nat \/ val (op_shr div 1) = D * 2 ^ (Z.of_nat n - 1)).
    { destruct n as [|n]; [now left|right]. rewrite Sv, Hd. change (2 ^ 1) with 2.
      replace (Z.of_nat (S n) - 1) with (Z.of_nat n) by lia.
      rewrite Nat2Z.inj_succ, Z.pow_succ_r by lia.
      replace (D * (2 * 2 ^ Z.of_nat n)) with (D * 2 ^ Z.of_nat n * 2) by ring.
      apply Z.div_mul. lia. }
    assert (Hz' : val quo mod 2 ^ Z.of_nat n = 0).
    { rewrite Nat2Z.inj_succ, Z.pow_succ_r in Hz by lia.
      apply Z.mod_divide in Hz; [|lia]. apply Z.mod_divide; [lia|].
      apply Z.divide_trans with (2 * 2 ^ Z.of_nat n); [|assumption]. apply Z.divide_factor_r. }
    rewrite op_ge_spec by (auto; congruence). rewrite Hd.
    pose proof (val_range num Hnum) as Rn.
    destruct (Z.leb_spec (D * 2 ^ Z.of_nat n) (val num)) as [Hge|Hlt'].
    + destruct (op_sub_spec num div Hnum Hdiv) as (Tv & Tw & Tl); [congruence|].
      rewrite Hd, Z.mod_small in Tv by nia.
      assert (Hz1 : val quo mod 2 ^ (Z.of_nat n + 1) = 0) by (now rewrite Z.add_1_r, <- Nat2Z.inj_succ).
      destruct (set_bit_spec quo n Hq ltac:(lia) Hz1) as (Bv & Bw & Bl).
      destruct (IH (set_bit quo n) (op_sub num div) (op_shr div 1))
        as (IH1 & IH2 & IH3 & IH4); auto; try congruence; [lia|rewrite Tv; nia| |].
      { rewrite Bv, <- Z.add_mod_idemp_l, Hz', Z.add_0_l, Z.mod_same; lia. }
      rewrite IH1, IH2, Tv, Bv.
      replace (val num - D * 2 ^ Z.of_nat n) with (val num + - 2 ^ Z.of_nat n * D) by ring.
      rewrite Z.div_add, Z.mod_add by lia. repeat split; auto; [lia|congruence].
    + destruct (IH quo num (op_shr div 1)) as (IH1 & IH2 & IH3 & IH4); auto; try congruence; lia.
Qed.

Lemma op_div_spec num b :
  words num -> words b -> length num = length b ->
  if val b =? 0 then op_div num b = None
  else exists q, op_div num b = Some q /\ val q = val num / val b
       /\ words q /\ length q = length num.
Proof.
  intros Hn Hb Hl. unfold op_div. rewrite !bits_spec by assumption.
  pose proof (val_range num Hn) as Rn. pose proof (val_range b Hb) as Rb.
  destruct (Z.eqb_spec (val b) 0) as [E|E]; [now rewrite E|].
  destruct (bit_length_bounds (val b)) as (Lb0 & Lb1 & Lb2); [lia|].
  destruct (Z.eqb_spec (bit_length (val b)) 0); [lia|].
  destruct (Z.ltb_spec (bit_length (val num)) (bit_length (val b))) as [Hlt|Hge].
  - exists (zero (length num)). rewrite val_zero. split; [reflexivity|].
    split; [|auto using words_zero, length_zero]. symmetry. apply Z.div_small. split; [lia|].
    destruct (Z.eq_dec (val num) 0); [lia|].
    destruct (bit_length_bounds (val num)) as (_ & _ & Ln2); [lia|].
    pose proof (Z.pow_le_mono_r 2 (bit_length (val num)) (bit_length (val b) - 1)). lia.
  - assert (Hp : 0 < val num).
    { destruct (Z.eq_dec (val num) 0) as [E0|]; [|lia]. rewrite E0 in Hge. cbn in Hge. lia. }
    destruct (bit_length_bounds (val num)) as (_ & Ln1 & Ln2); [lia|].
    set (shift := bit_length (val num) - bit_length (val b)) in *.
    destruct (op_shl_spec b shift Hb ltac:(lia)) as (Sv & Sw & Sl).
    assert (H2 : 0 < 2 ^ shift) by (apply Z.pow_pos_nonneg; lia).
    assert (Hm : bit_length (val num) <= 32 * Z.of_nat (length num)).
    { rewrite modulus_pow in Rn.
      destruct (Z.le_gt_cases (bit_length (val num)) (32 * Z.of_nat (length num))); [assumption|].
      pose proof (Z.pow_le_mono_r 2 (32 * Z.of_nat (length num)) (bit_length (val num) - 1)). lia. }
    assert (Hpow : 2 ^ (bit_length (val num)) = 2 * 2 ^ (bit_length (val b) - 1) * 2 ^ shift).
    { rewrite <- Z.pow_succ_r, <- Z.pow_add_r by lia. f_equal. lia. }
    rewrite Z.mod_small in Sv.
    2: { rewrite <- Hl. split; [nia|]. rewrite modulus_pow in *.
         apply Z.lt_le_trans with (2 ^ bit_length (val num)).
         - replace (bit_length (val num)) with (bit_length (val b) + shift) by lia.
           rewrite Z.pow_add_r by lia. nia.
         - apply Z.pow_le_mono_r; lia. }
    destruct (div_loop_spec (S (Z.to_nat shift)) (zero (length num)) num (op_shl b shift) (val b))
      as (Q1 & Q2 & Q3 & Q4); auto using words_zero, length_zero.
    + congruence.
    + rewrite length_zero. lia.
    + lia.
    + rewrite Nat2Z.inj_succ, Z2Nat.id, Z.pow_succ_r by lia. nia.
    + right. rewrite Nat2Z.inj_succ, Z2Nat.id by lia. rewrite Sv. f_equal. f_equal. lia.
    + rewrite val_zero. apply Z.mod_0_l. apply Z.pow_nonzero; lia.
    + eexists. split; [reflexivity|]. rewrite Q1, val_zero, Q4, length_zero. auto.
Qed.

(** ** The compact format on values *)

Lemma of_u64_spec b :
  is_u64 b -> val (of_u64 WIDTH b) = b /\ wf256 (of_u64 WIDTH b).
Proof.
  intros Hb. unfold of_u64. cbn [Nat.sub WIDTH repeat val]. rewrite shiftr32_div.
  assert (Hd : is_u32 (b / two32)).
  { split; [apply Z.div_pos; [apply Hb|reflexivity]|].
    apply Z.div_lt_upper_bound; [reflexivity|apply Hb]. }
  rewrite (u32_small (b / two32)) by assumption. unfold u32.
  split; [pose proof (Z.div_mod b two32 ltac:(discriminate)); lia|].
  split; [reflexivity|].
  constructor; [apply Z.mod_pos_bound; reflexivity|].
  constructor; [assumption|exact (words_zero 6)].
Qed.

Lemma GetLow64_spec a : wf256 a -> GetLow64 a = val a mod two64.
Proof.
  intros [Hl Ha]. unfold GetLow64.
  destruct a as [|x [|y a]]; try discriminate.
  inversion Ha as [|? ? Hx Ha']; subst. inversion Ha' as [|? ? Hy Ha'']; subst.
  cbn [nth val]. rewrite u64_small.
  2: { rewrite Z.shiftl_mul_pow2 by lia. unfold is_u32, is_u64, two32, two64 in *. lia. }
  rewrite lor_add_disjoint.
  2: { apply Z.bits_inj'. intros i Hi. rewrite Z.land_spec, Z.bits_0, Z.shiftl_spec by lia.
       destruct (Z.lt_ge_cases i 32).
       - rewrite (Z.testbit_neg_r _ (i - 32)) by lia. apply andb_false_r.
       - rewrite (testbit_small x 32) by (try exact Hx; lia). reflexivity. }
  rewrite Z.shiftl_mul_pow2 by lia.
  replace (x + two32 * (y + two32 * val a)) with (x + y * 2 ^ 32 + val a * two64)
    by (unfold two32, two64; ring).
  rewrite Z.mod_add by discriminate. symmetry. apply Z.mod_small.
  unfold is_u32, two32, two64 in *. lia.
Qed.

(** Bytes needed for [z], and the mantissa and exponent that represent it. *)
Definition byte_length (z : Z) : Z := (bit_length z + 7) / 8.

Definition mantissa (z : Z) : Z :=
  if byte_length z <=? 3 then z * 256 ^ (3 - byte_length z)
  else z / 256 ^ (byte_length z - 3).

Definition compact_spec (z : Z) : Z :=
  if mantissa z <? 8388608 then byte_length z * 16777216 + mantissa z
  else (byte_length z + 1) * 16777216 + mantissa z / 256.

Lemma pow256 n : 0 <= n -> 256 ^ n = 2 ^ (8 * n).
Proof. intros Hn. now rewrite Z.pow_mul_r by lia. Qed.

Lemma byte_length_bounds z :
  0 < z -> 1 <= byte_length z /\ 256 ^ (byte_length z - 1) <= z < 256 ^ byte_length z.
Proof.
  intros Hz. destruct (bit_length_bounds z Hz) as (H0 & H1 & H2). unfold byte_length.
  pose proof (Z.div_mod (bit_length z + 7) 8 ltac:(lia)).
  pose proof (Z.mod_pos_bound (bit_length z + 7) 8 ltac:(lia)).
  split; [lia|]. rewrite !pow256 by lia. split.
  - eapply Z.le_trans; [|exact H1]. apply Z.pow_le_mono_r; lia.
  - eapply Z.lt_le_trans; [exact H2|]. apply Z.pow_le_mono_r; lia.
Qed.

Lemma byte_length_0 : byte_length 0 = 0.
Proof. reflexivity. Qed.

Lemma byte_length_le z n : 0 <= z -> 0 <= n -> z < 256 ^ n -> byte_length z <= n.
Proof.
  intros Hz Hn Hlt. destruct (Z.eq_dec z 0) as [->|]; [rewrite byte_length_0; lia|].
  destruct (byte_length_bounds z) as (H1 & H2 & _); [lia|].
  destruct (Z.le_gt_cases (byte_length z) n); [assumption|].
  pose proof (Z.pow_le_mono_r 256 n (byte_length z - 1)). lia.
Qed.

Lemma byte_length_nonneg z : 0 <= z -> 0 <= byte_length z.
Proof.
  intros Hz. destruct (Z.eq_dec z 0) as [->|]; [rewrite byte_length_0; lia|].
  pose proof (byte_length_bounds z). lia.
Qed.

(** The mantissa has three bytes, the first of which is not zero. *)
Lemma mantissa_bounds z :
  0 <= z -> 0 <= mantissa z < 16777216 /\ (0 < z -> 65536 <= mantissa z).
Proof.
  intros Hz. unfold mantissa.
  destruct (Z.eq_dec z 0) as [->|]; [rewrite byte_length_0; cbn; lia|].
  destruct (byte_length_bounds z) as (H1 & H2 & H3); [lia|].
  change 16777216 with (256 ^ 3). change 65536 with (256 ^ 2).
  destruct (Z.leb_spec (byte_length z) 3) as [Hle|Hgt].
  - assert (HP : 0 < 256 ^ (3 - byte_length z)) by (apply Z.pow_pos_nonneg; lia).
    assert (E3 : 256 ^ 3 = 256 ^ byte_length z * 256 ^ (3 - byte_length z))
      by (rewrite <- Z.pow_add_r by lia; f_equal; lia).
    assert (E2 : 256 ^ 2 = 256 ^ (byte_length z - 1) * 256 ^ (3 - byte_length z))
      by (rewrite <- Z.pow_add_r by lia; f_equal; lia).
    rewrite E3, E2. nia.
  - assert (HP : 0 < 256 ^ (byte_length z - 3)) by (apply Z.pow_pos_nonneg; lia).
    assert (E3 : 256 ^ byte_length z = 256 ^ (byte_length z - 3) * 256 ^ 3)
      by (rewrite <- Z.pow_add_r by lia; f_equal; lia).
    assert (E2 : 256 ^ (byte_length z - 1) = 256 ^ (byte_length z - 3) * 256 ^ 2)
      by (rewrite <- Z.pow_add_r by lia; f_equal; lia).
    split; [split; [apply Z.div_pos; lia|apply Z.div_lt_upper_bound; lia]|].
    intros _. apply Z.div_le_lower_bound; lia.
Qed.

Lemma compact_pack m n :
  0 <= m < 16777216 -> 0 <= n < 256 ->
  Z.lor m (u32 (Z.shiftl n 24)) = n * 16777216 + m.
Proof.
  intros Hm Hn. rewrite Z.shiftl_mul_pow2 by lia. change (2 ^ 24) with 16777216.
  rewrite u32_small by (unfold is_u32, two32; lia).
  rewrite lor_add_disjoint; [ring|]. apply Z.bits_inj'. intros i Hi.
  change 16777216 with (2 ^ 24). rewrite <- Z.shiftl_mul_pow2 by lia.
  rewrite Z.land_spec, Z.bits_0, Z.shiftl_spec by lia. destruct (Z.lt_ge_cases i 24).
  - rewrite (Z.testbit_neg_r _ (i - 24)) by lia. apply andb_false_r.
  - rewrite (testbit_small m 24) by (change (2 ^ 24) with 16777216; lia). reflexivity.
Qed.

Lemma bit23_spec m : 0 <= m < 16777216 -> negb (Z.land m 8388608 =? 0) = (8388608 <=? m).
Proof.
  intros Hm. change 8388608 with (Z.shiftl 1 23) at 1. rewrite land_pow2_testbit by lia.
  destruct (Z.leb_spec 8388608 m).
  - rewrite Z.testbit_true by lia. replace (m / 2 ^ 23) with 1; [reflexivity|].
    apply Z.div_unique with (m - 8388608); change (2 ^ 23) with 8388608; lia.
  - apply (testbit_small m 23); change (2 ^ 23) with 8388608; lia.
Qed.

Lemma mantissa_mask m : 0 <= m < 8388608 -> Z.land m (u32 (Z.lnot 8388607)) = 0.
Proof.
  intros Hm. apply Z.bits_inj'. intros i Hi. rewrite Z.land_spec, Z.bits_0.
  destruct (Z.lt_ge_cases i 23).
  - replace (Z.testbit (u32 (Z.lnot 8388607)) i) with false; [apply andb_false_r|].
    unfold u32. rewrite two32_pow, Z.mod_pow2_bits_low, Z.lnot_spec by lia.
    change 8388607 with (Z.ones 23). now rewrite Z.ones_spec_low by lia.
  - now rewrite (testbit_small m 23) by (change (2 ^ 23) with 8388608; lia).
Qed.

Lemma byte_length_256 a : wf256 a -> 0 <= byte_length (val a) <= 32.
Proof.
  intros [Hl Ha]. pose proof (val_range a Ha) as R. rewrite Hl in R.
  split; [apply byte_length_nonneg; lia|]. apply byte_length_le; try lia. exact (proj2 R).
Qed.

Lemma mantissa_word a :
  wf256 a ->
  (if byte_length (val a) <=? 3
   then u32 (u64 (Z.shiftl (GetLow64 a) (8 * (3 - byte_length (val a)))))
   else u32 (GetLow64 (op_shr a (8 * (byte_length (val a) - 3))))) = mantissa (val a).
Proof.
  intros Hwf. pose proof Hwf as [Hl Ha]. pose proof (val_range a Ha) as R.
  pose proof (byte_length_256 a Hwf) as HB.
  destruct (mantissa_bounds (val a)) as [M _]; [lia|]. unfold mantissa in *.
  destruct (Z.leb_spec (byte_length (val a)) 3) as [Hle|Hgt].
  - rewrite GetLow64_spec, Z.shiftl_mul_pow2, <- pow256 by (auto; lia).
    assert (HP : 1 <= 256 ^ (3 - byte_length (val a))) by (apply (Z.pow_le_mono_r 256 0); lia).
    rewrite (Z.mod_small (val a)) by (unfold two64; nia).
    rewrite u64_small, u32_small by (unfold is_u32, is_u64, two32, two64; lia). reflexivity.
  - destruct (op_shr_spec a (8 * (byte_length (val a) - 3)) Ha) as (Sv & Sw & Sl); [lia|].
    rewrite GetLow64_spec by (split; congruence). rewrite Sv, <- pow256 by lia.
    rewrite Z.mod_small by (unfold two64; lia). apply u32_small. unfold is_u32, two32; lia.
Qed.

(** [GetCompact] never fails an assertion and packs size and mantissa. *)
Lemma GetCompact_spec a : wf256 a -> GetCompact a false = Some (compact_spec (val a)).
Proof.
  intros Hwf. pose proof Hwf as [Hl Ha]. pose proof (val_range a Ha) as R.
  destruct (mantissa_bounds (val a)) as [M _]; [lia|]. pose proof (byte_length_256 a Hwf) as HB.
  unfold GetCompact, compact_spec. rewrite bits_spec by assumption.
  fold (byte_length (val a)). rewrite mantissa_word, bit23_spec by assumption.
  destruct (Z.ltb_spec (mantissa (val a)) 8388608) as [Hlt|Hge].
  - destruct (Z.leb_spec 8388608 (mantissa (val a))); [lia|].
    rewrite mantissa_mask by lia. destruct (Z.ltb_spec (byte_length (val a)) 256); [|lia].
    cbn [negb Z.eqb andb]. now rewrite Z.lor_0_r, compact_pack by lia.
  - destruct (Z.leb_spec 8388608 (mantissa (val a))); [|lia].
    assert (Hd : 0 <= mantissa (val a) / 256 < 65536).
    { split; [apply Z.div_pos; lia|apply Z.div_lt_upper_bound; lia]. }
    rewrite Z.shiftr_div_pow2 by lia. change (2 ^ 8) with 256.
    rewrite mantissa_mask by lia. destruct (Z.ltb_spec (byte_length (val a) + 1) 256); [|lia].
    cbn [negb Z.eqb andb]. now rewrite Z.lor_0_r, compact_pack by lia.
Qed.

(** The number a compact word denotes, before it is cut to 256 bits. *)
Definition compact_value (c : Z) : Z :=
  let size := c / 16777216 in
  let word := c mod 8388608 in
  if size <=? 3 then word / 256 ^ (3 - size) else word * 256 ^ (size - 3).

Lemma compact_fields c :
  is_u32 c ->
  Z.shiftr c 24 = c / 16777216 /\ Z.land c 8388607 = c mod 8388608
  /\ 0 <= c / 16777216 < 256 /\ 0 <= c mod 8388608 < 8388608.
Proof.
  intros Hc. rewrite Z.shiftr_div_pow2 by lia.
  change 8388607 with (Z.ones 23). rewrite Z.land_ones by lia.
  change (2 ^ 24) with 16777216. change (2 ^ 23) with 8388608.
  repeat split; try (apply Z.mod_pos_bound; lia);
    [apply Z.div_pos|apply Z.div_lt_upper_bound]; unfold is_u32, two32 in Hc; lia.
Qed.

Lemma overflow_spec size word :
  3 < size < 256 -> 0 <= word < 8388608 ->
  (negb (word =? 0) && ((34 <? size) || ((255 <? word) && (33 <? size))
     || ((65535 <? word) && (32 <? size))))%bool = (256 ^ 32 <=? word * 256 ^ (size - 3)).
Proof.
  intros Hs Hw. assert (HP : 0 < 256 ^ (size - 3)) by (apply Z.pow_pos_nonneg; lia).
  destruct (Z.eqb_spec word 0) as [->|H0]; cbn [negb andb].
  { symmetry. apply Z.leb_gt. reflexivity. }
  destruct (Z.ltb_spec 34 size) as [H34|H34]; cbn [orb].
  { symmetry. apply Z.leb_le.
    pose proof (Z.pow_le_mono_r 256 32 (size - 3) ltac:(lia) ltac:(lia)). nia. }
  destruct (Z.ltb_spec 33 size) as [H33|H33].
  { replace (size - 3) with 31 by lia. change (256 ^ 32) with (256 * 256 ^ 31).
    assert (0 < 256 ^ 31) by reflexivity. bcase; cbn; lia || nia. }
  rewrite andb_false_r. destruct (Z.ltb_spec 32 size) as [H32|H32].
  { replace (size - 3) with 30 by lia. change (256 ^ 32) with (65536 * 256 ^ 30).
    assert (0 < 256 ^ 30) by reflexivity. bcase; cbn; lia || nia. }
  rewrite andb_false_r. symmetry. apply Z.leb_gt.
  pose proof (Z.pow_le_mono_r 256 (size - 3) 29 ltac:(lia) ltac:(lia)).
  change (256 ^ 32) with (16777216 * 256 ^ 29). nia.
Qed.

(** [SetCompact] stores the denoted number modulo 2^256 and flags it when it
    does not fit or is negative. *)
Lemma SetCompact_spec c :
  is_u32 c ->
  let '(b, fNegative, fOverflow) := SetCompact c in
  wf256 b /\ val b = compact_value c mod modulus WIDTH
  /\ fOverflow = (modulus WIDTH <=? compact_value c)
  /\ fNegative = (negb (compact_value c =? 0) && Z.testbit c 23)%bool.
Proof.
  intros Hc. destruct (compact_fields c Hc) as (Es & Ew & Hs & Hw).
  unfold SetCompact, compact_value. rewrite Es, Ew.
  replace (negb (Z.land c 8388608 =? 0)) with (Z.testbit c 23)
    by (symmetry; apply (land_pow2_testbit c 23); lia).
  set (size := c / 16777216) in *. set (word := c mod 8388608) in *.
  destruct (Z.leb_spec size 3) as [Hle|Hgt].
  - rewrite Z.shiftr_div_pow2, <- pow256 by lia. set (w := word / 256 ^ (3 - size)).
    assert (Hwr : 0 <= w < 8388608).
    { assert (0 < 256 ^ (3 - size)) by (apply Z.pow_pos_nonneg; lia).
      split; [apply Z.div_pos; lia|]. apply Z.div_lt_upper_bound; nia. }
    destruct (of_u64_spec w) as [Ev Hwf]; [unfold is_u64, two64; lia|].
    change (modulus WIDTH) with (256 ^ 32). repeat split; try apply Hwf.
    + rewrite Ev. symmetry. apply Z.mod_small. split; [lia|]. transitivity 8388608; [lia|reflexivity].
    + replace (256 ^ 32 <=? w) with false.
      * destruct (Z.ltb_spec 34 size), (Z.ltb_spec 33 size), (Z.ltb_spec 32 size); try lia.
      * symmetry. apply Z.leb_gt. transitivity 8388608; [lia|reflexivity].
  - assert (HP : 0 < 256 ^ (size - 3)) by (apply Z.pow_pos_nonneg; lia).
    destruct (of_u64_spec word) as [Ev [El Hwf]]; [unfold is_u64, two64; lia|].
    destruct (op_shl_spec (of_u64 WIDTH word) (8 * (size - 3)) Hwf) as (Sv & Sw & Sl); [lia|].
    rewrite Ev, El, <- pow256 in Sv by lia. repeat split; auto.
    + change (modulus WIDTH) with (256 ^ 32). apply overflow_spec; lia.
    + f_equal. f_equal. destruct (Z.eqb_spec word 0) as [->|Hne]; [reflexivity|].
      symmetry. apply Z.eqb_neq. nia.
Qed.

(** A word with a normalised mantissa is the encoding of its own value. *)
Lemma compact_spec_normal size word :
  3 <= size -> 32768 <= word < 8388608 ->
  compact_spec (word * 256 ^ (size - 3)) = size * 16777216 + word.
Proof.
  intros Hs Hw. remember (word * 256 ^ (size - 3)) as x eqn:Ex.
  assert (HP : 0 < 256 ^ (size - 3)) by (apply Z.pow_pos_nonneg; lia).
  assert (Hx : 0 < x) by nia.
  destruct (byte_length_bounds x Hx) as (H1 & H2 & H3).
  assert (Huniq : forall n, 256 ^ (n - 1) <= x < 256 ^ n -> 1 <= n -> byte_length x = n).
  { intros n Hn Hn1. pose proof (byte_length_le x n).
    destruct (Z.eq_dec (byte_length x) n); [assumption|].
    pose proof (Z.pow_le_mono_r 256 (byte_length x) (n - 1)). lia. }
  unfold compact_spec, mantissa. destruct (Z.le_gt_cases 65536 word) as [Hb|Hb].
  - rewrite (Huniq size); [|split|lia].
    + destruct (Z.leb_spec size 3).
      * assert (size = 3) as -> by lia. rewrite Ex. change (256 ^ (3 - 3)) with 1. rewrite !Z.mul_1_r.
        destruct (Z.ltb_spec word 8388608); lia.
      * rewrite Ex. rewrite Z.div_mul by (apply Z.pow_nonzero; lia). destruct (Z.ltb_spec word 8388608); lia.
    + replace (size - 1) with (2 + (size - 3)) by ring. rewrite Z.pow_add_r by lia. rewrite Ex. nia.
    + replace size with (3 + (size - 3)) at 1 by ring. rewrite Z.pow_add_r by lia. rewrite Ex. nia.
  - assert (Hm : (if size - 1 <=? 3 then x * 256 ^ (3 - (size - 1)) else x / 256 ^ (size - 1 - 3)) = word * 256).
    { rewrite Ex. destruct (Z.leb_spec (size - 1) 3).
      - rewrite <- Z.mul_assoc, <- Z.pow_add_r by lia. now replace (size - 3 + (3 - (size - 1))) with 1 by ring.
      - replace (size - 3) with (1 + (size - 1 - 3)) by ring. rewrite Z.pow_add_r, Z.mul_assoc by lia.
        apply Z.div_mul. apply Z.pow_nonzero; lia. }
    rewrite (Huniq (size - 1)); [|split|lia].
    + rewrite Hm, Z.div_mul by lia. destruct (Z.ltb_spec (word * 256) 8388608); lia.
    + replace (size - 1 - 1) with (1 + (size - 3)) by ring. rewrite Z.pow_add_r by lia. rewrite Ex. nia.
    + replace (size - 1) with (2 + (size - 3)) by ring. rewrite Z.pow_add_r by lia. rewrite Ex. nia.
Qed.

(** The encoding of [z] is a word [(size, word)] whose value is [z] with its low
    bytes cleared; when bytes are cleared the mantissa is normalised. *)
Lemma compact_spec_fields z :
  0 <= z < 256 ^ 32 ->
  exists size word, compact_spec z = size * 16777216 + word
  /\ 0 <= size <= 33 /\ 0 <= word < 8388608
  /\ (size <= 3 -> word / 256 ^ (3 - size) = z)
  /\ (3 < size -> word = z / 256 ^ (size - 3) /\ 32768 <= word).
Proof.
  intros Hz. destruct (mantissa_bounds z) as [M Mp]; [lia|].
  pose proof (byte_length_nonneg z (proj1 Hz)) as B0.
  pose proof (byte_length_le z 32 (proj1 Hz) ltac:(lia) (proj2 Hz)) as B32.
  unfold compact_spec, mantissa in *. destruct (Z.leb_spec (byte_length z) 3) as [Hle|Hgt].
  - assert (HP : 0 < 256 ^ (3 - byte_length z)) by (apply Z.pow_pos_nonneg; lia).
    set (m := z * 256 ^ (3 - byte_length z)) in *. destruct (Z.ltb_spec m 8388608) as [Hm|Hm].
    + exists (byte_length z), m. repeat split; try lia. intros _. apply Z.div_mul. lia.
    + exists (byte_length z + 1), (m / 256).
      assert (Hd : 32768 <= m / 256 < 65536)
        by (split; [apply Z.div_le_lower_bound|apply Z.div_lt_upper_bound]; lia).
      repeat split; try lia.
      * intros Hs. rewrite Z.div_div by (try apply Z.pow_pos_nonneg; lia).
        unfold m. change 256 with (256 ^ 1) at 2. rewrite <- Z.pow_add_r by lia.
        replace (1 + (3 - (byte_length z + 1))) with (3 - byte_length z) by ring. apply Z.div_mul. lia.
      * unfold m. replace (byte_length z) with 3 by lia. cbn. now rewrite Z.mul_1_r.
  - set (m := z / 256 ^ (byte_length z - 3)) in *.
    assert (HP : 0 < 256 ^ (byte_length z - 3)) by (apply Z.pow_pos_nonneg; lia).
    destruct (Z.eq_dec z 0) as [E|E]; [rewrite E, byte_length_0 in Hgt; lia|].
    specialize (Mp ltac:(lia)). destruct (Z.ltb_spec m 8388608) as [Hm|Hm].
    + exists (byte_length z), m. repeat split; lia.
    + exists (byte_length z + 1), (m / 256).
      assert (Hd : 32768 <= m / 256 < 65536)
        by (split; [apply Z.div_le_lower_bound|apply Z.div_lt_upper_bound]; lia).
      repeat split; try lia. unfold m. rewrite Z.div_div by lia.
      f_equal. change 256 with (256 ^ 1) at 2. rewrite <- Z.pow_add_r by lia. f_equal. lia.
Qed.

End Values.

(** Discharge [wf256] of a list of literal words. *)
Ltac wf256_concrete :=
  split; [reflexivity|];
  match goal with |- words ?l => let l' := eval vm_compute in l in change (words l') end;
  repeat (apply Forall_cons; [unfold is_u32, two32; lia|]); apply Forall_nil.

Lemma modulus_256 : modulus WIDTH = 2 ^ 256.
Proof. reflexivity. Qed.

#[export] Hint Resolve is_u32_0 words_zero : hydra.

(** ** Properties *)
Section Properties.
Import BaseUint.

(** The word-level operators of [arith_uint256] compute in the ring of
    integers modulo 2^256: addition, subtraction, negation, increment,
    decrement and both multiplications give the wrapped result, with every word
    again in range. *)
Theorem arith256_ring (a b : list Z) (b32 : Z) :
  wf256 a -> wf256 b -> is_u32 b32 ->
  (val (op_add a b) = (val a + val b) mod 2 ^ 256 /\ wf256 (op_add a b))
  /\ (val (op_sub a b) = (val a - val b) mod 2 ^ 256 /\ wf256 (op_sub a b))
  /\ (val (op_neg a) = (- val a) mod 2 ^ 256 /\ wf256 (op_neg a))
  /\ (val (op_incr a) = (val a + 1) mod 2 ^ 256 /\ wf256 (op_incr a))
  /\ (val (op_decr a) = (val a - 1) mod 2 ^ 256 /\ wf256 (op_decr a))
  /\ (val (op_mul a b) = (val a * val b) mod 2 ^ 256 /\ wf256 (op_mul a b))
  /\ (val (op_mul32 a b32) = (val a * b32) mod 2 ^ 256 /\ wf256 (op_mul32 a b32)).
Proof.
  intros [La Wa] [Lb Wb] H32. rewrite <- modulus_256. unfold wf256. rewrite <- La.
  assert (L : length a = length b) by congruence.
  pose proof (op_add_spec a b Wa Wb L). pose proof (op_sub_spec a b Wa Wb L).
  pose proof (op_neg_spec a Wa). pose proof (op_incr_spec a Wa). pose proof (op_decr_spec a Wa).
  pose proof (op_mul_spec a b Wa Wb L). pose proof (op_mul32_spec a b32 Wa H32). tauto.
Qed.

Lemma arith256_ring_witness :
  val (op_sub (of_u64 WIDTH 5) (of_u64 WIDTH 7)) = 2 ^ 256 - 2
  /\ val (op_mul (of_u64 WIDTH 4294967296) (of_u64 WIDTH 4294967297)) = 4294967296 * 4294967297.
Proof.
  destruct (arith256_ring (of_u64 WIDTH 5) (of_u64 WIDTH 7) 3) as (_ & [E _] & _);
    [wf256_concrete..|unfold is_u32, two32; lia|].
  destruct (arith256_ring (of_u64 WIDTH 4294967296) (of_u64 WIDTH 4294967297) 3)
    as (_ & _ & _ & _ & _ & [F _] & _); [wf256_concrete..|unfold is_u32, two32; lia|].
  split; [rewrite E|rewrite F]; reflexivity.
Defined.

(** [operator/=] is integer division: it throws exactly when the divisor is
    zero, and otherwise the shift-and-subtract loop ends with the quotient
    [val a / val b], in range. *)
Theorem arith256_div (a b : list Z) :
  wf256 a -> wf256 b ->
  if val b =? 0 then op_div a b = None
  else exists q, op_div a b = Some q /\ val q = val a / val b /\ wf256 q.
Proof.
  intros [La Wa] [Lb Wb]. pose proof (op_div_spec a b Wa Wb ltac:(congruence)) as H.
  destruct (val b =? 0); [assumption|]. destruct H as (q & E & Hq & Hw & Hl).
  exists q. unfold wf256. rewrite <- La. auto.
Qed.

Lemma arith256_div_witness :
  exists q, op_div [0; 0; 0; 1; 0; 0; 0; 0] (of_u64 WIDTH 10) = Some q
  /\ val q = 2 ^ 96 / 10.
Proof.
  destruct (arith256_div [0; 0; 0; 1; 0; 0; 0; 0] (of_u64 WIDTH 10)) as (q & E & V & _);
    [wf256_concrete..|].
  exists q. split; [exact E|rewrite V; reflexivity].
Defined.

(** The shifts and [bits()]: [operator<<=] multiplies by a power of two
    modulo 2^256, [operator>>=] divides, for every shift count (also 256 and
    more), and [bits()] is the position of the highest set bit plus one. *)
Theorem arith256_shift (a : list Z) (s : Z) :
  wf256 a -> 0 <= s ->
  (val (op_shl a s) = (val a * 2 ^ s) mod 2 ^ 256 /\ wf256 (op_shl a s))
  /\ (val (op_shr a s) = val a / 2 ^ s /\ wf256 (op_shr a s))
  /\ (val a = 0 /\ bits a = 0 \/ 2 ^ (bits a - 1) <= val a < 2 ^ bits a).
Proof.
  intros [La Wa] Hs. rewrite <- modulus_256. unfold wf256. rewrite <- La.
  pose proof (op_shl_spec a s Wa Hs). pose proof (op_shr_spec a s Wa Hs).
  rewrite bits_spec by assumption. pose proof (val_range a Wa).
  pose proof (bit_length_bounds (val a)) as Hb.
  split; [tauto|]. split; [tauto|].
  destruct (Z.eq_dec (val a) 0) as [E|]; [left; rewrite E; auto|].
  specialize (Hb ltac:(lia)). tauto.
Qed.

Lemma arith256_shift_witness :
  val (op_shl [4294967295; 0; 0; 0; 0; 0; 0; 1] 33) = 4294967295 * 2 ^ 33.
Proof.
  destruct (arith256_shift [4294967295; 0; 0; 0; 0; 0; 0; 1] 33) as ([E _] & _);
    [wf256_concrete|lia|]. rewrite E. reflexivity.
Defined.

Lemma compact_truncated (a : list Z) :
  wf256 a ->
  exists c b, GetCompact a false = Some c /\ is_u32 c /\ SetCompact c = (b, false, false)
  /\ wf256 b /\ val b <= val a /\ (val a - val b) * 2 ^ 15 <= val a
  /\ GetCompact b false = Some c.
Proof.
  intros Hwf. pose proof Hwf as [La Wa]. pose proof (val_range a Wa) as R. rewrite La in R.
  destruct (compact_spec_fields (val a) R) as (size & word & Ec & Hs & Hw & Hsmall & Hbig).
  set (c := compact_spec (val a)) in *.
  assert (Hc : is_u32 c) by (unfold is_u32, two32; lia).
  assert (Ediv : c / 16777216 = size) by (symmetry; apply Z.div_unique with word; lia).
  assert (Emod : c mod 8388608 = word) by (symmetry; apply Z.mod_unique with (2 * size); lia).
  assert (Ebit : Z.testbit c 23 = false).
  { rewrite Z.testbit_false by lia. change (2 ^ 23) with 8388608.
    replace (c / 8388608) with (2 * size) by (apply Z.div_unique with word; lia).
    rewrite Z.mul_comm. apply Z.mod_mul. lia. }
  pose proof (SetCompact_spec c Hc) as HS. destruct (SetCompact c) as [[b neg] ovf] eqn:ES.
  destruct HS as (Wb & Vb & Eo & En). rewrite Ebit, andb_false_r in En.
  assert (Hv : compact_value c <= val a /\ (val a - compact_value c) * 2 ^ 15 <= val a
               /\ 0 <= compact_value c /\ compact_spec (compact_value c) = c).
  { unfold compact_value. rewrite Ediv, Emod. destruct (Z.leb_spec size 3) as [Hle|Hgt].
    - rewrite Hsmall by assumption. rewrite Z.sub_diag. repeat split; lia || reflexivity.
    - destruct (Hbig Hgt) as [Eword Hn]. rewrite compact_spec_normal by lia.
      assert (HP : 0 < 256 ^ (size - 3)) by (apply Z.pow_pos_nonneg; lia).
      pose proof (Z.div_mod (val a) (256 ^ (size - 3)) ltac:(lia)) as Hdm.
      pose proof (Z.mod_pos_bound (val a) (256 ^ (size - 3)) ltac:(lia)).
      rewrite <- Eword in Hdm. repeat split; nia. }
  destruct Hv as (V1 & V2 & V3 & V4). rewrite Z.mod_small in Vb by lia.
  destruct (Z.leb_spec (modulus WIDTH) (compact_value c)); [lia|].
  exists c, b. subst neg ovf. rewrite !GetCompact_spec, Vb, V4 by assumption.
  repeat split; try apply Hc; try apply Wb; assumption.
Qed.

(** C29: encoding a 256-bit number in compact form never fails an assertion and
    rounds it down: decoding gives a number with no flag set that is at most the
    original, loses at most one part in 2^15 of it, and encodes to the same
    word again. *)
Theorem compact_truncates (a : list Z) :
  wf256 a ->
  exists c b, GetCompact a false = Some c /\ is_u32 c /\ SetCompact c = (b, false, false)
  /\ wf256 b /\ val b <= val a /\ (val a - val b) * 2 ^ 15 <= val a
  /\ GetCompact b false = Some c.
Proof. apply compact_truncated. Qed.

Lemma compact_truncates_witness :
  exists c b, GetCompact [2309737967; 19088743; 0; 0; 0; 0; 0; 0] false = Some c
  /\ SetCompact c = (b, false, false) /\ val b <= 19088743 * two32 + 2309737967.
Proof.
  destruct (compact_truncates [2309737967; 19088743; 0; 0; 0; 0; 0; 0]) as (c & b & E1 & _ & E2 & _ & Hle & _);
    [wf256_concrete|].
  exists c, b. repeat split; [exact E1|exact E2|exact Hle].
Defined.

(** What [SetCompact] stores and flags, for every 32-bit word: the value is
    the denoted number [mantissa * 256^(size-3)] modulo 2^256, [fOverflow] is
    set exactly when that number needs more than 256 bits, [fNegative] exactly
    when it is not zero and the sign bit is set. *)
Theorem SetCompact_flags (c : Z) :
  is_u32 c ->
  let '(b, fNegative, fOverflow) := SetCompact c in
  wf256 b /\ val b = compact_value c mod 2 ^ 256
  /\ fOverflow = (2 ^ 256 <=? compact_value c)
  /\ fNegative = (negb (compact_value c =? 0) && Z.testbit c 23)%bool.
Proof. rewrite <- modulus_256. apply SetCompact_spec. Qed.

Lemma SetCompact_flags_witness :
  is_u32 587268095 /\ snd (SetCompact 587268095) = true.
Proof.
  assert (H : is_u32 587268095) by (unfold is_u32, two32; lia).
  split; [exact H|]. pose proof (SetCompact_flags 587268095 H) as F.
  destruct (SetCompact 587268095) as [[b neg] ovf] in *. destruct F as (_ & _ & E & _).
  cbn [snd]. rewrite E. reflexivity.
Defined.

End Properties.

(** ** The two 256-bit types *)

Lemma read_words_flat_map a :
  words a -> read_words (length a) (flat_map WriteLE32 a) = a.
Proof.
  induction 1 as [|w a Hw Ha IH]; [reflexivity|].
  cbn [length flat_map read_words]. unfold ReadLE32. change (WriteLE32 w) with (le_bytes 4 w).
  rewrite !firstn_app, skipn_app, length_le_bytes, Nat.sub_diag, firstn_0, app_nil_r.
  rewrite (firstn_all2 (le_bytes 4 w)) by (rewrite length_le_bytes; lia).
  rewrite (skipn_all2 (le_bytes 4 w)) by (rewrite length_le_bytes; lia).
  cbn [app skipn Nat.sub]. rewrite IH, le_value_bytes. f_equal. apply Z.mod_small. exact Hw.
Qed.

Lemma read_words_value n b :
  bytes b -> length b = (4 * n)%nat -> val (read_words n b) = le_value b /\ words (read_words n b)
  /\ length (read_words n b) = n.
Proof.
  revert b. induction n as [|n IH]; intros b Hb Hl.
  - destruct b; [|discriminate]. repeat constructor.
  - destruct b as [|b0 [|b1 [|b2 [|b3 b]]]]; cbn [length] in Hl; try lia.
    inversion Hb as [|? ? H0 T0]; subst. inversion T0 as [|? ? H1 T1]; subst.
    inversion T1 as [|? ? H2 T2]; subst. inversion T2 as [|? ? H3 T3]; subst.
    destruct (IH b T3 ltac:(lia)) as (IHv & IHw & IHl).
    cbn [read_words firstn skipn val le_value length]. unfold ReadLE32. cbn [firstn le_value].
    rewrite IHv. unfold is_u8, two32 in *. repeat split; [lia| |congruence].
    constructor; [unfold is_u32, two32; lia|assumption].
Qed.

(** The arithmetic value of a 256-bit blob is its little-endian value, and the
    two conversions are inverse to each other. *)
Lemma UintToArith256_spec b :
  bytes b -> length b = 32%nat ->
  val (UintToArith256 b) = le_value b /\ wf256 (UintToArith256 b).
Proof.
  intros Hb Hl. destruct (read_words_value WIDTH b Hb Hl) as (Ev & Ew & El).
  repeat split; assumption.
Qed.

Lemma UintToArith256_ArithToUint256 a : wf256 a -> UintToArith256 (ArithToUint256 a) = a.
Proof.
  intros [Hl Ha]. unfold UintToArith256. rewrite <- Hl. now apply read_words_flat_map.
Qed.
