(* ===== verification/Script.v ===== *)
(** * Scripts: [src/src/script/script.h], [src/src/script/script.cpp]

    A [CScript] is its list of bytes; an iterator into it is the list of the
    bytes that are left.  Module [Num] is [CScriptNum], the numbers on the
    interpreter's stack; module [Scr] holds the decoder [GetScriptOp] and what
    is built on it: pushing data, counting signature operations, recognising
    output templates, and the parameters of contract calls. *)
From Stdlib Require Import ZArith Lia List Bool.
From S2P Require Import Prelude.
Import ListNotations.

(** ** Opcodes *)

Definition OP_0 : Z := 0.
Definition OP_FALSE : Z := OP_0.
Definition OP_PUSHDATA1 : Z := 76.
Definition OP_PUSHDATA2 : Z := 77.
Definition OP_PUSHDATA4 : Z := 78.
Definition OP_1NEGATE : Z := 79.
Definition OP_RESERVED : Z := 80.
Definition OP_1 : Z := 81.
Definition OP_TRUE : Z := OP_1.
Definition OP_2 : Z := 82.
Definition OP_3 : Z := 83.
Definition OP_4 : Z := 84.
Definition OP_5 : Z := 85.
Definition OP_6 : Z := 86.
Definition OP_7 : Z := 87.
Definition OP_8 : Z := 88.
Definition OP_9 : Z := 89.
Definition OP_10 : Z := 90.
Definition OP_11 : Z := 91.
Definition OP_12 : Z := 92.
Definition OP_13 : Z := 93.
Definition OP_14 : Z := 94.
Definition OP_15 : Z := 95.
Definition OP_16 : Z := 96.
Definition OP_NOP : Z := 97.
Definition OP_VER : Z := 98.
Definition OP_IF : Z := 99.
Definition OP_NOTIF : Z := 100.
Definition OP_VERIF : Z := 101.
Definition OP_VERNOTIF : Z := 102.
Definition OP_ELSE : Z := 103.
Definition OP_ENDIF : Z := 104.
Definition OP_VERIFY : Z := 105.
Definition OP_RETURN : Z := 106.
Definition OP_TOALTSTACK : Z := 107.
Definition OP_FROMALTSTACK : Z := 108.
Definition OP_2DROP : Z := 109.
Definition OP_2DUP : Z := 110.
Definition OP_3DUP : Z := 111.
Definition OP_2OVER : Z := 112.
Definition OP_2ROT : Z := 113.
Definition OP_2SWAP : Z := 114.
Definition OP_IFDUP : Z := 115.
Definition OP_DEPTH : Z := 116.
Definition OP_DROP : Z := 117.
Definition OP_DUP : Z := 118.
Definition OP_NIP : Z := 119.
Definition OP_OVER : Z := 120.
Definition OP_PICK : Z := 121.
Definition OP_ROLL : Z := 122.
Definition OP_ROT : Z := 123.
Definition OP_SWAP : Z := 124.
Definition OP_TUCK : Z := 125.
Definition OP_CAT : Z := 126.
Definition OP_SUBSTR : Z := 127.
Definition OP_LEFT : Z := 128.
Definition OP_RIGHT : Z := 129.
Definition OP_SIZE : Z := 130.
Definition OP_INVERT : Z := 131.
Definition OP_AND : Z := 132.
Definition OP_OR : Z := 133.
Definition OP_XOR : Z := 134.
Definition OP_EQUAL : Z := 135.
Definition OP_EQUALVERIFY : Z := 136.
Definition OP_RESERVED1 : Z := 137.
Definition OP_RESERVED2 : Z := 138.
Definition OP_1ADD : Z := 139.
Definition OP_1SUB : Z := 140.
Definition OP_2MUL : Z := 141.
Definition OP_2DIV : Z := 142.
Definition OP_NEGATE : Z := 143.
Definition OP_ABS : Z := 144.
Definition OP_NOT : Z := 145.
Definition OP_0NOTEQUAL : Z := 146.
Definition OP_ADD : Z := 147.
Definition OP_SUB : Z := 148.
Definition OP_MUL : Z := 149.
Definition OP_DIV : Z := 150.
Definition OP_MOD : Z := 151.
Definition OP_LSHIFT : Z := 152.
Definition OP_RSHIFT : Z := 153.
Definition OP_BOOLAND : Z := 154.
Definition OP_BOOLOR : Z := 155.
Definition OP_NUMEQUAL : Z := 156.
Definition OP_NUMEQUALVERIFY : Z := 157.
Definition OP_NUMNOTEQUAL : Z := 158.
Definition OP_LESSTHAN : Z := 159.
Definition OP_GREATERTHAN : Z := 160.
Definition OP_LESSTHANOREQUAL : Z := 161.
Definition OP_GREATERTHANOREQUAL : Z := 162.
Definition OP_MIN : Z := 163.
Definition OP_MAX : Z := 164.
Definition OP_WITHIN : Z := 165.
Definition OP_RIPEMD160 : Z := 166.
Definition OP_SHA1 : Z := 167.
Definition OP_SHA256 : Z := 168.
Definition OP_HASH160 : Z := 169.
Definition OP_HASH256 : Z := 170.
Definition OP_CODESEPARATOR : Z := 171.
Definition OP_CHECKSIG : Z := 172.
Definition OP_CHECKSIGVERIFY : Z := 173.
Definition OP_CHECKMULTISIG : Z := 174.
Definition OP_CHECKMULTISIGVERIFY : Z := 175.
Definition OP_NOP1 : Z := 176.
Definition OP_CHECKLOCKTIMEVERIFY : Z := 177.
Definition OP_NOP2 : Z := OP_CHECKLOCKTIMEVERIFY.
Definition OP_CHECKSEQUENCEVERIFY : Z := 178.
Definition OP_NOP3 : Z := OP_CHECKSEQUENCEVERIFY.
Definition OP_NOP4 : Z := 179.
Definition OP_NOP5 : Z := 180.
Definition OP_NOP6 : Z := 181.
Definition OP_NOP7 : Z := 182.
Definition OP_NOP8 : Z := 183.
Definition OP_NOP9 : Z := 184.
Definition OP_NOP10 : Z := 185.
Definition OP_CREATE : Z := 193.
Definition OP_CALL : Z := 194.
Definition OP_SPEND : Z := 195.
Definition OP_COINSTAKE_CALL : Z := 196.
Definition OP_SENDER : Z := 197.
Definition OP_ADDRESS_TYPE : Z := 242.
Definition OP_ADDRESS : Z := 243.
Definition OP_SCRIPT_SIG : Z := 244.
Definition OP_GAS_PRICE : Z := 245.
Definition OP_VERSION : Z := 246.
Definition OP_GAS_LIMIT : Z := 247.
Definition OP_DATA : Z := 248.
Definition OP_SMALLINTEGER : Z := 250.
Definition OP_PUBKEYS : Z := 251.
Definition OP_PUBKEYHASH : Z := 253.
Definition OP_PUBKEY : Z := 254.
Definition OP_INVALIDOPCODE : Z := 255.

Definition MAX_OPCODE : Z := OP_NOP10.
Definition MAX_SCRIPT_ELEMENT_SIZE : Z := 128000.
Definition MAX_OPS_PER_SCRIPT : Z := 201.
Definition MAX_PUBKEYS_PER_MULTISIG : Z := 20.
Definition MAX_SCRIPT_SIZE : Z := 129000.
Definition MAX_BASE_SCRIPT_SIZE : Z := 10000.
Definition MAX_STACK_SIZE : Z := 1000.
Definition LOCKTIME_THRESHOLD : Z := 500000000.

(** [vch.back()]; the code calls it on non-empty vectors only. *)
Definition back (vch : list Z) : Z := last vch 0.

Definition size {A : Type} (l : list A) : Z := Z.of_nat (length l).

(** ** Script numbers *)
Module Num.

(** [while(absvalue)]: at most eight rounds for a [uint64_t]. *)
Fixpoint abs_bytes (fuel : nat) (absvalue : Z) : list Z :=
  match fuel with
  | O => []
  | S fuel' =>
      if absvalue =? 0 then []
      else Z.land absvalue 255 :: abs_bytes fuel' (Z.shiftr absvalue 8)
  end.

(** [result.back() = f(result.back())]. *)
Definition map_back (f : Z -> Z) (l : list Z) : list Z :=
  removelast l ++ [f (back l)].

Definition serialize (value : Z) : list Z :=
  if value =? 0 then []
  else
    let neg := value <? 0 in
    let absvalue := u64 (if neg then - value else value) in
    let result := abs_bytes 8 absvalue in
    if negb (Z.land (back result) 128 =? 0)
    then result ++ [if neg then 128 else 0]
    else if neg then map_back (fun b => Z.lor b 128) result
    else result.

(** [result |= static_cast<int64_t>(vch[i]) << 8*i]. *)
Fixpoint or_bytes (i : Z) (vch : list Z) (result : Z) : Z :=
  match vch with
  | [] => result
  | b :: vch' => or_bytes (i + 1) vch' (Z.lor result (Z.shiftl b (8 * i)))
  end.

Definition set_vch (vch : list Z) : Z :=
  match vch with
  | [] => 0
  | _ =>
      let result := i64 (or_bytes 0 vch 0) in
      if negb (Z.land (back vch) 128 =? 0)
      then - i64 (Z.land (u64 result)
                    (u64 (Z.lnot (Z.shiftl 128 (8 * (size vch - 1))))))
      else result
  end.

Definition nDefaultMaxNumSize : Z := 4.

(** The test for an encoding with a redundant last byte. *)
Definition minimally_encoded (vch : list Z) : bool :=
  if (0 <? size vch) then
    if Z.land (back vch) 127 =? 0 then
      if ((size vch <=? 1) || (Z.land (nth (length vch - 2) vch 0) 128 =? 0))%bool
      then false else true
    else true
  else true.

(** [CScriptNum(vch, fRequireMinimal, nMaxNumSize)]; [None] is [scriptnum_error]. *)
Definition of_vch (vch : list Z) (fRequireMinimal : bool) (nMaxNumSize : Z) : option Z :=
  if nMaxNumSize <? size vch then None
  else if (fRequireMinimal && negb (minimally_encoded vch))%bool then None
  else Some (set_vch vch).

Definition getint (m_value : Z) : Z :=
  if 2147483647 <? m_value then 2147483647
  else if m_value <? -2147483648 then -2147483648
  else m_value.

Definition getvch (m_value : Z) : list Z := serialize m_value.

(** [vch_to_uint64]; [None] is [scriptnum_error]. *)
Definition vch_to_uint64 (vch : list Z) : option Z :=
  if 8 <? size vch then None
  else match vch with
       | [] => Some 0
       | _ => if negb (Z.land (back vch) 128 =? 0) then None
              else Some (u64 (or_bytes 0 vch 0))
       end.

End Num.

(** ** Scripts *)
Module Scr.

(** [operator<<(const std::vector<unsigned char>& b)]. *)
Definition push_vch (script b : list Z) : list Z :=
  script ++
  (if size b <? OP_PUSHDATA1 then [u8 (size b)]
   else if size b <=? 255 then [OP_PUSHDATA1; u8 (size b)]
   else if size b <=? 65535 then OP_PUSHDATA2 :: WriteLE16 (size b)
   else OP_PUSHDATA4 :: WriteLE32 (size b)) ++ b.

(** [operator<<(opcodetype)]; [None] is [std::runtime_error]. *)
Definition push_opcode (script : list Z) (opcode : Z) : option (list Z) :=
  if ((opcode <? 0) || (255 <? opcode))%bool then None
  else Some (script ++ [u8 opcode]).

Definition push_int64 (script : list Z) (n : Z) : list Z :=
  if ((n =? -1) || ((1 <=? n) && (n <=? 16)))%bool then script ++ [u8 (n + (OP_1 - 1))]
  else if n =? 0 then script ++ [OP_0]
  else push_vch script (Num.serialize n).

(** [GetScriptOp(pc, end, opcodeRet, pvchRet)]: the bytes left after the
    operation, its opcode and its data; [None] where it returns [false]. *)
Definition GetScriptOp (pc : list Z) : option (list Z * Z * list Z) :=
  match pc with
  | [] => None
  | opcode :: pc =>
      if opcode <=? OP_PUSHDATA4 then
        let operand :=
          if opcode <? OP_PUSHDATA1 then Some (opcode, pc)
          else if opcode =? OP_PUSHDATA1 then
            if size pc <? 1 then None else Some (nth 0 pc 0, skipn 1 pc)
          else if opcode =? OP_PUSHDATA2 then
            if size pc <? 2 then None else Some (ReadLE16 pc, skipn 2 pc)
          else
            if size pc <? 4 then None else Some (ReadLE32 pc, skipn 4 pc) in
        match operand with
        | None => None
        | Some (nSize, pc) =>
            if u32 (size pc) <? nSize then None
            else Some (skipn (Z.to_nat nSize) pc, opcode, firstn (Z.to_nat nSize) pc)
        end
      else Some (pc, opcode, [])
  end.

(** The operations of a script in order, each with its opcode, its data and the
    bytes left after it, up to the end of the script or to the first one that
    [GetOp] refuses; the flag says that the end was reached. *)
Fixpoint ops_from (fuel : nat) (pc : list Z) : list (Z * list Z * list Z) * bool :=
  match pc with
  | [] => ([], true)
  | _ =>
      match fuel with
      | O => ([], false)
      | S fuel' =>
          match GetScriptOp pc with
          | None => ([], false)
          | Some (pc', opcode, vch) =>
              let '(l, ok) := ops_from fuel' pc' in ((opcode, vch, pc') :: l, ok)
          end
      end
  end.

Definition ops (script : list Z) : list (Z * list Z * list Z) * bool :=
  ops_from (length script) script.

Definition opcode_of (o : Z * list Z * list Z) : Z := fst (fst o).
Definition data_of (o : Z * list Z * list Z) : list Z := snd (fst o).
Definition rest_of (o : Z * list Z * list Z) : list Z := snd o.

(** [DecodeOP_N] and [EncodeOP_N]; [None] is a failed [assert]. *)
Definition DecodeOP_N (opcode : Z) : option Z :=
  if opcode =? OP_0 then Some 0
  else if ((OP_1 <=? opcode) && (opcode <=? OP_16))%bool then Some (opcode - (OP_1 - 1))
  else None.

Definition EncodeOP_N (n : Z) : option Z :=
  if negb ((0 <=? n) && (n <=? 16))%bool then None
  else if n =? 0 then Some OP_0 else Some (OP_1 + n - 1).

Definition Find (script : list Z) (op : Z) : Z :=
  size (filter (fun o => opcode_of o =? op) (fst (ops script))).

(** The loop of [GetSigOpCount(bool)]. *)
Fixpoint count_sigops (fAccurate : bool) (lastOpcode : Z) (l : list (Z * list Z * list Z)) (n : Z) : Z :=
  match l with
  | [] => n
  | o :: l' =>
      let opcode := opcode_of o in
      let n :=
        if ((opcode =? OP_CHECKSIG) || (opcode =? OP_CHECKSIGVERIFY))%bool then u32 (n + 1)
        else if ((opcode =? OP_CHECKMULTISIG) || (opcode =? OP_CHECKMULTISIGVERIFY))%bool then
          if (fAccurate && (OP_1 <=? lastOpcode) && (lastOpcode <=? OP_16))%bool
          then u32 (n + (lastOpcode - (OP_1 - 1)))
          else u32 (n + MAX_PUBKEYS_PER_MULTISIG)
        else n in
      count_sigops fAccurate opcode l' n
  end.

Definition GetSigOpCount (script : list Z) (fAccurate : bool) : Z :=
  count_sigops fAccurate OP_INVALIDOPCODE (fst (ops script)) 0.

Definition at_ (script : list Z) (i : nat) : Z := nth i script 0.

Definition IsPayToScriptHash (script : list Z) : bool :=
  ((size script =? 23) && (at_ script 0 =? OP_HASH160) && (at_ script 1 =? 20)
   && (at_ script 22 =? OP_EQUAL))%bool.

Definition IsPayToPubkey (script : list Z) : bool :=
  if ((size script =? 35) && (at_ script 0 =? 33) && (at_ script 34 =? OP_CHECKSIG)
      && ((at_ script 1 =? 2) || (at_ script 1 =? 3)))%bool then true
  else if ((size script =? 67) && (at_ script 0 =? 65) && (at_ script 66 =? OP_CHECKSIG)
      && (at_ script 1 =? 4))%bool then true
  else false.

Definition IsPayToPubkeyHash (script : list Z) : bool :=
  ((size script =? 25) && (at_ script 0 =? OP_DUP) && (at_ script 1 =? OP_HASH160)
   && (at_ script 2 =? 20) && (at_ script 23 =? OP_EQUALVERIFY)
   && (at_ script 24 =? OP_CHECKSIG))%bool.

Definition IsPayToWitnessScriptHash (script : list Z) : bool :=
  ((size script =? 34) && (at_ script 0 =? OP_0) && (at_ script 1 =? 32))%bool.

Definition IsPayToWitnessPubkeyHash (script : list Z) : bool :=
  ((size script =? 22) && (at_ script 0 =? OP_0) && (at_ script 1 =? 20))%bool.

(** The version and the program where it returns [true]. *)
Definition IsWitnessProgram (script : list Z) : option (Z * list Z) :=
  if ((size script <? 4) || (42 <? size script))%bool then None
  else if (negb (at_ script 0 =? OP_0)
           && ((at_ script 0 <? OP_1) || (OP_16 <? at_ script 0)))%bool then None
  else if at_ script 1 + 2 =? size script then
    match DecodeOP_N (at_ script 0) with
    | Some version => Some (version, skipn 2 script)
    | None => None
    end
  else None.

Definition IsPushOnly (script : list Z) : bool :=
  let '(l, ok) := ops script in (forallb (fun o => opcode_of o <=? OP_16) l && ok)%bool.

(** [GetSigOpCount(const CScript& scriptSig)]: the accurate count of the script
    that [scriptSig] pushes last. *)
Definition GetSigOpCountP2SH (script scriptSig : list Z) : Z :=
  if negb (IsPayToScriptHash script) then GetSigOpCount script true
  else
    let '(l, ok) := ops scriptSig in
    if negb ok then 0
    else if existsb (fun o => OP_16 <? opcode_of o) l then 0
    else GetSigOpCount (last (map data_of l) []) true.

Definition HasValidOps (script : list Z) : bool :=
  let '(l, ok) := ops script in
  (forallb (fun o => (opcode_of o <=? MAX_OPCODE)
              && (size (data_of o) <=? MAX_SCRIPT_ELEMENT_SIZE))%bool l && ok)%bool.

Definition IsUnspendable (script : list Z) : bool :=
  (((0 <? size script) && (at_ script 0 =? OP_RETURN)) || (MAX_SCRIPT_SIZE <? size script))%bool.

Definition HasOpCreate (script : list Z) : bool := Find script OP_CREATE =? 1.
Definition HasOpCoinstakeCall (script : list Z) : bool := Find script OP_COINSTAKE_CALL =? 1.
Definition HasOpCall (script : list Z) : bool := Find script OP_CALL =? 1.
Definition HasOpSpend (script : list Z) : bool :=
  ((size script =? 1) && (at_ script 0 =? OP_SPEND))%bool.
Definition HasOpSender (script : list Z) : bool := Find script OP_SENDER =? 1.

(** The loop of [ReplaceParam]: [opcodes] holds, first to last, what was left of
    the script at the start of each operation seen so far.  [CScript(begin(),
    it)] is the script without the bytes left at [it]. *)
Fixpoint replace_loop (script : list Z) (findOp : Z) (posBefore : nat) (vchParam : list Z)
    (opcodes : list (list Z)) (l : list (Z * list Z * list Z)) : option (list Z) :=
  match l with
  | [] => None
  | o :: l' =>
      if opcode_of o =? findOp then
        if Nat.ltb (posBefore + 1) (length opcodes) then
          let firstPart := nth (length opcodes - 1 - posBefore) opcodes [] in
          let secondPart := nth (length opcodes - posBefore) opcodes [] in
          Some (push_vch (firstn (length script - length firstPart) script) vchParam
                ++ secondPart)
        else None
      else replace_loop script findOp posBefore vchParam (opcodes ++ [rest_of o]) l'
  end.

(** [ReplaceParam]: the new script where it returns [true]. *)
Definition ReplaceParam (script : list Z) (findOp posBefore : Z) (vchParam : list Z) : option (list Z) :=
  if posBefore <? 0 then None
  else replace_loop script findOp (Z.to_nat posBefore) vchParam [script] (fst (ops script)).

Fixpoint find_loop (findOp : Z) (posBefore : nat) (opcodes : list (list Z))
    (l : list (Z * list Z * list Z)) : option (list Z) :=
  match l with
  | [] => None
  | o :: l' =>
      let opcodes := opcodes ++ [data_of o] in
      if opcode_of o =? findOp then
        if Nat.ltb (posBefore + 1) (length opcodes)
        then Some (nth (length opcodes - 1 - posBefore) opcodes [])
        else None
      else find_loop findOp posBefore opcodes l'
  end.

Definition FindParam (script : list Z) (findOp posBefore : Z) : option (list Z) :=
  if posBefore <? 0 then None
  else find_loop findOp (Z.to_nat posBefore) [] (fst (ops script)).

Definition GetData (script : list Z) : option (list Z) :=
  if HasOpCreate script then FindParam script OP_CREATE 1
  else if HasOpCall script then FindParam script OP_CALL 2
  else None.

Definition SetData (script data : list Z) : option (list Z) :=
  if HasOpCreate script then ReplaceParam script OP_CREATE 1 data
  else if HasOpCall script then ReplaceParam script OP_CALL 2 data
  else None.

Definition UpdateSenderSig (script scriptSig : list Z) : option (list Z) :=
  ReplaceParam script OP_SENDER 1 scriptSig.

Definition WithoutSenderSig (script : list Z) : list Z :=
  match UpdateSenderSig script [] with
  | Some scriptRet => scriptRet
  | None => script
  end.

End Scr.

(** ** Script numbers: lemmas *)
Section NumLemmas.
Import Num.

Lemma or_bytes_value i vch r :
  bytes vch -> 0 <= i -> 0 <= r < 2 ^ (8 * i) ->
  or_bytes i vch r = r + 2 ^ (8 * i) * le_value vch.
Proof.
  intros Hb. revert i r. induction Hb as [|b vch Hb Hv IH]; intros i r Hi Hr; cbn [or_bytes le_value].
  - ring.
  - assert (E : Z.lor r (Z.shiftl b (8 * i)) = r + 2 ^ (8 * i) * b).
    { rewrite lor_add_disjoint; [rewrite Z.shiftl_mul_pow2 by lia; ring|].
      apply Z.bits_inj'. intros j Hj. rewrite Z.land_spec, Z.bits_0, Z.shiftl_spec by lia.
      destruct (Z.lt_ge_cases j (8 * i)).
      - rewrite (Z.testbit_neg_r b) by lia. apply andb_false_r.
      - now rewrite (testbit_small r (8 * i)) by lia. }
    rewrite E, IH; [|lia|].
    + replace (8 * (i + 1)) with (8 * i + 8) by ring. rewrite Z.pow_add_r by lia.
      change (2 ^ 8) with 256. ring.
    + replace (8 * (i + 1)) with (8 * i + 8) by ring. rewrite Z.pow_add_r by lia.
      change (2 ^ 8) with 256. unfold is_u8 in Hb. nia.
Qed.

Lemma or_bytes_le_value vch : bytes vch -> or_bytes 0 vch 0 = le_value vch.
Proof.
  intros Hb. rewrite or_bytes_value by (auto; cbn; lia).
  change (2 ^ (8 * 0)) with 1. ring.
Qed.

Lemma byte_shift b : 0 <= b -> Z.land b 255 = b mod 256 /\ Z.shiftr b 8 = b / 256.
Proof.
  intros Hb. change 255 with (Z.ones 8). rewrite Z.land_ones, Z.shiftr_div_pow2 by lia. auto.
Qed.

(** The bytes of a positive number: they denote it and the last is not zero. *)
Lemma abs_bytes_spec n x :
  0 < x < 256 ^ Z.of_nat n ->
  let r := abs_bytes n x in
  le_value r = x /\ bytes r /\ (length r <= n)%nat /\ r <> [] /\ 0 < back r.
Proof.
  revert x. induction n as [|n IH]; intros x Hx r; subst r; [cbn in Hx; lia|].
  cbn [abs_bytes]. destruct (Z.eqb_spec x 0); [lia|].
  destruct (byte_shift x) as [E1 E2]; [lia|]. rewrite E1, E2.
  rewrite Nat2Z.inj_succ, Z.pow_succ_r in Hx by lia.
  pose proof (Z.div_mod x 256 ltac:(lia)) as Hd. pose proof (Z.mod_pos_bound x 256 ltac:(lia)).
  destruct (Z.eq_dec (x / 256) 0) as [E0|E0].
  - rewrite E0. assert (Er : abs_bytes n 0 = []) by (destruct n; reflexivity). rewrite Er.
    cbn [le_value length back last]. unfold back. cbn [last].
    repeat split; try lia; [|discriminate]. repeat constructor; lia.
  - destruct (IH (x / 256)) as (I1 & I2 & I3 & I4 & I5).
    { split; [pose proof (Z.div_pos x 256); lia|apply Z.div_lt_upper_bound; lia]. }
    cbn [le_value length]. rewrite I1. repeat split; try lia; [|discriminate|].
    + constructor; [unfold is_u8; lia|assumption].
    + unfold back in *. destruct (abs_bytes n (x / 256)); [contradiction|]. exact I5.
Qed.

(** A non-empty byte list as its leading bytes and its last one. *)
Lemma le_value_snoc r b : le_value (r ++ [b]) = le_value r + 256 ^ size r * b.
Proof.
  unfold size. induction r as [|x r IH].
  { cbn [app le_value length]. change (Z.of_nat 0) with 0. rewrite Z.pow_0_r. ring. }
  cbn [app le_value length]. rewrite IH, Nat2Z.inj_succ, Z.pow_succ_r by lia. ring.
Qed.

Lemma snoc_inv (r : list Z) : r <> [] -> exists r' b, r = r' ++ [b].
Proof. intros H. exists (removelast r), (last r 0). now apply app_removelast_last. Qed.

Lemma back_snoc r b : back (r ++ [b]) = b.
Proof. apply last_last. Qed.

Lemma back_bytes r : bytes r -> is_u8 (back r).
Proof.
  unfold back. induction 1 as [|x r Hx Hr IH]; [unfold is_u8; cbn; lia|].
  destruct r; [exact Hx|exact IH].
Qed.

Lemma size_snoc (r : list Z) b : size (r ++ [b]) = size r + 1.
Proof. unfold size. rewrite length_app. cbn [length]. lia. Qed.

Lemma bytes_snoc r b : bytes (r ++ [b]) <-> bytes r /\ is_u8 b.
Proof.
  unfold bytes. rewrite Forall_app. split; intros [H1 H2]; split; auto.
  now inversion H2.
Qed.

Lemma sign_bit b : is_u8 b -> negb (Z.land b 128 =? 0) = (128 <=? b).
Proof.
  intros Hb. unfold is_u8 in Hb.
  assert (E : Z.land b 128 = if 128 <=? b then 128 else 0).
  { change 128 with (2 ^ 7) at 1. rewrite Z.land_comm.
    destruct (Z.leb_spec 128 b).
    - apply Z.bits_inj'. intros i Hi. rewrite Z.land_spec, Z.pow2_bits_eqb by lia.
      change 128 with (2 ^ 7). rewrite Z.pow2_bits_eqb by lia.
      destruct (Z.eqb_spec 7 i) as [<-|]; [|reflexivity]. cbn [andb].
      rewrite Z.testbit_true by lia. replace (b / 2 ^ 7) with 1; [reflexivity|].
      apply Z.div_unique with (b - 128); change (2 ^ 7) with 128; lia.
    - apply Z.bits_inj'. intros i Hi. rewrite Z.land_spec, Z.pow2_bits_eqb, Z.bits_0 by lia.
      destruct (Z.eqb_spec 7 i) as [<-|]; [|reflexivity].
      apply (testbit_small b 7); change (2 ^ 7) with 128; lia. }
  rewrite E. destruct (128 <=? b); reflexivity.
Qed.

Lemma low_bits b : is_u8 b -> Z.land b 127 = b mod 128.
Proof. intros Hb. change 127 with (Z.ones 7). now rewrite Z.land_ones by lia. Qed.

(** What [set_vch] reads: the sign is the top bit of the last byte. *)
Lemma set_vch_snoc r b :
  bytes (r ++ [b]) -> size r < 8 ->
  set_vch (r ++ [b]) =
  if 128 <=? b then - (le_value r + 256 ^ size r * (b - 128)) else le_value r + 256 ^ size r * b.
Proof.
  intros Hb Hs. pose proof Hb as Hb'. apply bytes_snoc in Hb' as [Hr Hb1].
  unfold set_vch. destruct (r ++ [b]) as [|h t] eqn:E; [destruct r; discriminate|]. rewrite <- E.
  rewrite back_snoc, sign_bit, or_bytes_le_value, size_snoc by (assumption || congruence).
  rewrite <- E in Hb. pose proof (le_value_range _ Hb) as R0. pose proof (le_value_range r Hr) as R.
  rewrite le_value_snoc in *. fold (size r) in R.
  replace (Z.of_nat (length (r ++ [b]))) with (size r + 1) in R0 by (symmetry; apply size_snoc).
  assert (HP : 0 < 256 ^ size r) by (apply Z.pow_pos_nonneg; unfold size; lia).
  assert (H7 : 256 ^ size r <= 256 ^ 7) by (apply Z.pow_le_mono_r; unfold size in *; lia).
  change (256 ^ 7) with 72057594037927936 in H7. unfold is_u8 in Hb1.
  set (x := le_value r + 256 ^ size r * b) in *.
  assert (Hx : 0 <= x < two64) by (unfold x, two64; nia).
  destruct (Z.leb_spec 128 b) as [Hge|Hlt].
  - replace (u64 (i64 x)) with x.
    2: { unfold i64, signed, u64. rewrite two64_pow in Hx. rewrite (Z.mod_small x) by lia.
         destruct (x <? 2 ^ (64 - 1)); symmetry; [now apply Z.mod_small|].
         replace (x - 2 ^ 64) with (x + -1 * two64) by (rewrite two64_pow; ring).
         rewrite Z.mod_add by discriminate. now apply Z.mod_small. }
    assert (Em : Z.land x (u64 (Z.lnot (Z.shiftl 128 (8 * (size r + 1 - 1))))) = x - 256 ^ size r * 128).
    { assert (Esh : Z.shiftl 128 (8 * (size r + 1 - 1)) = 2 ^ (8 * size r + 7)).
      { rewrite Z.shiftl_mul_pow2 by (unfold size; lia). change 128 with (2 ^ 7).
        rewrite <- Z.pow_add_r by (unfold size; lia). f_equal. ring. }
      rewrite Esh. replace (256 ^ size r * 128) with (2 ^ (8 * size r + 7)).
      2: { rewrite Z.pow_add_r by (unfold size; lia). rewrite Z.pow_mul_r by (unfold size; lia). reflexivity. }
      rewrite Z.sub_nocarry_ldiff.
      - apply Z.bits_inj'. intros i Hi. rewrite Z.land_spec, Z.ldiff_spec.
        destruct (Z.lt_ge_cases i 64).
        + unfold u64. rewrite two64_pow, Z.mod_pow2_bits_low, Z.lnot_spec by lia. reflexivity.
        + rewrite (testbit_small x 64); [reflexivity|exact Hx|lia].
      - apply Z.bits_inj'. intros i Hi. rewrite Z.ldiff_spec, Z.bits_0, Z.pow2_bits_eqb by (unfold size; lia).
        destruct (Z.eqb_spec (8 * size r + 7) i) as [<-|]; [|reflexivity]. cbn [andb].
        replace (Z.testbit x (8 * size r + 7)) with true; [reflexivity|]. symmetry.
        rewrite Z.testbit_true by (unfold size; lia).
        replace (x / 2 ^ (8 * size r + 7)) with 1; [reflexivity|].
        rewrite Z.pow_add_r, Z.pow_mul_r by (unfold size; lia).
        change (2 ^ 8) with 256. change (2 ^ 7) with 128.
        apply Z.div_unique with (x - 256 ^ size r * 128); unfold x; nia. }
    rewrite Em, i64_small; [unfold x; ring|]. unfold is_i64, x. nia.
  - rewrite i64_small; [reflexivity|]. unfold is_i64, x. nia.
Qed.

Lemma minimally_encoded_snoc r b :
  bytes (r ++ [b]) ->
  minimally_encoded (r ++ [b]) =
  (negb (b mod 128 =? 0) || match r with [] => false | _ => 128 <=? back r end)%bool.
Proof.
  intros Hb. apply bytes_snoc in Hb as [Hr Hb]. unfold minimally_encoded.
  rewrite back_snoc, low_bits, size_snoc by assumption.
  destruct (Z.ltb_spec 0 (size r + 1)); [|unfold size in *; lia].
  destruct (b mod 128 =? 0); [|reflexivity]. cbn [negb orb].
  destruct r as [|x r]; [reflexivity|].
  destruct (Z.leb_spec (size (x :: r) + 1) 1); [unfold size in *; cbn [length] in *; lia|].
  destruct (snoc_inv (x :: r)) as (r' & c & E); [discriminate|]. rewrite E in *.
  apply bytes_snoc in Hr as [_ Hc]. rewrite back_snoc, !length_app. cbn [length].
  replace (length r' + 1 + 1 - 2)%nat with (length r') by lia.
  rewrite !app_nth1, nth_middle by (rewrite ?length_app; cbn [length]; lia).
  rewrite <- sign_bit by assumption. cbn [orb]. now destruct (Z.land c 128 =? 0).
Qed.

Lemma abs_bytes_le_value n l :
  bytes l -> l <> [] -> 0 < back l -> (length l <= n)%nat -> abs_bytes n (le_value l) = l.
Proof.
  intros Hb. revert n. induction Hb as [|x l Hx Hl IH]; intros n Hne Hbk Hlen; [contradiction|].
  destruct n as [|n]; cbn [length] in Hlen; [lia|].
  pose proof (le_value_range l Hl) as R. unfold is_u8 in Hx.
  assert (Hpos : l <> [] -> 0 < le_value l).
  { intros Hn. destruct (snoc_inv l Hn) as (r & c & ->). apply bytes_snoc in Hl as [Hr _].
    pose proof (le_value_range r Hr). rewrite le_value_snoc. unfold back in Hbk.
    rewrite app_comm_cons, last_last in Hbk.
    pose proof (Z.pow_pos_nonneg 256 (size r) ltac:(lia) ltac:(unfold size; lia)). nia. }
  cbn [le_value abs_bytes]. destruct (byte_shift (x + 256 * le_value l)) as [E1 E2]; [lia|].
  rewrite E1, E2, Z.mul_comm, Z.mod_add, Z.div_add, (Z.mod_small x), (Z.div_small x), Z.add_0_l by lia.
  destruct l as [|y l].
  - unfold back in Hbk. cbn [last] in Hbk. cbn [le_value].
    destruct (Z.eqb_spec (x + 0 * 256) 0); [lia|]. now destruct n.
  - specialize (Hpos ltac:(discriminate)).
    destruct (Z.eqb_spec (x + le_value (y :: l) * 256) 0); [lia|].
    f_equal. apply IH; [discriminate|exact Hbk|lia].
Qed.

(** The number that a last byte and the bytes before it denote. *)
Definition sm_value (r : list Z) (b : Z) : Z :=
  if 128 <=? b then - (le_value r + 256 ^ size r * (b - 128)) else le_value r + 256 ^ size r * b.

Lemma sm_value_abs r b :
  bytes (r ++ [b]) -> Z.abs (sm_value r b) = le_value r + 256 ^ size r * (b mod 128).
Proof.
  intros Hb. apply bytes_snoc in Hb as [Hr Hb]. pose proof (le_value_range r Hr).
  pose proof (Z.pow_pos_nonneg 256 (size r) ltac:(lia) ltac:(unfold size; lia)).
  unfold sm_value, is_u8 in *. destruct (Z.leb_spec 128 b).
  - replace (b mod 128) with (b - 128) by (apply Z.mod_unique with 1; lia). nia.
  - rewrite Z.mod_small by lia. nia.
Qed.

(** [serialize] gives a minimal sign-magnitude encoding. *)
Lemma serialize_snoc v :
  - 2 ^ 63 < v < 2 ^ 63 -> v <> 0 ->
  exists r b, serialize v = r ++ [b] /\ bytes (r ++ [b]) /\ size r < 8
  /\ sm_value r b = v /\ minimally_encoded (r ++ [b]) = true.
Proof.
  intros Hv H0. unfold serialize. destruct (Z.eqb_spec v 0); [contradiction|].
  set (neg := v <? 0). set (x := if neg then - v else v).
  assert (Hx : 0 < x < 2 ^ 63) by (unfold x, neg; destruct (Z.ltb_spec v 0); lia).
  rewrite u64_small by (unfold is_u64, two64; change (2 ^ 63) with 9223372036854775808 in *; lia).
  destruct (abs_bytes_spec 8 x) as (V & B & L & N & K).
  { split; [lia|]. transitivity (2 ^ 63); [lia|reflexivity]. }
  destruct (snoc_inv _ N) as (r & b & E). rewrite E in *. rewrite back_snoc in *.
  pose proof B as B'. apply bytes_snoc in B' as [Hr Hb]. pose proof (le_value_range r Hr) as R.
  rewrite le_value_snoc in V. fold (size r) in R.
  assert (HP : 0 < 256 ^ size r) by (apply Z.pow_pos_nonneg; unfold size; lia).
  assert (Hs : size r <= 7) by (rewrite length_app in L; cbn [length] in L; unfold size; lia).
  assert (Hsgn : v = if neg then - x else x) by (unfold x, neg; destruct (v <? 0); lia).
  rewrite sign_bit by assumption. unfold is_u8 in Hb. destruct (Z.leb_spec 128 b) as [Hge|Hlt].
  - assert (Hs' : size r <= 6).
    { destruct (Z.eq_dec (size r) 7) as [E7|]; [|lia]. rewrite E7 in V.
      change (256 ^ 7) with 72057594037927936 in V. change (2 ^ 63) with 9223372036854775808 in Hx. lia. }
    exists (r ++ [b]), (if neg then 128 else 0). split; [reflexivity|].
    assert (Hbb : bytes ((r ++ [b]) ++ [if neg then 128 else 0])).
    { apply bytes_snoc. split; [assumption|]. unfold is_u8. destruct neg; lia. }
    repeat split; auto.
    + rewrite size_snoc. lia.
    + unfold sm_value. rewrite le_value_snoc, V. destruct neg; cbn; lia.
    + rewrite minimally_encoded_snoc by assumption. rewrite back_snoc.
      destruct (r ++ [b]) eqn:Er; [destruct r; discriminate|].
      replace (128 <=? b) with true by (symmetry; apply Z.leb_le; lia). apply orb_true_r.
  - set (b' := if neg then Z.lor b 128 else b).
    assert (Eb : b' = if neg then b + 128 else b).
    { unfold b'. destruct neg; [|reflexivity]. apply lor_add_disjoint.
      rewrite <- (Z.mod_small b 128) by lia. change 128 with (2 ^ 7) at 1.
      rewrite <- Z.land_ones by lia. rewrite <- Z.land_assoc. apply Z.land_0_r. }
    exists r, b'.
    assert (Hbb : bytes (r ++ [b'])).
    { apply bytes_snoc. split; [assumption|]. unfold is_u8. rewrite Eb. destruct neg; lia. }
    repeat split; auto.
    + unfold b'. destruct neg; [|reflexivity]. unfold map_back. now rewrite removelast_last, back_snoc.
    + lia.
    + unfold sm_value. rewrite Eb. destruct neg.
      * destruct (Z.leb_spec 128 (b + 128)); [|lia]. rewrite Hsgn, <- V. f_equal. f_equal. f_equal. ring.
      * destruct (Z.leb_spec 128 b); [lia|]. rewrite Hsgn, <- V. reflexivity.
    + rewrite minimally_encoded_snoc by assumption.
      destruct (Z.eqb_spec (b' mod 128) 0) as [Em|]; [|reflexivity]. exfalso. rewrite Eb in Em.
      destruct neg.
      * replace ((b + 128) mod 128) with b in Em by (apply Z.mod_unique with 1; lia). lia.
      * rewrite Z.mod_small in Em by lia. lia.
Qed.

(** A minimal encoding of [k + 1] bytes denotes a number that needs them. *)
Lemma minimal_size r b n :
  bytes (r ++ [b]) -> minimally_encoded (r ++ [b]) = true -> 1 <= n ->
  (size (r ++ [b]) <= n <-> Z.abs (sm_value r b) < 2 ^ (8 * n - 1)).
Proof.
  intros Hb Hm Hn. rewrite sm_value_abs, size_snoc by assumption.
  rewrite minimally_encoded_snoc in Hm by assumption.
  apply bytes_snoc in Hb as [Hr Hb]. pose proof (le_value_range r Hr) as R. fold (size r) in R.
  pose proof (Z.mod_pos_bound b 128 ltac:(lia)) as Rb.
  assert (Hs : 0 <= size r) by (unfold size; lia).
  assert (P256 : forall k, 0 <= k -> 256 ^ k = 2 ^ (8 * k)) by (intros k Hk; now rewrite Z.pow_mul_r by lia).
  assert (HP : 0 < 256 ^ size r) by (apply Z.pow_pos_nonneg; lia).
  split; intros H.
  - apply Z.lt_le_trans with (2 ^ (8 * (size r + 1) - 1)); [|apply Z.pow_le_mono_r; lia].
    replace (8 * (size r + 1) - 1) with (8 * size r + 7) by ring.
    rewrite Z.pow_add_r, <- P256 by lia. change (2 ^ 7) with 128. nia.
  - destruct (Z.le_gt_cases (size r + 1) n) as [|Hgt]; [assumption|exfalso].
    destruct (Z.eqb_spec (b mod 128) 0) as [Em|Em].
    + destruct r as [|x r]; [discriminate|]. cbn [negb orb] in Hm. apply Z.leb_le in Hm.
      destruct (snoc_inv (x :: r)) as (r' & c & E); [discriminate|]. rewrite E in *.
      rewrite back_snoc in Hm. rewrite le_value_snoc, size_snoc in *.
      apply bytes_snoc in Hr as [Hr' _]. pose proof (le_value_range r' Hr').
      assert (0 <= size r') by (unfold size; lia).
      assert (H' : 2 ^ (8 * n - 1) <= 2 ^ (8 * size r' + 7)) by (apply Z.pow_le_mono_r; lia).
      rewrite (Z.pow_add_r 2 (8 * size r')), <- P256 in H' by lia. change (2 ^ 7) with 128 in H'.
      pose proof (Z.pow_pos_nonneg 256 (size r') ltac:(lia) ltac:(lia)). nia.
    + assert (H' : 2 ^ (8 * n - 1) <= 2 ^ (8 * size r)) by (apply Z.pow_le_mono_r; lia).
      rewrite <- P256 in H' by lia. nia.
Qed.

Lemma set_vch_sm r b : bytes (r ++ [b]) -> size r < 8 -> set_vch (r ++ [b]) = sm_value r b.
Proof. apply set_vch_snoc. Qed.

Lemma serialize_sm r b :
  bytes (r ++ [b]) -> size r < 8 -> minimally_encoded (r ++ [b]) = true ->
  serialize (sm_value r b) = r ++ [b].
Proof.
  intros Hb Hs Hm. pose proof (sm_value_abs r b Hb) as Ha.
  assert (Hlt : Z.abs (sm_value r b) < 2 ^ 63).
  { apply (minimal_size r b 8); auto; [lia|]. rewrite size_snoc. lia. }
  rewrite minimally_encoded_snoc in Hm by assumption.
  apply bytes_snoc in Hb as [Hr Hb]. pose proof (le_value_range r Hr) as R. fold (size r) in R.
  pose proof (Z.mod_pos_bound b 128 ltac:(lia)) as Rb. unfold is_u8 in Hb.
  assert (HP : 0 < 256 ^ size r) by (apply Z.pow_pos_nonneg; unfold size; lia).
  assert (Hneg : 0 < Z.abs (sm_value r b) -> (sm_value r b <? 0) = (128 <=? b)).
  { intros H0. unfold sm_value in *. destruct (Z.leb_spec 128 b); [apply Z.ltb_lt|apply Z.ltb_ge]; nia. }
  assert (Hu : forall w, w = Z.abs (sm_value r b) -> u64 (if sm_value r b <? 0 then - sm_value r b else sm_value r b) = w).
  { intros w ->. rewrite u64_small.
    - destruct (Z.ltb_spec (sm_value r b) 0); lia.
    - change (2 ^ 63) with 9223372036854775808 in Hlt. unfold is_u64, two64.
      destruct (Z.ltb_spec (sm_value r b) 0); lia. }
  unfold serialize. destruct (Z.eqb_spec (b mod 128) 0) as [Em|Em].
  - destruct r as [|x r]; [discriminate|]. cbn [negb orb] in Hm. apply Z.leb_le in Hm.
    rewrite Em, Z.mul_0_r, Z.add_0_r in Ha.
    assert (Hab : abs_bytes 8 (le_value (x :: r)) = x :: r).
    { apply abs_bytes_le_value; auto; [discriminate|lia|]. unfold size in Hs. lia. }
    assert (H0 : 0 < le_value (x :: r)).
    { destruct (Z.eq_dec (le_value (x :: r)) 0) as [E0|]; [rewrite E0 in Hab; discriminate|lia]. }
    rewrite (Hu _ (eq_sym Ha)), Hab, Hneg by lia.
    destruct (Z.eqb_spec (sm_value (x :: r) b) 0); [lia|].
    rewrite sign_bit by (now apply back_bytes).
    destruct (Z.leb_spec 128 (back (x :: r))); [|lia]. f_equal. f_equal.
    destruct (Z.leb_spec 128 b); [|rewrite Z.mod_small in Em; lia].
    replace (b mod 128) with (b - 128) in Em by (apply Z.mod_unique with 1; lia). lia.
  - assert (Hl : bytes (r ++ [b mod 128])) by (apply bytes_snoc; unfold is_u8; split; [auto|lia]).
    assert (Hab : abs_bytes 8 (le_value (r ++ [b mod 128])) = r ++ [b mod 128]).
    { apply abs_bytes_le_value; auto; [destruct r; discriminate|rewrite back_snoc; lia|].
      rewrite length_app. cbn [length]. unfold size in Hs. lia. }
    rewrite le_value_snoc in Hab. rewrite (Hu _ (eq_sym Ha)), Hab, Hneg by nia.
    destruct (Z.eqb_spec (sm_value r b) 0); [nia|].
    rewrite back_snoc, sign_bit by (unfold is_u8; lia).
    destruct (Z.leb_spec 128 (b mod 128)); [lia|]. destruct (Z.leb_spec 128 b).
    + unfold map_back. rewrite removelast_last, back_snoc. f_equal. f_equal.
      replace (b mod 128) with (b - 128) by (apply Z.mod_unique with 1; lia).
      rewrite lor_add_disjoint; [ring|]. rewrite <- (Z.mod_small (b - 128) 128) by lia.
      change 128 with (2 ^ 7) at 2. rewrite <- Z.land_ones by lia. rewrite <- Z.land_assoc. apply Z.land_0_r.
    + now rewrite Z.mod_small by lia.
Qed.

End NumLemmas.

(** ** The decoder: lemmas *)
Section ScrLemmas.
Import Scr.

(** [e] is one encoded operation: whatever follows it, decoding gives it back. *)
Definition encodes (e : list Z) (opcode : Z) (vch : list Z) : Prop :=
  e <> [] /\ forall t, size (e ++ t) < two32 -> GetScriptOp (e ++ t) = Some (t, opcode, vch).

Lemma size_app {A : Type} (a b : list A) : size (a ++ b) = size a + size b.
Proof. unfold size. rewrite length_app. lia. Qed.

Lemma size_nonneg {A : Type} (a : list A) : 0 <= size a.
Proof. unfold size. lia. Qed.

Lemma u32_size (l : list Z) : size l < two32 -> u32 (size l) = size l.
Proof. intros H. apply u32_small. unfold is_u32, size in *. lia. Qed.

(** The data operand after its length has been read. *)
Lemma operand_split (pc : list Z) nSize :
  0 <= nSize -> size pc < two32 -> nSize <= size pc ->
  pc = firstn (Z.to_nat nSize) pc ++ skipn (Z.to_nat nSize) pc
  /\ size (firstn (Z.to_nat nSize) pc) = nSize.
Proof.
  intros H0 H1 H2. rewrite firstn_skipn. split; [reflexivity|].
  unfold size in *. rewrite length_firstn. lia.
Qed.

Lemma operand_decode (d t : list Z) (n opcode : Z) :
  size d = n -> size (d ++ t) < two32 ->
  (if u32 (size (d ++ t)) <? n then None
   else Some (skipn (Z.to_nat n) (d ++ t), opcode, firstn (Z.to_nat n) (d ++ t)))
  = Some (t, opcode, d).
Proof.
  intros Hd Hs. rewrite u32_size, size_app by assumption. pose proof (size_nonneg t).
  destruct (Z.ltb_spec (size d + size t) n); [lia|].
  rewrite <- Hd. unfold size. rewrite Nat2Z.id, skipn_app, firstn_app, skipn_all, firstn_all, Nat.sub_diag.
  cbn [skipn firstn app]. now rewrite app_nil_r.
Qed.

(** An operation with a length prefix [h] (of the bytes after the opcode) and data [d]. *)
Lemma encodes_small opcode d :
  0 <= opcode < OP_PUSHDATA1 -> size d = opcode -> encodes (opcode :: d) opcode d.
Proof.
  intros Ho Hd. split; [discriminate|]. intros t Hs. cbn [app GetScriptOp].
  unfold OP_PUSHDATA1, OP_PUSHDATA4 in *.
  destruct (Z.leb_spec opcode 78); [|lia]. destruct (Z.ltb_spec opcode 76); [|lia].
  apply operand_decode; [assumption|].
  cbn [app] in Hs. unfold size in *. cbn [length] in Hs. lia.
Qed.

Lemma encodes_push1 n d : size d = n -> encodes (OP_PUSHDATA1 :: n :: d) OP_PUSHDATA1 d.
Proof.
  intros Hd. split; [discriminate|]. intros t Hs. cbn [app GetScriptOp].
  change (OP_PUSHDATA1 <=? OP_PUSHDATA4) with true. change (OP_PUSHDATA1 <? OP_PUSHDATA1) with false.
  change (OP_PUSHDATA1 =? OP_PUSHDATA1) with true. cbn [app] in Hs.
  assert (E : (size (n :: d ++ t) <? 1) = false) by (apply Z.ltb_ge; unfold size; cbn [length]; lia).
  cbn match. rewrite E. cbn [nth skipn]. apply operand_decode; [assumption|].
  unfold size in *. cbn [length] in Hs. lia.
Qed.

Lemma encodes_push2 w d :
  length w = 2%nat -> size d = le_value w -> encodes (OP_PUSHDATA2 :: w ++ d) OP_PUSHDATA2 d.
Proof.
  intros Hw Hd. split; [discriminate|]. intros t Hs. cbn [app GetScriptOp].
  change (OP_PUSHDATA2 <=? OP_PUSHDATA4) with true. change (OP_PUSHDATA2 <? OP_PUSHDATA1) with false.
  change (OP_PUSHDATA2 =? OP_PUSHDATA1) with false. change (OP_PUSHDATA2 =? OP_PUSHDATA2) with true.
  rewrite <- app_assoc in *. cbn [app] in Hs. rewrite <- app_assoc in Hs.
  assert (E : (size (w ++ d ++ t) <? 2) = false)
    by (apply Z.ltb_ge; unfold size; rewrite length_app; lia).
  cbn match. rewrite E. unfold ReadLE16.
  rewrite firstn_app_exact, skipn_app_exact by assumption. apply operand_decode; [assumption|].
  unfold size in *. cbn [length] in Hs. rewrite length_app in Hs. lia.
Qed.

Lemma encodes_push4 w d :
  length w = 4%nat -> size d = le_value w -> encodes (OP_PUSHDATA4 :: w ++ d) OP_PUSHDATA4 d.
Proof.
  intros Hw Hd. split; [discriminate|]. intros t Hs. cbn [app GetScriptOp].
  change (OP_PUSHDATA4 <=? OP_PUSHDATA4) with true. change (OP_PUSHDATA4 <? OP_PUSHDATA1) with false.
  change (OP_PUSHDATA4 =? OP_PUSHDATA1) with false. change (OP_PUSHDATA4 =? OP_PUSHDATA2) with false.
  rewrite <- app_assoc in *. cbn [app] in Hs. rewrite <- app_assoc in Hs.
  assert (E : (size (w ++ d ++ t) <? 4) = false)
    by (apply Z.ltb_ge; unfold size; rewrite length_app; lia).
  cbn match. rewrite E. unfold ReadLE32.
  rewrite firstn_app_exact, skipn_app_exact by assumption. apply operand_decode; [assumption|].
  unfold size in *. cbn [length] in Hs. rewrite length_app in Hs. lia.
Qed.

Lemma encodes_plain opcode : OP_PUSHDATA4 < opcode -> encodes [opcode] opcode [].
Proof.
  intros Ho. split; [discriminate|]. intros t Hs. cbn [app GetScriptOp].
  destruct (Z.leb_spec opcode OP_PUSHDATA4); [lia|reflexivity].
Qed.

(** What [operator<<] appends is one operation that pushes the data. *)
Definition push_bytes (b : list Z) : list Z := push_vch [] b.

Lemma push_vch_app script b : push_vch script b = script ++ push_bytes b.
Proof. reflexivity. Qed.

Lemma push_bytes_size b : size b <= size (push_bytes b).
Proof.
  unfold push_bytes, push_vch. cbn [app]. rewrite size_app.
  match goal with |- _ <= size ?l + _ => pose proof (size_nonneg l) end. lia.
Qed.

Lemma push_bytes_encodes b :
  size b < two32 -> exists opcode, 0 <= opcode <= OP_PUSHDATA4 /\ encodes (push_bytes b) opcode b.
Proof.
  intros Hb. unfold push_bytes, push_vch. cbn [app]. pose proof (size_nonneg b) as H0.
  unfold OP_PUSHDATA1 at 1. destruct (Z.ltb_spec (size b) 76) as [H1|H1].
  - exists (size b). rewrite u8_small by (unfold is_u8; lia). cbn [app].
    split; [unfold OP_PUSHDATA4; lia|apply encodes_small; [unfold OP_PUSHDATA1; lia|reflexivity]].
  - destruct (Z.leb_spec (size b) 255) as [H2|H2].
    + exists OP_PUSHDATA1. rewrite u8_small by (unfold is_u8; lia). cbn [app].
      split; [unfold OP_PUSHDATA1, OP_PUSHDATA4; lia|now apply encodes_push1].
    + destruct (Z.leb_spec (size b) 65535) as [H3|H3].
      * exists OP_PUSHDATA2. cbn [app]. split; [unfold OP_PUSHDATA2, OP_PUSHDATA4; lia|].
        apply encodes_push2; [apply length_le_bytes|]. unfold WriteLE16. rewrite le_value_bytes.
        symmetry. apply Z.mod_small. change (256 ^ Z.of_nat 2) with 65536. lia.
      * exists OP_PUSHDATA4. cbn [app]. split; [unfold OP_PUSHDATA4; lia|].
        apply encodes_push4; [apply length_le_bytes|]. unfold WriteLE32. rewrite le_value_bytes.
        symmetry. apply Z.mod_small. change (256 ^ Z.of_nat 4) with two32. lia.
Qed.

(** Decoding splits one encoded operation off the script. *)
Lemma GetScriptOp_split pc pc' opcode vch :
  bytes pc -> size pc < two32 -> GetScriptOp pc = Some (pc', opcode, vch) ->
  exists e, pc = e ++ pc' /\ encodes e opcode vch.
Proof.
  intros Hb Hs. destruct pc as [|op pc]; [discriminate|]. cbn [GetScriptOp].
  inversion Hb as [|? ? Hop Hpc]; subst. unfold is_u8 in Hop.
  assert (Hs' : size pc < two32) by (unfold size in *; cbn [length] in Hs; lia).
  destruct (Z.leb_spec op OP_PUSHDATA4) as [H4|H4].
  2: { injection 1 as <- <- <-. exists [op]. split; [reflexivity|now apply encodes_plain]. }
  assert (Hfin : forall n rest h, bytes rest -> 0 <= n -> pc = h ++ rest ->
    (forall d, size d = n -> encodes (op :: h ++ d) op d) ->
    (if u32 (size rest) <? n then None
     else Some (skipn (Z.to_nat n) rest, op, firstn (Z.to_nat n) rest)) = Some (pc', opcode, vch) ->
    exists e, op :: pc = e ++ pc' /\ encodes e opcode vch).
  { intros n rest h Hrest Hn -> Henc.
    assert (Hsr : size rest < two32) by (rewrite size_app in Hs'; pose proof (size_nonneg h); lia).
    rewrite u32_size by assumption. destruct (Z.ltb_spec (size rest) n); [discriminate|].
    destruct (operand_split rest n Hn Hsr ltac:(lia)) as [E1 E2]. injection 1 as <- <- <-.
    exists (op :: h ++ firstn (Z.to_nat n) rest). split; [|now apply Henc].
    cbn [app]. rewrite <- app_assoc, <- E1. reflexivity. }
  destruct (Z.ltb_spec op OP_PUSHDATA1) as [H1|H1].
  - apply (Hfin op pc []); auto; [lia|]. intros d Hd. apply encodes_small; [lia|assumption].
  - destruct (Z.eqb_spec op OP_PUSHDATA1) as [E|N1].
    + destruct (Z.ltb_spec (size pc) 1); [discriminate|]. destruct pc as [|n pc]; [unfold size in *; cbn in *; lia|].
      inversion Hpc as [|? ? Hn Hpc']; subst. cbn [nth skipn].
      apply (Hfin n pc [n]); auto; [unfold is_u8 in Hn; lia|]. intros d Hd. now apply encodes_push1.
    + destruct (Z.eqb_spec op OP_PUSHDATA2) as [E|N2].
      * destruct (Z.ltb_spec (size pc) 2); [discriminate|]. subst op.
        apply (Hfin _ (skipn 2 pc) (firstn 2 pc)).
        -- now apply Forall_skipn.
        -- apply le_value_range. now apply Forall_firstn.
        -- now rewrite firstn_skipn.
        -- intros d Hd. apply encodes_push2; [rewrite length_firstn; unfold size in *; lia|assumption].
      * destruct (Z.ltb_spec (size pc) 4); [discriminate|].
        assert (op = OP_PUSHDATA4) as -> by (unfold OP_PUSHDATA1, OP_PUSHDATA2, OP_PUSHDATA4 in *; lia).
        apply (Hfin _ (skipn 4 pc) (firstn 4 pc)).
        -- now apply Forall_skipn.
        -- apply le_value_range. now apply Forall_firstn.
        -- now rewrite firstn_skipn.
        -- intros d Hd. apply encodes_push4; [rewrite length_firstn; unfold size in *; lia|assumption].
Qed.

Lemma GetScriptOp_shorter pc pc' opcode vch :
  GetScriptOp pc = Some (pc', opcode, vch) -> (length pc' < length pc)%nat.
Proof.
  destruct pc as [|op pc]; [discriminate|]. cbn [GetScriptOp length].
  destruct (op <=? OP_PUSHDATA4); [|injection 1 as <- <- <-; lia].
  destruct (op <? OP_PUSHDATA1); [|destruct (op =? OP_PUSHDATA1); [|destruct (op =? OP_PUSHDATA2)]];
  repeat match goal with
  | |- context [if ?b then _ else _] => destruct b
  end; try discriminate; injection 1 as <- <- <-; rewrite ?length_skipn; try lia;
  destruct pc as [|? [|? [|? [|? ?]]]]; cbn [length]; lia.
Qed.

Lemma ops_from_fuel fuel pc :
  (length pc <= fuel)%nat -> ops_from fuel pc = ops pc.
Proof.
  unfold ops. remember (length pc) as n eqn:En. revert pc fuel En.
  induction n as [n IH] using (well_founded_induction lt_wf). intros pc fuel En Hf.
  destruct pc as [|op pc]; [destruct fuel, n; reflexivity|].
  destruct fuel as [|fuel], n as [|n]; cbn [length] in En; try lia. cbn [ops_from].
  destruct (GetScriptOp (op :: pc)) as [[[pc' o] v]|] eqn:E; [|reflexivity].
  apply GetScriptOp_shorter in E. cbn [length] in E.
  rewrite (IH (length pc') ltac:(lia) pc' fuel eq_refl ltac:(lia)).
  now rewrite (IH (length pc') ltac:(lia) pc' n eq_refl ltac:(lia)).
Qed.

Lemma ops_step pc pc' opcode vch :
  GetScriptOp pc = Some (pc', opcode, vch) ->
  ops pc = ((opcode, vch, pc') :: fst (ops pc'), snd (ops pc')).
Proof.
  intros E. pose proof (GetScriptOp_shorter _ _ _ _ E) as Hs. unfold ops at 1.
  destruct pc as [|op pc]; [discriminate|]. cbn [length] in *. cbn [ops_from]. rewrite E.
  rewrite ops_from_fuel by lia. now destruct (ops pc').
Qed.

(** A script as a list of encoded operations followed by bytes [t]. *)
Definition enc_of (x : list Z * Z * list Z) : list Z := fst (fst x).
Definition op_of (x : list Z * Z * list Z) : Z := snd (fst x).
Definition vch_of (x : list Z * Z * list Z) : list Z := snd x.
Definition flat (es : list (list Z * Z * list Z)) : list Z := concat (map enc_of es).
Definition encoded (x : list Z * Z * list Z) : Prop := encodes (enc_of x) (op_of x) (vch_of x).

Fixpoint annotate (es : list (list Z * Z * list Z)) (t : list Z) : list (Z * list Z * list Z) :=
  match es with
  | [] => []
  | x :: es' => (op_of x, vch_of x, flat es' ++ t) :: annotate es' t
  end.

Lemma flat_cons x es : flat (x :: es) = enc_of x ++ flat es.
Proof. reflexivity. Qed.

Lemma flat_app a b : flat (a ++ b) = flat a ++ flat b.
Proof. unfold flat. now rewrite map_app, concat_app. Qed.

Lemma ops_flat es t :
  Forall encoded es -> size (flat es ++ t) < two32 ->
  ops (flat es ++ t) = (annotate es t ++ fst (ops t), snd (ops t)).
Proof.
  induction 1 as [|x es [Hne Hx] Hes IH]; intros Hs.
  - cbn [app annotate flat map concat]. apply surjective_pairing.
  - rewrite flat_cons, <- app_assoc in *. cbn [annotate app].
    rewrite (ops_step _ _ _ _ (Hx _ Hs)), IH; [reflexivity|].
    rewrite size_app in Hs. pose proof (size_nonneg (enc_of x)). lia.
Qed.

(** Every script splits that way, with nothing decodable left over. *)
Lemma ops_split s :
  bytes s -> size s < two32 ->
  exists es t, s = flat es ++ t /\ Forall encoded es /\ fst (ops t) = []
  /\ fst (ops s) = annotate es t /\ bytes t.
Proof.
  remember (length s) as n eqn:En. revert s En.
  induction n as [n IH] using (well_founded_induction lt_wf). intros s En Hb Hs.
  destruct (GetScriptOp s) as [[[s' o] v]|] eqn:E.
  - destruct (GetScriptOp_split s s' o v Hb Hs E) as (e & -> & He).
    pose proof (GetScriptOp_shorter _ _ _ _ E) as Hlt.
    assert (Hb' : bytes s') by (apply Forall_app in Hb as [_ Hb]; exact Hb).
    assert (Hs' : size s' < two32) by (rewrite size_app in Hs; pose proof (size_nonneg e); lia).
    destruct (IH (length s') ltac:(lia) s' eq_refl Hb' Hs') as (es & t & -> & H1 & H2 & H3 & H4).
    exists ((e, o, v) :: es), t. rewrite flat_cons, <- app_assoc.
    repeat split; auto. rewrite (ops_step _ _ _ _ E), H3. reflexivity.
  - exists [], s. assert (Ho : fst (ops s) = []).
    { unfold ops. destruct s as [|op s]; [reflexivity|]. cbn [length ops_from]. now rewrite E. }
    repeat split; auto.
Qed.

Lemma annotate_app a b t : annotate (a ++ b) t = annotate a (flat b ++ t) ++ annotate b t.
Proof.
  induction a as [|x a IH]; [reflexivity|]. cbn [annotate app].
  rewrite IH, flat_app, app_assoc. reflexivity.
Qed.

Lemma length_annotate es t : length (annotate es t) = length es.
Proof. induction es; cbn; auto. Qed.

(** What is left at the start of operation [i]. *)
Lemma nth_rest es t i :
  (i < length es)%nat ->
  nth i (map rest_of (annotate es t)) [] = flat (skipn (S i) es) ++ t.
Proof.
  revert i. induction es as [|x es IH]; intros [|i] Hi; cbn [length] in Hi; try lia; cbn [annotate map nth].
  - reflexivity.
  - rewrite IH by lia. reflexivity.
Qed.

(** The first operation with a given opcode. *)
Lemma first_op es findOp :
  (exists pre x post, es = pre ++ x :: post /\ op_of x = findOp
     /\ Forall (fun y => op_of y <> findOp) pre)
  \/ Forall (fun y => op_of y <> findOp) es.
Proof.
  induction es as [|y es IH]; [now right|]. destruct (Z.eq_dec (op_of y) findOp) as [E|E].
  - left. exists [], y, es. auto.
  - destruct IH as [(pre & x & post & -> & Hx & Hp)|H]; [left|right; auto].
    exists (y :: pre), x, post. auto.
Qed.

Lemma replace_loop_pre script findOp k p acc pre l :
  Forall (fun o => opcode_of o <> findOp) pre ->
  replace_loop script findOp k p acc (pre ++ l) =
  replace_loop script findOp k p (acc ++ map rest_of pre) l.
Proof.
  intros H. revert acc. induction H as [|o pre Ho H IH]; intros acc; cbn [app map replace_loop].
  - now rewrite app_nil_r.
  - destruct (Z.eqb_spec (opcode_of o) findOp); [contradiction|]. rewrite IH, <- app_assoc. reflexivity.
Qed.

Lemma find_loop_pre findOp k acc pre l :
  Forall (fun o => opcode_of o <> findOp) pre ->
  find_loop findOp k acc (pre ++ l) = find_loop findOp k (acc ++ map data_of pre) l.
Proof.
  intros H. revert acc. induction H as [|o pre Ho H IH]; intros acc; cbn [app map find_loop].
  - now rewrite app_nil_r.
  - destruct (Z.eqb_spec (opcode_of o) findOp); [contradiction|]. rewrite IH, <- app_assoc. reflexivity.
Qed.

Lemma annotate_ops_ne findOp es t :
  Forall (fun y => op_of y <> findOp) es -> Forall (fun o => opcode_of o <> findOp) (annotate es t).
Proof. induction 1; cbn; constructor; auto. Qed.

Lemma data_annotate es t : map data_of (annotate es t) = map vch_of es.
Proof. induction es; cbn; f_equal; auto. Qed.

Lemma opcodes_annotate es t : map opcode_of (annotate es t) = map op_of es.
Proof. induction es; cbn; f_equal; auto. Qed.

Lemma split_at {A : Type} (l : list A) n :
  (n < length l)%nat -> exists a x b, l = a ++ x :: b /\ length a = n.
Proof.
  intros H. destruct (skipn n l) as [|x b] eqn:E.
  - apply (f_equal (@length A)) in E. rewrite length_skipn in E. cbn in E. lia.
  - exists (firstn n l), x, b. rewrite <- E, firstn_skipn. split; [reflexivity|].
    rewrite length_firstn. lia.
Qed.

(** [ReplaceParam] on a script given by its operations: the one [length b + 1]
    places before the first [findOp] is replaced by a push of [p]. *)
Lemma ReplaceParam_flat a old b x post t p k :
  Forall encoded (a ++ old :: b ++ x :: post) ->
  size (flat (a ++ old :: b ++ x :: post) ++ t) < two32 -> fst (ops t) = [] ->
  Forall (fun y => op_of y <> op_of x) (a ++ old :: b) -> a <> [] ->
  1 <= k -> length b = Z.to_nat (k - 1) ->
  ReplaceParam (flat (a ++ old :: b ++ x :: post) ++ t) (op_of x) k p =
  Some (flat a ++ push_bytes p ++ flat (b ++ x :: post) ++ t).
Proof.
  intros Henc Hs Ht Hpre Ha Hk Hb. unfold ReplaceParam. destruct (Z.ltb_spec k 0); [lia|].
  rewrite ops_flat, Ht by assumption. cbn [fst]. rewrite app_nil_r.
  remember (a ++ old :: b ++ x :: post) as es eqn:Ees. remember (a ++ old :: b) as pre eqn:Ep.
  assert (Ees' : es = pre ++ x :: post) by (rewrite Ees, Ep, <- app_assoc; reflexivity).
  assert (Hlp : length pre = (length a + 1 + length b)%nat)
    by (rewrite Ep, length_app; cbn [length]; lia).
  assert (Hla : (0 < length a)%nat) by (destruct a; [easy|cbn; lia]).
  replace (annotate es t) with (annotate (pre ++ x :: post) t) by (now rewrite Ees').
  rewrite annotate_app, replace_loop_pre by now apply annotate_ops_ne.
  cbn [annotate replace_loop]. unfold opcode_of at 1. cbn [fst]. rewrite Z.eqb_refl.
  rewrite length_app, length_map, length_annotate. cbn [length].
  destruct (Nat.ltb_spec (Z.to_nat k + 1) (1 + length pre)) as [Hlen|]; [|lia].
  assert (Hnth : forall j, (1 <= j <= length pre)%nat ->
            nth j ([flat es ++ t] ++ map rest_of (annotate pre (flat (x :: post) ++ t))) [] =
            flat (skipn j es) ++ t).
  { intros j Hj. destruct j as [|j]; [lia|]. cbn [app nth]. rewrite nth_rest by lia.
    rewrite Ees', skipn_app, flat_app. replace (S j - length pre)%nat with 0%nat by lia.
    cbn [skipn]. now rewrite app_assoc. }
  rewrite !Hnth by lia.
  replace (1 + length pre - 1 - Z.to_nat k)%nat with (length a) by lia.
  replace (1 + length pre - Z.to_nat k)%nat with (S (length a)) by lia.
  assert (Hsk : skipn (length a) es = old :: b ++ x :: post)
    by (rewrite Ees; now apply skipn_app_exact).
  assert (Hsk' : skipn (S (length a)) es = b ++ x :: post).
  { rewrite Ees, skipn_app, skipn_all2 by lia.
    replace (S (length a) - length a)%nat with 1%nat by lia. reflexivity. }
  rewrite Hsk, Hsk', push_vch_app, <- app_assoc. f_equal. f_equal.
  rewrite Ees, flat_app, <- app_assoc. apply firstn_app_exact. rewrite length_app. lia.
Qed.

(** What [ReplaceParam] did, in terms of the operations of the script. *)
Lemma ReplaceParam_split s findOp k p s' :
  bytes s -> size s < two32 -> 1 <= k -> ReplaceParam s findOp k p = Some s' ->
  exists a old b x post t,
    s = flat (a ++ old :: b ++ x :: post) ++ t
    /\ s' = flat a ++ push_bytes p ++ flat (b ++ x :: post) ++ t
    /\ Forall encoded (a ++ old :: b ++ x :: post) /\ fst (ops t) = []
    /\ op_of x = findOp /\ Forall (fun y => op_of y <> findOp) (a ++ old :: b)
    /\ length b = Z.to_nat (k - 1) /\ a <> [].
Proof.
  intros Hb Hs Hk HR. destruct (ops_split s Hb Hs) as (es & t & Es & Henc & Ht & Eo & _).
  pose proof HR as HR'. unfold ReplaceParam in HR'. rewrite Eo in HR'.
  destruct (Z.ltb_spec k 0); [lia|].
  destruct (first_op es findOp) as [(pre & x & post & Ees & Hx & Hpre)|Hno].
  2: { rewrite <- (app_nil_r (annotate es t)), replace_loop_pre in HR' by now apply annotate_ops_ne.
       discriminate. }
  rewrite Ees, annotate_app, replace_loop_pre in HR' by now apply annotate_ops_ne.
  cbn [annotate replace_loop] in HR'. unfold opcode_of at 1 in HR'. cbn [fst] in HR'.
  rewrite Hx, Z.eqb_refl, length_app, length_map, length_annotate in HR'. cbn [length] in HR'.
  destruct (Nat.ltb_spec (Z.to_nat k + 1) (1 + length pre)) as [Hlen|]; [clear HR'|discriminate].
  destruct (split_at pre (length pre - Z.to_nat k)) as (a & old & b & Ep & Hla); [lia|].
  assert (Hlp : length pre = (length a + 1 + length b)%nat)
    by (rewrite Ep, length_app; cbn [length]; lia).
  assert (Ees' : es = a ++ old :: b ++ x :: post) by (rewrite Ees, Ep, <- app_assoc; reflexivity).
  assert (Ha : a <> []) by (destruct a; [cbn in *; lia|discriminate]).
  subst es findOp pre s. rewrite Ees' in *.
  rewrite ReplaceParam_flat in HR by (auto; lia). apply Some_inj in HR. subst s'.
  exists a, old, b, x, post, t. repeat split; auto. lia.
Qed.

(** Replacing one operation by another, neither of them the one counted. *)
Lemma Find_flat a y y' r t x :
  Forall (fun z => op_of z <> op_of x) a -> op_of y <> op_of x -> op_of y' <> op_of x ->
  size (filter (fun o => opcode_of o =? op_of x) (annotate (a ++ y :: r) t)) =
  size (filter (fun o => opcode_of o =? op_of x) (annotate (a ++ y' :: r) t)).
Proof.
  intros Ha Hy Hy'. unfold size. f_equal. rewrite !annotate_app. cbn [annotate]. rewrite !filter_app.
  cbn [filter].
  replace (opcode_of (op_of y, vch_of y, flat r ++ t) =? op_of x) with false
    by (symmetry; now apply Z.eqb_neq).
  replace (opcode_of (op_of y', vch_of y', flat r ++ t) =? op_of x) with false
    by (symmetry; now apply Z.eqb_neq).
  assert (Hz : forall w, filter (fun o => opcode_of o =? op_of x) (annotate a w) = []).
  { intros w. induction Ha as [|z a Hz Ha IH]; [reflexivity|].
    cbn [annotate filter]. unfold opcode_of at 1. cbn [fst].
    destruct (Z.eqb_spec (op_of z) (op_of x)); [contradiction|exact IH]. }
  now rewrite !Hz.
Qed.

(** Replacing a parameter twice is replacing it once. *)
Lemma ReplaceParam_twice s findOp k p q s' :
  bytes s -> size s < two32 -> 1 <= k -> OP_PUSHDATA4 < findOp ->
  ReplaceParam s findOp k p = Some s' -> size s' < two32 ->
  ReplaceParam s' findOp k q = ReplaceParam s findOp k q /\ Find s' findOp = Find s findOp.
Proof.
  intros Hb Hs Hk Hop HR Hs'.
  destruct (ReplaceParam_split s findOp k p s' Hb Hs Hk HR)
    as (a & old & b & x & post & t & -> & -> & Henc & Ht & <- & Hpre & Hlb & Ha).
  rewrite ReplaceParam_flat by auto.
  assert (Hp : size p < two32).
  { rewrite !size_app in Hs'. pose proof (push_bytes_size p). pose proof (size_nonneg (flat a)).
    pose proof (size_nonneg (flat (b ++ x :: post))). pose proof (size_nonneg t). lia. }
  destruct (push_bytes_encodes p Hp) as (pop & Hpop & Hpe).
  assert (E2 : flat a ++ push_bytes p ++ flat (b ++ x :: post) ++ t =
               flat (a ++ (push_bytes p, pop, p) :: b ++ x :: post) ++ t)
    by (rewrite (flat_app a), (flat_cons (push_bytes p, pop, p)), <- !app_assoc; reflexivity).
  rewrite E2 in *. apply Forall_app in Henc as [Hea Heo]. inversion Heo as [|? ? Hold Heb]; subst.
  apply Forall_app in Hpre as [Hpa Hpo]. inversion Hpo as [|? ? Hno Hpb]; subst.
  assert (Henc' : Forall encoded (a ++ (push_bytes p, pop, p) :: b ++ x :: post))
    by (apply Forall_app; split; [assumption|constructor; assumption]).
  split.
  - apply ReplaceParam_flat; auto.
    apply Forall_app. split; [assumption|]. constructor; [cbn; lia|assumption].
  - unfold Find. rewrite !ops_flat, Ht by (try (apply Forall_app; split; [|constructor]); assumption).
    cbn [fst]. rewrite !app_nil_r. apply Find_flat; [assumption|cbn; lia|exact Hno].
Qed.

End ScrLemmas.

(** ** Signature operation counts *)
Section SigOps.
Import Scr.

Lemma ops_count_le s : (length (fst (ops s)) <= length s)%nat.
Proof.
  remember (length s) as n eqn:En. revert s En.
  induction n as [n IH] using (well_founded_induction lt_wf). intros s En.
  destruct (GetScriptOp s) as [[[s' o] v]|] eqn:E.
  - pose proof (GetScriptOp_shorter _ _ _ _ E). rewrite (ops_step _ _ _ _ E). cbn [fst length].
    specialize (IH (length s') ltac:(lia) s' eq_refl). lia.
  - unfold ops. destruct s as [|op s]; [cbn; lia|]. cbn [length ops_from]. rewrite E. cbn. lia.
Qed.

(** The accurate count never exceeds the legacy one, which is at most twenty
    for each operation. *)
Lemma count_sigops_le l last n m :
  0 <= n <= m -> m + 20 * size l < two32 ->
  0 <= count_sigops true last l n <= count_sigops false last l m
  /\ count_sigops false last l m <= m + 20 * size l.
Proof.
  revert last n m. induction l as [|o l IH]; intros lst n m Hn Hm; cbn [count_sigops].
  - unfold size. cbn [length]. lia.
  - assert (Hsz : size (o :: l) = 1 + size l) by (unfold size; cbn [length]; lia).
    rewrite Hsz in *. pose proof (size_nonneg l).
    unfold OP_1, OP_16, MAX_PUBKEYS_PER_MULTISIG in *. cbn [andb].
    set (a := if ((opcode_of o =? OP_CHECKSIG) || _)%bool then _ else _).
    set (b := if ((opcode_of o =? OP_CHECKSIG) || _)%bool then u32 (m + 1) else _).
    assert (Hab : 0 <= a <= b /\ b <= m + 20).
    { unfold a, b. destruct ((opcode_of o =? OP_CHECKSIG) || _)%bool;
        [rewrite !u32_small by (unfold is_u32, two32 in *; lia); lia|].
      destruct ((opcode_of o =? OP_CHECKMULTISIG) || _)%bool; [|lia].
      destruct (Z.leb_spec 81 lst), (Z.leb_spec lst 96); cbn [andb];
        rewrite !u32_small by (unfold is_u32, two32 in *; lia); lia. }
    destruct (IH (opcode_of o) a b) as [I1 I2]; lia.
Qed.

End SigOps.

(** A number of at most [n] bytes is read back, whatever the minimality rule. *)
Lemma of_vch_serialize v n fMin :
  - 2 ^ 63 < v < 2 ^ 63 -> 1 <= n <= 8 -> Z.abs v < 2 ^ (8 * n - 1) ->
  Num.of_vch (Num.serialize v) fMin n = Some v.
Proof.
  intros Hv Hn Ha. unfold Num.of_vch. destruct (Z.eq_dec v 0) as [->|H0].
  - change (size (Num.serialize 0)) with 0. destruct (Z.ltb_spec n 0); [lia|]. now destruct fMin.
  - destruct (serialize_snoc v Hv H0) as (r & b & -> & Hb & Hs & Hval & Hmin).
    rewrite Hmin, set_vch_sm, Hval by assumption. rewrite andb_false_r.
    pose proof (minimal_size r b n Hb Hmin (proj1 Hn)) as Hiff. rewrite Hval in Hiff.
    destruct (Z.ltb_spec n (size (r ++ [b]))); [lia|reflexivity].
Qed.

(** ** Properties *)
Section Properties.
Import Num Scr.

(** C33: a script number survives the stack: for every 64-bit value but the
    smallest, [serialize] gives a minimal encoding that the decoder accepts
    within [n] bytes exactly when the magnitude is below 2^(8n-1) (so with the
    default of four bytes exactly on [-2^31+1 .. 2^31-1]), and then decodes to
    the value. *)
Theorem scriptnum_roundtrip (v n : Z) :
  - 2 ^ 63 < v < 2 ^ 63 -> 1 <= n <= 8 ->
  of_vch (serialize v) true n = if Z.abs v <? 2 ^ (8 * n - 1) then Some v else None.
Proof.
  intros Hv Hn. unfold of_vch. destruct (Z.eq_dec v 0) as [->|H0].
  - change (size (serialize 0)) with 0. change (set_vch (serialize 0)) with 0.
    change (minimally_encoded (serialize 0)) with true. change (Z.abs 0) with 0.
    cbn [negb andb]. destruct (Z.ltb_spec n 0); [lia|].
    destruct (Z.ltb_spec 0 (2 ^ (8 * n - 1))) as [|Hle]; [reflexivity|].
    pose proof (Z.pow_pos_nonneg 2 (8 * n - 1) ltac:(lia) ltac:(lia)). lia.
  - destruct (serialize_snoc v Hv H0) as (r & b & -> & Hb & Hs & Hval & Hmin).
    rewrite Hmin, set_vch_sm, Hval by assumption. cbn [negb andb].
    pose proof (minimal_size r b n Hb Hmin (proj1 Hn)) as Hiff. rewrite Hval in Hiff.
    destruct (Z.ltb_spec n (size (r ++ [b]))), (Z.ltb_spec (Z.abs v) (2 ^ (8 * n - 1)));
      auto; lia.
Qed.

Lemma scriptnum_roundtrip_witness :
  of_vch (serialize (-2147483647)) true nDefaultMaxNumSize = Some (-2147483647)
  /\ of_vch (serialize 2147483648) true nDefaultMaxNumSize = None.
Proof.
  split; unfold nDefaultMaxNumSize; rewrite scriptnum_roundtrip by lia; reflexivity.
Defined.

(** Minimal encodings are unique: a byte vector of at most eight bytes that
    the decoder accepts under [fRequireMinimal] is the serialization of the
    number it decodes to. *)
Theorem scriptnum_minimal_unique (vch : list Z) (n v : Z) :
  bytes vch -> n <= 8 -> of_vch vch true n = Some v -> serialize v = vch.
Proof.
  intros Hb Hn. unfold of_vch. destruct (Z.ltb_spec n (size vch)); [discriminate|].
  destruct (minimally_encoded vch) eqn:Hm; [|discriminate]. cbn [negb andb].
  destruct vch as [|x vch]; [now intros [= <-]|]. intros E. apply Some_inj in E.
  destruct (snoc_inv (x :: vch)) as (r & b & Er); [discriminate|]. rewrite Er in *.
  rewrite size_snoc in *. rewrite set_vch_sm in E by (assumption || lia).
  rewrite <- E. apply serialize_sm; auto. lia.
Qed.

Lemma scriptnum_minimal_unique_witness : serialize (-255) = [255; 128].
Proof.
  apply (scriptnum_minimal_unique [255; 128] 4 (-255));
    [repeat constructor; lia|lia|reflexivity].
Defined.

(** Data pushed with [operator<<] is decoded by [GetScriptOp] whatever
    follows: the four length forms are chosen so that one push operation comes
    back with exactly the data and the rest of the script. *)
Theorem push_then_decode (script b t : list Z) :
  size (push_vch [] b ++ t) < 2 ^ 32 ->
  exists opcode, 0 <= opcode <= OP_PUSHDATA4
  /\ push_vch script b = script ++ push_vch [] b
  /\ GetScriptOp (push_vch [] b ++ t) = Some (t, opcode, b).
Proof.
  intros Hs. destruct (push_bytes_encodes b) as (opcode & Ho & He).
  - fold (push_bytes b) in Hs. rewrite size_app in Hs.
    pose proof (push_bytes_size b). pose proof (size_nonneg t). change two32 with (2 ^ 32). lia.
  - exists opcode. split; [assumption|]. split; [reflexivity|exact (proj2 He t Hs)].
Qed.

Lemma push_then_decode_witness :
  exists opcode, 0 <= opcode <= OP_PUSHDATA4
  /\ push_vch [OP_DUP] (repeat 7 300) = [OP_DUP] ++ push_vch [] (repeat 7 300)
  /\ GetScriptOp (push_vch [] (repeat 7 300) ++ [OP_EQUAL]) = Some ([OP_EQUAL], opcode, repeat 7 300).
Proof. apply (push_then_decode [OP_DUP] (repeat 7 300) [OP_EQUAL]). reflexivity. Defined.

(** [ReplaceParam] and [FindParam] agree on positions: after the parameter
    [k] places before the first [findOp] has been replaced by [p], looking it up
    gives [p], and [findOp] occurs in the new script as often as before. *)
Theorem replace_then_find (s s' p : list Z) (findOp k : Z) :
  bytes s -> size s < 2 ^ 32 -> 1 <= k -> OP_PUSHDATA4 < findOp ->
  ReplaceParam s findOp k p = Some s' -> size s' < 2 ^ 32 ->
  FindParam s' findOp k = Some p /\ Find s' findOp = Find s findOp.
Proof.
  intros Hb Hs Hk Hop HR Hs'.
  destruct (ReplaceParam_split s findOp k p s' Hb Hs Hk HR)
    as (a & old & b & x & post & t & Es & Es' & Henc & Ht & Hx & Hpre & Hlb & Ha).
  assert (Hp : size p < two32).
  { rewrite Es', !size_app in Hs'. pose proof (push_bytes_size p). pose proof (size_nonneg (flat a)).
    pose proof (size_nonneg (flat (b ++ x :: post))). pose proof (size_nonneg t).
    change two32 with (2 ^ 32). lia. }
  destruct (push_bytes_encodes p Hp) as (pop & Hpop & Hpe).
  assert (Es2 : s' = flat (a ++ (push_bytes p, pop, p) :: b ++ x :: post) ++ t)
    by (rewrite Es', (flat_app a), (flat_cons (push_bytes p, pop, p)), <- !app_assoc; reflexivity).
  apply Forall_app in Henc as [Hea Heo]. inversion Heo as [|? ? Hold Heb]; subst.
  assert (Henc' : Forall encoded (a ++ (push_bytes p, pop, p) :: b ++ x :: post))
    by (apply Forall_app; split; [assumption|constructor; assumption]).
  apply Forall_app in Hpre as [Hpa Hpo]. inversion Hpo as [|? ? Hno Hpb]; subst.
  assert (Hpre' : Forall (fun y => op_of y <> op_of x) (a ++ (push_bytes p, pop, p) :: b)).
  { apply Forall_app. split; [assumption|]. constructor; [cbn; lia|assumption]. }
  rewrite Es2 in Hs' |- *. unfold FindParam, Find.
  rewrite !ops_flat, Ht by (try (apply Forall_app; split; [|constructor]); assumption).
  cbn [fst]. rewrite !app_nil_r. destruct (Z.ltb_spec k 0); [lia|]. split.
  - rewrite app_comm_cons, app_assoc, annotate_app, find_loop_pre by now apply annotate_ops_ne.
    cbn [annotate find_loop]. unfold opcode_of at 1, data_of at 2. cbn [fst snd]. rewrite Z.eqb_refl.
    rewrite data_annotate, map_app. cbn [map app]. cbn [vch_of snd].
    rewrite !length_app, length_map. cbn [length]. rewrite length_map.
    destruct (Nat.ltb_spec (Z.to_nat k + 1) (length a + S (length b) + 1)).
    2: { destruct a; [contradiction|]. cbn [length] in *. lia. }
    f_equal. replace (length a + S (length b) + 1 - 1 - Z.to_nat k)%nat with (length (map vch_of a))
      by (rewrite length_map; lia).
    rewrite <- app_assoc. apply nth_middle.
  - apply Find_flat; [assumption|cbn; lia|exact Hno].
Qed.

Lemma replace_then_find_witness :
  FindParam [1; 4; 1; 9; 1; 7; OP_CREATE] OP_CREATE 1 = Some [7]
  /\ exists s', ReplaceParam [1; 4; 1; 9; 1; 7; OP_CREATE] OP_CREATE 1 [5; 6] = Some s'
  /\ FindParam s' OP_CREATE 1 = Some [5; 6].
Proof.
  split; [reflexivity|]. eexists. split; [reflexivity|].
  apply (replace_then_find [1; 4; 1; 9; 1; 7; OP_CREATE] _ [5; 6] OP_CREATE 1);
    [repeat constructor; discriminate|reflexivity|lia|reflexivity|reflexivity|reflexivity].
Defined.

(** Signature operations are bounded: counting multisig keys accurately
    never gives more than the legacy count, which never exceeds twenty for each
    byte of the script, so the 32-bit counter cannot wrap for any script below
    200 million bytes. *)
Theorem sigops_bounded (s : list Z) :
  size s <= 200000000 ->
  0 <= GetSigOpCount s true <= GetSigOpCount s false /\ GetSigOpCount s false <= 20 * size s.
Proof.
  intros Hs. pose proof (ops_count_le s) as Hl. unfold GetSigOpCount.
  destruct (count_sigops_le (fst (ops s)) OP_INVALIDOPCODE 0 0) as [H1 H2]; [lia| |];
    unfold size, two32 in *; lia.
Qed.

Lemma sigops_bounded_witness :
  0 <= GetSigOpCount [OP_2; OP_CHECKMULTISIG] true <= GetSigOpCount [OP_2; OP_CHECKMULTISIG] false
  /\ GetSigOpCount [OP_2; OP_CHECKMULTISIG] false <= 20 * size [OP_2; OP_CHECKMULTISIG].
Proof. apply (sigops_bounded [OP_2; OP_CHECKMULTISIG]). discriminate. Defined.

End Properties.
