(* ===== verification/Sha256.v ===== *)
(** * SHA-256: [src/src/crypto/sha256.cpp]

    The compression function [Transform] and the specialised [TransformD64],
    which computes the double hash of 64 bytes.  Both are unrolled in the source,
    one call of [Round] per line, with the eight working variables renamed from
    line to line instead of moved and with the sixteen schedule words updated in
    place; the tables below have one entry per line of the source.  The
    streaming interface [CSHA256] is in [Hash]. *)
From Stdlib Require Import ZArith Lia List Bool.
From S2P Require Import Prelude.
Import ListNotations.

Module sha256.

Definition Ch (x y z : Z) : Z := Z.lxor z (Z.land x (Z.lxor y z)).
Definition Maj (x y z : Z) : Z := Z.lor (Z.land x y) (Z.land z (Z.lor x y)).

(** [(x >> r | x << (32 - r))]. *)
Definition rotr (x r : Z) : Z := Z.lor (Z.shiftr x r) (u32 (Z.shiftl x (32 - r))).

Definition Sigma0 (x : Z) : Z := Z.lxor (Z.lxor (rotr x 2) (rotr x 13)) (rotr x 22).
Definition Sigma1 (x : Z) : Z := Z.lxor (Z.lxor (rotr x 6) (rotr x 11)) (rotr x 25).
Definition sigma0 (x : Z) : Z := Z.lxor (Z.lxor (rotr x 7) (rotr x 18)) (Z.shiftr x 3).
Definition sigma1 (x : Z) : Z := Z.lxor (Z.lxor (rotr x 17) (rotr x 19)) (Z.shiftr x 10).

(** The new values of [d] and [h]. *)
Definition Round (a b c d e f g h k : Z) : Z * Z :=
  let t1 := u32 (h + Sigma1 e + Ch e f g + k) in
  let t2 := u32 (Sigma0 a + Maj a b c) in
  (u32 (d + t1), u32 (t1 + t2)).

Definition Initialize : list Z :=
  [0x6a09e667; 0xbb67ae85; 0x3c6ef372; 0xa54ff53a;
   0x510e527f; 0x9b05688c; 0x1f83d9ab; 0x5be0cd19].

(** ** The lines of the unrolled code

    A term of the word that a line adds to its constant: a literal, a schedule
    word, [sigma0] or [sigma1] of one, or a big-endian word of the input. *)
Inductive term : Set :=
| C (c : Z) | W (i : nat) | S0 (i : nat) | S1 (i : nat) | Load (off : nat).

(** [w_i = ...], [w_i += ...], or a sum that is not stored. *)
Inductive rhs : Set :=
| Set_ (i : nat) (ts : list term)
| Add_ (i : nat) (ts : list term)
| Use (ts : list term).

(** The variables in the order in which [Round] receives them, the constant and
    the word. *)
Definition line : Set := list nat * Z * rhs.

Definition abcdefgh : list nat := [0; 1; 2; 3; 4; 5; 6; 7]%nat.
Definition habcdefg : list nat := [7; 0; 1; 2; 3; 4; 5; 6]%nat.
Definition ghabcdef : list nat := [6; 7; 0; 1; 2; 3; 4; 5]%nat.
Definition fghabcde : list nat := [5; 6; 7; 0; 1; 2; 3; 4]%nat.
Definition efghabcd : list nat := [4; 5; 6; 7; 0; 1; 2; 3]%nat.
Definition defghabc : list nat := [3; 4; 5; 6; 7; 0; 1; 2]%nat.
Definition cdefghab : list nat := [2; 3; 4; 5; 6; 7; 0; 1]%nat.
Definition bcdefgha : list nat := [1; 2; 3; 4; 5; 6; 7; 0]%nat.

Definition eval_term (chunk w : list Z) (t : term) : Z :=
  match t with
  | C c => c
  | W i => nth i w 0
  | S0 i => sigma0 (nth i w 0)
  | S1 i => sigma1 (nth i w 0)
  | Load off => ReadBE32 (skipn off chunk)
  end.

Definition eval_terms (chunk w : list Z) (ts : list term) : Z :=
  fold_right (fun t n => eval_term chunk w t + n) 0 ts.

(** The schedule words after a line and the word that it uses. *)
Definition eval_rhs (chunk w : list Z) (r : rhs) : list Z * Z :=
  match r with
  | Set_ i ts => let v := u32 (eval_terms chunk w ts) in (upd w i (fun _ => v), v)
  | Add_ i ts =>
      let v := u32 (nth i w 0 + eval_terms chunk w ts) in (upd w i (fun _ => v), v)
  | Use ts => (w, u32 (eval_terms chunk w ts))
  end.

(** [Round] applied to the variables in the given order. *)
Definition Round_at (ord : list nat) (r : list Z) (k : Z) : list Z :=
  let v i := nth (nth i ord O) r 0 in
  let '(d, h) := Round (v 0%nat) (v 1%nat) (v 2%nat) (v 3%nat) (v 4%nat) (v 5%nat) (v 6%nat) (v 7%nat) k in
  upd (upd r (nth 3 ord O) (fun _ => d)) (nth 7 ord O) (fun _ => h).

(** The variables and the schedule words after the lines. *)
Fixpoint run (chunk : list Z) (lines : list line) (r w : list Z) : list Z * list Z :=
  match lines with
  | [] => (r, w)
  | (ord, k, e) :: lines' =>
      let '(w, v) := eval_rhs chunk w e in
      run chunk lines' (Round_at ord r (u32 (k + v))) w
  end.

Definition rounds : list line :=
  [(abcdefgh, 0x428a2f98, Set_ 0 [Load 0]);
   (habcdefg, 0x71374491, Set_ 1 [Load 4]);
   (ghabcdef, 0xb5c0fbcf, Set_ 2 [Load 8]);
   (fghabcde, 0xe9b5dba5, Set_ 3 [Load 12]);
   (efghabcd, 0x3956c25b, Set_ 4 [Load 16]);
   (defghabc, 0x59f111f1, Set_ 5 [Load 20]);
   (cdefghab, 0x923f82a4, Set_ 6 [Load 24]);
   (bcdefgha, 0xab1c5ed5, Set_ 7 [Load 28]);
   (abcdefgh, 0xd807aa98, Set_ 8 [Load 32]);
   (habcdefg, 0x12835b01, Set_ 9 [Load 36]);
   (ghabcdef, 0x243185be, Set_ 10 [Load 40]);
   (fghabcde, 0x550c7dc3, Set_ 11 [Load 44]);
   (efghabcd, 0x72be5d74, Set_ 12 [Load 48]);
   (defghabc, 0x80deb1fe, Set_ 13 [Load 52]);
   (cdefghab, 0x9bdc06a7, Set_ 14 [Load 56]);
   (bcdefgha, 0xc19bf174, Set_ 15 [Load 60]);
   (abcdefgh, 0xe49b69c1, Add_ 0 [S1 14; W 9; S0 1]);
   (habcdefg, 0xefbe4786, Add_ 1 [S1 15; W 10; S0 2]);
   (ghabcdef, 0x0fc19dc6, Add_ 2 [S1 0; W 11; S0 3]);
   (fghabcde, 0x240ca1cc, Add_ 3 [S1 1; W 12; S0 4]);
   (efghabcd, 0x2de92c6f, Add_ 4 [S1 2; W 13; S0 5]);
   (defghabc, 0x4a7484aa, Add_ 5 [S1 3; W 14; S0 6]);
   (cdefghab, 0x5cb0a9dc, Add_ 6 [S1 4; W 15; S0 7]);
   (bcdefgha, 0x76f988da, Add_ 7 [S1 5; W 0; S0 8]);
   (abcdefgh, 0x983e5152, Add_ 8 [S1 6; W 1; S0 9]);
   (habcdefg, 0xa831c66d, Add_ 9 [S1 7; W 2; S0 10]);
   (ghabcdef, 0xb00327c8, Add_ 10 [S1 8; W 3; S0 11]);
   (fghabcde, 0xbf597fc7, Add_ 11 [S1 9; W 4; S0 12]);
   (efghabcd, 0xc6e00bf3, Add_ 12 [S1 10; W 5; S0 13]);
   (defghabc, 0xd5a79147, Add_ 13 [S1 11; W 6; S0 14]);
   (cdefghab, 0x06ca6351, Add_ 14 [S1 12; W 7; S0 15]);
   (bcdefgha, 0x14292967, Add_ 15 [S1 13; W 8; S0 0]);
   (abcdefgh, 0x27b70a85, Add_ 0 [S1 14; W 9; S0 1]);
   (habcdefg, 0x2e1b2138, Add_ 1 [S1 15; W 10; S0 2]);
   (ghabcdef, 0x4d2c6dfc, Add_ 2 [S1 0; W 11; S0 3]);
   (fghabcde, 0x53380d13, Add_ 3 [S1 1; W 12; S0 4]);
   (efghabcd, 0x650a7354, Add_ 4 [S1 2; W 13; S0 5]);
   (defghabc, 0x766a0abb, Add_ 5 [S1 3; W 14; S0 6]);
   (cdefghab, 0x81c2c92e, Add_ 6 [S1 4; W 15; S0 7]);
   (bcdefgha, 0x92722c85, Add_ 7 [S1 5; W 0; S0 8]);
   (abcdefgh, 0xa2bfe8a1, Add_ 8 [S1 6; W 1; S0 9]);
   (habcdefg, 0xa81a664b, Add_ 9 [S1 7; W 2; S0 10]);
   (ghabcdef, 0xc24b8b70, Add_ 10 [S1 8; W 3; S0 11]);
   (fghabcde, 0xc76c51a3, Add_ 11 [S1 9; W 4; S0 12]);
   (efghabcd, 0xd192e819, Add_ 12 [S1 10; W 5; S0 13]);
   (defghabc, 0xd6990624, Add_ 13 [S1 11; W 6; S0 14]);
   (cdefghab, 0xf40e3585, Add_ 14 [S1 12; W 7; S0 15]);
   (bcdefgha, 0x106aa070, Add_ 15 [S1 13; W 8; S0 0]);
   (abcdefgh, 0x19a4c116, Add_ 0 [S1 14; W 9; S0 1]);
   (habcdefg, 0x1e376c08, Add_ 1 [S1 15; W 10; S0 2]);
   (ghabcdef, 0x2748774c, Add_ 2 [S1 0; W 11; S0 3]);
   (fghabcde, 0x34b0bcb5, Add_ 3 [S1 1; W 12; S0 4]);
   (efghabcd, 0x391c0cb3, Add_ 4 [S1 2; W 13; S0 5]);
   (defghabc, 0x4ed8aa4a, Add_ 5 [S1 3; W 14; S0 6]);
   (cdefghab, 0x5b9cca4f, Add_ 6 [S1 4; W 15; S0 7]);
   (bcdefgha, 0x682e6ff3, Add_ 7 [S1 5; W 0; S0 8]);
   (abcdefgh, 0x748f82ee, Add_ 8 [S1 6; W 1; S0 9]);
   (habcdefg, 0x78a5636f, Add_ 9 [S1 7; W 2; S0 10]);
   (ghabcdef, 0x84c87814, Add_ 10 [S1 8; W 3; S0 11]);
   (fghabcde, 0x8cc70208, Add_ 11 [S1 9; W 4; S0 12]);
   (efghabcd, 0x90befffa, Add_ 12 [S1 10; W 5; S0 13]);
   (defghabc, 0xa4506ceb, Add_ 13 [S1 11; W 6; S0 14]);
   (cdefghab, 0xbef9a3f7, Use [W 14; S1 12; W 7; S0 15]);
   (bcdefgha, 0xc67178f2, Use [W 15; S1 13; W 8; S0 0])].

Definition rounds_D64_1 : list line :=
  [(abcdefgh, 0x428a2f98, Set_ 0 [Load 0]);
   (habcdefg, 0x71374491, Set_ 1 [Load 4]);
   (ghabcdef, 0xb5c0fbcf, Set_ 2 [Load 8]);
   (fghabcde, 0xe9b5dba5, Set_ 3 [Load 12]);
   (efghabcd, 0x3956c25b, Set_ 4 [Load 16]);
   (defghabc, 0x59f111f1, Set_ 5 [Load 20]);
   (cdefghab, 0x923f82a4, Set_ 6 [Load 24]);
   (bcdefgha, 0xab1c5ed5, Set_ 7 [Load 28]);
   (abcdefgh, 0xd807aa98, Set_ 8 [Load 32]);
   (habcdefg, 0x12835b01, Set_ 9 [Load 36]);
   (ghabcdef, 0x243185be, Set_ 10 [Load 40]);
   (fghabcde, 0x550c7dc3, Set_ 11 [Load 44]);
   (efghabcd, 0x72be5d74, Set_ 12 [Load 48]);
   (defghabc, 0x80deb1fe, Set_ 13 [Load 52]);
   (cdefghab, 0x9bdc06a7, Set_ 14 [Load 56]);
   (bcdefgha, 0xc19bf174, Set_ 15 [Load 60]);
   (abcdefgh, 0xe49b69c1, Add_ 0 [S1 14; W 9; S0 1]);
   (habcdefg, 0xefbe4786, Add_ 1 [S1 15; W 10; S0 2]);
   (ghabcdef, 0x0fc19dc6, Add_ 2 [S1 0; W 11; S0 3]);
   (fghabcde, 0x240ca1cc, Add_ 3 [S1 1; W 12; S0 4]);
   (efghabcd, 0x2de92c6f, Add_ 4 [S1 2; W 13; S0 5]);
   (defghabc, 0x4a7484aa, Add_ 5 [S1 3; W 14; S0 6]);
   (cdefghab, 0x5cb0a9dc, Add_ 6 [S1 4; W 15; S0 7]);
   (bcdefgha, 0x76f988da, Add_ 7 [S1 5; W 0; S0 8]);
   (abcdefgh, 0x983e5152, Add_ 8 [S1 6; W 1; S0 9]);
   (habcdefg, 0xa831c66d, Add_ 9 [S1 7; W 2; S0 10]);
   (ghabcdef, 0xb00327c8, Add_ 10 [S1 8; W 3; S0 11]);
   (fghabcde, 0xbf597fc7, Add_ 11 [S1 9; W 4; S0 12]);
   (efghabcd, 0xc6e00bf3, Add_ 12 [S1 10; W 5; S0 13]);
   (defghabc, 0xd5a79147, Add_ 13 [S1 11; W 6; S0 14]);
   (cdefghab, 0x06ca6351, Add_ 14 [S1 12; W 7; S0 15]);
   (bcdefgha, 0x14292967, Add_ 15 [S1 13; W 8; S0 0]);
   (abcdefgh, 0x27b70a85, Add_ 0 [S1 14; W 9; S0 1]);
   (habcdefg, 0x2e1b2138, Add_ 1 [S1 15; W 10; S0 2]);
   (ghabcdef, 0x4d2c6dfc, Add_ 2 [S1 0; W 11; S0 3]);
   (fghabcde, 0x53380d13, Add_ 3 [S1 1; W 12; S0 4]);
   (efghabcd, 0x650a7354, Add_ 4 [S1 2; W 13; S0 5]);
   (defghabc, 0x766a0abb, Add_ 5 [S1 3; W 14; S0 6]);
   (cdefghab, 0x81c2c92e, Add_ 6 [S1 4; W 15; S0 7]);
   (bcdefgha, 0x92722c85, Add_ 7 [S1 5; W 0; S0 8]);
   (abcdefgh, 0xa2bfe8a1, Add_ 8 [S1 6; W 1; S0 9]);
   (habcdefg, 0xa81a664b, Add_ 9 [S1 7; W 2; S0 10]);
   (ghabcdef, 0xc24b8b70, Add_ 10 [S1 8; W 3; S0 11]);
   (fghabcde, 0xc76c51a3, Add_ 11 [S1 9; W 4; S0 12]);
   (efghabcd, 0xd192e819, Add_ 12 [S1 10; W 5; S0 13]);
   (defghabc, 0xd6990624, Add_ 13 [S1 11; W 6; S0 14]);
   (cdefghab, 0xf40e3585, Add_ 14 [S1 12; W 7; S0 15]);
   (bcdefgha, 0x106aa070, Add_ 15 [S1 13; W 8; S0 0]);
   (abcdefgh, 0x19a4c116, Add_ 0 [S1 14; W 9; S0 1]);
   (habcdefg, 0x1e376c08, Add_ 1 [S1 15; W 10; S0 2]);
   (ghabcdef, 0x2748774c, Add_ 2 [S1 0; W 11; S0 3]);
   (fghabcde, 0x34b0bcb5, Add_ 3 [S1 1; W 12; S0 4]);
   (efghabcd, 0x391c0cb3, Add_ 4 [S1 2; W 13; S0 5]);
   (defghabc, 0x4ed8aa4a, Add_ 5 [S1 3; W 14; S0 6]);
   (cdefghab, 0x5b9cca4f, Add_ 6 [S1 4; W 15; S0 7]);
   (bcdefgha, 0x682e6ff3, Add_ 7 [S1 5; W 0; S0 8]);
   (abcdefgh, 0x748f82ee, Add_ 8 [S1 6; W 1; S0 9]);
   (habcdefg, 0x78a5636f, Add_ 9 [S1 7; W 2; S0 10]);
   (ghabcdef, 0x84c87814, Add_ 10 [S1 8; W 3; S0 11]);
   (fghabcde, 0x8cc70208, Add_ 11 [S1 9; W 4; S0 12]);
   (efghabcd, 0x90befffa, Add_ 12 [S1 10; W 5; S0 13]);
   (defghabc, 0xa4506ceb, Add_ 13 [S1 11; W 6; S0 14]);
   (cdefghab, 0xbef9a3f7, Use [W 14; S1 12; W 7; S0 15]);
   (bcdefgha, 0xc67178f2, Use [W 15; S1 13; W 8; S0 0])].

Definition rounds_D64_2 : list line :=
  [(abcdefgh, 0xc28a2f98, Use []);
   (habcdefg, 0x71374491, Use []);
   (ghabcdef, 0xb5c0fbcf, Use []);
   (fghabcde, 0xe9b5dba5, Use []);
   (efghabcd, 0x3956c25b, Use []);
   (defghabc, 0x59f111f1, Use []);
   (cdefghab, 0x923f82a4, Use []);
   (bcdefgha, 0xab1c5ed5, Use []);
   (abcdefgh, 0xd807aa98, Use []);
   (habcdefg, 0x12835b01, Use []);
   (ghabcdef, 0x243185be, Use []);
   (fghabcde, 0x550c7dc3, Use []);
   (efghabcd, 0x72be5d74, Use []);
   (defghabc, 0x80deb1fe, Use []);
   (cdefghab, 0x9bdc06a7, Use []);
   (bcdefgha, 0xc19bf374, Use []);
   (abcdefgh, 0x649b69c1, Use []);
   (habcdefg, 0xf0fe4786, Use []);
   (ghabcdef, 0x0fe1edc6, Use []);
   (fghabcde, 0x240cf254, Use []);
   (efghabcd, 0x4fe9346f, Use []);
   (defghabc, 0x6cc984be, Use []);
   (cdefghab, 0x61b9411e, Use []);
   (bcdefgha, 0x16f988fa, Use []);
   (abcdefgh, 0xf2c65152, Use []);
   (habcdefg, 0xa88e5a6d, Use []);
   (ghabcdef, 0xb019fc65, Use []);
   (fghabcde, 0xb9d99ec7, Use []);
   (efghabcd, 0x9a1231c3, Use []);
   (defghabc, 0xe70eeaa0, Use []);
   (cdefghab, 0xfdb1232b, Use []);
   (bcdefgha, 0xc7353eb0, Use []);
   (abcdefgh, 0x3069bad5, Use []);
   (habcdefg, 0xcb976d5f, Use []);
   (ghabcdef, 0x5a0f118f, Use []);
   (fghabcde, 0xdc1eeefd, Use []);
   (efghabcd, 0x0a35b689, Use []);
   (defghabc, 0xde0b7a04, Use []);
   (cdefghab, 0x58f4ca9d, Use []);
   (bcdefgha, 0xe15d5b16, Use []);
   (abcdefgh, 0x007f3e86, Use []);
   (habcdefg, 0x37088980, Use []);
   (ghabcdef, 0xa507ea32, Use []);
   (fghabcde, 0x6fab9537, Use []);
   (efghabcd, 0x17406110, Use []);
   (defghabc, 0x0d8cd6f1, Use []);
   (cdefghab, 0xcdaa3b6d, Use []);
   (bcdefgha, 0xc0bbbe37, Use []);
   (abcdefgh, 0x83613bda, Use []);
   (habcdefg, 0xdb48a363, Use []);
   (ghabcdef, 0x0b02e931, Use []);
   (fghabcde, 0x6fd15ca7, Use []);
   (efghabcd, 0x521afaca, Use []);
   (defghabc, 0x31338431, Use []);
   (cdefghab, 0x6ed41a95, Use []);
   (bcdefgha, 0x6d437890, Use []);
   (abcdefgh, 0xc39c91f2, Use []);
   (habcdefg, 0x9eccabbd, Use []);
   (ghabcdef, 0xb5c9a0e6, Use []);
   (fghabcde, 0x532fb63c, Use []);
   (efghabcd, 0xd2c741c6, Use []);
   (defghabc, 0x07237ea3, Use []);
   (cdefghab, 0xa4954b68, Use []);
   (bcdefgha, 0x4c191d76, Use [])].

Definition rounds_D64_3 : list line :=
  [(abcdefgh, 0x428a2f98, Use [W 0]);
   (habcdefg, 0x71374491, Use [W 1]);
   (ghabcdef, 0xb5c0fbcf, Use [W 2]);
   (fghabcde, 0xe9b5dba5, Use [W 3]);
   (efghabcd, 0x3956c25b, Use [W 4]);
   (defghabc, 0x59f111f1, Use [W 5]);
   (cdefghab, 0x923f82a4, Use [W 6]);
   (bcdefgha, 0xab1c5ed5, Use [W 7]);
   (abcdefgh, 0x5807aa98, Use []);
   (habcdefg, 0x12835b01, Use []);
   (ghabcdef, 0x243185be, Use []);
   (fghabcde, 0x550c7dc3, Use []);
   (efghabcd, 0x72be5d74, Use []);
   (defghabc, 0x80deb1fe, Use []);
   (cdefghab, 0x9bdc06a7, Use []);
   (bcdefgha, 0xc19bf274, Use []);
   (abcdefgh, 0xe49b69c1, Add_ 0 [S0 1]);
   (habcdefg, 0xefbe4786, Add_ 1 [C 0xa00000; S0 2]);
   (ghabcdef, 0x0fc19dc6, Add_ 2 [S1 0; S0 3]);
   (fghabcde, 0x240ca1cc, Add_ 3 [S1 1; S0 4]);
   (efghabcd, 0x2de92c6f, Add_ 4 [S1 2; S0 5]);
   (defghabc, 0x4a7484aa, Add_ 5 [S1 3; S0 6]);
   (cdefghab, 0x5cb0a9dc, Add_ 6 [S1 4; C 0x100; S0 7]);
   (bcdefgha, 0x76f988da, Add_ 7 [S1 5; W 0; C 0x11002000]);
   (abcdefgh, 0x983e5152, Set_ 8 [C 0x80000000; S1 6; W 1]);
   (habcdefg, 0xa831c66d, Set_ 9 [S1 7; W 2]);
   (ghabcdef, 0xb00327c8, Set_ 10 [S1 8; W 3]);
   (fghabcde, 0xbf597fc7, Set_ 11 [S1 9; W 4]);
   (efghabcd, 0xc6e00bf3, Set_ 12 [S1 10; W 5]);
   (defghabc, 0xd5a79147, Set_ 13 [S1 11; W 6]);
   (cdefghab, 0x06ca6351, Set_ 14 [S1 12; W 7; C 0x400022]);
   (bcdefgha, 0x14292967, Set_ 15 [C 0x100; S1 13; W 8; S0 0]);
   (abcdefgh, 0x27b70a85, Add_ 0 [S1 14; W 9; S0 1]);
   (habcdefg, 0x2e1b2138, Add_ 1 [S1 15; W 10; S0 2]);
   (ghabcdef, 0x4d2c6dfc, Add_ 2 [S1 0; W 11; S0 3]);
   (fghabcde, 0x53380d13, Add_ 3 [S1 1; W 12; S0 4]);
   (efghabcd, 0x650a7354, Add_ 4 [S1 2; W 13; S0 5]);
   (defghabc, 0x766a0abb, Add_ 5 [S1 3; W 14; S0 6]);
   (cdefghab, 0x81c2c92e, Add_ 6 [S1 4; W 15; S0 7]);
   (bcdefgha, 0x92722c85, Add_ 7 [S1 5; W 0; S0 8]);
   (abcdefgh, 0xa2bfe8a1, Add_ 8 [S1 6; W 1; S0 9]);
   (habcdefg, 0xa81a664b, Add_ 9 [S1 7; W 2; S0 10]);
   (ghabcdef, 0xc24b8b70, Add_ 10 [S1 8; W 3; S0 11]);
   (fghabcde, 0xc76c51a3, Add_ 11 [S1 9; W 4; S0 12]);
   (efghabcd, 0xd192e819, Add_ 12 [S1 10; W 5; S0 13]);
   (defghabc, 0xd6990624, Add_ 13 [S1 11; W 6; S0 14]);
   (cdefghab, 0xf40e3585, Add_ 14 [S1 12; W 7; S0 15]);
   (bcdefgha, 0x106aa070, Add_ 15 [S1 13; W 8; S0 0]);
   (abcdefgh, 0x19a4c116, Add_ 0 [S1 14; W 9; S0 1]);
   (habcdefg, 0x1e376c08, Add_ 1 [S1 15; W 10; S0 2]);
   (ghabcdef, 0x2748774c, Add_ 2 [S1 0; W 11; S0 3]);
   (fghabcde, 0x34b0bcb5, Add_ 3 [S1 1; W 12; S0 4]);
   (efghabcd, 0x391c0cb3, Add_ 4 [S1 2; W 13; S0 5]);
   (defghabc, 0x4ed8aa4a, Add_ 5 [S1 3; W 14; S0 6]);
   (cdefghab, 0x5b9cca4f, Add_ 6 [S1 4; W 15; S0 7]);
   (bcdefgha, 0x682e6ff3, Add_ 7 [S1 5; W 0; S0 8]);
   (abcdefgh, 0x748f82ee, Add_ 8 [S1 6; W 1; S0 9]);
   (habcdefg, 0x78a5636f, Add_ 9 [S1 7; W 2; S0 10]);
   (ghabcdef, 0x84c87814, Add_ 10 [S1 8; W 3; S0 11]);
   (fghabcde, 0x8cc70208, Add_ 11 [S1 9; W 4; S0 12]);
   (efghabcd, 0x90befffa, Add_ 12 [S1 10; W 5; S0 13]);
   (defghabc, 0xa4506ceb, Add_ 13 [S1 11; W 6; S0 14]);
   (cdefghab, 0xbef9a3f7, Use [W 14; S1 12; W 7; S0 15]);
   (bcdefgha, 0xc67178f2, Use [W 15; S1 13; W 8; S0 0])].

(** [s[i] += v]. *)
Definition add_words (s v : list Z) : list Z :=
  map (fun '(x, y) => u32 (x + y)) (combine s v).

(** One round of the loop of [Transform]. *)
Definition Transform1 (s chunk : list Z) : list Z :=
  add_words s (fst (run chunk rounds s (repeat 0 16))).

Fixpoint Transform (s chunk : list Z) (blocks : nat) : list Z :=
  match blocks with
  | O => s
  | S blocks' => Transform (Transform1 s chunk) (skipn 64 chunk) blocks'
  end.

Definition WriteBE32s (s : list Z) : list Z := flat_map WriteBE32 s.

(** The 32 bytes written to [out] from the 64 bytes [in_]. *)
Definition TransformD64 (in_ : list Z) : list Z :=
  let '(r, w) := run in_ rounds_D64_1 Initialize (repeat 0 16) in
  let t := add_words r Initialize in
  let '(r, w) := run in_ rounds_D64_2 t w in
  let w := add_words t r ++ skipn 8 w in
  let '(r, _) := run in_ rounds_D64_3 Initialize w in
  WriteBE32s (add_words r Initialize).

(** [TransformD64Wrapper], the same hash by three calls of a transform. *)
Definition padding1 : list Z := [128] ++ repeat 0 61 ++ [2; 0].

Definition TransformD64Wrapper (tr : list Z -> list Z -> nat -> list Z) (in_ : list Z) : list Z :=
  let s := tr Initialize in_ 1%nat in
  let s := tr s padding1 1%nat in
  let buffer2 := WriteBE32s s ++ [128] ++ repeat 0 29 ++ [1; 0] in
  let s := tr Initialize buffer2 1%nat in
  WriteBE32s s.

(** [SHA256D64(out, in, blocks)] without the multi-way variants, which exist only
    when the build and the processor have them. *)
Fixpoint SHA256D64 (in_ : list Z) (blocks : nat) : list Z :=
  match blocks with
  | O => []
  | S blocks' => TransformD64 in_ ++ SHA256D64 (skipn 64 in_) blocks'
  end.

End sha256.

(** ** The reference: FIPS 180-4

    The constants are the first 32 bits of the fractional parts of the square
    roots of the first eight primes and of the cube roots of the first 64; the
    working variables move in every round; word [t >= 16] of the schedule is
    computed from the sixteen words before it.  Nothing here is taken from the
    code: the functions, the rotation counts and the reading of the block are
    those of sections 2.2.2, 3.2, 4.1.2, 5.2.1, 5.3.3 and 6.2 of the standard. *)
Module fips.

Definition is_prime (n : nat) : bool :=
  forallb (fun d => negb (Nat.eqb (Nat.modulo n d) 0)) (seq 2 (n - 2)).

Definition primes : list Z := map Z.of_nat (filter is_prime (seq 2 310)).

Definition H0 : list Z := map (fun p => u32 (Z.sqrt (p * 2 ^ 64))) (firstn 8 primes).
Definition K : list Z := map (fun p => u32 (cbrt_from 40 0 (p * 2 ^ 96))) primes.

Definition Ch (x y z : Z) : Z := Z.lxor (Z.land x y) (Z.land (Z.lnot x) z).
Definition Maj (x y z : Z) : Z :=
  Z.lxor (Z.lxor (Z.land x y) (Z.land x z)) (Z.land y z).

Definition SHR (n x : Z) : Z := Z.shiftr x n.
Definition ROTR (n x : Z) : Z := Z.lor (Z.shiftr x n) (u32 (Z.shiftl x (32 - n))).

Definition Sigma0 (x : Z) : Z := Z.lxor (Z.lxor (ROTR 2 x) (ROTR 13 x)) (ROTR 22 x).
Definition Sigma1 (x : Z) : Z := Z.lxor (Z.lxor (ROTR 6 x) (ROTR 11 x)) (ROTR 25 x).
Definition sigma0 (x : Z) : Z := Z.lxor (Z.lxor (ROTR 7 x) (ROTR 18 x)) (SHR 3 x).
Definition sigma1 (x : Z) : Z := Z.lxor (Z.lxor (ROTR 17 x) (ROTR 19 x)) (SHR 10 x).

Definition round (r : list Z) (kw : Z) : list Z :=
  match r with
  | [a; b; c; d; e; f; g; h] =>
      let T1 := u32 (h + Sigma1 e + Ch e f g + kw) in
      let T2 := u32 (Sigma0 a + Maj a b c) in
      [u32 (T1 + T2); a; b; c; u32 (d + T1); e; f; g]
  | _ => r
  end.

Definition next_word (win : list Z) : Z :=
  u32 (sigma1 (nth 14 win 0) + nth 9 win 0 + sigma0 (nth 1 win 0) + nth 0 win 0).

Fixpoint extend (n : nat) (win : list Z) : list Z :=
  match n with
  | O => []
  | S n' => let x := next_word win in x :: extend n' (tl win ++ [x])
  end.

Definition schedule (M : list Z) : list Z := M ++ extend 48 M.

Definition add_consts (ks ws : list Z) : list Z :=
  map (fun '(k, w) => u32 (k + w)) (combine ks ws).

Definition compress_words (s M : list Z) : list Z :=
  map (fun '(x, y) => u32 (x + y)) (combine s (fold_left round (add_consts K (schedule M)) s)).

(** The sixteen big-endian words of a block. *)
Fixpoint be_words (n : nat) (b : list Z) : list Z :=
  match n with
  | O => []
  | S n' => be_value (firstn 4 b) :: be_words n' (skipn 4 b)
  end.

Definition block_words (block : list Z) : list Z := be_words 16 block.

Definition compress (s block : list Z) : list Z := compress_words s (block_words block).

End fips.

(** ** The unrolled code computes the reference *)
Section Refinement.
Import sha256.

Lemma Ch_fips x y z : Ch x y z = fips.Ch x y z.
Proof.
  unfold Ch, fips.Ch. apply Z.bits_inj'. intros i Hi.
  rewrite !Z.lxor_spec, !Z.land_spec, !Z.lxor_spec, Z.lnot_spec by assumption.
  destruct (Z.testbit x i), (Z.testbit y i), (Z.testbit z i); reflexivity.
Qed.

Lemma Maj_fips x y z : Maj x y z = fips.Maj x y z.
Proof.
  unfold Maj, fips.Maj. apply Z.bits_inj'. intros i Hi.
  rewrite !Z.lxor_spec, !Z.lor_spec, !Z.land_spec, !Z.lor_spec.
  destruct (Z.testbit x i), (Z.testbit y i), (Z.testbit z i); reflexivity.
Qed.

Lemma Sigmas_fips x : Sigma0 x = fips.Sigma0 x /\ Sigma1 x = fips.Sigma1 x.
Proof. split; reflexivity. Qed.

Lemma next_word_code win :
  fips.next_word win = u32 (sigma1 (nth 14 win 0) + nth 9 win 0 + sigma0 (nth 1 win 0) + nth 0 win 0).
Proof. reflexivity. Qed.

Lemma compress_words_add s M :
  fips.compress_words s M = add_words s (fold_left fips.round (fips.add_consts fips.K (fips.schedule M)) s).
Proof. reflexivity. Qed.

Lemma be_words_S n b : fips.be_words (S n) b = ReadBE32 b :: fips.be_words n (skipn 4 b).
Proof. cbn [fips.be_words]. now rewrite be_value_rev. Qed.

(** The working variables in a given order, and the order of the next line. *)
Definition view (ord : list nat) (r : list Z) : list Z := map (fun i => nth i r 0) ord.
Definition next_ord (ord : list nat) : list nat := nth 7 ord O :: firstn 7 ord.

Definition orders : list (list nat) :=
  [abcdefgh; habcdefg; ghabcdef; fghabcde; efghabcd; defghabc; cdefghab; bcdefgha].

Lemma Round_at_view ord r k :
  In ord orders -> length r = 8%nat ->
  length (Round_at ord r k) = 8%nat /\
  view (next_ord ord) (Round_at ord r k) = fips.round (view ord r) k.
Proof.
  intros Ho Hr. unfold Round_at, Round. split; [rewrite !length_upd; exact Hr|].
  do 9 (destruct r as [|? r]; try discriminate Hr). clear Hr.
  repeat (destruct Ho as [<- | Ho]; [cbn -[u32 Sigma0 Sigma1 Ch Maj];
    rewrite Ch_fips, Maj_fips, (proj1 (Sigmas_fips _)), (proj2 (Sigmas_fips _)); reflexivity|]).
  destruct Ho.
Qed.

Lemma list8 (P : list Z -> Prop) :
  (forall a b c d e f g h, P [a; b; c; d; e; f; g; h]) -> forall l, length l = 8%nat -> P l.
Proof.
  intros H l Hl. do 9 (destruct l as [|? l]; try discriminate Hl). apply H.
Qed.

Lemma view_id r : length r = 8%nat -> view abcdefgh r = r.
Proof. revert r. apply list8. reflexivity. Qed.

(** What a table feeds to its rounds: the constants and the words of its lines. *)
Definition rhs_of (l : line) : Z * rhs := let '(_, k, e) := l in (k, e).

Fixpoint feeds (chunk : list Z) (lines : list (Z * rhs)) (w : list Z) : list Z :=
  match lines with
  | [] => []
  | (k, e) :: lines' =>
      let '(w, v) := eval_rhs chunk w e in u32 (k + v) :: feeds chunk lines' w
  end.

(** Every line has the order that follows from the one before it, and the last
    one leaves the variables in their places. *)
Fixpoint chained (ord : list nat) (lines : list line) : bool :=
  match lines with
  | [] => if list_eq_dec Nat.eq_dec ord abcdefgh then true else false
  | (o, _, _) :: lines' =>
      (if list_eq_dec Nat.eq_dec o ord then chained (next_ord ord) lines' else false)
  end.

Lemma orders_next ord : In ord orders -> In (next_ord ord) orders.
Proof.
  intros H. repeat (destruct H as [<- | H]; [cbn; tauto|]). destruct H.
Qed.

Lemma run_feeds chunk lines ord r w :
  In ord orders -> length r = 8%nat -> chained ord lines = true ->
  fst (run chunk lines r w) = fold_left fips.round (feeds chunk (map rhs_of lines) w) (view ord r).
Proof.
  revert ord r w. induction lines as [|[[o k] e] lines IH]; intros ord r w Ho Hr Hc;
    cbn [run feeds chained fst map rhs_of] in *.
  - destruct (list_eq_dec _ ord abcdefgh) as [->|]; [|discriminate].
    do 9 (destruct r as [|? r]; try discriminate Hr). reflexivity.
  - destruct (list_eq_dec _ o ord) as [->|]; [|discriminate].
    destruct (eval_rhs chunk w e) as [w' v]. cbn [fold_left].
    destruct (Round_at_view ord r (u32 (k + v)) Ho Hr) as [Hl Hv].
    rewrite <- Hv. apply IH; auto using orders_next.
Qed.

(** ** The message schedule *)

(** The lines that compute the words from the sixteenth on, in place. *)
Definition mix (j : nat) : rhs :=
  Add_ j [S1 ((j + 14) mod 16); W ((j + 9) mod 16); S0 ((j + 1) mod 16)]%nat.

Fixpoint mixes (j : nat) (ks : list Z) : list (Z * rhs) :=
  match ks with
  | [] => []
  | k :: ks' => (k, mix j) :: mixes ((j + 1) mod 16)%nat ks'
  end.

(** The words of the file in the order of their age. *)
Definition window (j : nat) (w : list Z) : list Z := skipn j w ++ firstn j w.

Lemma mix_window chunk j w :
  (j < 16)%nat -> length w = 16%nat ->
  let x := fips.next_word (window j w) in
  eval_rhs chunk w (mix j) = (upd w j (fun _ => x), x) /\
  window ((j + 1) mod 16) (upd w j (fun _ => x)) = tl (window j w) ++ [x].
Proof.
  intros Hj Hw x.
  assert (Hx : u32 (nth j w 0 + eval_terms chunk w
     [S1 ((j + 14) mod 16); W ((j + 9) mod 16); S0 ((j + 1) mod 16)]%nat) = x).
  { subst x. rewrite next_word_code. unfold eval_terms. cbn [fold_right eval_term].
    do 17 (destruct w as [|? w]; try discriminate Hw).
    do 16 (destruct j as [|j]; [cbn -[u32 sigma0 sigma1 Z.add]; f_equal; lia|]). lia. }
  unfold mix, eval_rhs. rewrite Hx. split; [reflexivity|]. clearbody x. clear Hx.
  do 17 (destruct w as [|? w]; try discriminate Hw).
  do 16 (destruct j as [|j]; [reflexivity|]). lia.
Qed.

Lemma feeds_mixes chunk ks j w :
  (j < 16)%nat -> length w = 16%nat ->
  feeds chunk (mixes j ks) w = fips.add_consts ks (fips.extend (length ks) (window j w)).
Proof.
  revert j w. induction ks as [|k ks IH]; intros j w Hj Hw; [reflexivity|].
  destruct (mix_window chunk j w Hj Hw) as [He Hwin].
  cbn [mixes feeds length fips.extend]. rewrite He.
  unfold fips.add_consts. cbn [combine map]. f_equal. rewrite <- Hwin.
  apply IH; [apply Nat.mod_upper_bound; lia|]. rewrite length_upd. exact Hw.
Qed.

(** The last two lines do not store their words. *)
Definition uses (k14 k15 : Z) : list (Z * rhs) :=
  [(k14, Use [W 14; S1 12; W 7; S0 15]); (k15, Use [W 15; S1 13; W 8; S0 0])].

Lemma feeds_uses chunk k14 k15 w :
  length w = 16%nat -> feeds chunk (uses k14 k15) w = feeds chunk (mixes 14 [k14; k15]) w.
Proof.
  intros Hw. do 17 (destruct w as [|? w]; try discriminate Hw). reflexivity.
Qed.

Definition words_after (chunk : list Z) (lines : list (Z * rhs)) (w : list Z) : list Z :=
  fold_left (fun w (e : Z * rhs) => fst (eval_rhs chunk w (snd e))) lines w.

Lemma feeds_app chunk l1 l2 w :
  feeds chunk (l1 ++ l2) w =
  feeds chunk l1 w ++ feeds chunk l2 (words_after chunk l1 w).
Proof.
  revert w. induction l1 as [|[k e] l1 IH]; intros w; [reflexivity|].
  unfold words_after. cbn [app feeds fold_left snd].
  destruct (eval_rhs chunk w e) as [w' v]. cbn [app fst]. f_equal. apply IH.
Qed.

Lemma length_after chunk ls w :
  length (words_after chunk ls w) = length w.
Proof.
  revert w. induction ls as [|[k e] ls IH]; intros w; [reflexivity|].
  change (length (words_after chunk ls (fst (eval_rhs chunk w e))) = length w).
  rewrite IH. destruct e; cbn; now rewrite ?length_upd.
Qed.

Lemma mixes_app j k1 k2 :
  (j < 16)%nat -> mixes j (k1 ++ k2) = mixes j k1 ++ mixes ((j + length k1) mod 16) k2.
Proof.
  revert j. induction k1 as [|k k1 IH]; intros j Hj; cbn [mixes app length].
  - rewrite Nat.add_0_r, Nat.mod_small; auto.
  - rewrite IH by (apply Nat.mod_upper_bound; lia).
    rewrite Nat.Div0.add_mod_idemp_l.
    now replace (j + 1 + length k1)%nat with (j + S (length k1))%nat by lia.
Qed.

(** A table that ends with in-place lines and the two that do not store. *)
Lemma feeds_tail chunk ks k14 k15 w :
  length w = 16%nat -> (length ks mod 16 = 14)%nat ->
  feeds chunk (mixes 0 ks ++ uses k14 k15) w =
  fips.add_consts (ks ++ [k14; k15]) (fips.extend (length ks + 2) w).
Proof.
  intros Hw Hk. rewrite feeds_app, feeds_uses by (now rewrite length_after).
  replace 14%nat with ((0 + length ks) mod 16)%nat by (cbn [Nat.add]; exact Hk).
  rewrite <- feeds_app, <- mixes_app by lia.
  rewrite feeds_mixes by (auto; lia). rewrite length_app. cbn [length].
  unfold window. cbn [skipn firstn]. now rewrite app_nil_r.
Qed.

(** ** The properties *)

Definition K256 : list Z := map (fun l => fst (rhs_of l)) rounds.

Lemma K_rounds : fips.K = K256.
Proof. vm_compute. reflexivity. Qed.

Lemma H0_Initialize : fips.H0 = Initialize.
Proof. vm_compute. reflexivity. Qed.

Opaque fips.K.

Definition ends (n : nat) (ks : list Z) : list (Z * rhs) :=
  mixes 0 (firstn (46 - n) (skipn (16 + n) ks)) ++ uses (nth 62 ks 0) (nth 63 ks 0).

Lemma u32_add_r a b : u32 (a + u32 b) = u32 (a + b).
Proof. unfold u32. apply Z.add_mod_idemp_r. discriminate. Qed.

Lemma length_block_words block : length (fips.block_words block) = 16%nat.
Proof. reflexivity. Qed.

(** The first sixteen lines load the words of the block. *)
Definition loads (ks : list Z) : list (Z * rhs) :=
  map (fun '(i, k) => (k, Set_ i [Load (4 * i)])) (combine (seq 0 16) ks).

Lemma rounds_shape : map rhs_of rounds = loads (firstn 16 K256) ++ ends 0 K256.
Proof. vm_compute. reflexivity. Qed.

Lemma le_value_4_u32 b : bytes b -> (length b <= 4)%nat -> u32 (le_value b) = le_value b.
Proof.
  intros Hb Hl. apply u32_small. pose proof (le_value_range b Hb) as H. unfold is_u32.
  assert (256 ^ Z.of_nat (length b) <= 256 ^ 4) by (apply Z.pow_le_mono_r; lia).
  change (256 ^ 4) with two32 in *. lia.
Qed.

Lemma ReadBE32_u32 b : bytes b -> u32 (ReadBE32 b) = ReadBE32 b.
Proof.
  intros Hb. unfold ReadBE32. apply le_value_4_u32.
  - apply Forall_rev, Forall_firstn, Hb.
  - rewrite length_rev, length_firstn. lia.
Qed.

Lemma block_words_map block :
  fips.block_words block = map (fun i => ReadBE32 (skipn (4 * i) block)) (seq 0 16).
Proof.
  unfold fips.block_words. rewrite !be_words_S, !skipn_skipn. reflexivity.
Qed.

Lemma words_after_loads chunk ks w :
  bytes chunk -> length ks = 16%nat -> length w = 16%nat ->
  feeds chunk (loads ks) w = fips.add_consts ks (fips.block_words chunk) /\
  words_after chunk (loads ks) w = fips.block_words chunk.
Proof.
  intros Hb Hk Hw.
  assert (HL : forall off, u32 (ReadBE32 (skipn off chunk) + 0) = ReadBE32 (skipn off chunk)).
  { intros off. rewrite Z.add_0_r. apply ReadBE32_u32, Forall_skipn, Hb. }
  do 17 (destruct ks as [|? ks]; try discriminate Hk).
  do 17 (destruct w as [|? w]; try discriminate Hw).
  rewrite block_words_map. unfold loads, words_after, fips.add_consts.
  cbv [combine seq map feeds eval_rhs eval_terms eval_term fold_right fold_left nth upd fst snd].
  rewrite !HL. split; reflexivity.
Qed.

Lemma add_consts_app k1 k2 w1 w2 :
  length k1 = length w1 ->
  fips.add_consts (k1 ++ k2) (w1 ++ w2) = fips.add_consts k1 w1 ++ fips.add_consts k2 w2.
Proof.
  unfold fips.add_consts. revert w1.
  induction k1 as [|k k1 IH]; intros [|x w1] H; try discriminate; [reflexivity|].
  cbn [app combine map]. f_equal. apply IH. now injection H.
Qed.

Lemma add_consts_schedule M :
  length M = 16%nat ->
  fips.add_consts K256 (fips.schedule M) =
  fips.add_consts (firstn 16 K256) M ++ fips.add_consts (skipn 16 K256) (fips.extend 48 M).
Proof. intros HM. rewrite <- add_consts_app by (now rewrite HM). reflexivity. Qed.

Lemma feeds_rounds chunk w :
  bytes chunk -> length w = 16%nat ->
  feeds chunk (map rhs_of rounds) w =
  fips.add_consts fips.K (fips.schedule (fips.block_words chunk)).
Proof.
  intros Hb Hw. rewrite K_rounds, rounds_shape, feeds_app.
  destruct (words_after_loads chunk (firstn 16 K256) w Hb eq_refl Hw) as [-> ->].
  unfold ends. rewrite feeds_tail by reflexivity.
  now rewrite add_consts_schedule.
Qed.

Lemma run_rounds chunk r w :
  bytes chunk -> length r = 8%nat -> length w = 16%nat ->
  fst (run chunk rounds r w) =
  fold_left fips.round (fips.add_consts fips.K (fips.schedule (fips.block_words chunk))) r.
Proof.
  intros Hb Hr Hw. rewrite (run_feeds chunk rounds abcdefgh) by (auto; cbn; tauto).
  rewrite feeds_rounds by assumption. rewrite view_id by assumption. reflexivity.
Qed.

Lemma Transform1_compress s chunk :
  bytes chunk -> length s = 8%nat -> Transform1 s chunk = fips.compress s chunk.
Proof.
  intros Hb Hs. unfold Transform1, fips.compress. now rewrite compress_words_add, run_rounds.
Qed.

Lemma length_add_words s v : length s = length v -> length (add_words s v) = length s.
Proof. intros H. unfold add_words. rewrite length_map, length_combine. lia. Qed.

Lemma length_round r k : length (fips.round r k) = length r.
Proof. unfold fips.round. do 9 (destruct r as [|? r]; try reflexivity). Qed.

Lemma length_rounds ks r : length (fold_left fips.round ks r) = length r.
Proof.
  revert r. induction ks as [|k ks IH]; intros r; [reflexivity|].
  cbn [fold_left]. rewrite IH. apply length_round.
Qed.

Lemma length_compress_words s M : length (fips.compress_words s M) = length s.
Proof.
  rewrite compress_words_add. apply length_add_words. symmetry. apply length_rounds.
Qed.

Lemma add_words_u32 s v : Forall is_u32 (add_words s v).
Proof.
  unfold add_words. apply Forall_map. apply Forall_forall. intros [x y] _. apply u32_range.
Qed.

Lemma add_words_comm s v : add_words s v = add_words v s.
Proof.
  unfold add_words. revert v. induction s as [|x s IH]; intros [|y v]; try reflexivity.
  cbn [combine map]. f_equal; [f_equal; lia|apply IH].
Qed.

(** The words of the second block of the double hash of 64 bytes, and those of
    the block that hashes a 32-byte digest. *)
Definition pad_words_64 : list Z := [0x80000000] ++ repeat 0 14 ++ [512].
Definition pad_words_32 : list Z := [0x80000000] ++ repeat 0 6 ++ [256].

Lemma feeds_D64_1 : map rhs_of rounds_D64_1 = map rhs_of rounds.
Proof. reflexivity. Qed.

Lemma feeds_D64_2 chunk w :
  feeds chunk (map rhs_of rounds_D64_2) w = fips.add_consts fips.K (fips.schedule pad_words_64).
Proof.
  rewrite K_rounds.
  replace (fips.add_consts K256 (fips.schedule pad_words_64))
    with (map (fun l => u32 (fst (rhs_of l) + 0)) rounds_D64_2) by (vm_compute; reflexivity).
  reflexivity.
Qed.

Lemma feeds_cons chunk k e ls w :
  feeds chunk ((k, e) :: ls) w =
  u32 (k + snd (eval_rhs chunk w e)) :: feeds chunk ls (fst (eval_rhs chunk w e)).
Proof. cbn [feeds]. now destruct (eval_rhs chunk w e). Qed.

Lemma add_consts_extend k ks n win :
  fips.add_consts (k :: ks) (fips.extend (S n) win) =
  u32 (k + fips.next_word win) ::
  fips.add_consts ks (fips.extend n (tl win ++ [fips.next_word win])).
Proof. reflexivity. Qed.

Ltac d64_word :=
  rewrite feeds_cons, add_consts_extend;
  cbn [eval_rhs eval_terms eval_term fold_right upd nth app tl fst snd];
  match goal with
  | |- u32 (?k + ?v) :: _ = u32 (_ + ?x) :: _ =>
      replace v with x by
        (rewrite next_word_code; cbn [nth];
         change (sigma1 0) with 0; change (sigma0 0) with 0;
         change (sigma0 0x80000000) with 0x11002000;
         change (sigma1 256) with 0xa00000; change (sigma0 256) with 0x400022;
         f_equal; lia);
      generalize x; intros ?; f_equal
  end.

Definition D64_3_head : list (Z * rhs) := firstn 16 (map rhs_of rounds_D64_3).
Definition D64_3_mid : list (Z * rhs) := firstn 16 (skipn 16 (map rhs_of rounds_D64_3)).

Lemma D64_3_shape : map rhs_of rounds_D64_3 = D64_3_head ++ D64_3_mid ++ ends 16 K256.
Proof. vm_compute. reflexivity. Qed.

(** The lines 16 to 31 of the third transform use what is known of the last eight
    words of its block. *)
Lemma feeds_D64_mid chunk w0 w1 w2 w3 w4 w5 w6 w7 x0 x1 x2 x3 x4 x5 x6 x7 :
  feeds chunk (D64_3_mid ++ ends 16 K256)
    ([w0; w1; w2; w3; w4; w5; w6; w7] ++ [x0; x1; x2; x3; x4; x5; x6; x7]) =
  fips.add_consts (skipn 16 K256)
    (fips.extend 48 ([w0; w1; w2; w3; w4; w5; w6; w7] ++ pad_words_32)).
Proof.
  assert (Hend : forall w, length w = 16%nat ->
    feeds chunk (ends 16 K256) w = fips.add_consts (skipn 32 K256) (fips.extend 32 w)).
  { intros w Hw. unfold ends. rewrite feeds_tail by (auto; reflexivity). reflexivity. }
  revert Hend. generalize (ends 16 K256). intros tail Hend.
  change (skipn 16 K256) with (firstn 16 (skipn 16 K256) ++ skipn 32 K256).
  revert Hend. generalize (skipn 32 K256). intros ks Hend.
  cbv [D64_3_mid pad_words_32 rounds_D64_3 K256 rounds map rhs_of skipn firstn app fst repeat].
  do 16 d64_word. apply Hend. reflexivity.
Qed.

Lemma feeds_D64_3 chunk w0 w1 w2 w3 w4 w5 w6 w7 rest :
  Forall is_u32 [w0; w1; w2; w3; w4; w5; w6; w7] -> length rest = 8%nat ->
  feeds chunk (map rhs_of rounds_D64_3) ([w0; w1; w2; w3; w4; w5; w6; w7] ++ rest) =
  fips.add_consts fips.K (fips.schedule ([w0; w1; w2; w3; w4; w5; w6; w7] ++ pad_words_32)).
Proof.
  intros Hw Hr. rewrite K_rounds, D64_3_shape, feeds_app.
  do 9 (destruct rest as [|? rest]; try discriminate Hr). clear Hr.
  rewrite add_consts_schedule by reflexivity. f_equal.
  - rewrite 8 Forall_cons_iff in Hw. destruct Hw as (? & ? & ? & ? & ? & ? & ? & ? & _).
    cbv [D64_3_head rounds_D64_3 map rhs_of firstn feeds eval_rhs eval_terms eval_term
         fold_right nth app fips.add_consts K256 rounds combine pad_words_32 repeat fst].
    rewrite !Z.add_0_r, !(u32_small w0), !(u32_small w1), !(u32_small w2),
      !(u32_small w3), !(u32_small w4), !(u32_small w5), !(u32_small w6), !(u32_small w7)
      by assumption.
    reflexivity.
  - change (words_after chunk _ _)
      with ([w0; w1; w2; w3; w4; w5; w6; w7] ++ [z; z0; z1; z2; z3; z4; z5; z6]).
    apply feeds_D64_mid.
Qed.

Lemma length_run chunk lines r w : length (snd (run chunk lines r w)) = length w.
Proof.
  revert r w. induction lines as [|[[o k] e] lines IH]; intros r w; [reflexivity|].
  cbn [run]. destruct (eval_rhs chunk w e) as [w' v] eqn:E. rewrite IH.
  destruct e; injection E as <- _; now rewrite ?length_upd.
Qed.

(** The three transforms as compressions of word lists. *)
Definition double64 (M : list Z) : list Z :=
  let t := fips.compress_words Initialize M in
  fips.compress_words Initialize (fips.compress_words t pad_words_64 ++ pad_words_32).

Lemma run_D64 lines chunk r w M :
  In abcdefgh orders -> length r = 8%nat -> chained abcdefgh lines = true ->
  feeds chunk (map rhs_of lines) w = fips.add_consts fips.K (fips.schedule M) ->
  add_words r (fst (run chunk lines r w)) = fips.compress_words r M.
Proof.
  intros Ho Hr Hc Hf. rewrite (run_feeds chunk lines abcdefgh), Hf by assumption.
  now rewrite view_id.
Qed.

Lemma TransformD64_words in_ :
  bytes in_ -> TransformD64 in_ = WriteBE32s (double64 (fips.block_words in_)).
Proof.
  intros Hb. unfold TransformD64, double64.
  assert (Ho : In abcdefgh orders) by (left; reflexivity).
  pose proof (length_run in_ rounds_D64_1 Initialize (repeat 0 16)) as Hw1.
  assert (H1 := run_D64 rounds_D64_1 in_ Initialize (repeat 0 16) (fips.block_words in_)
    Ho eq_refl eq_refl (feeds_rounds in_ (repeat 0 16) Hb eq_refl)).
  destruct (run in_ rounds_D64_1 Initialize (repeat 0 16)) as [r1 w1].
  cbn [fst snd] in *. rewrite (add_words_comm r1), H1. clear H1.
  assert (Ht := length_compress_words Initialize (fips.block_words in_)).
  remember (fips.compress_words Initialize (fips.block_words in_)) as t eqn:Et. clear Et.
  assert (H2 := run_D64 rounds_D64_2 in_ t w1 pad_words_64 Ho Ht eq_refl (feeds_D64_2 in_ w1)).
  pose proof (length_run in_ rounds_D64_2 t w1) as Hw2.
  destruct (run in_ rounds_D64_2 t w1) as [r2 w2]. cbn [fst snd] in *.
  assert (Hu := add_words_u32 t r2). rewrite H2 in *. clear H2.
  assert (Hd := length_compress_words t pad_words_64). rewrite Ht in Hd.
  remember (fips.compress_words t pad_words_64) as digest eqn:Ed. clear Ed.
  assert (H3 : feeds in_ (map rhs_of rounds_D64_3) (digest ++ skipn 8 w2) =
    fips.add_consts fips.K (fips.schedule (digest ++ pad_words_32))).
  { assert (Hs : length (skipn 8 w2) = 8%nat) by (rewrite length_skipn, Hw2, Hw1; reflexivity).
    revert digest Hd Hu. apply (list8 (fun l => Forall is_u32 l -> _)). intros.
    now apply feeds_D64_3. }
  assert (H4 := run_D64 rounds_D64_3 in_ Initialize _ _ Ho eq_refl eq_refl H3).
  destruct (run in_ rounds_D64_3 Initialize (digest ++ skipn 8 w2)) as [r3 w3].
  cbn [fst] in H4. now rewrite (add_words_comm r3), H4.
Qed.

Lemma block_words_firstn chunk : fips.block_words (firstn 64 chunk) = fips.block_words chunk.
Proof.
  enough (H : forall n b, fips.be_words n (firstn (4 * n) b) = fips.be_words n b)
    by apply (H 16%nat).
  induction n as [|n IH]; intros b; [reflexivity|]. rewrite !be_words_S. f_equal.
  - unfold ReadBE32. rewrite firstn_firstn. do 3 f_equal. lia.
  - rewrite skipn_firstn_comm. replace (4 * S n - 4)%nat with (4 * n)%nat by lia. apply IH.
Qed.

Lemma length_compress s block : length (fips.compress s block) = length s.
Proof. unfold fips.compress. apply length_compress_words. Qed.

Lemma Transform_parse s chunk n :
  bytes chunk -> length s = 8%nat ->
  Transform s chunk n = fold_left fips.compress (parse_blocks n chunk) s.
Proof.
  revert s chunk. induction n as [|n IH]; intros s chunk Hb Hs; [reflexivity|].
  cbn [Transform parse_blocks fold_left].
  rewrite Transform1_compress by assumption.
  assert (E : fips.compress s chunk = fips.compress s (firstn 64 chunk))
    by (unfold fips.compress; now rewrite block_words_firstn).
  rewrite E. apply IH; [apply Forall_skipn, Hb|]. now rewrite length_compress.
Qed.

Lemma ReadBE32_WriteBE32 x rest : is_u32 x -> ReadBE32 (WriteBE32 x ++ rest) = x.
Proof.
  intros Hx. unfold ReadBE32, WriteBE32.
  replace (firstn 4 (rev (le_bytes 4 x) ++ rest)) with (rev (le_bytes 4 x))
    by (symmetry; apply firstn_app_exact; now rewrite length_rev, length_le_bytes).
  rewrite rev_involutive, le_value_bytes. apply Z.mod_small, Hx.
Qed.

Lemma length_WriteBE32 x : length (WriteBE32 x) = 4%nat.
Proof. unfold WriteBE32. now rewrite length_rev, length_le_bytes. Qed.

Lemma block_words_digest s rest :
  Forall is_u32 s -> length s = 8%nat ->
  fips.block_words (WriteBE32s s ++ rest) = s ++ fips.be_words 8 rest.
Proof.
  intros Hu Hs. unfold fips.block_words. change 16%nat with (8 + 8)%nat. rewrite <- Hs at 1.
  clear Hs. induction Hu as [|x s Hx Hu IH]; [reflexivity|].
  unfold WriteBE32s in *. cbn [flat_map length Nat.add app]. rewrite be_words_S.
  rewrite <- app_assoc, ReadBE32_WriteBE32 by assumption. f_equal.
  rewrite skipn_app_exact by apply length_WriteBE32. apply IH.
Qed.

Lemma block_words_padding1 : fips.block_words padding1 = pad_words_64.
Proof. reflexivity. Qed.

Lemma bytes_WriteBE32s s : bytes (WriteBE32s s).
Proof.
  unfold WriteBE32s. apply Forall_flat_map. apply Forall_forall. intros x _.
  apply Forall_rev, bytes_le_bytes.
Qed.

Lemma compress_u32 s block : Forall is_u32 (fips.compress s block).
Proof. unfold fips.compress. rewrite compress_words_add. apply add_words_u32. Qed.

(** C17: [sha256::Transform] is the SHA-256 of FIPS 180-4: from any state of eight
    words and over any number of 64-byte blocks, the unrolled rounds with renamed
    variables and the schedule updated in place compute the reference
    compression of the blocks one after the other, and [Initialize] is the
    reference's initial state, derived from the square roots of the primes as
    the round constants are from their cube roots. *)
Theorem sha256_transform_fips s chunk n :
  bytes chunk -> length s = 8%nat ->
  Transform s chunk n = fold_left fips.compress (parse_blocks n chunk) s /\
  Initialize = fips.H0.
Proof.
  intros Hb Hs. split; [now apply Transform_parse|]. symmetry. apply H0_Initialize.
Qed.

Lemma sha256_transform_fips_witness :
  Transform Initialize (repeat 7 128) 2 =
  fold_left fips.compress (parse_blocks 2 (repeat 7 128)) Initialize.
Proof.
  assert (Hb : bytes (repeat 7 128)) by bytes_concrete.
  exact (proj1 (sha256_transform_fips Initialize (repeat 7 128) 2 Hb eq_refl)).
Defined.

Lemma TransformD64_wrapper in_ :
  bytes in_ -> TransformD64 in_ = TransformD64Wrapper Transform in_.
Proof.
  intros Hb. rewrite TransformD64_words by assumption. unfold TransformD64Wrapper.
  cbn [Transform]. unfold double64.
  assert (Hp : bytes padding1) by (unfold padding1; bytes_concrete).
  rewrite (Transform1_compress Initialize in_) by (assumption || reflexivity).
  assert (Ht := length_compress Initialize in_).
  fold (fips.compress Initialize in_).
  remember (fips.compress Initialize in_) as t eqn:Et. clear Et.
  rewrite (Transform1_compress t padding1) by assumption.
  assert (Hl := length_compress t padding1). assert (Hu := compress_u32 t padding1).
  unfold fips.compress in *. rewrite block_words_padding1 in *. rewrite Ht in Hl.
  remember (fips.compress_words t pad_words_64) as digest eqn:Ed. clear Ed.
  rewrite Transform1_compress; [|apply Forall_app; split|reflexivity].
  - unfold fips.compress. rewrite block_words_digest by assumption. reflexivity.
  - apply bytes_WriteBE32s.
  - bytes_concrete.
Qed.

(** C24: [sha256::TransformD64], which folds the padding of the double hash of 64
    bytes into its constants, writes what the three separate compressions of
    [TransformD64Wrapper] write with the generic transform. *)
Theorem sha256_d64_equiv in_ :
  bytes in_ -> TransformD64 in_ = TransformD64Wrapper Transform in_.
Proof. apply TransformD64_wrapper. Qed.

Lemma sha256_d64_equiv_witness :
  TransformD64 (repeat 7 64) = TransformD64Wrapper Transform (repeat 7 64).
Proof. apply sha256_d64_equiv. bytes_concrete. Defined.

End Refinement.
