(* ===== verification/Ripemd160.v ===== *)
(** * RIPEMD-160: [src/src/crypto/ripemd160.cpp]

    The compression function.  The source has two interleaved lines of eighty
    steps, unrolled, with the five working variables of each renamed from step to
    step; the table below has one entry per statement.  The streaming interface
    [CRIPEMD160] is in [Hash]. *)
From Stdlib Require Import ZArith Lia List Bool.
From S2P Require Import Prelude.
Import ListNotations.

Module ripemd160.

(** [~x] on 32 bits. *)
Definition not32 (x : Z) : Z := u32 (Z.lnot x).

Definition f1 (x y z : Z) : Z := Z.lxor (Z.lxor x y) z.
Definition f2 (x y z : Z) : Z := Z.lor (Z.land x y) (Z.land (not32 x) z).
Definition f3 (x y z : Z) : Z := Z.lxor (Z.lor x (not32 y)) z.
Definition f4 (x y z : Z) : Z := Z.lor (Z.land x z) (Z.land y (not32 z)).
Definition f5 (x y z : Z) : Z := Z.lxor x (Z.lor y (not32 z)).

Definition Initialize : list Z :=
  [0x67452301; 0xEFCDAB89; 0x98BADCFE; 0x10325476; 0xC3D2E1F0].

Definition rol (x i : Z) : Z := Z.lor (u32 (Z.shiftl x i)) (Z.shiftr x (32 - i)).

(** The new values of [a] and [c]. *)
Definition Round (a b c d e f x k r : Z) : Z * Z :=
  (u32 (rol (u32 (a + f + x + k)) r + e), rol c 10).

(** The ten step functions: the boolean function, the constant and the line. *)
Inductive step : Set := R11 | R21 | R31 | R41 | R51 | R12 | R22 | R32 | R42 | R52.

Definition fk (s : step) : (Z -> Z -> Z -> Z) * Z * bool :=
  match s with
  | R11 => (f1, 0, true)
  | R21 => (f2, 0x5A827999, true)
  | R31 => (f3, 0x6ED9EBA1, true)
  | R41 => (f4, 0x8F1BBCDC, true)
  | R51 => (f5, 0xA953FD4E, true)
  | R12 => (f5, 0x50A28BE6, false)
  | R22 => (f4, 0x5C4DD124, false)
  | R32 => (f3, 0x6D703EF3, false)
  | R42 => (f2, 0x7A6D76E9, false)
  | R52 => (f1, 0, false)
  end.

(** A statement: the step, the variables in the order in which it receives them,
    the message word and the rotation. *)
Definition line : Set := step * list nat * nat * Z.

Definition abcde : list nat := [0; 1; 2; 3; 4]%nat.
Definition eabcd : list nat := [4; 0; 1; 2; 3]%nat.
Definition deabc : list nat := [3; 4; 0; 1; 2]%nat.
Definition cdeab : list nat := [2; 3; 4; 0; 1]%nat.
Definition bcdea : list nat := [1; 2; 3; 4; 0]%nat.

Definition Round_at (f : Z -> Z -> Z -> Z) (k : Z) (ord : list nat) (v : list Z) (x r : Z) : list Z :=
  let g i := nth (nth i ord O) v 0 in
  let '(a, c) := Round (g 0%nat) (g 1%nat) (g 2%nat) (g 3%nat) (g 4%nat)
                   (f (g 1%nat) (g 2%nat) (g 3%nat)) x k r in
  upd (upd v (nth 0 ord O) (fun _ => a)) (nth 2 ord O) (fun _ => c).

(** The variables of the two lines after a statement. *)
Definition exec (w : list Z) (v : list Z * list Z) (l : line) : list Z * list Z :=
  let '(s, ord, i, r) := l in
  let '(f, k, first) := fk s in
  if first then (Round_at f k ord (fst v) (nth i w 0) r, snd v)
  else (fst v, Round_at f k ord (snd v) (nth i w 0) r).

Definition lines : list line :=
  [(R11, abcde, 0%nat, 11); (R12, abcde, 5%nat, 8);
   (R11, eabcd, 1%nat, 14); (R12, eabcd, 14%nat, 9);
   (R11, deabc, 2%nat, 15); (R12, deabc, 7%nat, 9);
   (R11, cdeab, 3%nat, 12); (R12, cdeab, 0%nat, 11);
   (R11, bcdea, 4%nat, 5); (R12, bcdea, 9%nat, 13);
   (R11, abcde, 5%nat, 8); (R12, abcde, 2%nat, 15);
   (R11, eabcd, 6%nat, 7); (R12, eabcd, 11%nat, 15);
   (R11, deabc, 7%nat, 9); (R12, deabc, 4%nat, 5);
   (R11, cdeab, 8%nat, 11); (R12, cdeab, 13%nat, 7);
   (R11, bcdea, 9%nat, 13); (R12, bcdea, 6%nat, 7);
   (R11, abcde, 10%nat, 14); (R12, abcde, 15%nat, 8);
   (R11, eabcd, 11%nat, 15); (R12, eabcd, 8%nat, 11);
   (R11, deabc, 12%nat, 6); (R12, deabc, 1%nat, 14);
   (R11, cdeab, 13%nat, 7); (R12, cdeab, 10%nat, 14);
   (R11, bcdea, 14%nat, 9); (R12, bcdea, 3%nat, 12);
   (R11, abcde, 15%nat, 8); (R12, abcde, 12%nat, 6);
   (R21, eabcd, 7%nat, 7); (R22, eabcd, 6%nat, 9);
   (R21, deabc, 4%nat, 6); (R22, deabc, 11%nat, 13);
   (R21, cdeab, 13%nat, 8); (R22, cdeab, 3%nat, 15);
   (R21, bcdea, 1%nat, 13); (R22, bcdea, 7%nat, 7);
   (R21, abcde, 10%nat, 11); (R22, abcde, 0%nat, 12);
   (R21, eabcd, 6%nat, 9); (R22, eabcd, 13%nat, 8);
   (R21, deabc, 15%nat, 7); (R22, deabc, 5%nat, 9);
   (R21, cdeab, 3%nat, 15); (R22, cdeab, 10%nat, 11);
   (R21, bcdea, 12%nat, 7); (R22, bcdea, 14%nat, 7);
   (R21, abcde, 0%nat, 12); (R22, abcde, 15%nat, 7);
   (R21, eabcd, 9%nat, 15); (R22, eabcd, 8%nat, 12);
   (R21, deabc, 5%nat, 9); (R22, deabc, 12%nat, 7);
   (R21, cdeab, 2%nat, 11); (R22, cdeab, 4%nat, 6);
   (R21, bcdea, 14%nat, 7); (R22, bcdea, 9%nat, 15);
   (R21, abcde, 11%nat, 13); (R22, abcde, 1%nat, 13);
   (R21, eabcd, 8%nat, 12); (R22, eabcd, 2%nat, 11);
   (R31, deabc, 3%nat, 11); (R32, deabc, 15%nat, 9);
   (R31, cdeab, 10%nat, 13); (R32, cdeab, 5%nat, 7);
   (R31, bcdea, 14%nat, 6); (R32, bcdea, 1%nat, 15);
   (R31, abcde, 4%nat, 7); (R32, abcde, 3%nat, 11);
   (R31, eabcd, 9%nat, 14); (R32, eabcd, 7%nat, 8);
   (R31, deabc, 15%nat, 9); (R32, deabc, 14%nat, 6);
   (R31, cdeab, 8%nat, 13); (R32, cdeab, 6%nat, 6);
   (R31, bcdea, 1%nat, 15); (R32, bcdea, 9%nat, 14);
   (R31, abcde, 2%nat, 14); (R32, abcde, 11%nat, 12);
   (R31, eabcd, 7%nat, 8); (R32, eabcd, 8%nat, 13);
   (R31, deabc, 0%nat, 13); (R32, deabc, 12%nat, 5);
   (R31, cdeab, 6%nat, 6); (R32, cdeab, 2%nat, 14);
   (R31, bcdea, 13%nat, 5); (R32, bcdea, 10%nat, 13);
   (R31, abcde, 11%nat, 12); (R32, abcde, 0%nat, 13);
   (R31, eabcd, 5%nat, 7); (R32, eabcd, 4%nat, 7);
   (R31, deabc, 12%nat, 5); (R32, deabc, 13%nat, 5);
   (R41, cdeab, 1%nat, 11); (R42, cdeab, 8%nat, 15);
   (R41, bcdea, 9%nat, 12); (R42, bcdea, 6%nat, 5);
   (R41, abcde, 11%nat, 14); (R42, abcde, 4%nat, 8);
   (R41, eabcd, 10%nat, 15); (R42, eabcd, 1%nat, 11);
   (R41, deabc, 0%nat, 14); (R42, deabc, 3%nat, 14);
   (R41, cdeab, 8%nat, 15); (R42, cdeab, 11%nat, 14);
   (R41, bcdea, 12%nat, 9); (R42, bcdea, 15%nat, 6);
   (R41, abcde, 4%nat, 8); (R42, abcde, 0%nat, 14);
   (R41, eabcd, 13%nat, 9); (R42, eabcd, 5%nat, 6);
   (R41, deabc, 3%nat, 14); (R42, deabc, 12%nat, 9);
   (R41, cdeab, 7%nat, 5); (R42, cdeab, 2%nat, 12);
   (R41, bcdea, 15%nat, 6); (R42, bcdea, 13%nat, 9);
   (R41, abcde, 14%nat, 8); (R42, abcde, 9%nat, 12);
   (R41, eabcd, 5%nat, 6); (R42, eabcd, 7%nat, 5);
   (R41, deabc, 6%nat, 5); (R42, deabc, 10%nat, 15);
   (R41, cdeab, 2%nat, 12); (R42, cdeab, 14%nat, 8);
   (R51, bcdea, 4%nat, 9); (R52, bcdea, 12%nat, 8);
   (R51, abcde, 0%nat, 15); (R52, abcde, 15%nat, 5);
   (R51, eabcd, 5%nat, 5); (R52, eabcd, 10%nat, 12);
   (R51, deabc, 9%nat, 11); (R52, deabc, 4%nat, 9);
   (R51, cdeab, 7%nat, 6); (R52, cdeab, 1%nat, 12);
   (R51, bcdea, 12%nat, 8); (R52, bcdea, 5%nat, 5);
   (R51, abcde, 2%nat, 13); (R52, abcde, 8%nat, 14);
   (R51, eabcd, 10%nat, 12); (R52, eabcd, 7%nat, 6);
   (R51, deabc, 14%nat, 5); (R52, deabc, 6%nat, 8);
   (R51, cdeab, 1%nat, 12); (R52, cdeab, 2%nat, 13);
   (R51, bcdea, 3%nat, 13); (R52, bcdea, 13%nat, 6);
   (R51, abcde, 8%nat, 14); (R52, abcde, 14%nat, 5);
   (R51, eabcd, 11%nat, 11); (R52, eabcd, 0%nat, 15);
   (R51, deabc, 6%nat, 8); (R52, deabc, 3%nat, 13);
   (R51, cdeab, 15%nat, 5); (R52, cdeab, 9%nat, 11);
   (R51, bcdea, 13%nat, 6); (R52, bcdea, 11%nat, 11)].

(** The sixteen words [w0] to [w15] of the chunk. *)
Definition load (chunk : list Z) : list Z :=
  map (fun i => ReadLE32 (skipn (4 * i) chunk)) (seq 0 16).

Definition Transform (s chunk : list Z) : list Z :=
  let '(v1, v2) := fold_left (exec (load chunk)) lines (s, s) in
  let g v i := nth i v 0 in
  [u32 (g s 1%nat + g v1 2%nat + g v2 3%nat); u32 (g s 2%nat + g v1 3%nat + g v2 4%nat);
   u32 (g s 3%nat + g v1 4%nat + g v2 0%nat); u32 (g s 4%nat + g v1 0%nat + g v2 1%nat);
   u32 (g s 0%nat + g v1 1%nat + g v2 2%nat)].

End ripemd160.

(** ** The reference

    The specification of Dobbertin, Bosselaers and Preneel: the order of the
    message words is given by the permutations [rho] and [pi], the rotations by
    one table for both lines, the constants by square roots (first line) and
    cube roots (second line) of the first primes, and the variables move in
    every step. *)
Module rmd.

(** The bytes of the initial state count up and down in hexadecimal digits. *)
Definition H0 : list Z :=
  map le_value [[0x01; 0x23; 0x45; 0x67]; [0x89; 0xab; 0xcd; 0xef]; [0xfe; 0xdc; 0xba; 0x98];
    [0x76; 0x54; 0x32; 0x10]; [0xf0; 0xe1; 0xd2; 0xc3]].

Definition rol (s x : Z) : Z := Z.lor (u32 (Z.shiftl x s)) (Z.shiftr x (32 - s)).

Definition rho : list nat := [7; 4; 13; 1; 10; 6; 15; 3; 12; 0; 9; 5; 2; 14; 11; 8]%nat.
Definition pi (i : nat) : nat := ((9 * i + 5) mod 16)%nat.

Definition word (first : bool) (round i : nat) : nat :=
  Nat.iter round (fun i => nth i rho O) (if first then i else pi i).

Definition shifts : list (list Z) :=
  [[11; 14; 15; 12; 5; 8; 7; 9; 11; 13; 14; 15; 6; 7; 9; 8];
   [12; 13; 11; 15; 6; 9; 9; 7; 12; 15; 11; 13; 7; 8; 7; 7];
   [13; 15; 14; 11; 7; 7; 6; 8; 13; 14; 13; 12; 5; 5; 6; 9];
   [14; 11; 12; 14; 8; 6; 5; 5; 15; 12; 15; 14; 9; 9; 8; 6];
   [15; 12; 13; 13; 9; 5; 8; 6; 14; 11; 12; 11; 8; 6; 5; 5]].

Definition constant (first : bool) (round : nat) : Z :=
  if first then nth round (0 :: map (fun p => Z.sqrt (p * 2 ^ 60)) [2; 3; 5; 7]) 0
  else nth round (map (fun p => cbrt_from 33 0 (p * 2 ^ 90)) [2; 3; 5; 7] ++ [0]) 0.

Definition fn (j : nat) (x y z : Z) : Z :=
  match j with
  | 0%nat => Z.lxor (Z.lxor x y) z
  | 1%nat => Z.lor (Z.land x y) (Z.land (u32 (Z.lnot x)) z)
  | 2%nat => Z.lxor (Z.lor x (u32 (Z.lnot y))) z
  | 3%nat => Z.lor (Z.land x z) (Z.land y (u32 (Z.lnot z)))
  | _ => Z.lxor x (Z.lor y (u32 (Z.lnot z)))
  end.

Definition step (X : list Z) (first : bool) (v : list Z) (ji : nat * nat) : list Z :=
  let '(j, i) := ji in
  let m := word first j i in
  match v with
  | [a; b; c; d; e] =>
      let t := u32 (rol (nth m (nth j shifts []) 0)
        (u32 (a + fn (if first then j else 4 - j)%nat b c d + nth m X 0 + constant first j)) + e) in
      [e; t; b; rol 10 c; d]
  | _ => v
  end.

Definition steps : list (nat * nat) := list_prod (seq 0 5) (seq 0 16).

Definition compress (h block : list Z) : list Z :=
  let X := map (fun i => le_value (firstn 4 (skipn (4 * i) block))) (seq 0 16) in
  let v := fold_left (step X true) steps h in
  let v' := fold_left (step X false) steps h in
  match h, v, v' with
  | [h0; h1; h2; h3; h4], [a; b; c; d; e], [a'; b'; c'; d'; e'] =>
      [u32 (h1 + c + d'); u32 (h2 + d + e'); u32 (h3 + e + a');
       u32 (h4 + a + b'); u32 (h0 + b + c')]
  | _, _, _ => h
  end.

End rmd.

Section Refinement.
Import ripemd160.

Lemma rmd_Initialize : Initialize = rmd.H0.
Proof. reflexivity. Qed.

Definition view (ord : list nat) (r : list Z) : list Z := map (fun i => nth i r 0) ord.
Definition next_ord (ord : list nat) : list nat := nth 4 ord O :: firstn 4 ord.
Definition orders : list (list nat) := [abcde; eabcd; deabc; cdeab; bcdea].

Definition side (first : bool) (v : list Z * list Z) : list Z := if first then fst v else snd v.
Definition on_side (first : bool) (l : line) : bool :=
  let '(s, _, _, _) := l in Bool.eqb first (snd (fk s)).

(** The statements of the two lines do not interfere. *)
Lemma exec_sides w ls first v :
  side first (fold_left (exec w) ls v) =
  side first (fold_left (exec w) (filter (on_side first) ls) v).
Proof.
  assert (H : forall ls v v', side first v = side first v' ->
    side first (fold_left (exec w) ls v) =
    side first (fold_left (exec w) (filter (on_side first) ls) v')).
  { clear. induction ls as [|[[[s ord] i] r] ls IH]; intros v v' Hv; [exact Hv|].
    cbn [filter fold_left].
    assert (Hs : on_side first (s, ord, i, r) = false ->
      side first (exec w v (s, ord, i, r)) = side first v).
    { cbn. destruct s, first; cbn; intros E; try discriminate E; reflexivity. }
    destruct (on_side first (s, ord, i, r)) eqn:E.
    - cbn [fold_left]. apply IH. clear IH.
      destruct v as [v1 v2], v' as [v1' v2'], s, first; cbn in *; try discriminate E; now subst.
    - apply IH. now rewrite Hs. }
  now apply H.
Qed.

(** What the reference does at a step, read off a statement. *)
Definition as_step (first : bool) (l : line) (ord : list nat) (ji : nat * nat) : bool :=
  let '(s, o, i, r) := l in
  let '(j, i0) := ji in
  ((if list_eq_dec Nat.eq_dec o ord then true else false)
   && (Nat.eqb i (rmd.word first j i0)) && (r =? nth i (nth j rmd.shifts []) 0)
   && (snd (fst (fk s)) =? rmd.constant first j) && Bool.eqb first (snd (fk s))
   && match s, j with
      | R11, 0%nat | R21, 1%nat | R31, 2%nat | R41, 3%nat | R51, 4%nat
      | R12, 0%nat | R22, 1%nat | R32, 2%nat | R42, 3%nat | R52, 4%nat => true
      | _, _ => false
      end)%bool.

Fixpoint follows (first : bool) (ls : list line) (ord : list nat) (steps : list (nat * nat)) : bool :=
  match ls, steps with
  | [], [] => if list_eq_dec Nat.eq_dec ord abcde then true else false
  | l :: ls', ji :: steps' => (as_step first l ord ji && follows first ls' (next_ord ord) steps')%bool
  | _, _ => false
  end.

Lemma rmd_lines_follow first : follows first (filter (on_side first) lines) abcde rmd.steps = true.
Proof. destruct first; vm_compute; reflexivity. Qed.

Lemma rmd_orders_next ord : In ord orders -> In (next_ord ord) orders.
Proof. intros H. repeat (destruct H as [<- | H]; [cbn; tauto|]). destruct H. Qed.

Lemma rmd_Round_at_view f k ord v x r :
  In ord orders -> length v = 5%nat ->
  length (Round_at f k ord v x r) = 5%nat /\
  view (next_ord ord) (Round_at f k ord v x r) =
  match view ord v with
  | [a; b; c; d; e] => [e; u32 (rol (u32 (a + f b c d + x + k)) r + e); b; rol c 10; d]
  | _ => []
  end.
Proof.
  intros Ho Hv. unfold Round_at, Round. split; [now rewrite !length_upd|].
  revert v Hv. apply list5. intros.
  repeat (destruct Ho as [<- | Ho]; [reflexivity|]). destruct Ho.
Qed.

Lemma exec_step w first l ord ji v :
  In ord orders -> length (side first v) = 5%nat -> as_step first l ord ji = true ->
  length (side first (exec w v l)) = 5%nat /\
  view (next_ord ord) (side first (exec w v l)) = rmd.step w first (view ord (side first v)) ji.
Proof.
  intros Ho Hv. destruct l as [[[s o] i] r], ji as [j i0]. unfold as_step.
  destruct (list_eq_dec _ o ord) as [->|]; [|discriminate].
  rewrite !andb_true_iff, Nat.eqb_eq, !Z.eqb_eq, Bool.eqb_true_iff.
  intros (((((_ & Hi) & Hr) & Hk) & Hs) & Hj).
  assert (E : side first (exec w v (s, ord, i, r)) =
    Round_at (fst (fst (fk s))) (snd (fst (fk s))) ord (side first v) (nth i w 0) r).
  { unfold exec. subst first. now destruct s. }
  rewrite E.
  destruct (rmd_Round_at_view (fst (fst (fk s))) (snd (fst (fk s))) ord (side first v)
    (nth i w 0) r Ho Hv) as [Hl ->].
  split; [exact Hl|]. unfold rmd.step. rewrite <- Hi, <- Hk, <- Hr.
  assert (Hf : fst (fst (fk s)) = rmd.fn (if first then j else 4 - j)%nat).
  { subst first. destruct s, j as [|[|[|[|[|]]]]]; try discriminate Hj; reflexivity. }
  rewrite Hf. revert v Hv E Hl. destruct first; cbn [side]; intros [v1 v2]; cbn [fst snd].
  - intros Hv _ _. revert v1 Hv. apply (list5 (fun l => _)). intros. unfold view.
    repeat (destruct Ho as [<- | Ho]; [reflexivity|]). destruct Ho.
  - intros Hv _ _. revert v2 Hv. apply (list5 (fun l => _)). intros. unfold view.
    repeat (destruct Ho as [<- | Ho]; [reflexivity|]). destruct Ho.
Qed.

Lemma exec_follows w first ls ord steps v :
  In ord orders -> length (side first v) = 5%nat -> follows first ls ord steps = true ->
  length (side first (fold_left (exec w) ls v)) = 5%nat /\
  side first (fold_left (exec w) ls v) =
  fold_left (rmd.step w first) steps (view ord (side first v)).
Proof.
  revert ord steps v. induction ls as [|l ls IH]; intros ord [|ji steps] v Ho Hv H;
    cbn [follows] in H; try discriminate H.
  - destruct (list_eq_dec _ ord abcde) as [->|]; [|discriminate H].
    split; [exact Hv|]. cbn [fold_left]. revert Hv. generalize (side first v).
    apply list5. reflexivity.
  - apply andb_prop in H. destruct H as [Hl H].
    destruct (exec_step w first l ord ji v Ho Hv Hl) as [Hv' E].
    cbn [fold_left]. rewrite <- E. apply IH; auto using rmd_orders_next.
Qed.

Lemma exec_lines w s first :
  length s = 5%nat ->
  length (side first (fold_left (exec w) lines (s, s))) = 5%nat /\
  side first (fold_left (exec w) lines (s, s)) = fold_left (rmd.step w first) rmd.steps s.
Proof.
  intros Hs. rewrite exec_sides.
  assert (Hv : side first (s, s) = s) by now destruct first.
  destruct (exec_follows w first (filter (on_side first) lines) abcde rmd.steps (s, s))
    as [Hl E]; [left; reflexivity|now rewrite Hv|apply rmd_lines_follow|].
  split; [exact Hl|]. rewrite E, Hv. f_equal. revert s Hs Hv Hl E. clear.
  intros s Hs _ _ _. revert s Hs. apply list5. reflexivity.
Qed.

Lemma length_Transform s chunk : length (Transform s chunk) = 5%nat.
Proof. unfold Transform. now destruct (fold_left _ _ _). Qed.

Lemma Transform_u32 s chunk : Forall is_u32 (Transform s chunk).
Proof.
  unfold Transform. destruct (fold_left _ _ _).
  repeat (apply Forall_cons; [apply u32_range|]). apply Forall_nil.
Qed.

Lemma Transform_firstn s chunk : Transform s (firstn 64 chunk) = Transform s chunk.
Proof.
  unfold Transform. replace (load (firstn 64 chunk)) with (load chunk); [reflexivity|].
  unfold load. apply map_ext_in. intros i Hi%in_seq.
  unfold ReadLE32. rewrite skipn_firstn_comm, firstn_firstn. do 2 f_equal. lia.
Qed.

Lemma ripemd160_reference s chunk :
  length s = 5%nat -> Transform s chunk = rmd.compress s chunk.
Proof.
  intros Hs. unfold Transform, rmd.compress, load.
  set (w := map _ (seq 0 16)).
  destruct (exec_lines w s true Hs) as [L1 E1], (exec_lines w s false Hs) as [L2 E2].
  destruct (fold_left (exec w) lines (s, s)) as [v1 v2]. cbn [side fst snd] in *.
  rewrite <- E1, <- E2. clear E1 E2. clearbody w.
  revert v1 L1. apply list5. intros. revert v2 L2. apply list5. intros.
  revert s Hs. apply list5. reflexivity.
Qed.

(** [ripemd160::Transform] is the RIPEMD-160 of its specification: from any
    state of five words the two unrolled and interleaved lines, with renamed
    variables and literal word numbers, constants and rotations, compute the
    reference compression, in which the word order comes from the permutations
    [rho] and [pi], the constants from roots of primes and the variables move. *)
Theorem ripemd160_transform_reference s chunk :
  length s = 5%nat -> Transform s chunk = rmd.compress s chunk.
Proof. apply ripemd160_reference. Qed.

Lemma ripemd160_transform_reference_witness :
  Transform Initialize (repeat 7 64) = rmd.compress Initialize (repeat 7 64).
Proof. exact (ripemd160_transform_reference Initialize (repeat 7 64) eq_refl). Defined.

End Refinement.
