(* ===== verification/Sha1.v ===== *)
(** * SHA-1: [src/src/crypto/sha1.cpp]

    The compression function, unrolled in the source like those of [Sha256] and
    [Ripemd160]; one table entry per call of [Round].  The streaming interface
    [CSHA1] is in [Hash]. *)
From Stdlib Require Import ZArith Lia List Bool.
From S2P Require Import Prelude.
Import ListNotations.

Module sha1.

Definition rotl (x r : Z) : Z := Z.lor (u32 (Z.shiftl x r)) (Z.shiftr x (32 - r)).

(** The new values of [b] and [e]. *)
Definition Round (a b c d e f k w : Z) : Z * Z :=
  (rotl b 30, u32 (e + (rotl a 5 + f + k + w))).

Definition f1 (b c d : Z) : Z := Z.lxor d (Z.land b (Z.lxor c d)).
Definition f2 (b c d : Z) : Z := Z.lxor (Z.lxor b c) d.
Definition f3 (b c d : Z) : Z := Z.lor (Z.land b c) (Z.land d (Z.lor b c)).

Definition left (x : Z) : Z := rotl x 1.

Definition Initialize : list Z :=
  [0x67452301; 0xEFCDAB89; 0x98BADCFE; 0x10325476; 0xC3D2E1F0].

Definition k1 : Z := 0x5A827999.
Definition k2 : Z := 0x6ED9EBA1.
Definition k3 : Z := 0x8F1BBCDC.
Definition k4 : Z := 0xCA62C1D6.

(** The last argument of a call: [w_i = ReadBE32(chunk + off)],
    [w_i = left(w_a ^ w_b ^ w_c ^ w_d)], or the same without the assignment. *)
Inductive rhs : Set :=
| Load (i off : nat)
| Mix (i a b c d : nat)
| Last (a b c d : nat).

Definition line : Set := list nat * (Z -> Z -> Z -> Z) * Z * rhs.

Definition abcde : list nat := [0; 1; 2; 3; 4]%nat.
Definition eabcd : list nat := [4; 0; 1; 2; 3]%nat.
Definition deabc : list nat := [3; 4; 0; 1; 2]%nat.
Definition cdeab : list nat := [2; 3; 4; 0; 1]%nat.
Definition bcdea : list nat := [1; 2; 3; 4; 0]%nat.

Definition mixed (w : list Z) (a b c d : nat) : Z :=
  left (Z.lxor (Z.lxor (Z.lxor (nth a w 0) (nth b w 0)) (nth c w 0)) (nth d w 0)).

Definition eval_rhs (chunk w : list Z) (r : rhs) : list Z * Z :=
  match r with
  | Load i off => let v := ReadBE32 (skipn off chunk) in (upd w i (fun _ => v), v)
  | Mix i a b c d => let v := mixed w a b c d in (upd w i (fun _ => v), v)
  | Last a b c d => (w, mixed w a b c d)
  end.

Definition Round_at (ord : list nat) (f : Z -> Z -> Z -> Z) (k : Z) (v : list Z) (w : Z) : list Z :=
  let g i := nth (nth i ord O) v 0 in
  let '(b, e) := Round (g 0%nat) (g 1%nat) (g 2%nat) (g 3%nat) (g 4%nat)
                   (f (g 1%nat) (g 2%nat) (g 3%nat)) k w in
  upd (upd v (nth 1 ord O) (fun _ => b)) (nth 4 ord O) (fun _ => e).

Fixpoint run (chunk : list Z) (lines : list line) (v w : list Z) : list Z :=
  match lines with
  | [] => v
  | (ord, f, k, e) :: lines' =>
      let '(w, x) := eval_rhs chunk w e in
      run chunk lines' (Round_at ord f k v x) w
  end.

Definition lines : list line :=
  [(abcde, f1, k1, Load 0 0);
   (eabcd, f1, k1, Load 1 4);
   (deabc, f1, k1, Load 2 8);
   (cdeab, f1, k1, Load 3 12);
   (bcdea, f1, k1, Load 4 16);
   (abcde, f1, k1, Load 5 20);
   (eabcd, f1, k1, Load 6 24);
   (deabc, f1, k1, Load 7 28);
   (cdeab, f1, k1, Load 8 32);
   (bcdea, f1, k1, Load 9 36);
   (abcde, f1, k1, Load 10 40);
   (eabcd, f1, k1, Load 11 44);
   (deabc, f1, k1, Load 12 48);
   (cdeab, f1, k1, Load 13 52);
   (bcdea, f1, k1, Load 14 56);
   (abcde, f1, k1, Load 15 60);
   (eabcd, f1, k1, Mix 0 0 13 8 2);
   (deabc, f1, k1, Mix 1 1 14 9 3);
   (cdeab, f1, k1, Mix 2 2 15 10 4);
   (bcdea, f1, k1, Mix 3 3 0 11 5);
   (abcde, f2, k2, Mix 4 4 1 12 6);
   (eabcd, f2, k2, Mix 5 5 2 13 7);
   (deabc, f2, k2, Mix 6 6 3 14 8);
   (cdeab, f2, k2, Mix 7 7 4 15 9);
   (bcdea, f2, k2, Mix 8 8 5 0 10);
   (abcde, f2, k2, Mix 9 9 6 1 11);
   (eabcd, f2, k2, Mix 10 10 7 2 12);
   (deabc, f2, k2, Mix 11 11 8 3 13);
   (cdeab, f2, k2, Mix 12 12 9 4 14);
   (bcdea, f2, k2, Mix 13 13 10 5 15);
   (abcde, f2, k2, Mix 14 14 11 6 0);
   (eabcd, f2, k2, Mix 15 15 12 7 1);
   (deabc, f2, k2, Mix 0 0 13 8 2);
   (cdeab, f2, k2, Mix 1 1 14 9 3);
   (bcdea, f2, k2, Mix 2 2 15 10 4);
   (abcde, f2, k2, Mix 3 3 0 11 5);
   (eabcd, f2, k2, Mix 4 4 1 12 6);
   (deabc, f2, k2, Mix 5 5 2 13 7);
   (cdeab, f2, k2, Mix 6 6 3 14 8);
   (bcdea, f2, k2, Mix 7 7 4 15 9);
   (abcde, f3, k3, Mix 8 8 5 0 10);
   (eabcd, f3, k3, Mix 9 9 6 1 11);
   (deabc, f3, k3, Mix 10 10 7 2 12);
   (cdeab, f3, k3, Mix 11 11 8 3 13);
   (bcdea, f3, k3, Mix 12 12 9 4 14);
   (abcde, f3, k3, Mix 13 13 10 5 15);
   (eabcd, f3, k3, Mix 14 14 11 6 0);
   (deabc, f3, k3, Mix 15 15 12 7 1);
   (cdeab, f3, k3, Mix 0 0 13 8 2);
   (bcdea, f3, k3, Mix 1 1 14 9 3);
   (abcde, f3, k3, Mix 2 2 15 10 4);
   (eabcd, f3, k3, Mix 3 3 0 11 5);
   (deabc, f3, k3, Mix 4 4 1 12 6);
   (cdeab, f3, k3, Mix 5 5 2 13 7);
   (bcdea, f3, k3, Mix 6 6 3 14 8);
   (abcde, f3, k3, Mix 7 7 4 15 9);
   (eabcd, f3, k3, Mix 8 8 5 0 10);
   (deabc, f3, k3, Mix 9 9 6 1 11);
   (cdeab, f3, k3, Mix 10 10 7 2 12);
   (bcdea, f3, k3, Mix 11 11 8 3 13);
   (abcde, f2, k4, Mix 12 12 9 4 14);
   (eabcd, f2, k4, Mix 13 13 10 5 15);
   (deabc, f2, k4, Mix 14 14 11 6 0);
   (cdeab, f2, k4, Mix 15 15 12 7 1);
   (bcdea, f2, k4, Mix 0 0 13 8 2);
   (abcde, f2, k4, Mix 1 1 14 9 3);
   (eabcd, f2, k4, Mix 2 2 15 10 4);
   (deabc, f2, k4, Mix 3 3 0 11 5);
   (cdeab, f2, k4, Mix 4 4 1 12 6);
   (bcdea, f2, k4, Mix 5 5 2 13 7);
   (abcde, f2, k4, Mix 6 6 3 14 8);
   (eabcd, f2, k4, Mix 7 7 4 15 9);
   (deabc, f2, k4, Mix 8 8 5 0 10);
   (cdeab, f2, k4, Mix 9 9 6 1 11);
   (bcdea, f2, k4, Mix 10 10 7 2 12);
   (abcde, f2, k4, Mix 11 11 8 3 13);
   (eabcd, f2, k4, Mix 12 12 9 4 14);
   (deabc, f2, k4, Last 13 10 5 15);
   (cdeab, f2, k4, Last 14 11 6 0);
   (bcdea, f2, k4, Last 15 12 7 1)].

(** [s[i] += v]. *)
Definition Transform (s chunk : list Z) : list Z :=
  map (fun '(x, y) => u32 (x + y)) (combine s (run chunk lines s (repeat 0 16))).

End sha1.

(** ** The reference: FIPS 180-4

    Sections 2.2.2, 4.1.1, 4.2.1, 5.2.1, 5.3.1 and 6.1 of the standard. *)
Module fips1.

Definition H0 : list Z := [0x67452301; 0xefcdab89; 0x98badcfe; 0x10325476; 0xc3d2e1f0].

Definition ROTL (n x : Z) : Z := Z.lor (u32 (Z.shiftl x n)) (Z.shiftr x (32 - n)).

Definition f (t : nat) (x y z : Z) : Z :=
  if (t <? 20)%nat then Z.lxor (Z.land x y) (Z.land (Z.lnot x) z)
  else if (t <? 40)%nat then Z.lxor (Z.lxor x y) z
  else if (t <? 60)%nat then Z.lxor (Z.lxor (Z.land x y) (Z.land x z)) (Z.land y z)
  else Z.lxor (Z.lxor x y) z.

(** The constants are 2^30 times the square roots of 2, 3, 5 and 10. *)
Definition K (t : nat) : Z := Z.sqrt (nth (t / 20) [2; 3; 5; 10] 0 * 2 ^ 60).

Definition next_word (win : list Z) : Z :=
  ROTL 1 (Z.lxor (Z.lxor (Z.lxor (nth 13 win 0) (nth 8 win 0)) (nth 2 win 0)) (nth 0 win 0)).

Definition round (t : nat) (v : list Z) (w : Z) : list Z :=
  match v with
  | [a; b; c; d; e] =>
      [u32 (ROTL 5 a + f t b c d + e + K t + w); a; ROTL 30 b; c; d]
  | _ => v
  end.

Fixpoint extend (n : nat) (win : list Z) : list Z :=
  match n with
  | O => []
  | S n' => let x := next_word win in x :: extend n' (tl win ++ [x])
  end.

Fixpoint rounds (t : nat) (ws v : list Z) : list Z :=
  match ws with
  | [] => v
  | w :: ws' => rounds (S t) ws' (round t v w)
  end.

Definition block_words (block : list Z) : list Z :=
  map (fun i => be_value (firstn 4 (skipn (4 * i) block))) (seq 0 16).

Definition compress (s block : list Z) : list Z :=
  let M := block_words block in
  map (fun '(x, y) => u32 (x + y)) (combine s (rounds 0 (M ++ extend 64 M) s)).

End fips1.

Section Refinement.
Import sha1.

Lemma rotl_fips x n : rotl x n = fips1.ROTL n x.
Proof. reflexivity. Qed.

Lemma sha1_Initialize : Initialize = fips1.H0.
Proof. reflexivity. Qed.

Lemma sha1_block_words block :
  fips1.block_words block = map (fun i => ReadBE32 (skipn (4 * i) block)) (seq 0 16).
Proof. apply map_ext. intros i. apply be_value_rev. Qed.

Definition view (ord : list nat) (r : list Z) : list Z := map (fun i => nth i r 0) ord.
Definition next_ord (ord : list nat) : list nat := nth 4 ord O :: firstn 4 ord.
Definition orders : list (list nat) := [abcde; eabcd; deabc; cdeab; bcdea].

Lemma sha1_orders_next ord : In ord orders -> In (next_ord ord) orders.
Proof. intros H. repeat (destruct H as [<- | H]; [cbn; tauto|]). destruct H. Qed.

Lemma list16 (P : list Z -> Prop) :
  (forall a b c d e f g h i j k l m n o p, P [a; b; c; d; e; f; g; h; i; j; k; l; m; n; o; p]) ->
  forall l, length l = 16%nat -> P l.
Proof. intros H l Hl. do 17 (destruct l as [|? l]; try discriminate Hl). apply H. Qed.

Lemma sha1_Round_at_view ord f k v w t :
  In ord orders -> length v = 5%nat ->
  (forall x y z, f x y z = fips1.f t x y z) -> k = fips1.K t ->
  length (Round_at ord f k v w) = 5%nat /\
  view (next_ord ord) (Round_at ord f k v w) = fips1.round t (view ord v) w.
Proof.
  intros Ho Hv Hf ->. unfold Round_at, Round. split; [now rewrite !length_upd|].
  rewrite Hf. revert v Hv. apply list5. intros.
  repeat (destruct Ho as [<- | Ho];
    [cbn -[u32 rotl fips1.ROTL fips1.f fips1.K Z.add]; rewrite !rotl_fips; do 2 f_equal; lia|]).
  destruct Ho.
Qed.

(** The words that the lines use, in order. *)
Fixpoint feeds (chunk : list Z) (es : list rhs) (w : list Z) : list Z :=
  match es with
  | [] => []
  | e :: es' => snd (eval_rhs chunk w e) :: feeds chunk es' (fst (eval_rhs chunk w e))
  end.

Fixpoint follows (ls : list line) (ord : list nat) (t : nat) : Prop :=
  match ls with
  | [] => ord = abcde
  | (o, f, k, _) :: ls' =>
      o = ord /\ (forall x y z, f x y z = fips1.f t x y z) /\ k = fips1.K t /\
      follows ls' (next_ord ord) (S t)
  end.

Lemma sha1_run_rounds chunk ls ord t v w :
  In ord orders -> length v = 5%nat -> follows ls ord t ->
  run chunk ls v w = fips1.rounds t (feeds chunk (map snd ls) w) (view ord v).
Proof.
  revert ord t v w. induction ls as [|[[[o f] k] e] ls IH]; intros ord t v w Ho Hv H;
    cbn [follows] in H.
  - subst ord. revert v Hv. apply list5. reflexivity.
  - destruct H as (-> & Hf & Hk & H).
    cbn [run map snd feeds fips1.rounds].
    destruct (eval_rhs chunk w e) as [w' x]. cbn [fst snd].
    destruct (sha1_Round_at_view ord f k v x t Ho Hv Hf Hk) as [Hl <-].
    apply IH; auto using sha1_orders_next.
Qed.

Lemma f1_fips t x y z : (t < 20)%nat -> f1 x y z = fips1.f t x y z.
Proof.
  intros Ht. unfold fips1.f. destruct (Nat.ltb_spec t 20); [|lia].
  unfold f1. apply Z.bits_inj'. intros i Hi.
  rewrite !Z.lxor_spec, !Z.land_spec, !Z.lxor_spec, Z.lnot_spec by assumption.
  destruct (Z.testbit x i), (Z.testbit y i), (Z.testbit z i); reflexivity.
Qed.

Lemma f3_fips t x y z : (40 <= t < 60)%nat -> f3 x y z = fips1.f t x y z.
Proof.
  intros Ht. unfold fips1.f.
  destruct (Nat.ltb_spec t 20), (Nat.ltb_spec t 40), (Nat.ltb_spec t 60); try lia.
  unfold f3. apply Z.bits_inj'. intros i Hi.
  rewrite !Z.lxor_spec, !Z.lor_spec, !Z.land_spec, !Z.lor_spec.
  destruct (Z.testbit x i), (Z.testbit y i), (Z.testbit z i); reflexivity.
Qed.

Lemma sha1_lines_follow : follows lines abcde 0.
Proof.
  unfold lines.
  repeat (split; [reflexivity|split; [intros; first [ apply f1_fips; lia | apply f3_fips; lia
    | reflexivity ]|split; [reflexivity|]]]).
  reflexivity.
Qed.

(** ** The message schedule *)
Definition mix (j : nat) : rhs := Mix j j ((j + 13) mod 16) ((j + 8) mod 16) ((j + 2) mod 16).

Fixpoint mixes (n j : nat) : list rhs :=
  match n with
  | O => []
  | S n' => mix j :: mixes n' ((j + 1) mod 16)
  end.

Definition window (j : nat) (w : list Z) : list Z := skipn j w ++ firstn j w.

Lemma sha1_mix_window chunk j w :
  (j < 16)%nat -> length w = 16%nat ->
  let x := fips1.next_word (window j w) in
  eval_rhs chunk w (mix j) = (upd w j (fun _ => x), x) /\
  window ((j + 1) mod 16) (upd w j (fun _ => x)) = tl (window j w) ++ [x].
Proof.
  intros Hj Hw x.
  assert (Hx : mixed w j ((j + 13) mod 16) ((j + 8) mod 16) ((j + 2) mod 16) = x).
  { subst x. unfold fips1.next_word, mixed, left. rewrite rotl_fips. f_equal.
    assert (Hc : forall a b c d, Z.lxor (Z.lxor (Z.lxor a b) c) d = Z.lxor (Z.lxor (Z.lxor b c) d) a)
      by (intros; rewrite !Z.lxor_assoc, Z.lxor_comm, !Z.lxor_assoc; reflexivity).
    rewrite Hc. revert w Hw. apply list16. intros.
    do 16 (destruct j as [|j]; [reflexivity|]). lia. }
  unfold mix, eval_rhs. rewrite Hx. split; [reflexivity|]. clearbody x. clear Hx.
  revert w Hw. apply list16. intros. do 16 (destruct j as [|j]; [reflexivity|]). lia.
Qed.

Lemma sha1_feeds_mixes chunk n j w :
  (j < 16)%nat -> length w = 16%nat ->
  feeds chunk (mixes n j) w = fips1.extend n (window j w).
Proof.
  revert j w. induction n as [|n IH]; intros j w Hj Hw; [reflexivity|].
  destruct (sha1_mix_window chunk j w Hj Hw) as [He Hwin].
  cbn [mixes feeds fips1.extend]. rewrite He. cbn [fst snd]. f_equal. rewrite <- Hwin.
  apply IH; [apply Nat.mod_upper_bound; lia|]. rewrite length_upd. exact Hw.
Qed.

Definition words_after (chunk : list Z) (es : list rhs) (w : list Z) : list Z :=
  fold_left (fun w e => fst (eval_rhs chunk w e)) es w.

Lemma sha1_feeds_app chunk l1 l2 w :
  feeds chunk (l1 ++ l2) w = feeds chunk l1 w ++ feeds chunk l2 (words_after chunk l1 w).
Proof.
  revert w. induction l1 as [|e l1 IH]; intros w; [reflexivity|].
  cbn [app feeds]. f_equal. apply IH.
Qed.

Lemma sha1_length_after chunk es w : length (words_after chunk es w) = length w.
Proof.
  revert w. induction es as [|e es IH]; intros w; [reflexivity|].
  change (length (words_after chunk es (fst (eval_rhs chunk w e))) = length w).
  rewrite IH. destruct e; cbn; now rewrite ?length_upd.
Qed.

Definition loads : list rhs := map (fun i => Load i (4 * i)) (seq 0 16).
Definition lasts : list rhs := [Last 13 10 5 15; Last 14 11 6 0; Last 15 12 7 1].

Lemma lines_shape : map snd lines = loads ++ mixes 61 0 ++ lasts.
Proof. reflexivity. Qed.

Lemma feeds_lasts chunk w :
  length w = 16%nat -> feeds chunk lasts w = feeds chunk (mixes 3 13) w.
Proof. revert w. apply list16. reflexivity. Qed.

Lemma feeds_loads chunk w :
  length w = 16%nat ->
  feeds chunk loads w = fips1.block_words chunk /\
  words_after chunk loads w = fips1.block_words chunk.
Proof. rewrite sha1_block_words. revert w. apply list16. split; reflexivity. Qed.

Lemma feeds_lines chunk w :
  length w = 16%nat ->
  feeds chunk (map snd lines) w = fips1.block_words chunk ++ fips1.extend 64 (fips1.block_words chunk).
Proof.
  intros Hw. rewrite lines_shape, sha1_feeds_app.
  destruct (feeds_loads chunk w Hw) as [-> ->]. f_equal.
  rewrite sha1_feeds_app, feeds_lasts by (now rewrite sha1_length_after).
  rewrite <- sha1_feeds_app. change (mixes 61 0 ++ mixes 3 13) with (mixes 64 0).
  rewrite sha1_feeds_mixes by (lia || reflexivity). reflexivity.
Qed.

Lemma sha1_fips s chunk :
  length s = 5%nat -> Transform s chunk = fips1.compress s chunk.
Proof.
  intros Hs. unfold Transform, fips1.compress. do 2 f_equal.
  rewrite (sha1_run_rounds chunk lines abcde 0) by (auto using sha1_lines_follow; left; reflexivity).
  rewrite feeds_lines by reflexivity. f_equal. revert s Hs. apply list5. reflexivity.
Qed.

Lemma sha1_block_words_firstn chunk : fips1.block_words (firstn 64 chunk) = fips1.block_words chunk.
Proof.
  rewrite !sha1_block_words. apply map_ext_in. intros i Hi%in_seq.
  unfold ReadBE32. rewrite skipn_firstn_comm, firstn_firstn. do 3 f_equal. lia.
Qed.

Lemma sha1_length_round t v w : length (fips1.round t v w) = length v.
Proof. unfold fips1.round. do 6 (destruct v as [|? v]; try reflexivity). Qed.

Lemma sha1_block s d :
  length s = 5%nat ->
  length (Transform s d) = 5%nat /\ Transform s d = fips1.compress s (firstn 64 d).
Proof.
  intros Hs. rewrite sha1_fips by assumption. split.
  - unfold fips1.compress. rewrite length_map, length_combine.
    enough (H : forall ws t v, length (fips1.rounds t ws v) = length v)
      by (rewrite H, Hs; reflexivity).
    induction ws as [|w ws IH]; intros t v; [reflexivity|].
    cbn [fips1.rounds]. rewrite IH. apply sha1_length_round.
  - unfold fips1.compress. now rewrite sha1_block_words_firstn.
Qed.

(** [sha1::Transform] is the SHA-1 of FIPS 180-4: from any state of five words
    the unrolled rounds compute the reference compression of the block, in which
    the working variables move in every round and the schedule is a list of
    eighty words. *)
Theorem sha1_transform_fips s chunk :
  length s = 5%nat -> Transform s chunk = fips1.compress s chunk.
Proof. apply sha1_fips. Qed.

Lemma sha1_transform_fips_witness :
  Transform Initialize (repeat 7 64) = fips1.compress Initialize (repeat 7 64).
Proof. exact (sha1_transform_fips Initialize (repeat 7 64) eq_refl). Defined.

End Refinement.
