(* ===== verification/Hash.v ===== *)
(** * The streaming hashers: [src/src/crypto] and [src/src/hash.h]

    [CSHA256], [CRIPEMD160] and [CSHA1] have the same interface and the same
    buffering code over different compression functions: a state of words, a
    buffer of 64 bytes and a byte count.  The code is modelled once, over a record
    of what differs, and instantiated for the three classes; [CHash256],
    [CHash160] and the functions of [hash.h] are built on them.

    Property [hasher_streaming] relates the whole buffering machinery to the
    definition of the hash of a message: padding, cutting into blocks, folding
    the compression function. *)
From Stdlib Require Import ZArith Lia ZifyNat List Bool.
From S2P Require Import Prelude Sha256 Ripemd160 Sha1.
Import ListNotations.

(** What the three classes do differently: the initial state, the processing of a
    number of blocks from the front of the data, the byte order of the length
    and of the digest. *)
Record hash_alg : Type := HashAlg {
  alg_init : list Z;
  alg_transform : list Z -> list Z -> nat -> list Z;
  alg_sizedesc : Z -> list Z;
  alg_output : list Z -> list Z }.

(** The fields [s], [buf] and [bytes]. *)
Record hasher : Type := Hasher {
  h_s : list Z;
  h_buf : list Z;
  h_bytes : Z }.

(** [memcpy(buf + off, data, len)]. *)
Definition memcpy (buf : list Z) (off : nat) (data : list Z) : list Z :=
  firstn off buf ++ data ++ skipn (off + length data) buf.

Module Hasher64.
Section Ops.
Context (a : hash_alg).

Definition new : hasher := Hasher (alg_init a) (repeat 0 64) 0.

(** "Fill the buffer, and process it." *)
Definition fill (h : hasher) (data : list Z) (bufsize : nat) : hasher :=
  let buf := memcpy (h_buf h) bufsize (firstn (64 - bufsize) data) in
  Hasher (alg_transform a (h_s h) buf 1) buf (u64 (h_bytes h + Z.of_nat (64 - bufsize))).

Definition Write (h : hasher) (data : list Z) : hasher :=
  let bufsize := Z.to_nat (h_bytes h mod 64) in
  let '(h, data, bufsize) :=
    if (negb (bufsize =? 0) && (64 <=? bufsize + length data))%nat%bool
    then (fill h data bufsize, skipn (64 - bufsize) data, O)
    else (h, data, bufsize) in
  let blocks := (length data / 64)%nat in
  let h :=
    if (64 <=? length data)%nat
    then Hasher (alg_transform a (h_s h) data blocks) (h_buf h)
           (u64 (h_bytes h + 64 * Z.of_nat blocks))
    else h in
  let data := if (64 <=? length data)%nat then skipn (64 * blocks) data else data in
  match data with
  | [] => h
  | _ => Hasher (h_s h) (memcpy (h_buf h) bufsize data) (u64 (h_bytes h + Z.of_nat (length data)))
  end.

Definition pad : list Z := 128 :: repeat 0 63.

Definition Finalize (h : hasher) : list Z * hasher :=
  let sizedesc := alg_sizedesc a (u64 (Z.shiftl (h_bytes h) 3)) in
  let h' := Write h (firstn (Z.to_nat (1 + (119 - h_bytes h mod 64) mod 64)) pad) in
  let h' := Write h' sizedesc in
  (alg_output a (h_s h'), h').

Definition Reset (h : hasher) : hasher := Hasher (alg_init a) (h_buf h) 0.

End Ops.
End Hasher64.

(** [while (end >= data + 64)]: one transform per block. *)
Fixpoint each_block (tr : list Z -> list Z -> list Z) (s data : list Z) (n : nat) : list Z :=
  match n with
  | O => s
  | S n' => each_block tr (tr s data) (skipn 64 data) n'
  end.

Definition CSHA256 : hash_alg :=
  HashAlg sha256.Initialize sha256.Transform WriteBE64 (flat_map WriteBE32).

Definition CRIPEMD160 : hash_alg :=
  HashAlg ripemd160.Initialize (each_block ripemd160.Transform) WriteLE64 (flat_map WriteLE32).

Definition CSHA1 : hash_alg :=
  HashAlg sha1.Initialize (each_block sha1.Transform) WriteBE64 (flat_map WriteBE32).

(** A hasher fed once and finalized, as in [CSHA256().Write(..).Finalize(..)]. *)
Definition digest (a : hash_alg) (data : list Z) : list Z :=
  fst (Hasher64.Finalize a (Hasher64.Write a (Hasher64.new a) data)).

Module CHash256.

Definition Finalize (sha : hasher) : list Z :=
  let '(buf, sha) := Hasher64.Finalize CSHA256 sha in
  fst (Hasher64.Finalize CSHA256 (Hasher64.Write CSHA256 (Hasher64.Reset CSHA256 sha) buf)).

Definition Write (sha : hasher) (data : list Z) : hasher := Hasher64.Write CSHA256 sha data.
Definition Reset (sha : hasher) : hasher := Hasher64.Reset CSHA256 sha.

End CHash256.

Module CHash160.

Definition Finalize (sha : hasher) : list Z :=
  let '(buf, _) := Hasher64.Finalize CSHA256 sha in
  digest CRIPEMD160 buf.

Definition Write (sha : hasher) (data : list Z) : hasher := Hasher64.Write CSHA256 sha data.
Definition Reset (sha : hasher) : hasher := Hasher64.Reset CSHA256 sha.

End CHash160.

(** [Hash(begin, end)], [Hash(begin1, end1, begin2, end2)] and [Hash160]. *)
Definition Hash (data : list Z) : list Z :=
  CHash256.Finalize (CHash256.Write (Hasher64.new CSHA256) data).

Definition Hash2 (data1 data2 : list Z) : list Z :=
  CHash256.Finalize (CHash256.Write (CHash256.Write (Hasher64.new CSHA256) data1) data2).

Definition Hash160 (data : list Z) : list Z :=
  CHash160.Finalize (CHash160.Write (Hasher64.new CSHA256) data).

(** [CHashWriter]: the stream of the writes, then the double hash. *)
Definition HashWriter (writes : list (list Z)) : list Z :=
  CHash256.Finalize (fold_left CHash256.Write writes (Hasher64.new CSHA256)).

(** [GetCheapHash]. *)
Definition CheapHash (writes : list (list Z)) : Z := ReadLE64 (HashWriter writes).

(** [MurmurHash3]. *)
Definition ROTL32 (x r : Z) : Z := Z.lor (u32 (Z.shiftl x r)) (Z.shiftr x (32 - r)).

Definition murmur_mix (k1 : Z) : Z :=
  u32 (ROTL32 (u32 (k1 * 0xcc9e2d51)) 15 * 0x1b873593).

Definition MurmurHash3 (nHashSeed : Z) (v : list Z) : Z :=
  let nblocks := (length v / 4)%nat in
  let h1 := for_upto nblocks (fun i h1 =>
    let k1 := murmur_mix (ReadLE32 (skipn (i * 4) v)) in
    u32 (ROTL32 (Z.lxor h1 k1) 13 * 5 + 0xe6546b64)) nHashSeed in
  let tail := skipn (nblocks * 4) v in
  let k1 :=
    match Z.land (Z.of_nat (length v)) 3 with
    | 3 => Z.lxor (Z.lxor (Z.shiftl (nth 2 tail 0) 16) (Z.shiftl (nth 1 tail 0) 8)) (nth 0 tail 0)
    | 2 => Z.lxor (Z.shiftl (nth 1 tail 0) 8) (nth 0 tail 0)
    | 1 => nth 0 tail 0
    | _ => 0
    end in
  let h1 := if Z.land (Z.of_nat (length v)) 3 =? 0 then h1 else Z.lxor h1 (murmur_mix k1) in
  let h1 := Z.lxor h1 (u32 (Z.of_nat (length v))) in
  let h1 := u32 (Z.lxor h1 (Z.shiftr h1 16) * 0x85ebca6b) in
  let h1 := u32 (Z.lxor h1 (Z.shiftr h1 13) * 0xc2b2ae35) in
  Z.lxor h1 (Z.shiftr h1 16).

(** ** The hash of a message

    [Blockwise a compress ok] is what the buffering code needs of an algorithm:
    its transform folds a compression function over 64-byte blocks, and keeps the
    states well formed. *)
Class Blockwise (a : hash_alg) (compress : list Z -> list Z -> list Z) (ok : list Z -> Prop) : Prop := {
  init_ok : ok (alg_init a);
  transform_ok s data n : bytes data -> ok s -> ok (alg_transform a s data n);
  transform_blocks s data n :
    bytes data -> ok s ->
    alg_transform a s data n = fold_left compress (parse_blocks n data) s;
  sizedesc_bytes x : bytes (alg_sizedesc a x);
  sizedesc_length x : length (alg_sizedesc a x) = 8%nat }.

(** Padding: a one bit, zeros up to 56 bytes modulo 64, the length in bits modulo
    2^64. *)
Definition padded (a : hash_alg) (m : list Z) : list Z :=
  m ++ [128] ++ repeat 0 (Z.to_nat ((55 - Z.of_nat (length m)) mod 64))
    ++ alg_sizedesc a (u64 (8 * Z.of_nat (length m))).

Definition hash_of (a : hash_alg) (compress : list Z -> list Z -> list Z) (m : list Z) : list Z :=
  let p := padded a m in
  alg_output a (fold_left compress (parse_blocks (length p / 64) p) (alg_init a)).

#[local] Ltac Zify.zify_post_hook ::= Z.to_euclidean_division_equations.

Section Streaming.
Context (a : hash_alg) (compress : list Z -> list Z -> list Z) (ok : list Z -> Prop)
  `{!Blockwise a compress ok}.
Import Hasher64.

(** The state of a hasher that has been fed [m]. *)
Record fed (h : hasher) (m : list Z) : Prop := Fed {
  fed_s : h_s h = fold_left compress (parse_blocks (length m / 64) m) (alg_init a);
  fed_ok : ok (h_s h);
  fed_buf : length (h_buf h) = 64%nat;
  fed_rest : firstn (length m mod 64) (h_buf h) = skipn (64 * (length m / 64)) m;
  fed_bytes : h_bytes h = u64 (Z.of_nat (length m)) }.

Lemma bufsize_mod h m : fed h m -> Z.to_nat (h_bytes h mod 64) = (length m mod 64)%nat.
Proof.
  intros [_ _ _ _ ->]. unfold u64, two64.
  replace ((Z.of_nat (length m) mod 18446744073709551616) mod 64)
    with (Z.of_nat (length m) mod 64) by lia.
  lia.
Qed.

Lemma u64_add_length (m d : list Z) :
  u64 (u64 (Z.of_nat (length m)) + Z.of_nat (length d)) = u64 (Z.of_nat (length (m ++ d))).
Proof. rewrite length_app, Nat2Z.inj_add. unfold u64. now rewrite Zplus_mod_idemp_l. Qed.

Lemma fed_new : fed (new a) [].
Proof. split; try reflexivity. apply init_ok. Qed.

Lemma parse_blocks_add q k (m d : list Z) :
  (64 * q <= length m)%nat ->
  parse_blocks (q + k) (m ++ d) = parse_blocks q m ++ parse_blocks k (skipn (64 * q) m ++ d).
Proof.
  intros H. rewrite <- (firstn_skipn (64 * q) m) at 1. rewrite <- app_assoc.
  rewrite parse_blocks_app by (rewrite length_firstn; lia).
  now rewrite parse_blocks_firstn.
Qed.

(** The three parts of [Write]. *)
Lemma fed_fill h m d :
  fed h m -> bytes m -> bytes d ->
  (length m mod 64 <> 0)%nat -> (64 <= length m mod 64 + length d)%nat ->
  fed (fill a h d (length m mod 64)) (m ++ firstn (64 - length m mod 64) d).
Proof.
  intros [Hs Hok Hb Hr Hn] Hm Hd Hz Hl.
  set (r := (length m mod 64)%nat) in *. set (q := (length m / 64)%nat) in *.
  assert (Hlm : length m = (64 * q + r)%nat) by (subst r q; lia).
  assert (Hr64 : (r < 64)%nat) by (subst r; lia).
  set (d1 := firstn (64 - r) d).
  assert (Hd1 : length d1 = (64 - r)%nat) by (subst d1; rewrite length_firstn; lia).
  assert (Hbuf : memcpy (h_buf h) r d1 = skipn (64 * q) m ++ d1).
  { unfold memcpy. rewrite Hr, Hd1.
    replace (skipn (r + (64 - r)) (h_buf h)) with (@nil Z)
      by (symmetry; apply skipn_all2; lia).
    now rewrite app_nil_r. }
  assert (Hq : (length (m ++ d1) / 64 = q + 1)%nat) by (rewrite length_app; lia).
  assert (Hq0 : (length (m ++ d1) mod 64 = 0)%nat) by (rewrite length_app; lia).
  assert (Hbb : bytes (skipn (64 * q) m ++ d1)).
  { apply Forall_app. split; [apply Forall_skipn, Hm|apply Forall_firstn, Hd]. }
  unfold fill. fold d1. rewrite Hbuf. split; cbn [h_s h_buf h_bytes].
  - rewrite transform_blocks by assumption. rewrite Hq, parse_blocks_add by lia.
    rewrite fold_left_app, <- Hs. reflexivity.
  - now apply transform_ok.
  - rewrite length_app, length_skipn. lia.
  - rewrite Hq0, Hq. symmetry. apply skipn_all2. rewrite length_app. lia.
  - rewrite Hn, <- Hd1. apply u64_add_length.
Qed.

Lemma fed_blocks h m d :
  fed h m -> bytes d -> (length m mod 64 = 0)%nat ->
  let blocks := (length d / 64)%nat in
  fed (Hasher (alg_transform a (h_s h) d blocks) (h_buf h) (u64 (h_bytes h + 64 * Z.of_nat blocks)))
      (m ++ firstn (64 * blocks) d).
Proof.
  intros [Hs Hok Hb Hr Hn] Hd Hz blocks.
  set (q := (length m / 64)%nat) in *.
  assert (Hlm : length m = (64 * q)%nat) by (subst q; lia).
  set (d1 := firstn (64 * blocks) d).
  assert (Hd1 : length d1 = (64 * blocks)%nat) by (subst d1 blocks; rewrite length_firstn; lia).
  assert (Hq : (length (m ++ d1) / 64 = q + blocks)%nat) by (rewrite length_app; lia).
  assert (Hq0 : (length (m ++ d1) mod 64 = 0)%nat) by (rewrite length_app; lia).
  split; cbn [h_s h_buf h_bytes].
  - rewrite transform_blocks by assumption.
    rewrite Hq, parse_blocks_add, skipn_all2 by lia. cbn [app].
    subst d1. rewrite parse_blocks_firstn. now rewrite fold_left_app, <- Hs.
  - now apply transform_ok.
  - exact Hb.
  - rewrite Hq0, Hq. symmetry. apply skipn_all2. rewrite length_app. lia.
  - rewrite Hn. replace (64 * Z.of_nat blocks) with (Z.of_nat (length d1)) by lia.
    apply u64_add_length.
Qed.

Lemma fed_rest_data h m d :
  fed h m -> (length m mod 64 + length d < 64)%nat ->
  fed (Hasher (h_s h) (memcpy (h_buf h) (length m mod 64) d)
         (u64 (h_bytes h + Z.of_nat (length d)))) (m ++ d).
Proof.
  intros [Hs Hok Hb Hr Hn] Hl.
  set (r := (length m mod 64)%nat) in *. set (q := (length m / 64)%nat) in *.
  assert (Hlm : length m = (64 * q + r)%nat) by (subst r q; lia).
  assert (Hq : (length (m ++ d) / 64 = q)%nat) by (rewrite length_app; lia).
  assert (Hq0 : (length (m ++ d) mod 64 = r + length d)%nat) by (rewrite length_app; lia).
  split; cbn [h_s h_buf h_bytes].
  - rewrite Hq. replace q with (q + 0)%nat by lia. rewrite parse_blocks_add by lia.
    cbn [parse_blocks]. now rewrite app_nil_r.
  - exact Hok.
  - unfold memcpy. rewrite !length_app, length_firstn, length_skipn. lia.
  - rewrite Hq0, Hq. unfold memcpy. rewrite app_assoc, firstn_app_exact.
    + rewrite Hr, skipn_app. replace (64 * q - length m)%nat with O by lia. reflexivity.
    + rewrite length_app, length_firstn. lia.
  - rewrite Hn. apply u64_add_length.
Qed.

Lemma fed_Write h m d : fed h m -> bytes m -> bytes d -> fed (Write a h d) (m ++ d).
Proof.
  intros Hf Hm Hd. unfold Write. rewrite (bufsize_mod h m Hf).
  set (r := (length m mod 64)%nat).
  assert (Hr : (r < 64)%nat) by (subst r; lia).
  (* after the first part: [m'] absorbed, [d'] left, the buffer empty or too large *)
  assert (HA : exists h' m' d',
    (if (negb (r =? 0) && (64 <=? r + length d))%nat%bool
     then (fill a h d r, skipn (64 - r) d, O) else (h, d, r)) =
    (h', d', (length m' mod 64)%nat) /\
    fed h' m' /\ bytes d' /\ m' ++ d' = m ++ d /\
    ((length m' mod 64 = 0)%nat \/ (length m' mod 64 + length d' < 64)%nat)).
  { destruct ((negb (r =? 0) && (64 <=? r + length d))%nat%bool) eqn:E.
    - apply andb_prop in E. destruct E as [E1 E2].
      apply negb_true_iff, Nat.eqb_neq in E1. apply Nat.leb_le in E2.
      pose proof (fed_fill h m d Hf Hm Hd E1 E2) as H. fold r in H.
      exists (fill a h d r), (m ++ firstn (64 - r) d), (skipn (64 - r) d).
      assert (H0 : (length (m ++ firstn (64 - r) d) mod 64 = 0)%nat)
        by (rewrite length_app, length_firstn; subst r; lia).
      rewrite H0. split; [reflexivity|]. split; [exact H|].
      split; [apply Forall_skipn, Hd|]. split; [|auto].
      rewrite <- app_assoc. now rewrite firstn_skipn.
    - exists h, m, d. split; [reflexivity|]. do 3 (split; [auto|]). fold r.
      apply andb_false_iff in E. rewrite negb_false_iff, Nat.eqb_eq, Nat.leb_gt in E. tauto. }
  destruct HA as (h' & m' & d' & -> & Hf' & Hd' & Em & Hcase). rewrite <- Em. clear Em.
  destruct (Nat.leb_spec 64 (length d')) as [Hl|Hl].
  - assert (Hz : (length m' mod 64 = 0)%nat) by lia. rewrite Hz.
    pose proof (fed_blocks h' m' d' Hf' Hd' Hz) as Hf2. cbv zeta in Hf2.
    remember (Hasher _ _ _) as h2 eqn:E2. clear E2.
    set (k := (64 * (length d' / 64))%nat) in *.
    assert (Hk : (k <= length d')%nat) by (subst k; lia).
    rewrite <- (firstn_skipn k d') at 2. rewrite app_assoc.
    destruct (skipn k d') as [|x rest] eqn:Er; [now rewrite app_nil_r|]. rewrite <- Er.
    pose proof (fed_rest_data h2 _ (skipn k d') Hf2) as H3.
    replace (length (m' ++ firstn k d') mod 64)%nat with O in H3
      by (rewrite length_app, length_firstn; subst k; lia).
    apply H3. rewrite length_skipn. subst k. lia.
  - destruct d' as [|x rest] eqn:Ed; [now rewrite app_nil_r|]. rewrite <- Ed in *.
    apply fed_rest_data; [assumption|]. destruct Hcase; lia.
Qed.

Lemma firstn_pad k : (k <= 63)%nat -> firstn (1 + k) pad = [128] ++ repeat 0 k.
Proof.
  intros Hk. unfold pad. cbn [Nat.add firstn app]. f_equal.
  replace 63%nat with (k + (63 - k))%nat by lia.
  rewrite repeat_app, firstn_app_exact; [reflexivity|apply repeat_length].
Qed.

Lemma fed_Finalize h m :
  fed h m -> bytes m ->
  fst (Finalize a h) = hash_of a compress m /\ length (h_buf (snd (Finalize a h))) = 64%nat.
Proof.
  intros Hf Hm. unfold Finalize. cbn [fst snd].
  assert (Hb := fed_bytes _ _ Hf).
  set (k := Z.to_nat ((55 - Z.of_nat (length m)) mod 64)).
  assert (Hk : Z.to_nat (1 + (119 - h_bytes h mod 64) mod 64) = (1 + k)%nat).
  { rewrite Hb. unfold u64, two64, k. lia. }
  assert (Hk63 : (k <= 63)%nat) by (unfold k; lia).
  rewrite Hk, firstn_pad by assumption.
  assert (Hp : bytes ([128] ++ repeat 0 k)) by bytes_concrete.
  assert (H1 := fed_Write h m _ Hf Hm Hp).
  assert (Hs : u64 (Z.shiftl (h_bytes h) 3) = u64 (8 * Z.of_nat (length m))).
  { rewrite Hb, Z.shiftl_mul_pow2 by lia. change (2 ^ 3) with 8. unfold u64, two64.
    rewrite Z.mul_mod_idemp_l by lia. f_equal. lia. }
  rewrite Hs.
  assert (H2 := fed_Write _ _ (alg_sizedesc a (u64 (8 * Z.of_nat (length m)))) H1
    (proj2 (Forall_app _ _ _) (conj Hm Hp)) (sizedesc_bytes _)).
  rewrite <- app_assoc, <- app_assoc in H2.
  split; [|exact (fed_buf _ _ H2)].
  unfold hash_of. rewrite (fed_s _ _ H2). reflexivity.
Qed.

Lemma fed_writes chunks h m :
  fed h m -> bytes m -> Forall bytes chunks ->
  fed (fold_left (Write a) chunks h) (m ++ concat chunks) /\ bytes (m ++ concat chunks).
Proof.
  intros Hf Hm Hc. revert h m Hf Hm. induction Hc as [|d chunks Hd Hc IH]; intros h m Hf Hm.
  - cbn. now rewrite app_nil_r.
  - cbn [fold_left concat]. rewrite app_assoc. apply IH.
    + now apply fed_Write.
    + apply Forall_app. now split.
Qed.

Lemma fed_Reset h : length (h_buf h) = 64%nat -> fed (Reset a h) [].
Proof. intros H. split; try reflexivity; [apply init_ok|exact H]. Qed.

Lemma streaming chunks :
  Forall bytes chunks ->
  fst (Finalize a (fold_left (Write a) chunks (new a))) = hash_of a compress (concat chunks).
Proof.
  intros Hc.
  destruct (fed_writes chunks (new a) [] fed_new (Forall_nil _) Hc) as [Hf Hb].
  now apply fed_Finalize.
Qed.

Lemma digest_spec m : bytes m -> digest a m = hash_of a compress m.
Proof.
  intros Hm. unfold digest.
  rewrite <- (app_nil_r m) at 2. apply (streaming [m]). now constructor.
Qed.

End Streaming.

(** The three algorithms meet the interface. *)
Lemma each_block_spec tr compress s data n (ok : list Z -> Prop) :
  (forall s d, ok s -> ok (tr s d) /\ tr s d = compress s (firstn 64 d)) -> ok s ->
  ok (each_block tr s data n) /\
  each_block tr s data n = fold_left compress (parse_blocks n data) s.
Proof.
  intros H. revert s data. induction n as [|n IH]; intros s data Hs; [now split|].
  cbn [each_block parse_blocks fold_left].
  destruct (H s data Hs) as [Hk E]. rewrite <- E. now apply IH.
Qed.

Lemma bytes_rev l : bytes l -> bytes (rev l).
Proof. apply Forall_rev. Qed.

#[export] Instance CSHA256_blockwise :
  Blockwise CSHA256 fips.compress (fun s => length s = 8%nat).
Proof.
  split.
  - reflexivity.
  - intros s d n Hd Hs. cbn. rewrite Transform_parse by assumption.
    revert s Hs. induction (parse_blocks n d) as [|b bs IH]; intros s Hs; [exact Hs|].
    cbn [fold_left]. apply IH. now rewrite length_compress.
  - intros s d n Hd Hs. now apply Transform_parse.
  - intros x. apply bytes_rev, bytes_le_bytes.
  - intros x. apply length_WriteBE64.
Qed.

Lemma ripemd160_block s d :
  length s = 5%nat ->
  length (ripemd160.Transform s d) = 5%nat /\ ripemd160.Transform s d = rmd.compress s (firstn 64 d).
Proof.
  intros Hs. split; [apply length_Transform|].
  rewrite <- Transform_firstn. now apply ripemd160_reference.
Qed.

#[export] Instance CRIPEMD160_blockwise :
  Blockwise CRIPEMD160 rmd.compress (fun s => length s = 5%nat).
Proof.
  split.
  - reflexivity.
  - intros s d n _ Hs. now apply (each_block_spec _ rmd.compress _ _ _ _ ripemd160_block).
  - intros s d n _ Hs. now apply (each_block_spec _ rmd.compress _ _ _ _ ripemd160_block).
  - intros x. apply bytes_le_bytes.
  - intros x. apply length_le_bytes.
Qed.

#[export] Instance CSHA1_blockwise :
  Blockwise CSHA1 fips1.compress (fun s => length s = 5%nat).
Proof.
  split.
  - reflexivity.
  - intros s d n _ Hs. now apply (each_block_spec _ fips1.compress _ _ _ _ sha1_block).
  - intros s d n _ Hs. now apply (each_block_spec _ fips1.compress _ _ _ _ sha1_block).
  - intros x. apply bytes_rev, bytes_le_bytes.
  - intros x. apply length_WriteBE64.
Qed.

(** ** Properties *)
Section Properties.

(** The hash functions of the standards, apart from the code.  The message is
    followed by a one bit, the fewest zeros that leave 8 bytes in the last block,
    and its length in bits; the compression is folded over the blocks from the
    initial state; the words of the last state are the digest.  [encode n x] writes
    [x] to [n] bytes, and differs between the standards. *)
Definition std_hash (H0 : list Z) (encode : nat -> Z -> list Z) (compress : list Z -> list Z -> list Z)
    (m : list Z) : list Z :=
  let zeros := Z.to_nat ((55 - Z.of_nat (length m)) mod 64) in
  let p := m ++ [128] ++ repeat 0 zeros ++ encode 8%nat (8 * Z.of_nat (length m)) in
  flat_map (encode 4%nat) (fold_left compress (parse_blocks (length p / 64) p) H0).

Definition SHA256 : list Z -> list Z := std_hash fips.H0 be_bytes fips.compress.
Definition RIPEMD160 : list Z -> list Z := std_hash rmd.H0 le_bytes rmd.compress.
Definition SHA1 : list Z -> list Z := std_hash fips1.H0 be_bytes fips1.compress.

Lemma le_bytes_8_u64 x : le_bytes 8 (u64 x) = le_bytes 8 x.
Proof. apply (le_bytes_mod 8). Qed.

Lemma std_hash_of a H0 encode compress m :
  alg_init a = H0 -> (forall x, alg_sizedesc a (u64 x) = encode 8%nat x) ->
  (forall s, alg_output a s = flat_map (encode 4%nat) s) ->
  std_hash H0 encode compress m = hash_of a compress m.
Proof. intros <- Hs Ho. unfold std_hash, hash_of, padded. now rewrite Ho, Hs. Qed.

Lemma flat_map_be s : flat_map WriteBE32 s = flat_map (be_bytes 4) s.
Proof. apply flat_map_ext. intros x. now rewrite be_bytes_rev. Qed.

Lemma WriteBE64_u64 x : WriteBE64 (u64 x) = be_bytes 8 x.
Proof. unfold WriteBE64. now rewrite le_bytes_8_u64, be_bytes_rev. Qed.

(** The code's initial states, byte orders and lengths are those of the
    standards. *)
Lemma SHA256_hash_of m : SHA256 m = hash_of CSHA256 fips.compress m.
Proof. apply std_hash_of; [symmetry; apply H0_Initialize|apply WriteBE64_u64|apply flat_map_be]. Qed.

Lemma RIPEMD160_hash_of m : RIPEMD160 m = hash_of CRIPEMD160 rmd.compress m.
Proof. apply std_hash_of; [apply rmd_Initialize|apply le_bytes_8_u64|reflexivity]. Qed.

Lemma SHA1_hash_of m : SHA1 m = hash_of CSHA1 fips1.compress m.
Proof. apply std_hash_of; [apply sha1_Initialize|apply WriteBE64_u64|apply flat_map_be]. Qed.

Lemma bytes_flat_map f (s : list Z) : (forall x, bytes (f x)) -> bytes (flat_map f s).
Proof. intros H. apply Forall_flat_map. apply Forall_forall. intros x _. apply H. Qed.

Lemma bytes_sha256 m : bytes (SHA256 m).
Proof. rewrite SHA256_hash_of. apply bytes_flat_map. intros x. apply bytes_rev, bytes_le_bytes. Qed.

Lemma length_sha256 m : length (SHA256 m) = 32%nat.
Proof.
  rewrite SHA256_hash_of. unfold hash_of. cbn [alg_output CSHA256 alg_init].
  assert (H : forall bs s, length s = 8%nat -> length (fold_left fips.compress bs s) = 8%nat).
  { induction bs as [|b bs IH]; intros s Hs; [exact Hs|].
    cbn [fold_left]. apply IH. now rewrite length_compress. }
  rewrite (flat_map_constant_length (c := 4%nat)).
  - rewrite H; reflexivity.
  - intros x _. apply length_WriteBE32.
Qed.

Lemma CHash256_spec h m :
  fed CSHA256 fips.compress (fun s => length s = 8%nat) h m -> bytes m ->
  CHash256.Finalize h = SHA256 (SHA256 m).
Proof.
  intros Hf Hm. unfold CHash256.Finalize.
  destruct (fed_Finalize _ _ _ h m Hf Hm) as [E Hb].
  destruct (Hasher64.Finalize CSHA256 h) as [buf h']. cbn [fst snd] in *. rewrite <- SHA256_hash_of in E. subst buf.
  assert (H0 := fed_Reset CSHA256 fips.compress _ h' Hb).
  assert (H1 := fed_Write _ _ _ _ _ (SHA256 m) H0 (Forall_nil _) (bytes_sha256 m)).
  rewrite (SHA256_hash_of (SHA256 m)). exact (proj1 (fed_Finalize _ _ _ _ _ H1 (bytes_sha256 m))).
Qed.

Lemma HashWriter_spec writes :
  Forall bytes writes -> HashWriter writes = SHA256 (SHA256 (concat writes)).
Proof.
  intros Hw. unfold HashWriter.
  destruct (fed_writes CSHA256 fips.compress _ writes (Hasher64.new CSHA256) []
    (fed_new _ _ _) (Forall_nil _) Hw) as [Hf Hb].
  now apply CHash256_spec.
Qed.

Lemma Hash_spec m : bytes m -> Hash m = SHA256 (SHA256 m).
Proof.
  intros Hm. replace (Hash m) with (HashWriter [m])
    by (unfold Hash, HashWriter; cbn [fold_left]; reflexivity).
  rewrite HashWriter_spec by (now constructor). cbn [concat]. now rewrite app_nil_r.
Qed.

Lemma Hash2_spec m1 m2 : bytes m1 -> bytes m2 -> Hash2 m1 m2 = SHA256 (SHA256 (m1 ++ m2)).
Proof.
  intros H1 H2. replace (Hash2 m1 m2) with (HashWriter [m1; m2])
    by (unfold Hash2, HashWriter; cbn [fold_left]; reflexivity).
  rewrite HashWriter_spec by (now repeat constructor). cbn [concat]. now rewrite app_nil_r.
Qed.

(** C14: streaming is transparent: [CSHA256], [CRIPEMD160] and [CSHA1], fed a message
    in any pieces by any number of [Write] calls and finalized, return the hash
    of the whole message as the standards define it: the message padded with its
    length in bits and cut into 64-byte blocks, the reference compression folded
    over them from the reference initial state, and the last state in bytes.  None
    of the reference is taken from the code. *)
Theorem hasher_streaming chunks :
  Forall bytes chunks ->
  fst (Hasher64.Finalize CSHA256
         (fold_left (Hasher64.Write CSHA256) chunks (Hasher64.new CSHA256)))
    = SHA256 (concat chunks) /\
  fst (Hasher64.Finalize CRIPEMD160
         (fold_left (Hasher64.Write CRIPEMD160) chunks (Hasher64.new CRIPEMD160)))
    = RIPEMD160 (concat chunks) /\
  fst (Hasher64.Finalize CSHA1
         (fold_left (Hasher64.Write CSHA1) chunks (Hasher64.new CSHA1)))
    = SHA1 (concat chunks).
Proof.
  intros Hc. rewrite SHA256_hash_of, RIPEMD160_hash_of, SHA1_hash_of.
  split; [|split]; now apply (streaming _ _ _ chunks).
Qed.

Lemma hasher_streaming_witness :
  fst (Hasher64.Finalize CSHA256 (fold_left (Hasher64.Write CSHA256) [[97]; repeat 98 70; [99; 100]]
    (Hasher64.new CSHA256))) = SHA256 ([97] ++ repeat 98 70 ++ [99; 100]).
Proof.
  assert (H : Forall bytes [[97]; repeat 98 70; [99; 100]])
    by (repeat constructor; unfold is_u8; lia).
  exact (proj1 (hasher_streaming [[97]; repeat 98 70; [99; 100]] H)).
Defined.

(** [CHashWriter] and [Hash] compute the double SHA-256 of everything written,
    [Hash160] the RIPEMD-160 of the SHA-256; reusing the finalized inner hasher
    through [Reset] is sound. *)
Theorem hash_writer_double writes :
  Forall bytes writes ->
  HashWriter writes = SHA256 (SHA256 (concat writes)) /\
  Hash (concat writes) = HashWriter writes /\
  Hash160 (concat writes) = RIPEMD160 (SHA256 (concat writes)).
Proof.
  intros Hw.
  assert (Hc : bytes (concat writes)).
  { induction Hw; cbn; [constructor|]. apply Forall_app. now split. }
  rewrite HashWriter_spec, Hash_spec by assumption. do 2 (split; [reflexivity|]).
  unfold Hash160, CHash160.Finalize, CHash160.Write.
  assert (E := digest_spec CSHA256 fips.compress _ (concat writes) Hc). unfold digest in E.
  destruct (Hasher64.Finalize CSHA256 _) as [buf h']. cbn [fst] in E. rewrite E, <- SHA256_hash_of, RIPEMD160_hash_of.
  apply digest_spec with (ok := fun s => length s = 5%nat); [apply CRIPEMD160_blockwise|].
  apply bytes_sha256.
Qed.

Lemma hash_writer_double_witness :
  HashWriter [[1; 2]; [3]] = SHA256 (SHA256 [1; 2; 3]).
Proof.
  assert (H : Forall bytes [[1; 2]; [3]]) by (repeat constructor; unfold is_u8; lia).
  exact (proj1 (hash_writer_double [[1; 2]; [3]] H)).
Defined.

#[local] Opaque fips.compress.

Lemma SHA256_64 m :
  length m = 64%nat ->
  SHA256 m = sha256.WriteBE32s
    (fips.compress (fips.compress sha256.Initialize m) sha256.padding1).
Proof.
  intros Hm. rewrite SHA256_hash_of. unfold hash_of, padded. rewrite Hm.
  change ([128] ++ _) with sha256.padding1.
  remember sha256.padding1 as p eqn:Ep.
  assert (Hp : length p = 64%nat) by now subst p. clear Ep.
  assert (Hmp : length (m ++ p) = 128%nat) by (rewrite length_app; lia).
  rewrite Hmp. change (128 / 64)%nat with (1 + 1)%nat.
  rewrite parse_blocks_app, fold_left_app by (now rewrite Hm).
  cbn [parse_blocks fold_left]. rewrite (firstn_all2 m), (firstn_all2 p) by lia. reflexivity.
Qed.

Lemma SHA256_32 m :
  length m = 32%nat ->
  SHA256 m = sha256.WriteBE32s
    (fips.compress sha256.Initialize (m ++ [128] ++ repeat 0 29 ++ [1; 0])).
Proof.
  intros Hm. rewrite SHA256_hash_of. unfold hash_of, padded. rewrite Hm.
  change ([128] ++ repeat 0 _ ++ alg_sizedesc _ _) with ([128] ++ repeat 0 29 ++ [1; 0]).
  remember ([128] ++ repeat 0 29 ++ [1; 0]) as p eqn:Ep.
  assert (Hp : length p = 32%nat) by now subst p. clear Ep.
  assert (Hmp : length (m ++ p) = 64%nat) by (rewrite length_app; lia).
  rewrite Hmp. change (64 / 64)%nat with 1%nat.
  cbn [parse_blocks fold_left]. rewrite (firstn_all2 (m ++ p)) by lia. reflexivity.
Qed.

Lemma TransformD64_Hash m :
  bytes m -> length m = 64%nat -> sha256.TransformD64 m = Hash m.
Proof.
  intros Hb Hm. rewrite TransformD64_wrapper, Hash_spec by assumption.
  unfold sha256.TransformD64Wrapper.
  rewrite (SHA256_32 (SHA256 m)) by apply length_sha256.
  rewrite (SHA256_64 m) by assumption. cbn [sha256.Transform].
  rewrite (Transform1_compress sha256.Initialize m) by (assumption || reflexivity).
  assert (Hl := length_compress sha256.Initialize m).
  remember (fips.compress sha256.Initialize m) as t eqn:Et. clear Et.
  rewrite (Transform1_compress t sha256.padding1);
    [|unfold sha256.padding1; bytes_concrete|exact Hl].
  remember (fips.compress t sha256.padding1) as d eqn:Ed. clear Ed.
  rewrite Transform1_compress; [reflexivity| |reflexivity].
  apply Forall_app. split; [apply bytes_WriteBE32s|bytes_concrete].
Qed.

(** [SHA256D64], the routine that hashes the pairs of a level of a Merkle tree,
    writes for every 64-byte block of its input the double SHA-256 that [Hash]
    computes through the streaming hasher. *)
Theorem sha256d64_blocks m n :
  bytes m -> length m = (64 * n)%nat ->
  sha256.SHA256D64 m n = flat_map Hash (parse_blocks n m).
Proof.
  revert m. induction n as [|n IH]; intros m Hb Hm; [reflexivity|].
  cbn [sha256.SHA256D64 parse_blocks flat_map]. f_equal.
  - rewrite <- TransformD64_Hash; [|apply Forall_firstn, Hb|rewrite length_firstn; lia].
    rewrite !TransformD64_words by (assumption || apply Forall_firstn, Hb).
    now rewrite block_words_firstn.
  - apply IH; [apply Forall_skipn, Hb|]. rewrite length_skipn. lia.
Qed.

Lemma sha256d64_blocks_witness :
  sha256.SHA256D64 (repeat 7 128) 2 = flat_map Hash (parse_blocks 2 (repeat 7 128)).
Proof. apply sha256d64_blocks; [bytes_concrete|reflexivity]. Defined.

End Properties.

(** ** The size of a digest *)
Section Sizes.

Definition keeps_length (a : hash_alg) (k : nat) : Prop :=
  length (alg_init a) = k /\
  forall s data n, length s = k -> length (alg_transform a s data n) = k.

Lemma length_Write a k h data :
  keeps_length a k -> length (h_s h) = k -> length (h_s (Hasher64.Write a h data)) = k.
Proof.
  intros [_ Ht] Hh. unfold Hasher64.Write, Hasher64.fill.
  destruct (negb _ && _)%bool;
    match goal with |- context [match ?d with [] => _ | _ => _ end] => destruct d end;
    cbn [h_s]; destruct (64 <=? _)%nat; cbn [h_s]; auto.
Qed.

Lemma length_Finalize a k h :
  keeps_length a k -> length (h_s h) = k ->
  length (h_s (snd (Hasher64.Finalize a h))) = k /\
  exists s, fst (Hasher64.Finalize a h) = alg_output a s /\ length s = k.
Proof.
  intros Ha Hh. unfold Hasher64.Finalize. cbn [fst snd].
  split; [|eexists; split; [reflexivity|]];
    (apply length_Write; [exact Ha|]; now apply length_Write).
Qed.

Lemma sha256_keeps_length : keeps_length CSHA256 8.
Proof.
  split; [reflexivity|]. intros s data n. cbn. revert s data.
  induction n as [|n IH]; intros s data Hs; [exact Hs|]. cbn [sha256.Transform]. apply IH.
  unfold sha256.Transform1, sha256.add_words. rewrite length_map, length_combine, Hs.
  enough (H : forall ls r w, length (fst (sha256.run data ls r w)) = length r) by (rewrite H; lia).
  induction ls as [|[[o k] e] ls IHl]; intros r w; [reflexivity|]. cbn [sha256.run].
  destruct (sha256.eval_rhs data w e) as [w' v]. rewrite IHl.
  unfold sha256.Round_at. destruct (sha256.Round _ _ _ _ _ _ _ _ _). now rewrite !length_upd.
Qed.

Lemma each_block_keeps tr k s data n :
  (forall s d, length s = k -> length (tr s d) = k) ->
  length s = k -> length (each_block tr s data n) = k.
Proof.
  intros H. revert s data. induction n as [|n IH]; intros s data Hs; [exact Hs|].
  cbn [each_block]. apply IH. now apply H.
Qed.

Lemma ripemd160_keeps_length : keeps_length CRIPEMD160 5.
Proof.
  split; [reflexivity|]. intros s data n Hs. apply each_block_keeps; [|exact Hs].
  intros. apply length_Transform.
Qed.

Lemma sha1_keeps_length : keeps_length CSHA1 5.
Proof.
  split; [reflexivity|]. intros s data n Hs. apply each_block_keeps; [|exact Hs].
  intros s' d Hs'. now apply sha1_block.
Qed.

Lemma length_words (f : Z -> list Z) (s : list Z) :
  (forall x, length (f x) = 4%nat) -> length (flat_map f s) = (4 * length s)%nat.
Proof.
  intros H. induction s as [|x s IH]; [reflexivity|].
  cbn [flat_map length]. rewrite length_app, H, IH. lia.
Qed.

Lemma length_digest a k m :
  keeps_length a k -> (forall s, length s = k -> length (alg_output a s) = (4 * k)%nat) ->
  length (digest a m) = (4 * k)%nat.
Proof.
  intros Ha Ho. unfold digest.
  destruct (length_Finalize a k (Hasher64.Write a (Hasher64.new a) m) Ha) as [_ (s & -> & Hs)].
  - apply length_Write; [exact Ha|]. exact (proj1 Ha).
  - now apply Ho.
Qed.

Lemma length_digest_sha256 m : length (digest CSHA256 m) = 32%nat.
Proof.
  apply (length_digest CSHA256 8 m sha256_keeps_length). intros s Hs. cbn [alg_output CSHA256].
  rewrite length_words, Hs; [reflexivity|]. intros. apply length_WriteBE32.
Qed.

Lemma length_digest_ripemd160 m : length (digest CRIPEMD160 m) = 20%nat.
Proof.
  apply (length_digest CRIPEMD160 5 m ripemd160_keeps_length). intros s Hs.
  cbn [alg_output CRIPEMD160]. rewrite length_words, Hs; [reflexivity|].
  intros. apply length_le_bytes.
Qed.

Lemma length_digest_sha1 m : length (digest CSHA1 m) = 20%nat.
Proof.
  apply (length_digest CSHA1 5 m sha1_keeps_length). intros s Hs. cbn [alg_output CSHA1].
  rewrite length_words, Hs; [reflexivity|]. intros. apply length_WriteBE32.
Qed.

Lemma length_Hash160 m : length (Hash160 m) = 20%nat.
Proof.
  unfold Hash160, CHash160.Finalize. destruct (Hasher64.Finalize _ _). apply length_digest_ripemd160.
Qed.

Lemma length_CHash256 h : length (h_s h) = 8%nat -> length (CHash256.Finalize h) = 32%nat.
Proof.
  intros Hh. unfold CHash256.Finalize.
  destruct (Hasher64.Finalize CSHA256 h) as [buf h'].
  match goal with |- context [Hasher64.Finalize CSHA256 ?x] =>
    destruct (length_Finalize CSHA256 8 x sha256_keeps_length) as [_ (s & -> & Hs)] end.
  - apply length_Write; [apply sha256_keeps_length|reflexivity].
  - cbn [alg_output CSHA256]. rewrite length_words, Hs; [reflexivity|].
    intros. apply length_WriteBE32.
Qed.

Lemma length_Hash m : length (Hash m) = 32%nat.
Proof.
  apply length_CHash256. apply length_Write; [apply sha256_keeps_length|reflexivity].
Qed.

Lemma length_HashWriter ws : length (HashWriter ws) = 32%nat.
Proof.
  apply length_CHash256.
  assert (H : forall h, length (h_s h) = 8%nat ->
    length (h_s (fold_left CHash256.Write ws h)) = 8%nat).
  { induction ws as [|d ws IH]; intros h Hh; [exact Hh|]. cbn [fold_left]. apply IH.
    apply length_Write; [apply sha256_keeps_length|exact Hh]. }
  now apply H.
Qed.

End Sizes.
