(* ===== verification/Interpreter.v ===== *)
(** * The script interpreter: [src/src/script/interpreter.cpp]

    [EvalScript] and [VerifyScript], with the signature and key encodings they
    enforce.  The stack is the list of its elements with the top first
    ([stacktop(-1)] is the head), and so is [vfExec].  [serror] is the error of
    the failing outcome; the stack that a failed evaluation leaves behind is
    discarded by every caller and is not modelled.  Exceptions inside the
    evaluation loop (a [CScriptNum] that is too long or not minimal, an access
    outside the stack) end it with [SCRIPT_ERR_UNKNOWN_ERROR], as the handler
    around the loop does.

    The signature checker is an argument, as in the code; the checkers of
    transactions are in [Sighash].  [CPubKey::CheckLowS], which is libsecp256k1,
    is a parameter. *)
From Stdlib Require Import ZArith Lia List Bool.
From S2P Require Import Prelude Script Hash.
Import ListNotations.

(** ** Errors, flags and checkers *)

Inductive ScriptError : Set :=
| SCRIPT_ERR_OK
| SCRIPT_ERR_UNKNOWN_ERROR
| SCRIPT_ERR_EVAL_FALSE
| SCRIPT_ERR_OP_RETURN
| SCRIPT_ERR_SCRIPT_SIZE
| SCRIPT_ERR_PUSH_SIZE
| SCRIPT_ERR_OP_COUNT
| SCRIPT_ERR_STACK_SIZE
| SCRIPT_ERR_SIG_COUNT
| SCRIPT_ERR_PUBKEY_COUNT
| SCRIPT_ERR_VERIFY
| SCRIPT_ERR_EQUALVERIFY
| SCRIPT_ERR_CHECKMULTISIGVERIFY
| SCRIPT_ERR_CHECKSIGVERIFY
| SCRIPT_ERR_NUMEQUALVERIFY
| SCRIPT_ERR_BAD_OPCODE
| SCRIPT_ERR_DISABLED_OPCODE
| SCRIPT_ERR_INVALID_STACK_OPERATION
| SCRIPT_ERR_INVALID_ALTSTACK_OPERATION
| SCRIPT_ERR_UNBALANCED_CONDITIONAL
| SCRIPT_ERR_NEGATIVE_LOCKTIME
| SCRIPT_ERR_UNSATISFIED_LOCKTIME
| SCRIPT_ERR_SIG_HASHTYPE
| SCRIPT_ERR_SIG_DER
| SCRIPT_ERR_MINIMALDATA
| SCRIPT_ERR_SIG_PUSHONLY
| SCRIPT_ERR_SIG_HIGH_S
| SCRIPT_ERR_SIG_NULLDUMMY
| SCRIPT_ERR_PUBKEYTYPE
| SCRIPT_ERR_CLEANSTACK
| SCRIPT_ERR_MINIMALIF
| SCRIPT_ERR_SIG_NULLFAIL
| SCRIPT_ERR_DISCOURAGE_UPGRADABLE_NOPS
| SCRIPT_ERR_DISCOURAGE_UPGRADABLE_WITNESS_PROGRAM
| SCRIPT_ERR_WITNESS_PROGRAM_WRONG_LENGTH
| SCRIPT_ERR_WITNESS_PROGRAM_WITNESS_EMPTY
| SCRIPT_ERR_WITNESS_PROGRAM_MISMATCH
| SCRIPT_ERR_WITNESS_MALLEATED
| SCRIPT_ERR_WITNESS_MALLEATED_P2SH
| SCRIPT_ERR_WITNESS_UNEXPECTED
| SCRIPT_ERR_WITNESS_PUBKEYTYPE
| SCRIPT_ERR_OP_CODESEPARATOR
| SCRIPT_ERR_SIG_FINDANDDELETE.

Definition SIGHASH_ALL : Z := 1.
Definition SIGHASH_NONE : Z := 2.
Definition SIGHASH_SINGLE : Z := 3.
Definition SIGHASH_ANYONECANPAY : Z := 128.

(** The verification flags, by the number of their bit. *)
Definition SCRIPT_VERIFY_P2SH : Z := 0.
Definition SCRIPT_VERIFY_STRICTENC : Z := 1.
Definition SCRIPT_VERIFY_DERSIG : Z := 2.
Definition SCRIPT_VERIFY_LOW_S : Z := 3.
Definition SCRIPT_VERIFY_NULLDUMMY : Z := 4.
Definition SCRIPT_VERIFY_SIGPUSHONLY : Z := 5.
Definition SCRIPT_VERIFY_MINIMALDATA : Z := 6.
Definition SCRIPT_VERIFY_DISCOURAGE_UPGRADABLE_NOPS : Z := 7.
Definition SCRIPT_VERIFY_CLEANSTACK : Z := 8.
Definition SCRIPT_VERIFY_CHECKLOCKTIMEVERIFY : Z := 9.
Definition SCRIPT_VERIFY_CHECKSEQUENCEVERIFY : Z := 10.
Definition SCRIPT_VERIFY_WITNESS : Z := 11.
Definition SCRIPT_VERIFY_DISCOURAGE_UPGRADABLE_WITNESS_PROGRAM : Z := 12.
Definition SCRIPT_VERIFY_MINIMALIF : Z := 13.
Definition SCRIPT_VERIFY_NULLFAIL : Z := 14.
Definition SCRIPT_VERIFY_WITNESS_PUBKEYTYPE : Z := 15.
Definition SCRIPT_VERIFY_CONST_SCRIPTCODE : Z := 16.
Definition SCRIPT_OUTPUT_SENDER : Z := 29.
Definition SCRIPT_EXEC_BYTE_CODE : Z := 30.

(** [flags & (1U << bit)]. *)
Definition has (flags bit : Z) : bool := Z.testbit flags bit.

Inductive SigVersion : Set := BASE | WITNESS_V0.

Definition is_base (v : SigVersion) : bool := match v with BASE => true | _ => false end.
Definition is_witness_v0 (v : SigVersion) : bool := match v with WITNESS_V0 => true | _ => false end.

(** [BaseSignatureChecker]: signature, public key, script code, version. *)
Record SignatureChecker : Type := {
  CheckSig : list Z -> list Z -> list Z -> SigVersion -> bool;
  CheckLockTime : Z -> bool;
  CheckSequence : Z -> bool }.

Definition BaseSignatureChecker : SignatureChecker := {|
  CheckSig := fun _ _ _ _ => false;
  CheckLockTime := fun _ => false;
  CheckSequence := fun _ => false |}.

Definition COMPRESSED_PUBLIC_KEY_SIZE : Z := 33.
Definition PUBLIC_KEY_SIZE : Z := 65.
Definition WITNESS_V0_SCRIPTHASH_SIZE : Z := 32.
Definition WITNESS_V0_KEYHASH_SIZE : Z := 20.
Definition SEQUENCE_LOCKTIME_DISABLE_FLAG : Z := 2 ^ 31.

(** ** Encodings *)

Definition CastToBool (vch : list Z) : bool :=
  (fix go (l : list Z) : bool :=
     match l with
     | [] => false
     | b :: l' => if negb (b =? 0) then negb (match l' with [] => b =? 128 | _ => false end) else go l'
     end) vch.

Definition IsCompressedOrUncompressedPubKey (vchPubKey : list Z) : bool :=
  if size vchPubKey <? COMPRESSED_PUBLIC_KEY_SIZE then false
  else if nth 0 vchPubKey 0 =? 4 then size vchPubKey =? PUBLIC_KEY_SIZE
  else if ((nth 0 vchPubKey 0 =? 2) || (nth 0 vchPubKey 0 =? 3))%bool
  then size vchPubKey =? COMPRESSED_PUBLIC_KEY_SIZE
  else false.

Definition IsCompressedPubKey (vchPubKey : list Z) : bool :=
  if negb (size vchPubKey =? COMPRESSED_PUBLIC_KEY_SIZE) then false
  else ((nth 0 vchPubKey 0 =? 2) || (nth 0 vchPubKey 0 =? 3))%bool.

(** [sig[i]] at an unsigned index. *)
Definition sig_at (sig : list Z) (i : Z) : Z := nth (Z.to_nat i) sig 0.

Definition IsValidSignatureEncoding (sig : list Z) (haveHashType : bool) : bool :=
  if size sig <? 9 then false
  else if 73 <? size sig then false
  else if negb (sig_at sig 0 =? 48) then false
  else if negb (sig_at sig 1 =? size sig - (if haveHashType then 3 else 2)) then false
  else
    let lenR := sig_at sig 3 in
    if size sig <=? 5 + lenR then false
    else
      let lenS := sig_at sig (5 + lenR) in
      if negb (lenR + lenS + (if haveHashType then 7 else 6) =? size sig) then false
      else if negb (sig_at sig 2 =? 2) then false
      else if lenR =? 0 then false
      else if negb (Z.land (sig_at sig 4) 128 =? 0) then false
      else if ((1 <? lenR) && (sig_at sig 4 =? 0) && (Z.land (sig_at sig 5) 128 =? 0))%bool then false
      else if negb (sig_at sig (lenR + 4) =? 2) then false
      else if lenS =? 0 then false
      else if negb (Z.land (sig_at sig (lenR + 6)) 128 =? 0) then false
      else if ((1 <? lenS) && (sig_at sig (lenR + 6) =? 0)
               && (Z.land (sig_at sig (lenR + 7)) 128 =? 0))%bool then false
      else true.

Definition IsDefinedHashtypeSignature (vchSig : list Z) : bool :=
  match vchSig with
  | [] => false
  | _ =>
      let nHashType := u8 (Z.land (back vchSig) (Z.lnot SIGHASH_ANYONECANPAY)) in
      negb ((nHashType <? SIGHASH_ALL) || (SIGHASH_SINGLE <? nHashType))%bool
  end.

Definition CheckMinimalPush (data : list Z) (opcode : Z) : bool :=
  if size data =? 0 then opcode =? OP_0
  else if ((size data =? 1) && (1 <=? nth 0 data 0) && (nth 0 data 0 <=? 16))%bool then false
  else if ((size data =? 1) && (nth 0 data 0 =? 129))%bool then false
  else if size data <=? 75 then opcode =? size data
  else if size data <=? 255 then opcode =? OP_PUSHDATA1
  else if size data <=? 65535 then opcode =? OP_PUSHDATA2
  else true.

(** [size(end - pc) >= b.size() && std::equal(b.begin(), b.end(), pc)]. *)
Definition starts_with (b pc : list Z) : bool :=
  ((size b <=? size pc)
   && (if list_eq_dec Z.eq_dec (firstn (length b) pc) b then true else false))%bool.

(** The inner loop of [FindAndDelete]: skips copies of [b]. *)
Fixpoint skip_matches (fuel : nat) (b pc : list Z) (nFound : Z) : list Z * Z :=
  match fuel with
  | O => (pc, nFound)
  | S fuel' =>
      if starts_with b pc then skip_matches fuel' b (skipn (length b) pc) (nFound + 1)
      else (pc, nFound)
  end.

(** The outer loop, from the iterators [pc2] and [pc] on; a [GetOp] ends it. *)
Fixpoint find_and_delete (fuel : nat) (b pc2 pc result : list Z) (nFound : Z)
  : list Z * list Z * Z :=
  let result := result ++ firstn (length pc2 - length pc) pc2 in
  let '(pc, nFound) := skip_matches (length pc) b pc nFound in
  match Scr.GetScriptOp pc, fuel with
  | Some (pc', _, _), S fuel' => find_and_delete fuel' b pc pc' result nFound
  | _, _ => (result, pc, nFound)
  end.

(** The new script and the number of deletions. *)
Definition FindAndDelete (script b : list Z) : list Z * Z :=
  match b with
  | [] => (script, 0)
  | _ =>
      let '(result, pc2, nFound) := find_and_delete (length script) b script script [] 0 in
      if 0 <? nFound then (result ++ pc2, nFound) else (script, nFound)
  end.

(** ** The evaluation loop *)

(** The local state of [EvalScript]. *)
Record eval_state : Type := EvalState {
  stack : list (list Z);
  altstack : list (list Z);
  vfExec : list bool;
  nOpCount : Z;
  pbegincodehash : list Z }.

Definition set_stack (st : eval_state) (s : list (list Z)) : eval_state :=
  EvalState s (altstack st) (vfExec st) (nOpCount st) (pbegincodehash st).
Definition set_altstack (st : eval_state) (s : list (list Z)) : eval_state :=
  EvalState (stack st) s (vfExec st) (nOpCount st) (pbegincodehash st).
Definition set_vfExec (st : eval_state) (v : list bool) : eval_state :=
  EvalState (stack st) (altstack st) v (nOpCount st) (pbegincodehash st).
Definition set_nOpCount (st : eval_state) (n : Z) : eval_state :=
  EvalState (stack st) (altstack st) (vfExec st) n (pbegincodehash st).
Definition set_codehash (st : eval_state) (pc : list Z) : eval_state :=
  EvalState (stack st) (altstack st) (vfExec st) (nOpCount st) pc.

(** What an operation does: go on, [return true] with a stack, or [return false]
    with an error. *)
Inductive outcome : Type :=
| Next (st : eval_state)
| Return (s : list (list Z))
| Err (e : ScriptError).

Definition vchFalse : list Z := [].
Definition vchTrue : list Z := [1].
Definition vch_of_bool (b : bool) : list Z := if b then vchTrue else vchFalse.
Definition num_of_bool (b : bool) : Z := if b then 1 else 0.

(** [CScriptNum(vch, fRequireMinimal, nMaxNumSize)] in the loop. *)
Definition with_num (vch : list Z) (fMin : bool) (n : Z) (k : Z -> outcome) : outcome :=
  match Num.of_vch vch fMin n with
  | Some bn => k bn
  | None => Err SCRIPT_ERR_UNKNOWN_ERROR
  end.

Section Eval.
Context (CheckLowS : list Z -> bool) (checker : SignatureChecker) (flags : Z)
  (sigversion : SigVersion).

Definition fRequireMinimal : bool := has flags SCRIPT_VERIFY_MINIMALDATA.

(** [IsLowDERSignature]; [None] where it returns [true]. *)
Definition IsLowDERSignature (vchSig : list Z) (haveHashType : bool) : option ScriptError :=
  if negb (IsValidSignatureEncoding vchSig haveHashType) then Some SCRIPT_ERR_SIG_DER
  else
    let vchSigCopy := firstn (length vchSig - (if haveHashType then 1 else 0)) vchSig in
    if negb (CheckLowS vchSigCopy) then Some SCRIPT_ERR_SIG_HIGH_S else None.

Definition CheckSignatureEncoding (vchSig : list Z) : option ScriptError :=
  match vchSig with
  | [] => None
  | _ =>
      if ((has flags SCRIPT_VERIFY_DERSIG || has flags SCRIPT_VERIFY_LOW_S
           || has flags SCRIPT_VERIFY_STRICTENC) && negb (IsValidSignatureEncoding vchSig true))%bool
      then Some SCRIPT_ERR_SIG_DER
      else
        match (if has flags SCRIPT_VERIFY_LOW_S then IsLowDERSignature vchSig true else None) with
        | Some e => Some e
        | None =>
            if (has flags SCRIPT_VERIFY_STRICTENC && negb (IsDefinedHashtypeSignature vchSig))%bool
            then Some SCRIPT_ERR_SIG_HASHTYPE else None
        end
  end.

Definition CheckPubKeyEncoding (vchPubKey : list Z) : option ScriptError :=
  if (has flags SCRIPT_VERIFY_STRICTENC && negb (IsCompressedOrUncompressedPubKey vchPubKey))%bool
  then Some SCRIPT_ERR_PUBKEYTYPE
  else if (has flags SCRIPT_VERIFY_WITNESS_PUBKEYTYPE && is_witness_v0 sigversion
           && negb (IsCompressedPubKey vchPubKey))%bool
  then Some SCRIPT_ERR_WITNESS_PUBKEYTYPE
  else None.

(** [!CheckSignatureEncoding(..) || !CheckPubKeyEncoding(..)]. *)
Definition CheckEncodings (vchSig vchPubKey : list Z) : option ScriptError :=
  match CheckSignatureEncoding vchSig with
  | Some e => Some e
  | None => CheckPubKeyEncoding vchPubKey
  end.

(** *** Control *)

Definition op_push_number (opcode : Z) (st : eval_state) : outcome :=
  Next (set_stack st (Num.getvch (opcode - (OP_1 - 1)) :: stack st)).

Definition op_checklocktimeverify (st : eval_state) : outcome :=
  if negb (has flags SCRIPT_VERIFY_CHECKLOCKTIMEVERIFY) then Next st
  else match stack st with
       | [] => Err SCRIPT_ERR_INVALID_STACK_OPERATION
       | top :: _ =>
           with_num top fRequireMinimal 5 (fun nLockTime =>
             if nLockTime <? 0 then Err SCRIPT_ERR_NEGATIVE_LOCKTIME
             else if negb (CheckLockTime checker nLockTime) then Err SCRIPT_ERR_UNSATISFIED_LOCKTIME
             else Next st)
       end.

Definition op_checksequenceverify (st : eval_state) : outcome :=
  if negb (has flags SCRIPT_VERIFY_CHECKSEQUENCEVERIFY) then Next st
  else match stack st with
       | [] => Err SCRIPT_ERR_INVALID_STACK_OPERATION
       | top :: _ =>
           with_num top fRequireMinimal 5 (fun nSequence =>
             if nSequence <? 0 then Err SCRIPT_ERR_NEGATIVE_LOCKTIME
             else if negb (Z.land nSequence SEQUENCE_LOCKTIME_DISABLE_FLAG =? 0) then Next st
             else if negb (CheckSequence checker nSequence) then Err SCRIPT_ERR_UNSATISFIED_LOCKTIME
             else Next st)
       end.

Definition op_nop (st : eval_state) : outcome :=
  if has flags SCRIPT_VERIFY_DISCOURAGE_UPGRADABLE_NOPS
  then Err SCRIPT_ERR_DISCOURAGE_UPGRADABLE_NOPS else Next st.

Definition op_if (opcode : Z) (fExec : bool) (st : eval_state) : outcome :=
  if fExec then
    match stack st with
    | [] => Err SCRIPT_ERR_UNBALANCED_CONDITIONAL
    | vch :: s =>
        if (is_witness_v0 sigversion && has flags SCRIPT_VERIFY_MINIMALIF
            && ((1 <? size vch) || ((size vch =? 1) && negb (nth 0 vch 0 =? 1))))%bool
        then Err SCRIPT_ERR_MINIMALIF
        else
          let fValue := CastToBool vch in
          let fValue := if opcode =? OP_NOTIF then negb fValue else fValue in
          Next (set_vfExec (set_stack st s) (fValue :: vfExec st))
    end
  else Next (set_vfExec st (false :: vfExec st)).

Definition op_else (st : eval_state) : outcome :=
  match vfExec st with
  | [] => Err SCRIPT_ERR_UNBALANCED_CONDITIONAL
  | b :: v => Next (set_vfExec st (negb b :: v))
  end.

Definition op_endif (st : eval_state) : outcome :=
  match vfExec st with
  | [] => Err SCRIPT_ERR_UNBALANCED_CONDITIONAL
  | _ :: v => Next (set_vfExec st v)
  end.

Definition op_verify (st : eval_state) : outcome :=
  match stack st with
  | [] => Err SCRIPT_ERR_INVALID_STACK_OPERATION
  | top :: s => if CastToBool top then Next (set_stack st s) else Err SCRIPT_ERR_VERIFY
  end.

(** *** Stack operations *)

Definition op_toaltstack (st : eval_state) : outcome :=
  match stack st with
  | [] => Err SCRIPT_ERR_INVALID_STACK_OPERATION
  | top :: s => Next (set_altstack (set_stack st s) (top :: altstack st))
  end.

Definition op_fromaltstack (st : eval_state) : outcome :=
  match altstack st with
  | [] => Err SCRIPT_ERR_INVALID_ALTSTACK_OPERATION
  | top :: s => Next (set_altstack (set_stack st (top :: stack st)) s)
  end.

(** The operations that only rearrange the stack, from [OP_2DROP] to [OP_TUCK]
    without [OP_PICK] and [OP_ROLL]; [None] where the stack is too small. *)
Definition rearrange (opcode : Z) (s : list (list Z)) : option (list (list Z)) :=
  if opcode =? OP_2DROP then
    match s with x2 :: x1 :: s => Some s | _ => None end
  else if opcode =? OP_2DUP then
    match s with x2 :: x1 :: s => Some (x2 :: x1 :: x2 :: x1 :: s) | _ => None end
  else if opcode =? OP_3DUP then
    match s with x3 :: x2 :: x1 :: s => Some (x3 :: x2 :: x1 :: x3 :: x2 :: x1 :: s) | _ => None end
  else if opcode =? OP_2OVER then
    match s with
    | x4 :: x3 :: x2 :: x1 :: s => Some (x2 :: x1 :: x4 :: x3 :: x2 :: x1 :: s)
    | _ => None
    end
  else if opcode =? OP_2ROT then
    match s with
    | x6 :: x5 :: x4 :: x3 :: x2 :: x1 :: s => Some (x2 :: x1 :: x6 :: x5 :: x4 :: x3 :: s)
    | _ => None
    end
  else if opcode =? OP_2SWAP then
    match s with
    | x4 :: x3 :: x2 :: x1 :: s => Some (x2 :: x1 :: x4 :: x3 :: s)
    | _ => None
    end
  else if opcode =? OP_IFDUP then
    match s with x :: s => Some (if CastToBool x then x :: x :: s else x :: s) | _ => None end
  else if opcode =? OP_DEPTH then Some (Num.getvch (size s) :: s)
  else if opcode =? OP_DROP then
    match s with x :: s => Some s | _ => None end
  else if opcode =? OP_DUP then
    match s with x :: s => Some (x :: x :: s) | _ => None end
  else if opcode =? OP_NIP then
    match s with x2 :: x1 :: s => Some (x2 :: s) | _ => None end
  else if opcode =? OP_OVER then
    match s with x2 :: x1 :: s => Some (x1 :: x2 :: x1 :: s) | _ => None end
  else if opcode =? OP_ROT then
    match s with x3 :: x2 :: x1 :: s => Some (x1 :: x3 :: x2 :: s) | _ => None end
  else if opcode =? OP_SWAP then
    match s with x2 :: x1 :: s => Some (x1 :: x2 :: s) | _ => None end
  else if opcode =? OP_TUCK then
    match s with x2 :: x1 :: s => Some (x2 :: x1 :: x2 :: s) | _ => None end
  else None.

Definition op_rearrange (opcode : Z) (st : eval_state) : outcome :=
  match rearrange opcode (stack st) with
  | Some s => Next (set_stack st s)
  | None => Err SCRIPT_ERR_INVALID_STACK_OPERATION
  end.

Definition op_pick_roll (opcode : Z) (st : eval_state) : outcome :=
  match stack st with
  | top :: ((_ :: _) as s) =>
      with_num top fRequireMinimal Num.nDefaultMaxNumSize (fun bn =>
        let n := Num.getint bn in
        if ((n <? 0) || (size s <=? n))%bool then Err SCRIPT_ERR_INVALID_STACK_OPERATION
        else
          let i := Z.to_nat n in
          let vch := nth i s [] in
          let s := if opcode =? OP_ROLL then firstn i s ++ skipn (S i) s else s in
          Next (set_stack st (vch :: s)))
  | _ => Err SCRIPT_ERR_INVALID_STACK_OPERATION
  end.

Definition op_size (st : eval_state) : outcome :=
  match stack st with
  | [] => Err SCRIPT_ERR_INVALID_STACK_OPERATION
  | top :: s => Next (set_stack st (Num.getvch (size top) :: top :: s))
  end.

(** *** Comparison and arithmetic *)

Definition op_equal (opcode : Z) (st : eval_state) : outcome :=
  match stack st with
  | vch2 :: vch1 :: s =>
      let fEqual := if list_eq_dec Z.eq_dec vch1 vch2 then true else false in
      if opcode =? OP_EQUALVERIFY then
        if fEqual then Next (set_stack st s) else Err SCRIPT_ERR_EQUALVERIFY
      else Next (set_stack st (vch_of_bool fEqual :: s))
  | _ => Err SCRIPT_ERR_INVALID_STACK_OPERATION
  end.

Definition unary (opcode bn : Z) : Z :=
  if opcode =? OP_1ADD then bn + 1
  else if opcode =? OP_1SUB then bn - 1
  else if opcode =? OP_NEGATE then - bn
  else if opcode =? OP_ABS then (if bn <? 0 then - bn else bn)
  else if opcode =? OP_NOT then num_of_bool (bn =? 0)
  else num_of_bool (negb (bn =? 0)).

Definition op_unary (opcode : Z) (st : eval_state) : outcome :=
  match stack st with
  | [] => Err SCRIPT_ERR_INVALID_STACK_OPERATION
  | top :: s =>
      with_num top fRequireMinimal Num.nDefaultMaxNumSize (fun bn =>
        Next (set_stack st (Num.getvch (unary opcode bn) :: s)))
  end.

Definition binary (opcode bn1 bn2 : Z) : Z :=
  if opcode =? OP_ADD then bn1 + bn2
  else if opcode =? OP_SUB then bn1 - bn2
  else if opcode =? OP_BOOLAND then num_of_bool (negb (bn1 =? 0) && negb (bn2 =? 0))%bool
  else if opcode =? OP_BOOLOR then num_of_bool (negb (bn1 =? 0) || negb (bn2 =? 0))%bool
  else if opcode =? OP_NUMEQUAL then num_of_bool (bn1 =? bn2)
  else if opcode =? OP_NUMEQUALVERIFY then num_of_bool (bn1 =? bn2)
  else if opcode =? OP_NUMNOTEQUAL then num_of_bool (negb (bn1 =? bn2))
  else if opcode =? OP_LESSTHAN then num_of_bool (bn1 <? bn2)
  else if opcode =? OP_GREATERTHAN then num_of_bool (bn2 <? bn1)
  else if opcode =? OP_LESSTHANOREQUAL then num_of_bool (bn1 <=? bn2)
  else if opcode =? OP_GREATERTHANOREQUAL then num_of_bool (bn2 <=? bn1)
  else if opcode =? OP_MIN then (if bn1 <? bn2 then bn1 else bn2)
  else (if bn2 <? bn1 then bn1 else bn2).

Definition op_binary (opcode : Z) (st : eval_state) : outcome :=
  match stack st with
  | x2 :: x1 :: s =>
      with_num x1 fRequireMinimal Num.nDefaultMaxNumSize (fun bn1 =>
      with_num x2 fRequireMinimal Num.nDefaultMaxNumSize (fun bn2 =>
        let vch := Num.getvch (binary opcode bn1 bn2) in
        if opcode =? OP_NUMEQUALVERIFY then
          if CastToBool vch then Next (set_stack st s) else Err SCRIPT_ERR_NUMEQUALVERIFY
        else Next (set_stack st (vch :: s))))
  | _ => Err SCRIPT_ERR_INVALID_STACK_OPERATION
  end.

Definition op_within (st : eval_state) : outcome :=
  match stack st with
  | x3 :: x2 :: x1 :: s =>
      with_num x1 fRequireMinimal Num.nDefaultMaxNumSize (fun bn1 =>
      with_num x2 fRequireMinimal Num.nDefaultMaxNumSize (fun bn2 =>
      with_num x3 fRequireMinimal Num.nDefaultMaxNumSize (fun bn3 =>
        Next (set_stack st (vch_of_bool ((bn2 <=? bn1) && (bn1 <? bn3))%bool :: s)))))
  | _ => Err SCRIPT_ERR_INVALID_STACK_OPERATION
  end.

(** *** Hashes and signatures *)

Definition op_hash (opcode : Z) (st : eval_state) : outcome :=
  match stack st with
  | [] => Err SCRIPT_ERR_INVALID_STACK_OPERATION
  | vch :: s =>
      let vchHash :=
        if opcode =? OP_RIPEMD160 then digest CRIPEMD160 vch
        else if opcode =? OP_SHA1 then digest CSHA1 vch
        else if opcode =? OP_SHA256 then digest CSHA256 vch
        else if opcode =? OP_HASH160 then Hash160 vch
        else Hash vch in
      Next (set_stack st (vchHash :: s))
  end.

(** "Drop the signature in pre-segwit scripts": the script code, or an error. *)
Definition drop_signature (scriptCode vchSig : list Z) : list Z + ScriptError :=
  if is_base sigversion then
    let '(scriptCode, found) := FindAndDelete scriptCode (Scr.push_vch [] vchSig) in
    if ((0 <? found) && has flags SCRIPT_VERIFY_CONST_SCRIPTCODE)%bool
    then inr SCRIPT_ERR_SIG_FINDANDDELETE
    else inl scriptCode
  else inl scriptCode.

Definition op_checksig (opcode : Z) (st : eval_state) : outcome :=
  match stack st with
  | vchPubKey :: vchSig :: s =>
      match drop_signature (pbegincodehash st) vchSig with
      | inr e => Err e
      | inl scriptCode =>
          match CheckEncodings vchSig vchPubKey with
          | Some e => Err e
          | None =>
              let fSuccess := CheckSig checker vchSig vchPubKey scriptCode sigversion in
              if (negb fSuccess && has flags SCRIPT_VERIFY_NULLFAIL && negb (size vchSig =? 0))%bool
              then Err SCRIPT_ERR_SIG_NULLFAIL
              else if opcode =? OP_CHECKSIGVERIFY then
                if fSuccess then Next (set_stack st s) else Err SCRIPT_ERR_CHECKSIGVERIFY
              else Next (set_stack st (vch_of_bool fSuccess :: s))
          end
      end
  | _ => Err SCRIPT_ERR_INVALID_STACK_OPERATION
  end.

(** [stacktop(-i)]. *)
Definition stacktop (s : list (list Z)) (i : Z) : list Z := nth (Z.to_nat (i - 1)) s [].

(** The loop that drops the signatures [isig], [isig + 1], ... *)
Fixpoint drop_signatures (n : nat) (s : list (list Z)) (isig : Z) (scriptCode : list Z)
  : list Z + ScriptError :=
  match n with
  | O => inl scriptCode
  | S n' =>
      match drop_signature scriptCode (stacktop s isig) with
      | inr e => inr e
      | inl scriptCode => drop_signatures n' s (isig + 1) scriptCode
      end
  end.

(** [while (fSuccess && nSigsCount > 0)]; every round uses up a key. *)
Fixpoint check_signatures (fuel : nat) (s : list (list Z)) (scriptCode : list Z)
    (isig ikey nSigsCount nKeysCount : Z) : bool + ScriptError :=
  if 0 <? nSigsCount then
    match fuel with
    | O => inr SCRIPT_ERR_UNKNOWN_ERROR
    | S fuel' =>
        let vchSig := stacktop s isig in
        let vchPubKey := stacktop s ikey in
        match CheckEncodings vchSig vchPubKey with
        | Some e => inr e
        | None =>
            let fOk := CheckSig checker vchSig vchPubKey scriptCode sigversion in
            let isig := if fOk then isig + 1 else isig in
            let nSigsCount := if fOk then nSigsCount - 1 else nSigsCount in
            let ikey := ikey + 1 in
            let nKeysCount := nKeysCount - 1 in
            if nKeysCount <? nSigsCount then inl false
            else check_signatures fuel' s scriptCode isig ikey nSigsCount nKeysCount
        end
    end
  else inl true.

(** [while (i-- > 1)]: pops the arguments; [None] if [NULLFAIL] rejects one. *)
Fixpoint pop_arguments (n : nat) (fSuccess : bool) (ikey2 : Z) (s : list (list Z))
  : option (list (list Z)) :=
  match n with
  | O => Some s
  | S n' =>
      if (negb fSuccess && has flags SCRIPT_VERIFY_NULLFAIL && (ikey2 =? 0)
          && negb (size (stacktop s 1) =? 0))%bool then None
      else pop_arguments n' fSuccess (if 0 <? ikey2 then ikey2 - 1 else ikey2) (tl s)
  end.

Definition op_checkmultisig (opcode : Z) (st : eval_state) : outcome :=
  let s := stack st in
  if size s <? 1 then Err SCRIPT_ERR_INVALID_STACK_OPERATION
  else with_num (stacktop s 1) fRequireMinimal Num.nDefaultMaxNumSize (fun bn =>
    let nKeysCount := Num.getint bn in
    if ((nKeysCount <? 0) || (MAX_PUBKEYS_PER_MULTISIG <? nKeysCount))%bool
    then Err SCRIPT_ERR_PUBKEY_COUNT
    else
      let st := set_nOpCount st (nOpCount st + nKeysCount) in
      if MAX_OPS_PER_SCRIPT <? nOpCount st then Err SCRIPT_ERR_OP_COUNT
      else
        let ikey := 2 in
        let ikey2 := nKeysCount + 2 in
        let i := 2 + nKeysCount in
        if size s <? i then Err SCRIPT_ERR_INVALID_STACK_OPERATION
        else with_num (stacktop s i) fRequireMinimal Num.nDefaultMaxNumSize (fun bn =>
          let nSigsCount := Num.getint bn in
          if ((nSigsCount <? 0) || (nKeysCount <? nSigsCount))%bool then Err SCRIPT_ERR_SIG_COUNT
          else
            let isig := i + 1 in
            let i := i + 1 + nSigsCount in
            if size s <? i then Err SCRIPT_ERR_INVALID_STACK_OPERATION
            else
              match drop_signatures (Z.to_nat nSigsCount) s isig (pbegincodehash st) with
              | inr e => Err e
              | inl scriptCode =>
                  match check_signatures (Z.to_nat nKeysCount) s scriptCode isig ikey
                          nSigsCount nKeysCount with
                  | inr e => Err e
                  | inl fSuccess =>
                      match pop_arguments (Z.to_nat (i - 1)) fSuccess ikey2 s with
                      | None => Err SCRIPT_ERR_SIG_NULLFAIL
                      | Some [] => Err SCRIPT_ERR_INVALID_STACK_OPERATION
                      | Some (dummy :: s) =>
                          if (has flags SCRIPT_VERIFY_NULLDUMMY && negb (size dummy =? 0))%bool
                          then Err SCRIPT_ERR_SIG_NULLDUMMY
                          else if opcode =? OP_CHECKMULTISIGVERIFY then
                            if fSuccess then Next (set_stack st s)
                            else Err SCRIPT_ERR_CHECKMULTISIGVERIFY
                          else Next (set_stack st (vch_of_bool fSuccess :: s))
                      end
                  end
              end)).

(** *** The switch *)

Definition between (a x b : Z) : bool := ((a <=? x) && (x <=? b))%bool.

Definition is_rearrange (opcode : Z) : bool :=
  (between OP_2DROP opcode OP_OVER || between OP_ROT opcode OP_TUCK)%bool.

Definition is_unary (opcode : Z) : bool :=
  ((opcode =? OP_1ADD) || (opcode =? OP_1SUB) || between OP_NEGATE opcode OP_0NOTEQUAL)%bool.

Definition is_binary (opcode : Z) : bool :=
  ((opcode =? OP_ADD) || (opcode =? OP_SUB) || between OP_BOOLAND opcode OP_MAX)%bool.

Definition is_disabled (opcode : Z) : bool :=
  existsb (Z.eqb opcode)
    [OP_CAT; OP_SUBSTR; OP_LEFT; OP_RIGHT; OP_INVERT; OP_AND; OP_OR; OP_XOR; OP_2MUL; OP_2DIV;
     OP_MUL; OP_DIV; OP_MOD; OP_LSHIFT; OP_RSHIFT].

Definition switch (opcode : Z) (fExec : bool) (pc : list Z) (st : eval_state) : outcome :=
  if ((opcode =? OP_1NEGATE) || between OP_1 opcode OP_16)%bool then op_push_number opcode st
  else if opcode =? OP_NOP then Next st
  else if opcode =? OP_CHECKLOCKTIMEVERIFY then op_checklocktimeverify st
  else if opcode =? OP_CHECKSEQUENCEVERIFY then op_checksequenceverify st
  else if ((opcode =? OP_NOP1) || between OP_NOP4 opcode OP_NOP10)%bool then op_nop st
  else if ((opcode =? OP_IF) || (opcode =? OP_NOTIF))%bool then op_if opcode fExec st
  else if opcode =? OP_ELSE then op_else st
  else if opcode =? OP_ENDIF then op_endif st
  else if opcode =? OP_VERIFY then op_verify st
  else if opcode =? OP_RETURN then Err SCRIPT_ERR_OP_RETURN
  else if opcode =? OP_TOALTSTACK then op_toaltstack st
  else if opcode =? OP_FROMALTSTACK then op_fromaltstack st
  else if is_rearrange opcode then op_rearrange opcode st
  else if ((opcode =? OP_PICK) || (opcode =? OP_ROLL))%bool then op_pick_roll opcode st
  else if opcode =? OP_SIZE then op_size st
  else if ((opcode =? OP_EQUAL) || (opcode =? OP_EQUALVERIFY))%bool then op_equal opcode st
  else if is_unary opcode then op_unary opcode st
  else if is_binary opcode then op_binary opcode st
  else if opcode =? OP_WITHIN then op_within st
  else if between OP_RIPEMD160 opcode OP_HASH256 then op_hash opcode st
  else if opcode =? OP_CODESEPARATOR then Next (set_codehash st pc)
  else if ((opcode =? OP_CHECKSIG) || (opcode =? OP_CHECKSIGVERIFY))%bool then op_checksig opcode st
  else if ((opcode =? OP_CHECKMULTISIG) || (opcode =? OP_CHECKMULTISIGVERIFY))%bool
  then op_checkmultisig opcode st
  else if opcode =? OP_SENDER then
    if negb (has flags SCRIPT_OUTPUT_SENDER) then Err SCRIPT_ERR_BAD_OPCODE else Next st
  else if opcode =? OP_SPEND then Return (stack st)
  else if ((opcode =? OP_COINSTAKE_CALL) || (opcode =? OP_CREATE) || (opcode =? OP_CALL))%bool
  then Return ((opcode :: pc) :: stack st)
  else Err SCRIPT_ERR_BAD_OPCODE.

(** One round of the loop: the instruction, its data and the script after it. *)
Definition eval_op (opcode : Z) (vchPushValue pc : list Z) (st : eval_state) : outcome :=
  let fExec := forallb (fun b => b) (vfExec st) in
  if MAX_SCRIPT_ELEMENT_SIZE <? size vchPushValue then Err SCRIPT_ERR_PUSH_SIZE
  else
    let st := if OP_16 <? opcode then set_nOpCount st (nOpCount st + 1) else st in
    if ((OP_16 <? opcode) && (MAX_OPS_PER_SCRIPT <? nOpCount st))%bool then Err SCRIPT_ERR_OP_COUNT
    else if is_disabled opcode then Err SCRIPT_ERR_DISABLED_OPCODE
    else if ((opcode =? OP_CODESEPARATOR) && is_base sigversion
             && has flags SCRIPT_VERIFY_CONST_SCRIPTCODE)%bool then Err SCRIPT_ERR_OP_CODESEPARATOR
    else if (fExec && (opcode <=? OP_PUSHDATA4))%bool then
      if (fRequireMinimal && negb (CheckMinimalPush vchPushValue opcode))%bool
      then Err SCRIPT_ERR_MINIMALDATA
      else Next (set_stack st (vchPushValue :: stack st))
    else if (fExec || between OP_IF opcode OP_ENDIF)%bool then switch opcode fExec pc st
    else Next st.

(** The loop over the instructions of the script; [decoded] says that [GetOp]
    reads all of them. *)
Fixpoint eval_ops (l : list (Z * list Z * list Z)) (decoded : bool) (st : eval_state)
  : list (list Z) + ScriptError :=
  match l with
  | [] =>
      if negb decoded then inr SCRIPT_ERR_BAD_OPCODE
      else match vfExec st with [] => inl (stack st) | _ => inr SCRIPT_ERR_UNBALANCED_CONDITIONAL end
  | o :: l' =>
      match eval_op (Scr.opcode_of o) (Scr.data_of o) (Scr.rest_of o) st with
      | Err e => inr e
      | Return s => inl s
      | Next st =>
          if MAX_STACK_SIZE <? size (stack st) + size (altstack st) then inr SCRIPT_ERR_STACK_SIZE
          else eval_ops l' decoded st
      end
  end.

Definition EvalScript (s : list (list Z)) (script : list Z) : list (list Z) + ScriptError :=
  if MAX_SCRIPT_SIZE <? size script then inr SCRIPT_ERR_SCRIPT_SIZE
  else
    let '(l, decoded) := Scr.ops script in
    eval_ops l decoded (EvalState s [] [] 0 script).

End Eval.

(** ** Verification of an input *)

(** [assert] failures are an outcome of their own. *)
Inductive verdict : Set := Pass | Fail (e : ScriptError) | Abort.

Section Verify.
Context (CheckLowS : list Z -> bool) (checker : SignatureChecker) (flags : Z).

(** [program] as a list of bytes; the witness stack has its last element on top. *)
Definition VerifyWitnessProgram (witness : list (list Z)) (witversion : Z) (program : list Z)
  : verdict :=
  if witversion =? 0 then
    let prepared :=
      if size program =? WITNESS_V0_SCRIPTHASH_SIZE then
        match witness with
        | [] => inr SCRIPT_ERR_WITNESS_PROGRAM_WITNESS_EMPTY
        | _ =>
            let scriptPubKey := last witness [] in
            if list_eq_dec Z.eq_dec (digest CSHA256 scriptPubKey) program
            then inl (rev (removelast witness), scriptPubKey)
            else inr SCRIPT_ERR_WITNESS_PROGRAM_MISMATCH
        end
      else if size program =? WITNESS_V0_KEYHASH_SIZE then
        if negb (size witness =? 2) then inr SCRIPT_ERR_WITNESS_PROGRAM_MISMATCH
        else inl (rev witness,
                  Scr.push_vch [OP_DUP; OP_HASH160] program ++ [OP_EQUALVERIFY; OP_CHECKSIG])
      else inr SCRIPT_ERR_WITNESS_PROGRAM_WRONG_LENGTH in
    match prepared with
    | inr e => Fail e
    | inl (s, scriptPubKey) =>
        if existsb (fun v => MAX_SCRIPT_ELEMENT_SIZE <? size v) s then Fail SCRIPT_ERR_PUSH_SIZE
        else match EvalScript CheckLowS checker flags WITNESS_V0 s scriptPubKey with
             | inr e => Fail e
             | inl [top] => if CastToBool top then Pass else Fail SCRIPT_ERR_EVAL_FALSE
             | inl _ => Fail SCRIPT_ERR_CLEANSTACK
             end
    end
  else if has flags SCRIPT_VERIFY_DISCOURAGE_UPGRADABLE_WITNESS_PROGRAM
  then Fail SCRIPT_ERR_DISCOURAGE_UPGRADABLE_WITNESS_PROGRAM
  else Pass.

(** The part of [VerifyScript] after the evaluations, with the size of the stack
    and [hadWitness]. *)
Definition verify_end (witness : list (list Z)) (stack_size : Z) (hadWitness : bool) : verdict :=
  if (has flags SCRIPT_VERIFY_CLEANSTACK
      && (negb (has flags SCRIPT_VERIFY_P2SH) || negb (has flags SCRIPT_VERIFY_WITNESS)))%bool
  then Abort
  else if (has flags SCRIPT_VERIFY_CLEANSTACK && negb (stack_size =? 1))%bool
  then Fail SCRIPT_ERR_CLEANSTACK
  else if has flags SCRIPT_VERIFY_WITNESS then
    if negb (has flags SCRIPT_VERIFY_P2SH) then Abort
    else if (negb hadWitness && negb (size witness =? 0))%bool
    then Fail SCRIPT_ERR_WITNESS_UNEXPECTED
    else Pass
  else Pass.

(** "Additional validation for spend-to-script-hash transactions": [s] is the copy
    of the stack that [scriptSig] left. *)
Definition verify_p2sh (witness : list (list Z)) (scriptSig : list Z) (s : list (list Z))
    (hadWitness : bool) : verdict :=
  if negb (Scr.IsPushOnly scriptSig) then Fail SCRIPT_ERR_SIG_PUSHONLY
  else match s with
  | [] => Abort
  | pubKey2 :: s =>
      match EvalScript CheckLowS checker flags BASE s pubKey2 with
      | inr e => Fail e
      | inl [] => Fail SCRIPT_ERR_EVAL_FALSE
      | inl ((top :: _) as s) =>
          if negb (CastToBool top) then Fail SCRIPT_ERR_EVAL_FALSE
          else if has flags SCRIPT_VERIFY_WITNESS then
            match Scr.IsWitnessProgram pubKey2 with
            | Some (version, program) =>
                if list_eq_dec Z.eq_dec scriptSig (Scr.push_vch [] pubKey2) then
                  match VerifyWitnessProgram witness version program with
                  | Pass => verify_end witness 1 true
                  | v => v
                  end
                else Fail SCRIPT_ERR_WITNESS_MALLEATED_P2SH
            | None => verify_end witness (size s) hadWitness
            end
          else verify_end witness (size s) hadWitness
      end
  end.

(** After the bare witness program, if any. *)
Definition verify_rest (witness : list (list Z)) (scriptSig scriptPubKey : list Z)
    (stackCopy : list (list Z)) (stack_size : Z) (hadWitness : bool) : verdict :=
  if (has flags SCRIPT_VERIFY_P2SH && Scr.IsPayToScriptHash scriptPubKey)%bool
  then verify_p2sh witness scriptSig stackCopy hadWitness
  else verify_end witness stack_size hadWitness.

Definition VerifyScript (scriptSig scriptPubKey : list Z) (witness : list (list Z)) : verdict :=
  if (has flags SCRIPT_VERIFY_SIGPUSHONLY && negb (Scr.IsPushOnly scriptSig))%bool
  then Fail SCRIPT_ERR_SIG_PUSHONLY
  else match EvalScript CheckLowS checker flags BASE [] scriptSig with
  | inr e => Fail e
  | inl stackCopy =>
      match EvalScript CheckLowS checker flags BASE stackCopy scriptPubKey with
      | inr e => Fail e
      | inl [] => Fail SCRIPT_ERR_EVAL_FALSE
      | inl ((top :: _) as s) =>
          if negb (CastToBool top) then Fail SCRIPT_ERR_EVAL_FALSE
          else if has flags SCRIPT_VERIFY_WITNESS then
            match Scr.IsWitnessProgram scriptPubKey with
            | Some (version, program) =>
                if negb (size scriptSig =? 0) then Fail SCRIPT_ERR_WITNESS_MALLEATED
                else match VerifyWitnessProgram witness version program with
                     | Pass => verify_rest witness scriptSig scriptPubKey stackCopy 1 true
                     | v => v
                     end
            | None => verify_rest witness scriptSig scriptPubKey stackCopy (size s) false
            end
          else verify_rest witness scriptSig scriptPubKey stackCopy (size s) false
      end
  end.

(** [WitnessSigOps] and [CountWitnessSigOps]; [None] is a failed [assert]. *)
Definition WitnessSigOps (witversion : Z) (witprogram : list Z) (witness : list (list Z)) : Z :=
  if witversion =? 0 then
    if size witprogram =? WITNESS_V0_KEYHASH_SIZE then 1
    else if ((size witprogram =? WITNESS_V0_SCRIPTHASH_SIZE) && (0 <? size witness))%bool
    then Scr.GetSigOpCount (last witness []) true
    else 0
  else 0.

Definition CountWitnessSigOps (scriptSig scriptPubKey : list Z) (witness : list (list Z)) : option Z :=
  if negb (has flags SCRIPT_VERIFY_WITNESS) then Some 0
  else if negb (has flags SCRIPT_VERIFY_P2SH) then None
  else match Scr.IsWitnessProgram scriptPubKey with
  | Some (version, program) => Some (WitnessSigOps version program witness)
  | None =>
      if (Scr.IsPayToScriptHash scriptPubKey && Scr.IsPushOnly scriptSig)%bool then
        let subscript := last (map Scr.data_of (fst (Scr.ops scriptSig))) [] in
        match Scr.IsWitnessProgram subscript with
        | Some (version, program) => Some (WitnessSigOps version program witness)
        | None => Some 0
        end
      else Some 0
  end.

End Verify.

(** ** More flags accept fewer scripts

    [SCRIPT_OUTPUT_SENDER] is the exception, for which fewer flags do. *)
Section SoftFork.
Context (CheckLowS : list Z -> bool) (checker : SignatureChecker) (flags flags' : Z).
Hypothesis sub : forall bit, bit <> SCRIPT_OUTPUT_SENDER -> has flags bit = true -> has flags' bit = true.
Hypothesis sender_kept : has flags' SCRIPT_OUTPUT_SENDER = true -> has flags SCRIPT_OUTPUT_SENDER = true.

(** The outcome under [flags'] is an error or the one under [flags]. *)
Definition le_out (o' o : outcome) : Prop := match o' with Err _ => True | _ => o = o' end.
Definition le_sum {A : Type} (r' r : A + ScriptError) : Prop :=
  match r' with inr _ => True | inl _ => r = r' end.

Lemma le_out_refl o : le_out o o.
Proof. now destruct o. Qed.

Lemma le_sum_refl {A : Type} (r : A + ScriptError) : le_sum r r.
Proof. now destruct r. Qed.

Lemma le_with_num v n k' k :
  (forall bn, le_out (k' bn) (k bn)) ->
  le_out (with_num v (fRequireMinimal flags') n k') (with_num v (fRequireMinimal flags) n k).
Proof.
  intros H. unfold with_num, Num.of_vch, fRequireMinimal.
  assert (Hm := sub SCRIPT_VERIFY_MINIMALDATA ltac:(discriminate)).
  destruct (n <? size v); [exact I|].
  destruct (has flags SCRIPT_VERIFY_MINIMALDATA).
  - rewrite Hm by reflexivity. destruct (true && _)%bool; [exact I|apply H].
  - cbn [andb]. destruct (has flags' SCRIPT_VERIFY_MINIMALDATA && _)%bool; [exact I|apply H].
Qed.

(** Splits on a flag of the goal under both sets. *)
Ltac flag_case F :=
  let H := fresh "Hf" in
  pose proof (sub F ltac:(discriminate)) as H;
  destruct (has flags F) eqn:?, (has flags' F) eqn:?;
  try (discriminate (H eq_refl)); clear H; cbn [andb orb negb].

Lemma le_checklocktimeverify st :
  le_out (op_checklocktimeverify checker flags' st) (op_checklocktimeverify checker flags st).
Proof.
  unfold op_checklocktimeverify. flag_case SCRIPT_VERIFY_CHECKLOCKTIMEVERIFY.
  - destruct (stack st); [exact I|]. apply le_with_num. intros. apply le_out_refl.
  - destruct (stack st); [exact I|]. unfold with_num.
    destruct (Num.of_vch _ _ _) as [bn|]; [|exact I].
    destruct (bn <? 0); [exact I|]. now destruct (negb (CheckLockTime checker bn)).
  - apply le_out_refl.
Qed.

Lemma le_checksequenceverify st :
  le_out (op_checksequenceverify checker flags' st) (op_checksequenceverify checker flags st).
Proof.
  unfold op_checksequenceverify. flag_case SCRIPT_VERIFY_CHECKSEQUENCEVERIFY.
  - destruct (stack st); [exact I|]. apply le_with_num. intros. apply le_out_refl.
  - destruct (stack st); [exact I|]. unfold with_num.
    destruct (Num.of_vch _ _ _) as [bn|]; [|exact I].
    destruct (bn <? 0); [exact I|].
    destruct (negb (Z.land bn SEQUENCE_LOCKTIME_DISABLE_FLAG =? 0)); [reflexivity|].
    now destruct (negb (CheckSequence checker bn)).
  - apply le_out_refl.
Qed.

Lemma le_if v opcode fExec st :
  le_out (op_if flags' v opcode fExec st) (op_if flags v opcode fExec st).
Proof.
  unfold op_if. destruct fExec; [|reflexivity].
  destruct (stack st) as [|vch s]; [exact I|]. flag_case SCRIPT_VERIFY_MINIMALIF;
    destruct (is_witness_v0 v); cbn [andb]; try apply le_out_refl.
  destruct ((1 <? size vch) || _)%bool; [exact I|reflexivity].
Qed.

Lemma le_encodings v sig key :
  CheckEncodings CheckLowS flags' v sig key = None -> CheckEncodings CheckLowS flags v sig key = None.
Proof.
  unfold CheckEncodings, CheckSignatureEncoding, CheckPubKeyEncoding.
  flag_case SCRIPT_VERIFY_DERSIG; flag_case SCRIPT_VERIFY_LOW_S; flag_case SCRIPT_VERIFY_STRICTENC;
  flag_case SCRIPT_VERIFY_WITNESS_PUBKEYTYPE;
  destruct sig as [|b sig]; try (destruct (IsValidSignatureEncoding (b :: sig) true)); cbn [negb];
  try discriminate;
  try (destruct (IsLowDERSignature CheckLowS (b :: sig) true); try discriminate);
  try (destruct (IsDefinedHashtypeSignature (b :: sig)); cbn [negb]; try discriminate);
  destruct (IsCompressedOrUncompressedPubKey key), (is_witness_v0 v), (IsCompressedPubKey key);
  cbn [andb negb]; congruence.
Qed.

Lemma le_drop_signature v code sig :
  le_sum (drop_signature flags' v code sig) (drop_signature flags v code sig).
Proof.
  unfold drop_signature. destruct (is_base v); [|apply le_sum_refl].
  destruct (FindAndDelete code _) as [code' found].
  flag_case SCRIPT_VERIFY_CONST_SCRIPTCODE; destruct (0 <? found); cbn [andb]; exact I || reflexivity.
Qed.

Lemma le_checksig v opcode st :
  le_out (op_checksig CheckLowS checker flags' v opcode st)
         (op_checksig CheckLowS checker flags v opcode st).
Proof.
  unfold op_checksig. destruct (stack st) as [|key [|sig s]]; try exact I.
  pose proof (le_drop_signature v (pbegincodehash st) sig) as Hd.
  destruct (drop_signature flags' v _ sig) as [code|]; [|exact I].
  cbn [le_sum] in Hd. rewrite Hd. clear Hd.
  pose proof (le_encodings v sig key) as He.
  destruct (CheckEncodings CheckLowS flags' v sig key); [exact I|]. rewrite He by reflexivity.
  flag_case SCRIPT_VERIFY_NULLFAIL;
    destruct (CheckSig checker sig key code v), (size sig =? 0); cbn [andb negb];
    exact I || apply le_out_refl.
Qed.

Lemma le_drop_signatures v n s isig code :
  le_sum (drop_signatures flags' v n s isig code) (drop_signatures flags v n s isig code).
Proof.
  revert isig code. induction n as [|n IH]; intros isig code; [reflexivity|].
  cbn [drop_signatures]. pose proof (le_drop_signature v code (stacktop s isig)) as Hd.
  destruct (drop_signature flags' v code _) as [code'|]; [|exact I].
  cbn [le_sum] in Hd. rewrite Hd. apply IH.
Qed.

Lemma le_check_signatures v n s code isig ikey nSigs nKeys :
  le_sum (check_signatures CheckLowS checker flags' v n s code isig ikey nSigs nKeys)
         (check_signatures CheckLowS checker flags v n s code isig ikey nSigs nKeys).
Proof.
  revert isig ikey nSigs nKeys. induction n as [|n IH]; intros isig ikey nSigs nKeys;
    cbn [check_signatures]; [apply le_sum_refl|].
  destruct (0 <? nSigs); [|reflexivity].
  pose proof (le_encodings v (stacktop s isig) (stacktop s ikey)) as He.
  destruct (CheckEncodings CheckLowS flags' v _ _); [exact I|]. rewrite He by reflexivity.
  destruct (nKeys - 1 <? _); [reflexivity|apply IH].
Qed.

Lemma le_pop_arguments n ok ikey2 s s' :
  pop_arguments flags' n ok ikey2 s = Some s' -> pop_arguments flags n ok ikey2 s = Some s'.
Proof.
  revert ikey2 s. induction n as [|n IH]; intros ikey2 s; cbn [pop_arguments]; [auto|].
  flag_case SCRIPT_VERIFY_NULLFAIL; destruct ok, (ikey2 =? 0), (size (stacktop s 1) =? 0);
    cbn [andb negb]; try discriminate; apply IH.
Qed.

Lemma le_checkmultisig v opcode st :
  le_out (op_checkmultisig CheckLowS checker flags' v opcode st)
         (op_checkmultisig CheckLowS checker flags v opcode st).
Proof.
  unfold op_checkmultisig. destruct (size (stack st) <? 1); [exact I|].
  apply le_with_num. intros bn.
  destruct ((Num.getint bn <? 0) || _)%bool; [exact I|].
  destruct (MAX_OPS_PER_SCRIPT <? _); [exact I|].
  destruct (size (stack st) <? _); [exact I|].
  apply le_with_num. intros bm.
  destruct ((Num.getint bm <? 0) || _)%bool; [exact I|].
  destruct (size (stack st) <? _); [exact I|].
  match goal with |- context [drop_signatures flags' v ?n ?s ?i ?c] =>
    pose proof (le_drop_signatures v n s i c) as Hd; destruct (drop_signatures flags' v n s i c) as [code|] end;
    [|exact I].
  cbn [le_sum] in Hd. rewrite Hd. clear Hd.
  match goal with |- context [check_signatures CheckLowS checker flags' v ?n ?s ?c ?i ?k ?ns ?nk] =>
    pose proof (le_check_signatures v n s c i k ns nk) as Hc;
    destruct (check_signatures CheckLowS checker flags' v n s c i k ns nk) as [ok|] end; [|exact I].
  cbn [le_sum] in Hc. rewrite Hc. clear Hc.
  match goal with |- context [pop_arguments flags' ?n ?o ?k ?s] =>
    pose proof (le_pop_arguments n o k s) as Hp;
    destruct (pop_arguments flags' n o k s) as [[|dummy s']|] end;
    [exact I| |exact I]. rewrite (Hp _ eq_refl). clear Hp.
  flag_case SCRIPT_VERIFY_NULLDUMMY; destruct (size dummy =? 0); cbn [negb];
    exact I || apply le_out_refl.
Qed.

Lemma le_switch v opcode fExec pc st :
  le_out (switch CheckLowS checker flags' v opcode fExec pc st)
         (switch CheckLowS checker flags v opcode fExec pc st).
Proof.
  unfold switch.
  repeat match goal with
  | |- le_out (if ?b then _ else _) (if ?b then _ else _) => destruct b
  end; try apply le_out_refl.
  - apply le_checklocktimeverify.
  - apply le_checksequenceverify.
  - unfold op_nop. flag_case SCRIPT_VERIFY_DISCOURAGE_UPGRADABLE_NOPS; exact I || reflexivity.
  - apply le_if.
  - unfold op_pick_roll. destruct (stack st) as [|x [|y s]]; try exact I.
    apply le_with_num. intros. apply le_out_refl.
  - unfold op_unary. destruct (stack st); [exact I|]. apply le_with_num. intros. apply le_out_refl.
  - unfold op_binary. destruct (stack st) as [|x [|y s]]; try exact I.
    apply le_with_num. intros. apply le_with_num. intros. apply le_out_refl.
  - unfold op_within. destruct (stack st) as [|x [|y [|z s]]]; try exact I.
    do 3 (apply le_with_num; intros). apply le_out_refl.
  - apply le_checksig.
  - apply le_checkmultisig.
  - destruct (has flags' SCRIPT_OUTPUT_SENDER); [now rewrite sender_kept|exact I].
Qed.

Lemma le_eval_op v opcode data pc st :
  le_out (eval_op CheckLowS checker flags' v opcode data pc st)
         (eval_op CheckLowS checker flags v opcode data pc st).
Proof.
  unfold eval_op, fRequireMinimal.
  destruct (MAX_SCRIPT_ELEMENT_SIZE <? size data); [exact I|].
  destruct ((OP_16 <? opcode) && _)%bool; [exact I|].
  destruct (is_disabled opcode); [exact I|].
  assert (H : forall o' o, le_out o' o ->
    le_out (if ((opcode =? OP_CODESEPARATOR) && is_base v && has flags' SCRIPT_VERIFY_CONST_SCRIPTCODE)%bool
            then Err SCRIPT_ERR_OP_CODESEPARATOR else o')
           (if ((opcode =? OP_CODESEPARATOR) && is_base v && has flags SCRIPT_VERIFY_CONST_SCRIPTCODE)%bool
            then Err SCRIPT_ERR_OP_CODESEPARATOR else o)).
  { intros o' o Ho. destruct ((opcode =? OP_CODESEPARATOR) && is_base v)%bool; cbn [andb]; [|exact Ho].
    flag_case SCRIPT_VERIFY_CONST_SCRIPTCODE; exact I || exact Ho. }
  apply H. clear H.
  destruct (forallb _ (vfExec st) && _)%bool.
  - flag_case SCRIPT_VERIFY_MINIMALDATA; destruct (CheckMinimalPush data opcode);
      exact I || reflexivity.
  - destruct (forallb _ (vfExec st) || _)%bool; [apply le_switch|reflexivity].
Qed.

Lemma le_eval_ops v l d st :
  le_sum (eval_ops CheckLowS checker flags' v l d st) (eval_ops CheckLowS checker flags v l d st).
Proof.
  revert st. induction l as [|o l IH]; intros st; cbn [eval_ops]; [apply le_sum_refl|].
  pose proof (le_eval_op v (Scr.opcode_of o) (Scr.data_of o) (Scr.rest_of o) st) as H.
  destruct (eval_op CheckLowS checker flags' v _ _ _ st) as [st'|s|e]; cbn [le_out] in H;
    [|rewrite H; reflexivity|exact I].
  rewrite H. destruct (MAX_STACK_SIZE <? _); [exact I|apply IH].
Qed.

Lemma le_EvalScript v s script :
  le_sum (EvalScript CheckLowS checker flags' v s script)
         (EvalScript CheckLowS checker flags v s script).
Proof.
  unfold EvalScript. destruct (MAX_SCRIPT_SIZE <? size script); [exact I|].
  destruct (Scr.ops script) as [l d]. apply le_eval_ops.
Qed.

Lemma le_witness_program w version program :
  VerifyWitnessProgram CheckLowS checker flags' w version program = Pass ->
  VerifyWitnessProgram CheckLowS checker flags w version program = Pass.
Proof.
  unfold VerifyWitnessProgram. destruct (version =? 0).
  - match goal with |- match ?p with _ => _ end = _ -> _ => destruct p as [[s spk]|e] end; [|discriminate].
    destruct (existsb _ s); [discriminate|].
    pose proof (le_EvalScript WITNESS_V0 s spk) as H.
    destruct (EvalScript CheckLowS checker flags' WITNESS_V0 s spk); [|discriminate].
    cbn [le_sum] in H. now rewrite H.
  - flag_case SCRIPT_VERIFY_DISCOURAGE_UPGRADABLE_WITNESS_PROGRAM; congruence.
Qed.

(** What the assertions of [VerifyScript] ask of the flags. *)
Definition flags_ok (f : Z) : Prop :=
  (has f SCRIPT_VERIFY_CLEANSTACK = true ->
   has f SCRIPT_VERIFY_P2SH = true /\ has f SCRIPT_VERIFY_WITNESS = true) /\
  (has f SCRIPT_VERIFY_WITNESS = true -> has f SCRIPT_VERIFY_P2SH = true).

Hypothesis ok : flags_ok flags.

Lemma verify_end_no_witness w n h :
  has flags SCRIPT_VERIFY_WITNESS = false -> verify_end flags w n h = Pass.
Proof.
  destruct ok as [Hc _]. intros Hw. unfold verify_end. rewrite Hw in *.
  destruct (has flags SCRIPT_VERIFY_CLEANSTACK); [|reflexivity].
  destruct (Hc eq_refl). discriminate.
Qed.

Lemma le_verify_end w n h : verify_end flags' w n h = Pass -> verify_end flags w n h = Pass.
Proof.
  destruct ok as [Hc Hw]. unfold verify_end.
  flag_case SCRIPT_VERIFY_CLEANSTACK; flag_case SCRIPT_VERIFY_P2SH; flag_case SCRIPT_VERIFY_WITNESS;
    try (destruct (Hc eq_refl); discriminate); try (discriminate (Hw eq_refl));
    destruct (n =? 1), h, (size w =? 0); cbn [negb andb]; congruence.
Qed.

Lemma le_verify_p2sh w sig s h :
  verify_p2sh CheckLowS checker flags' w sig s h = Pass ->
  verify_p2sh CheckLowS checker flags w sig s h = Pass.
Proof.
  unfold verify_p2sh. destruct (negb (Scr.IsPushOnly sig)); [discriminate|].
  destruct s as [|key s]; [discriminate|].
  pose proof (le_EvalScript BASE s key) as H.
  destruct (EvalScript CheckLowS checker flags' BASE s key) as [[|top s']|]; [discriminate| |discriminate].
  cbn [le_sum] in H. rewrite H. destruct (negb (CastToBool top)); [discriminate|].
  flag_case SCRIPT_VERIFY_WITNESS; try (now intros; apply verify_end_no_witness).
  destruct (Scr.IsWitnessProgram key) as [[version program]|]; [|apply le_verify_end].
  destruct (list_eq_dec Z.eq_dec sig _); [|discriminate].
  pose proof (le_witness_program w version program) as Hw.
  destruct (VerifyWitnessProgram CheckLowS checker flags' w version program); try discriminate.
  rewrite Hw by reflexivity. apply le_verify_end.
Qed.

Lemma le_verify_rest w sig spk copy n h :
  verify_rest CheckLowS checker flags' w sig spk copy n h = Pass ->
  verify_rest CheckLowS checker flags w sig spk copy n h = Pass.
Proof.
  unfold verify_rest. destruct (Scr.IsPayToScriptHash spk).
  - flag_case SCRIPT_VERIFY_P2SH.
    + apply le_verify_p2sh.
    + intros _. apply verify_end_no_witness. destruct ok as [_ Hw].
      destruct (has flags SCRIPT_VERIFY_WITNESS); [|reflexivity].
      specialize (Hw eq_refl). congruence.
    + apply le_verify_end.
  - rewrite !andb_false_r. apply le_verify_end.
Qed.

Lemma verify_rest_no_witness w sig spk copy n h n' h' :
  has flags SCRIPT_VERIFY_WITNESS = false ->
  verify_rest CheckLowS checker flags' w sig spk copy n h = Pass ->
  verify_rest CheckLowS checker flags w sig spk copy n' h' = Pass.
Proof.
  intros Hw. unfold verify_rest.
  destruct (Scr.IsPayToScriptHash spk); rewrite ?andb_true_r, ?andb_false_r;
    [|intros; now apply verify_end_no_witness].
  flag_case SCRIPT_VERIFY_P2SH; try (intros; now apply verify_end_no_witness).
  intros H. apply le_verify_p2sh in H. revert H. unfold verify_p2sh.
  destruct (negb (Scr.IsPushOnly sig)); [discriminate|].
  destruct copy as [|key s]; [discriminate|].
  destruct (EvalScript CheckLowS checker flags BASE s key) as [[|top s']|]; [discriminate| |discriminate].
  destruct (negb (CastToBool top)); [discriminate|]. rewrite Hw.
  intros _. now apply verify_end_no_witness.
Qed.

Lemma le_VerifyScript sig spk w :
  VerifyScript CheckLowS checker flags' sig spk w = Pass ->
  VerifyScript CheckLowS checker flags sig spk w = Pass.
Proof.
  unfold VerifyScript.
  assert (Hp : (has flags' SCRIPT_VERIFY_SIGPUSHONLY && negb (Scr.IsPushOnly sig))%bool = false ->
    (has flags SCRIPT_VERIFY_SIGPUSHONLY && negb (Scr.IsPushOnly sig))%bool = false)
    by (flag_case SCRIPT_VERIFY_SIGPUSHONLY; congruence).
  destruct ((has flags' SCRIPT_VERIFY_SIGPUSHONLY && _)%bool); [discriminate|].
  rewrite Hp by reflexivity. clear Hp.
  pose proof (le_EvalScript BASE [] sig) as H.
  destruct (EvalScript CheckLowS checker flags' BASE [] sig) as [copy|]; [|discriminate].
  cbn [le_sum] in H. rewrite H. clear H.
  pose proof (le_EvalScript BASE copy spk) as H.
  destruct (EvalScript CheckLowS checker flags' BASE copy spk) as [[|top s]|]; [discriminate| |discriminate].
  cbn [le_sum] in H. rewrite H. clear H.
  destruct (negb (CastToBool top)); [discriminate|].
  flag_case SCRIPT_VERIFY_WITNESS.
  - destruct (Scr.IsWitnessProgram spk) as [[version program]|]; [|apply le_verify_rest].
    destruct (negb (size sig =? 0)); [discriminate|].
    pose proof (le_witness_program w version program) as Hw.
    destruct (VerifyWitnessProgram CheckLowS checker flags' w version program); try discriminate.
    rewrite Hw by reflexivity. apply le_verify_rest.
  - destruct (Scr.IsWitnessProgram spk) as [[version program]|];
      [|now apply verify_rest_no_witness].
    destruct (negb (size sig =? 0)); [discriminate|].
    destruct (VerifyWitnessProgram CheckLowS checker flags' w version program); try discriminate.
    now apply verify_rest_no_witness.
  - apply le_verify_rest.
Qed.

End SoftFork.

(** ** Properties of the verification *)
Section VerifyProperties.
Context (CheckLowS : list Z -> bool) (checker : SignatureChecker).

(** C1: verification flags are soft forks: an input accepted under a set of flags is
    accepted under every subset of it that satisfies the assertions of
    [VerifyScript], as long as [SCRIPT_OUTPUT_SENDER] is in both or in neither. *)
Theorem flags_soft_fork flags flags' scriptSig scriptPubKey witness :
  (forall bit, has flags bit = true -> has flags' bit = true) ->
  has flags SCRIPT_OUTPUT_SENDER = has flags' SCRIPT_OUTPUT_SENDER ->
  flags_ok flags ->
  VerifyScript CheckLowS checker flags' scriptSig scriptPubKey witness = Pass ->
  VerifyScript CheckLowS checker flags scriptSig scriptPubKey witness = Pass.
Proof. intros Hsub Hs Hok. apply le_VerifyScript; [auto|congruence|exact Hok]. Qed.

(** On an empty stack the first operation of a P2SH output fails. *)
Lemma p2sh_empty_stack flags v spk :
  Scr.IsPayToScriptHash spk = true ->
  exists e, EvalScript CheckLowS checker flags v [] spk = inr e.
Proof.
  unfold Scr.IsPayToScriptHash. rewrite !andb_true_iff. intros [[[Hs H0] _] _].
  destruct spk as [|op spk]; [discriminate|]. unfold Scr.at_ in H0. cbn [nth] in H0.
  apply Z.eqb_eq in H0. subst op. unfold EvalScript.
  destruct (MAX_SCRIPT_SIZE <? _); [eauto|].
  assert (E : Scr.GetScriptOp (OP_HASH160 :: spk) = Some (spk, OP_HASH160, [])) by reflexivity.
  rewrite (ops_step _ _ _ _ E). cbn [eval_ops].
  exists SCRIPT_ERR_INVALID_STACK_OPERATION. reflexivity.
Qed.

Lemma verify_end_no_abort flags w n h : flags_ok flags -> verify_end flags w n h <> Abort.
Proof.
  intros [Hc Hw]. unfold verify_end.
  destruct (has flags SCRIPT_VERIFY_CLEANSTACK), (has flags SCRIPT_VERIFY_P2SH),
    (has flags SCRIPT_VERIFY_WITNESS); cbn [andb orb negb];
    try (destruct (Hc eq_refl); discriminate); try (discriminate (Hw eq_refl));
    destruct (n =? 1), h, (size w =? 0); discriminate.
Qed.

Lemma witness_program_no_abort flags w version program :
  VerifyWitnessProgram CheckLowS checker flags w version program <> Abort.
Proof.
  unfold VerifyWitnessProgram. destruct (version =? 0).
  - match goal with |- match ?p with _ => _ end <> _ => destruct p as [[s spk]|e] end; [|discriminate].
    destruct (existsb _ s); [discriminate|].
    destruct (EvalScript CheckLowS checker flags WITNESS_V0 s spk) as [[|top [|]]|]; try discriminate.
    now destruct (CastToBool top).
  - now destruct (has flags _).
Qed.

(** C21: no assertion of [VerifyScript] can fail, whatever the scripts and the
    witness, when the flags satisfy what the assertions ask of them (CLEANSTACK
    implies P2SH and WITNESS, WITNESS implies P2SH); in particular the stack that
    is restored for the P2SH script is never empty. *)
Theorem verify_no_assertion_failure flags scriptSig scriptPubKey witness :
  flags_ok flags ->
  VerifyScript CheckLowS checker flags scriptSig scriptPubKey witness <> Abort.
Proof.
  intros Hok. unfold VerifyScript.
  destruct (has flags SCRIPT_VERIFY_SIGPUSHONLY && _)%bool; [discriminate|].
  destruct (EvalScript CheckLowS checker flags BASE [] scriptSig) as [copy|]; [|discriminate].
  assert (Hrest : forall n h s,
    EvalScript CheckLowS checker flags BASE copy scriptPubKey = inl s ->
    verify_rest CheckLowS checker flags witness scriptSig scriptPubKey copy n h <> Abort).
  { intros n h s Hs. unfold verify_rest.
    destruct (has flags SCRIPT_VERIFY_P2SH); cbn [andb]; [|now apply verify_end_no_abort].
    destruct (Scr.IsPayToScriptHash scriptPubKey) eqn:Hp; [|now apply verify_end_no_abort].
    unfold verify_p2sh. destruct (negb (Scr.IsPushOnly scriptSig)); [discriminate|].
    destruct copy as [|key s'].
    { destruct (p2sh_empty_stack flags BASE scriptPubKey Hp) as [e He]. congruence. }
    destruct (EvalScript CheckLowS checker flags BASE s' key) as [[|top s'']|]; try discriminate.
    destruct (negb (CastToBool top)); [discriminate|].
    destruct (has flags SCRIPT_VERIFY_WITNESS); [|now apply verify_end_no_abort].
    destruct (Scr.IsWitnessProgram key) as [[version program]|]; [|now apply verify_end_no_abort].
    destruct (list_eq_dec Z.eq_dec scriptSig _); [|discriminate].
    pose proof (witness_program_no_abort flags witness version program).
    destruct (VerifyWitnessProgram _ _ _ _ _ _); [now apply verify_end_no_abort|discriminate|contradiction]. }
  destruct (EvalScript CheckLowS checker flags BASE copy scriptPubKey) as [[|top s]|]; try discriminate.
  destruct (negb (CastToBool top)); [discriminate|].
  destruct (has flags SCRIPT_VERIFY_WITNESS); [|now apply (Hrest _ _ (top :: s))].
  destruct (Scr.IsWitnessProgram scriptPubKey) as [[version program]|];
    [|now apply (Hrest _ _ (top :: s))].
  destruct (negb (size scriptSig =? 0)); [discriminate|].
  pose proof (witness_program_no_abort flags witness version program).
  destruct (VerifyWitnessProgram _ _ _ _ _ _); [now apply (Hrest _ _ (top :: s))|discriminate|contradiction].
Qed.

Lemma eval_op_sender flags v pc s script :
  eval_op CheckLowS checker flags v OP_SENDER [] pc (EvalState s [] [] 0 script)
  = if has flags SCRIPT_OUTPUT_SENDER then Next (EvalState s [] [] 1 script) else Err SCRIPT_ERR_BAD_OPCODE.
Proof. transitivity (if negb (has flags SCRIPT_OUTPUT_SENDER) then Err SCRIPT_ERR_BAD_OPCODE else Next (EvalState s [] [] 1 script));
  [reflexivity|now destruct (has flags SCRIPT_OUTPUT_SENDER)]. Qed.

(** Without its flag [OP_SENDER] fails where it is executed. *)
Lemma sender_rejected flags v s rest : has flags SCRIPT_OUTPUT_SENDER = false ->
  exists e, EvalScript CheckLowS checker flags v s (OP_SENDER :: rest) = inr e.
Proof.
  intros Hs. unfold EvalScript. destruct (MAX_SCRIPT_SIZE <? _); [eauto|].
  assert (E : Scr.GetScriptOp (OP_SENDER :: rest) = Some (rest, OP_SENDER, [])) by reflexivity.
  rewrite (ops_step _ _ _ _ E). cbn [eval_ops].
  cbn [Scr.opcode_of Scr.data_of Scr.rest_of fst snd]. rewrite eval_op_sender, Hs. eauto.
Qed.

(** With it the next operation is executed. *)
Lemma sender_accepted flags v : has flags SCRIPT_OUTPUT_SENDER = true ->
  EvalScript CheckLowS checker flags v [] [OP_SENDER; OP_1] = inl [[1]].
Proof.
  intros Hs. unfold EvalScript. change (MAX_SCRIPT_SIZE <? size [OP_SENDER; OP_1]) with false.
  change (Scr.ops [OP_SENDER; OP_1]) with ([(OP_SENDER, @nil Z, [OP_1]); (OP_1, @nil Z, @nil Z)], true).
  cbn [eval_ops Scr.opcode_of Scr.data_of Scr.rest_of fst snd]. rewrite eval_op_sender, Hs. reflexivity.
Qed.

(** C40: [SCRIPT_OUTPUT_SENDER] only ever enlarges what is accepted, and always
    does.  Take any flags without it that satisfy the assertions of
    [VerifyScript], and the same flags with it.  Every input accepted without it is
    accepted with it, whatever the scripts, the witness and the checker.  Without
    it no input can spend an output whose script begins with [OP_SENDER]; with it
    the output [OP_SENDER OP_1] can be spent by an empty input. *)
Theorem sender_flag_expands flags flags' :
  (forall bit, bit <> SCRIPT_OUTPUT_SENDER -> has flags' bit = has flags bit) ->
  has flags SCRIPT_OUTPUT_SENDER = false -> has flags' SCRIPT_OUTPUT_SENDER = true -> flags_ok flags ->
  (forall scriptSig scriptPubKey witness,
     VerifyScript CheckLowS checker flags scriptSig scriptPubKey witness = Pass ->
     VerifyScript CheckLowS checker flags' scriptSig scriptPubKey witness = Pass) /\
  (forall scriptSig rest witness,
     VerifyScript CheckLowS checker flags scriptSig (OP_SENDER :: rest) witness <> Pass) /\
  VerifyScript CheckLowS checker flags' [] [OP_SENDER; OP_1] [] = Pass.
Proof.
  intros Heq Hs Hs' Hok. assert (Hok' : flags_ok flags') by (unfold flags_ok in *; now rewrite !Heq).
  split; [|split].
  - intros sig spk w. apply le_VerifyScript; [|congruence|exact Hok']. intros bit Hb. now rewrite Heq.
  - intros sig rest w. unfold VerifyScript. destruct (_ && _)%bool; [discriminate|].
    destruct (EvalScript CheckLowS checker flags BASE [] sig) as [copy|]; [|discriminate].
    destruct (sender_rejected flags BASE copy rest Hs) as [e ->]. discriminate.
  - unfold VerifyScript. rewrite andb_false_r.
    replace (EvalScript CheckLowS checker flags' BASE [] []) with (@inl (list (list Z)) ScriptError []) by reflexivity.
    rewrite sender_accepted by exact Hs'. change (CastToBool [1]) with true. cbn [negb].
    change (Scr.IsWitnessProgram [OP_SENDER; OP_1]) with (@None (Z * list Z)). unfold verify_rest.
    change (Scr.IsPayToScriptHash [OP_SENDER; OP_1]) with false. rewrite andb_false_r. unfold verify_end.
    destruct Hok' as [Hc Hw]. destruct (has flags' SCRIPT_VERIFY_CLEANSTACK), (has flags' SCRIPT_VERIFY_P2SH), (has flags' SCRIPT_VERIFY_WITNESS);
      try (destruct (Hc eq_refl); discriminate); try (discriminate (Hw eq_refl)); reflexivity.
Qed.

End VerifyProperties.

Lemma flags_soft_fork_witness :
  VerifyScript (fun _ => true) BaseSignatureChecker 1 [OP_1] [OP_1; OP_EQUAL] [] = Pass.
Proof.
  apply (flags_soft_fork (fun _ => true) BaseSignatureChecker 1 (1 + 2 ^ SCRIPT_VERIFY_MINIMALDATA)).
  - intros bit. unfold has. destruct (Z.eq_dec bit 0) as [->|Hb]; [reflexivity|].
    change 1 with (2 ^ 0) at 1. rewrite Z.pow2_bits_false by lia. discriminate.
  - reflexivity.
  - split; discriminate.
  - vm_compute. reflexivity.
Defined.

(** A pay-to-script-hash output, with the flags whose assertions are made. *)
Lemma verify_no_assertion_failure_witness :
  VerifyScript (fun _ => true) BaseSignatureChecker
    (2 ^ SCRIPT_VERIFY_P2SH + 2 ^ SCRIPT_VERIFY_CLEANSTACK + 2 ^ SCRIPT_VERIFY_WITNESS)
    [1; OP_1] ([OP_HASH160; 20] ++ Hash160 [OP_1] ++ [OP_EQUAL]) [] <> Abort.
Proof. apply verify_no_assertion_failure. split; [split; reflexivity|reflexivity]. Defined.

Lemma sender_flag_expands_witness :
  VerifyScript (fun _ => true) BaseSignatureChecker (1 + 2 ^ SCRIPT_OUTPUT_SENDER) [OP_1] [OP_1; OP_EQUAL] [] = Pass
  /\ VerifyScript (fun _ => true) BaseSignatureChecker 1 [OP_1] [OP_SENDER; OP_1; OP_EQUAL] [] <> Pass
  /\ VerifyScript (fun _ => true) BaseSignatureChecker (1 + 2 ^ SCRIPT_OUTPUT_SENDER) [] [OP_SENDER; OP_1] [] = Pass.
Proof.
  destruct (sender_flag_expands (fun _ => true) BaseSignatureChecker 1 (1 + 2 ^ SCRIPT_OUTPUT_SENDER)) as (A & B & C).
  - intros bit Hb. unfold has. change (1 + 2 ^ SCRIPT_OUTPUT_SENDER) with (Z.lor 1 (2 ^ SCRIPT_OUTPUT_SENDER)).
    rewrite Z.lor_spec, (Z.pow2_bits_false SCRIPT_OUTPUT_SENDER) by (intros E; now apply Hb). apply orb_false_r.
  - reflexivity.
  - reflexivity.
  - split; discriminate.
  - split; [apply A; vm_compute; reflexivity|]. split; [apply B|exact C].
Defined.

(** ** Resource bounds *)
Section Bounds.
Context (CheckLowS : list Z -> bool) (checker : SignatureChecker) (flags : Z) (v : SigVersion).

Definition elem_ok (e : list Z) : Prop := size e <= MAX_SCRIPT_SIZE.

Definition bounded (st : eval_state) : Prop :=
  Forall elem_ok (stack st) /\ Forall elem_ok (altstack st) /\
  0 <= nOpCount st <= MAX_OPS_PER_SCRIPT.

(** What an operation may leave behind. *)
Definition bounded_out (n : Z) (o : outcome) : Prop :=
  match o with
  | Next st => bounded st
  | Return s => Forall elem_ok s /\ size s <= n + 1
  | Err _ => True
  end.

Lemma small_elem_ok e : (length e <= 65)%nat -> elem_ok e.
Proof. unfold elem_ok, size, MAX_SCRIPT_SIZE. lia. Qed.

Lemma length_abs_bytes n x : (length (Num.abs_bytes n x) <= n)%nat.
Proof.
  revert x. induction n as [|n IH]; intros x; cbn [Num.abs_bytes]; [apply Nat.le_0_l|].
  destruct (x =? 0); cbn [length]; [lia|]. specialize (IH (Z.shiftr x 8)). lia.
Qed.

Lemma getvch_ok n : elem_ok (Num.getvch n).
Proof.
  apply small_elem_ok. unfold Num.getvch, Num.serialize. destruct (n =? 0); [cbn; lia|].
  match goal with |- context [Num.abs_bytes 8 ?x] => pose proof (length_abs_bytes 8 x) as H;
    destruct (negb _); [rewrite length_app; cbn [length]; lia|] end.
  destruct (n <? 0); [|lia]. unfold Num.map_back.
  rewrite length_app, removelast_firstn_len, length_firstn. cbn [length]. lia.
Qed.

Lemma bool_ok b : elem_ok (vch_of_bool b).
Proof. apply small_elem_ok. destruct b; cbn; lia. Qed.

#[local] Hint Resolve getvch_ok bool_ok : hydra.

Ltac inv_elems :=
  repeat match goal with
  | H : Forall elem_ok (_ :: _) |- _ => apply Forall_cons_iff in H; destruct H
  end.

Ltac elems := inv_elems; repeat (apply Forall_cons); auto with hydra.

Lemma rearrange_ok opcode s s' :
  Forall elem_ok s -> rearrange opcode s = Some s' -> Forall elem_ok s'.
Proof.
  intros Hs. unfold rearrange.
  repeat match goal with
  | |- (if ?b then _ else _) = _ -> _ => destruct b
  | |- match ?s with [] => _ | _ => _ end = _ -> _ => destruct s; try discriminate
  end; try discriminate; injection 1 as <-; try (destruct (CastToBool _)); elems.
Qed.

Lemma with_num_ok n e f k j : (forall bn, bounded_out n (k bn)) -> bounded_out n (with_num e f j k).
Proof. intros H. unfold with_num. destruct (Num.of_vch e f j); [apply H|exact I]. Qed.

Lemma Forall_remove_nth {A : Type} (P : A -> Prop) i l :
  Forall P l -> Forall P (firstn i l ++ skipn (S i) l).
Proof. intros H. apply Forall_app. split; [now apply Forall_firstn|now apply Forall_skipn]. Qed.

Lemma nth_elem_ok i s : Forall elem_ok s -> elem_ok (nth i s []).
Proof.
  intros H. destruct (nth_in_or_default i s []) as [Hi | ->].
  - rewrite Forall_forall in H. auto.
  - apply small_elem_ok. cbn. lia.
Qed.

Lemma pop_arguments_ok n ok ikey2 s s' :
  Forall elem_ok s -> pop_arguments flags n ok ikey2 s = Some s' -> Forall elem_ok s'.
Proof.
  revert ikey2 s. induction n as [|n IH]; intros ikey2 s Hs; cbn [pop_arguments].
  - now injection 1 as <-.
  - destruct (_ && _)%bool; [discriminate|]. apply IH. now destruct Hs.
Qed.

Lemma checkmultisig_ok n opcode st :
  bounded st -> bounded_out n (op_checkmultisig CheckLowS checker flags v opcode st).
Proof.
  intros (Hs & Ha & Hn). unfold op_checkmultisig.
  destruct (size (stack st) <? 1); [exact I|]. apply with_num_ok. intros bn.
  destruct (_ || _)%bool eqn:Ek; [exact I|].
  apply orb_false_iff in Ek. destruct Ek as [Ek _]. apply Z.ltb_ge in Ek.
  cbn [nOpCount set_nOpCount stack pbegincodehash].
  destruct (Z.ltb_spec MAX_OPS_PER_SCRIPT (nOpCount st + Num.getint bn)) as [|Hn']; [exact I|].
  destruct (size (stack st) <? _); [exact I|]. apply with_num_ok. intros bm.
  destruct (_ || _)%bool; [exact I|]. destruct (size (stack st) <? _); [exact I|].
  destruct (drop_signatures _ _ _ _ _ _) as [code|]; [|exact I].
  destruct (check_signatures _ _ _ _ _ _ _ _ _ _ _) as [ok|]; [|exact I].
  match goal with |- context [pop_arguments flags ?a ?b ?c ?d] =>
    pose proof (pop_arguments_ok a b c d) as Hp; destruct (pop_arguments flags a b c d) as [[|dummy s]|] end;
    try exact I.
  specialize (Hp _ Hs eq_refl). inv_elems.
  destruct (has flags SCRIPT_VERIFY_NULLDUMMY && _)%bool; [exact I|].
  destruct (opcode =? OP_CHECKMULTISIGVERIFY), ok; cbn [bounded_out]; try exact I;
    unfold bounded; cbn [stack altstack nOpCount set_stack set_nOpCount]; repeat split;
    auto with hydra; try lia; elems.
Qed.

Lemma hash_ok opcode st : bounded st -> bounded_out 0 (op_hash opcode st).
Proof.
  intros (Hs & Ha & Hn). unfold op_hash. destruct (stack st) as [|e s] eqn:E; [exact I|].
  inv_elems. unfold bounded_out, bounded. cbn [stack altstack nOpCount set_stack].
  repeat split; auto; try apply Hn. apply Forall_cons; [|assumption].
  repeat match goal with |- context [if ?b then _ else _] => destruct b end; apply small_elem_ok;
    rewrite ?length_digest_ripemd160, ?length_digest_sha1, ?length_digest_sha256,
      ?length_Hash160, ?length_Hash; lia.
Qed.

Lemma checksig_ok opcode st :
  bounded st -> bounded_out 0 (op_checksig CheckLowS checker flags v opcode st).
Proof.
  intros (Hs & Ha & Hn). unfold op_checksig. destruct (stack st) as [|key [|sig s]]; try exact I.
  inv_elems. destruct (drop_signature _ _ _ _); [|exact I].
  destruct (CheckEncodings _ _ _ _ _); [exact I|]. destruct (_ && _)%bool; [exact I|].
  destruct (opcode =? OP_CHECKSIGVERIFY); [destruct (CheckSig _ _ _ _ _); [|exact I]|];
    unfold bounded_out, bounded; cbn [stack altstack nOpCount set_stack]; repeat split;
    auto; try apply Hn; elems.
Qed.

(** The outcomes that do not [Return]. *)
Lemma bounded_out_mono n m o :
  (forall s, o <> Return s) -> bounded_out n o -> bounded_out m o.
Proof. destruct o; cbn; auto. intros H. now destruct (H s). Qed.

Ltac next_ok :=
  unfold bounded_out, bounded; cbn [stack altstack nOpCount set_stack set_altstack set_vfExec
    set_codehash]; repeat split; auto; try lia; elems.

Lemma switch_ok n opcode fExec pc st :
  bounded st -> size (opcode :: pc) <= MAX_SCRIPT_SIZE -> size (stack st) <= n ->
  bounded_out n (switch CheckLowS checker flags v opcode fExec pc st).
Proof.
  intros Hb Hpc Hn. pose proof Hb as (Hs & Ha & Hc). unfold switch.
  repeat match goal with
  | |- bounded_out _ (if ?b then _ else _) => destruct b
  end; try exact I; try exact Hb.
  - unfold op_push_number. next_ok.
  - unfold op_checklocktimeverify. destruct (negb _); [exact Hb|].
    destruct (stack st); [exact I|]. apply with_num_ok. intros bn.
    destruct (bn <? 0); [exact I|]. destruct (negb _); [exact I|exact Hb].
  - unfold op_checksequenceverify. destruct (negb _); [exact Hb|].
    destruct (stack st); [exact I|]. apply with_num_ok. intros bn.
    destruct (bn <? 0); [exact I|]. destruct (negb _); [exact Hb|]. destruct (negb _); [exact I|exact Hb].
  - unfold op_nop. destruct (has _ _); [exact I|exact Hb].
  - unfold op_if. destruct fExec; [|next_ok]. destruct (stack st) as [|e s]; [exact I|].
    destruct (_ && _)%bool; [exact I|]. next_ok.
  - unfold op_else. destruct (vfExec st); [exact I|exact Hb].
  - unfold op_endif. destruct (vfExec st); [exact I|exact Hb].
  - unfold op_verify. destruct (stack st) as [|e s]; [exact I|]. destruct (CastToBool e); [next_ok|exact I].
  - unfold op_toaltstack. destruct (stack st) as [|e s]; [exact I|]. next_ok.
  - unfold op_fromaltstack. destruct (altstack st) as [|e s]; [exact I|]. next_ok.
  - unfold op_rearrange. pose proof (rearrange_ok opcode (stack st)) as Hr.
    destruct (rearrange opcode (stack st)) as [s|]; [|exact I]. specialize (Hr s Hs eq_refl). next_ok.
  - unfold op_pick_roll. destruct (stack st) as [|e [|e' s]]; try exact I.
    apply with_num_ok. intros bn. destruct (_ || _)%bool; [exact I|]. inv_elems.
    assert (Hs' : Forall elem_ok (e' :: s)) by now apply Forall_cons.
    unfold bounded_out, bounded. cbn [stack altstack nOpCount set_stack]. repeat split; auto; try lia.
    apply Forall_cons; [now apply nth_elem_ok|].
    destruct (opcode =? OP_ROLL); [now apply Forall_remove_nth|exact Hs'].
  - unfold op_size. destruct (stack st) as [|e s]; [exact I|]. next_ok.
  - unfold op_equal. destruct (stack st) as [|e [|e' s]]; try exact I.
    destruct (opcode =? OP_EQUALVERIFY); [destruct (list_eq_dec _ _ _)|]; try exact I; next_ok.
  - unfold op_unary. destruct (stack st) as [|e s]; [exact I|]. apply with_num_ok. intros bn. next_ok.
  - unfold op_binary. destruct (stack st) as [|e [|e' s]]; try exact I.
    do 2 (apply with_num_ok; intros ?).
    destruct (opcode =? OP_NUMEQUALVERIFY); [destruct (CastToBool _)|]; try exact I; next_ok.
  - unfold op_within. destruct (stack st) as [|e [|e' [|e'' s]]]; try exact I.
    do 3 (apply with_num_ok; intros ?). next_ok.
  - apply (bounded_out_mono 0); [unfold op_hash; now destruct (stack st)|now apply hash_ok].
  - apply (bounded_out_mono 0); [|now apply checksig_ok].
    unfold op_checksig. intros s'. destruct (stack st) as [|? [|? ?]]; try discriminate.
    destruct (drop_signature _ _ _ _); [|discriminate]. destruct (CheckEncodings _ _ _ _ _); [discriminate|].
    destruct (_ && _)%bool; [discriminate|].
    destruct (opcode =? OP_CHECKSIGVERIFY); [destruct (CheckSig _ _ _ _ _)|]; discriminate.
  - now apply checkmultisig_ok.
  - split; [exact Hs|lia].
  - split; [apply Forall_cons; assumption|]. unfold size in *. cbn [length]. lia.
Qed.

Lemma eval_op_ok n opcode data pc st :
  bounded st -> size (opcode :: pc) <= MAX_SCRIPT_SIZE -> size (stack st) <= n ->
  bounded_out n (eval_op CheckLowS checker flags v opcode data pc st).
Proof.
  intros (Hs & Ha & Hc) Hpc Hn. unfold eval_op.
  destruct (Z.ltb_spec MAX_SCRIPT_ELEMENT_SIZE (size data)) as [|Hd]; [exact I|].
  remember (if OP_16 <? opcode then set_nOpCount st (nOpCount st + 1) else st) as st1 eqn:E1.
  assert (Hst : stack st1 = stack st /\ altstack st1 = altstack st /\
                nOpCount st1 = nOpCount st + (if OP_16 <? opcode then 1 else 0)).
  { subst st1. destruct (OP_16 <? opcode); cbn; repeat split; lia. }
  clear E1. destruct Hst as (E1 & E2 & E3).
  destruct ((OP_16 <? opcode) && (MAX_OPS_PER_SCRIPT <? nOpCount st1))%bool eqn:Eo; [exact I|].
  assert (Hb1 : bounded st1).
  { unfold bounded. rewrite E1, E2. repeat split; auto.
    - rewrite E3. destruct (OP_16 <? opcode); lia.
    - destruct (OP_16 <? opcode); [|lia]. cbn [andb] in Eo. apply Z.ltb_ge in Eo. exact Eo. }
  clear Eo.
  destruct (is_disabled opcode); [exact I|]. destruct (_ && _ && _)%bool; [exact I|].
  destruct (_ && _)%bool.
  - destruct (_ && _)%bool; [exact I|]. destruct Hb1 as (Hs1 & Ha1 & Hc1).
    next_ok. unfold elem_ok, MAX_SCRIPT_SIZE, MAX_SCRIPT_ELEMENT_SIZE in *. lia.
  - destruct (_ || _)%bool; [|exact Hb1]. apply switch_ok; [exact Hb1|exact Hpc|]. now rewrite E1.
Qed.

Lemma eval_ops_ok l d st s' :
  bounded st -> size (stack st) <= MAX_STACK_SIZE ->
  Forall (fun o => size (Scr.rest_of o) < MAX_SCRIPT_SIZE) l ->
  eval_ops CheckLowS checker flags v l d st = inl s' ->
  Forall elem_ok s' /\ size s' <= MAX_STACK_SIZE + 1.
Proof.
  revert st. induction l as [|o l IH]; intros st Hb Hn Hl; cbn [eval_ops].
  - destruct (negb d); [discriminate|]. destruct (vfExec st); [|discriminate].
    injection 1 as <-. split; [apply Hb|lia].
  - apply Forall_cons_iff in Hl. destruct Hl as [Ho Hl].
    assert (Hpc : size (Scr.opcode_of o :: Scr.rest_of o) <= MAX_SCRIPT_SIZE)
      by (unfold size in *; cbn [length]; lia).
    pose proof (eval_op_ok MAX_STACK_SIZE (Scr.opcode_of o) (Scr.data_of o) (Scr.rest_of o) st Hb Hpc Hn) as H.
    destruct (eval_op _ _ _ _ _ _ _ st) as [st'|s|e]; [|now injection 1 as <-|discriminate].
    destruct (Z.ltb_spec MAX_STACK_SIZE (size (stack st') + size (altstack st'))); [discriminate|].
    apply IH; auto. pose proof (size_nonneg (altstack st')). lia.
Qed.

Lemma ops_rest_shorter script :
  Forall (fun o => size (Scr.rest_of o) < size script) (fst (Scr.ops script)).
Proof.
  remember (length script) as n eqn:En. revert script En.
  induction n as [n IH] using (well_founded_induction lt_wf). intros script En.
  destruct (Scr.GetScriptOp script) as [[[s' o] e]|] eqn:E.
  - pose proof (GetScriptOp_shorter _ _ _ _ E) as Hlt. rewrite (ops_step _ _ _ _ E). cbn [fst].
    apply Forall_cons; [unfold size; cbn; lia|].
    eapply Forall_impl; [|apply (IH (length s') ltac:(lia) s' eq_refl)].
    unfold size. cbn. intros a Ha. lia.
  - unfold Scr.ops. destruct script as [|op s]; [constructor|]. cbn [length Scr.ops_from]. rewrite E.
    constructor.
Qed.

(** C30: evaluation is bounded: from a stack of at most 1000 elements of at most
    [MAX_SCRIPT_SIZE] bytes, every successful evaluation of any script leaves at
    most 1001 elements (1001 only through the contract opcodes, which return
    before the size check) and no element longer than [MAX_SCRIPT_SIZE]. *)
Theorem eval_stack_bounds s script s' :
  size s <= MAX_STACK_SIZE -> Forall elem_ok s ->
  EvalScript CheckLowS checker flags v s script = inl s' ->
  Forall elem_ok s' /\ size s' <= MAX_STACK_SIZE + 1.
Proof.
  intros Hn Hs. unfold EvalScript.
  destruct (Z.ltb_spec MAX_SCRIPT_SIZE (size script)) as [|Hsz]; [discriminate|].
  pose proof (ops_rest_shorter script) as Hr. destruct (Scr.ops script) as [l d]. cbn [fst] in Hr.
  apply eval_ops_ok.
  - repeat split; cbn; auto; try lia. discriminate.
  - exact Hn.
  - eapply Forall_impl; [|exact Hr]. cbn. intros a Ha. lia.
Qed.

End Bounds.

Lemma eval_stack_bounds_witness :
  Forall elem_ok [[1]] /\ size [[1]] <= MAX_STACK_SIZE + 1.
Proof.
  apply (eval_stack_bounds (fun _ => true) BaseSignatureChecker 0 BASE [] [OP_1]).
  - discriminate.
  - constructor.
  - vm_compute. reflexivity.
Defined.

(** ** Pay to public key hash *)
Section P2PKH.
Context (CheckLowS : list Z -> bool) (checker : SignatureChecker) (flags : Z).

(** [OP_DUP OP_HASH160 <h> OP_EQUALVERIFY OP_CHECKSIG]. *)
Definition p2pkh_script (h : list Z) : list Z :=
  [OP_DUP; OP_HASH160] ++ Scr.push_vch [] h ++ [OP_EQUALVERIFY; OP_CHECKSIG].

Lemma push_small b : size b < 76 -> Scr.push_vch [] b = size b :: b.
Proof.
  intros Hb. pose proof (size_nonneg b). unfold Scr.push_vch, OP_PUSHDATA1.
  destruct (Z.ltb_spec (size b) 76); [|lia]. rewrite u8_small by (unfold is_u8; lia). reflexivity.
Qed.

Lemma ops_push_small b t :
  size b < 76 -> size (b ++ t) < two32 - 1 ->
  Scr.ops ((size b :: b) ++ t) =
  ((size b, b, t) :: fst (Scr.ops t), snd (Scr.ops t)).
Proof.
  intros Hb Ht. apply ops_step.
  destruct (encodes_small (size b) b) as [_ H].
  - pose proof (size_nonneg b). unfold OP_PUSHDATA1. lia.
  - reflexivity.
  - apply H. unfold size in *. cbn [app length] in *. lia.
Qed.

Lemma ops_single op t :
  OP_PUSHDATA4 < op -> Scr.ops (op :: t) = ((op, [], t) :: fst (Scr.ops t), snd (Scr.ops t)).
Proof.
  intros H. apply ops_step. cbn [Scr.GetScriptOp].
  destruct (Z.leb_spec op OP_PUSHDATA4); [lia|reflexivity].
Qed.

(** A push that is neither a small number nor too long is minimal. *)
Lemma minimal_direct_push b : 2 <= size b <= 75 -> CheckMinimalPush b (size b) = true.
Proof.
  intros Hb. unfold CheckMinimalPush.
  destruct (Z.eqb_spec (size b) 0); [lia|]. destruct (Z.eqb_spec (size b) 1); [lia|]. cbn [andb].
  destruct (Z.leb_spec (size b) 75); [|lia]. apply Z.eqb_refl.
Qed.

Lemma eval_push v b pc st :
  2 <= size b <= 75 -> vfExec st = [] ->
  eval_op CheckLowS checker flags v (size b) b pc st = Next (set_stack st (b :: stack st)).
Proof.
  intros Hb Hv. unfold eval_op. rewrite Hv. cbn [forallb].
  destruct (Z.ltb_spec MAX_SCRIPT_ELEMENT_SIZE (size b)) as [H|_];
    [unfold MAX_SCRIPT_ELEMENT_SIZE in H; lia|].
  destruct (Z.ltb_spec OP_16 (size b)) as [H|_]; [unfold OP_16 in H; lia|]. cbn [andb].
  assert (Hd : is_disabled (size b) = false).
  { unfold is_disabled. cbn [existsb]. unfold OP_CAT, OP_SUBSTR, OP_LEFT, OP_RIGHT, OP_INVERT, OP_AND,
      OP_OR, OP_XOR, OP_2MUL, OP_2DIV, OP_MUL, OP_DIV, OP_MOD, OP_LSHIFT, OP_RSHIFT.
    repeat (match goal with |- context [size b =? ?n] => destruct (Z.eqb_spec (size b) n); [lia|] end).
    reflexivity. }
  rewrite Hd. destruct (Z.eqb_spec (size b) OP_CODESEPARATOR) as [H|_];
    [unfold OP_CODESEPARATOR in H; lia|]. cbn [andb].
  destruct (Z.leb_spec (size b) OP_PUSHDATA4) as [_|H]; [|unfold OP_PUSHDATA4 in H; lia].
  rewrite minimal_direct_push by exact Hb. cbn [negb]. now rewrite andb_false_r.
Qed.

Lemma ops_scriptsig sig key :
  2 <= size sig <= 75 -> 2 <= size key <= 75 ->
  Scr.ops (Scr.push_vch (Scr.push_vch [] sig) key) =
  ([(size sig, sig, size key :: key); (size key, key, [])], true).
Proof.
  intros Hs Hk.
  assert (E : Scr.push_vch (Scr.push_vch [] sig) key = (size sig :: sig) ++ (size key :: key)).
  { rewrite push_vch_app. unfold push_bytes. now rewrite !push_small by lia. }
  rewrite E, ops_push_small; [|lia|].
  - rewrite <- (app_nil_r (size key :: key)) at 2 3. rewrite ops_push_small; [reflexivity|lia|].
    rewrite app_nil_r. unfold two32. lia.
  - rewrite size_app. unfold size in *. unfold two32. cbn [length]. lia.
Qed.

Lemma eval_scriptsig sig key :
  2 <= size sig <= 75 -> 2 <= size key <= 75 ->
  EvalScript CheckLowS checker flags BASE [] (Scr.push_vch (Scr.push_vch [] sig) key) = inl [key; sig].
Proof.
  intros Hs Hk. unfold EvalScript.
  assert (Hz : size (Scr.push_vch (Scr.push_vch [] sig) key) <= 152).
  { rewrite push_vch_app. unfold push_bytes. rewrite !push_small, size_app by lia.
    unfold size in *. cbn [length]. lia. }
  destruct (Z.ltb_spec MAX_SCRIPT_SIZE (size (Scr.push_vch (Scr.push_vch [] sig) key))) as [H|_];
    [unfold MAX_SCRIPT_SIZE in H; lia|].
  rewrite ops_scriptsig by assumption.
  cbn [eval_ops]. unfold Scr.opcode_of, Scr.data_of, Scr.rest_of. cbn [fst snd].
  rewrite eval_push by (lia || reflexivity). cbn [stack altstack set_stack].
  change (MAX_STACK_SIZE <? size [sig] + size []) with false. cbn [set_stack].
  rewrite eval_push by (lia || reflexivity). reflexivity.
Qed.

Lemma push_only_sig sig key :
  2 <= size sig <= 75 -> 2 <= size key <= 75 ->
  Scr.IsPushOnly (Scr.push_vch (Scr.push_vch [] sig) key) = true.
Proof.
  intros Hs Hk. unfold Scr.IsPushOnly. rewrite ops_scriptsig by assumption.
  cbn [forallb]. unfold Scr.opcode_of. cbn [fst].
  destruct (Z.leb_spec (size sig) OP_16) as [_|H]; [|unfold OP_16 in H; lia].
  destruct (Z.leb_spec (size key) OP_16) as [_|H]; [|unfold OP_16 in H; lia]. reflexivity.
Qed.

Lemma eval_ops_next l d o st st' :
  eval_op CheckLowS checker flags BASE (Scr.opcode_of o) (Scr.data_of o) (Scr.rest_of o) st = Next st' ->
  (MAX_STACK_SIZE <? size (stack st') + size (altstack st')) = false ->
  eval_ops CheckLowS checker flags BASE (o :: l) d st =
  eval_ops CheckLowS checker flags BASE l d st'.
Proof. intros H1 H2. cbn [eval_ops]. now rewrite H1, H2. Qed.

(** The result of the output script on a signature and a key. *)
Definition p2pkh_result (h sig key : list Z) : list (list Z) + ScriptError :=
  if list_eq_dec Z.eq_dec h (Hash160 key) then
    match op_checksig CheckLowS checker flags BASE OP_CHECKSIG
            (EvalState [key; sig] [] [] 4 (p2pkh_script h)) with
    | Next st => inl (stack st)
    | Return s => inl s
    | Err e => inr e
    end
  else inr SCRIPT_ERR_EQUALVERIFY.

Lemma eval_p2pkh h sig key :
  size h = 20 ->
  EvalScript CheckLowS checker flags BASE [key; sig] (p2pkh_script h) = p2pkh_result h sig key.
Proof.
  intros Hh. unfold EvalScript.
  assert (E : p2pkh_script h =
    OP_DUP :: OP_HASH160 :: (size h :: h) ++ [OP_EQUALVERIFY; OP_CHECKSIG]).
  { unfold p2pkh_script. rewrite push_small by lia. reflexivity. }
  assert (Hz : size (p2pkh_script h) = 25).
  { rewrite E. unfold size in *. cbn [length app]. rewrite length_app. cbn [length]. lia. }
  destruct (Z.ltb_spec MAX_SCRIPT_SIZE (size (p2pkh_script h))) as [H|_];
    [unfold MAX_SCRIPT_SIZE in H; lia|].
  assert (Eops : Scr.ops (p2pkh_script h) =
    ([(OP_DUP, [], OP_HASH160 :: (size h :: h) ++ [OP_EQUALVERIFY; OP_CHECKSIG]);
      (OP_HASH160, [], (size h :: h) ++ [OP_EQUALVERIFY; OP_CHECKSIG]);
      (size h, h, [OP_EQUALVERIFY; OP_CHECKSIG]);
      (OP_EQUALVERIFY, [], [OP_CHECKSIG]); (OP_CHECKSIG, [], [])], true)).
  { rewrite E. rewrite ops_single by reflexivity. rewrite ops_single by reflexivity.
    rewrite ops_push_small; [reflexivity|lia|].
    rewrite size_app. unfold two32. unfold size in *. cbn [length]. lia. }
  rewrite Eops. unfold p2pkh_result. remember (p2pkh_script h) as spk eqn:Es.
  rewrite (eval_ops_next _ _ _ _ (EvalState [key; key; sig] [] [] 1 spk)); [|reflexivity..].
  rewrite (eval_ops_next _ _ _ _ (EvalState [Hash160 key; key; sig] [] [] 2 spk)); [|reflexivity..].
  rewrite (eval_ops_next _ _ _ _ (EvalState [h; Hash160 key; key; sig] [] [] 2 spk));
    [|apply (eval_push BASE h); [lia|reflexivity]|reflexivity].
  destruct (list_eq_dec Z.eq_dec h (Hash160 key)) as [Eh|Nh].
  - rewrite (eval_ops_next _ _ _ _ (EvalState [key; sig] [] [] 3 spk)); [| |reflexivity].
    + cbn [eval_ops]. unfold Scr.opcode_of, Scr.data_of, Scr.rest_of. cbn [fst snd].
      change (eval_op CheckLowS checker flags BASE OP_CHECKSIG [] [] (EvalState [key; sig] [] [] 3 spk))
        with (op_checksig CheckLowS checker flags BASE OP_CHECKSIG (EvalState [key; sig] [] [] 4 spk)).
      unfold op_checksig. cbn [stack pbegincodehash].
      destruct (drop_signature _ _ _ _); [|reflexivity]. destruct (CheckEncodings _ _ _ _ _); [reflexivity|].
      destruct (_ && _)%bool; reflexivity.
    + unfold Scr.opcode_of, Scr.data_of, Scr.rest_of. cbn [fst snd].
      change (eval_op CheckLowS checker flags BASE OP_EQUALVERIFY [] [OP_CHECKSIG]
                (EvalState [h; Hash160 key; key; sig] [] [] 2 spk))
        with (op_equal OP_EQUALVERIFY (EvalState [h; Hash160 key; key; sig] [] [] 3 spk)).
      unfold op_equal. cbn [stack]. destruct (list_eq_dec Z.eq_dec (Hash160 key) h); [reflexivity|congruence].
  - cbn [eval_ops]. unfold Scr.opcode_of, Scr.data_of, Scr.rest_of. cbn [fst snd].
    change (eval_op CheckLowS checker flags BASE OP_EQUALVERIFY [] [OP_CHECKSIG]
              (EvalState [h; Hash160 key; key; sig] [] [] 2 spk))
      with (op_equal OP_EQUALVERIFY (EvalState [h; Hash160 key; key; sig] [] [] 3 spk)).
    unfold op_equal. cbn [stack]. destruct (list_eq_dec Z.eq_dec (Hash160 key) h); [congruence|reflexivity].
Qed.

(** C4: a pay-to-public-key-hash output is spent by a signature and a key exactly
    when the key hashes to the committed value, the signature and key encodings
    satisfy the flags, the signature does not occur in the script where that is
    forbidden, and the checker accepts the signature over the script code; under
    every set of flags that the assertions of [VerifyScript] allow. *)
Theorem p2pkh_spend h sig key :
  flags_ok flags -> size h = 20 -> 2 <= size sig <= 75 -> 2 <= size key <= 75 ->
  (VerifyScript CheckLowS checker flags (Scr.push_vch (Scr.push_vch [] sig) key) (p2pkh_script h) []
     = Pass <->
   Hash160 key = h /\
   exists code, drop_signature flags BASE (p2pkh_script h) sig = inl code /\
     CheckEncodings CheckLowS flags BASE sig key = None /\
     CheckSig checker sig key code BASE = true).
Proof.
  intros Hok Hh Hs Hk. unfold VerifyScript.
  assert (Hpo : Scr.IsPushOnly (Scr.push_vch (Scr.push_vch [] sig) key) = true) by now apply push_only_sig.
  rewrite Hpo, andb_false_r, eval_scriptsig, eval_p2pkh by assumption.
  assert (Hw : Scr.IsWitnessProgram (p2pkh_script h) = None).
  { unfold Scr.IsWitnessProgram. destruct (_ || _)%bool; reflexivity. }
  assert (Hp : Scr.IsPayToScriptHash (p2pkh_script h) = false).
  { unfold Scr.IsPayToScriptHash. unfold Scr.at_. cbn [p2pkh_script app nth].
    change (OP_DUP =? OP_HASH160) with false. now rewrite andb_false_r. }
  rewrite Hw. unfold verify_rest. rewrite Hp, andb_false_r.
  assert (He : verify_end flags [] 1 false = Pass).
  { destruct Hok as [Hc Hwi]. unfold verify_end.
    destruct (has flags SCRIPT_VERIFY_CLEANSTACK), (has flags SCRIPT_VERIFY_P2SH),
      (has flags SCRIPT_VERIFY_WITNESS); try reflexivity;
      try (destruct (Hc eq_refl); discriminate); discriminate (Hwi eq_refl). }
  unfold p2pkh_result, op_checksig. cbn [stack pbegincodehash].
  destruct (list_eq_dec Z.eq_dec h (Hash160 key)) as [<-|Nh]; [|split; [discriminate|intros [E _]; congruence]].
  destruct (drop_signature flags BASE (p2pkh_script h) sig) as [code|];
    [|split; [discriminate|intros (_ & c & E & _); discriminate]].
  destruct (CheckEncodings CheckLowS flags BASE sig key);
    [split; [discriminate|intros (_ & c & _ & E & _); discriminate]|].
  destruct (CheckSig checker sig key code BASE) eqn:Ec; cbn [negb andb].
  - change (OP_CHECKSIG =? OP_CHECKSIGVERIFY) with false. cbn.
    split; [intros _; eauto 6|intros _].
    match goal with |- (if ?b then _ else _) = _ => destruct b end; exact He.
  - split; [|intros (_ & c & E & _ & E'); congruence].
    destruct (has flags SCRIPT_VERIFY_NULLFAIL && _)%bool; [discriminate|].
    change (OP_CHECKSIG =? OP_CHECKSIGVERIFY) with false. cbn. discriminate.
Qed.

End P2PKH.

(** A checker that accepts one signature of one key. *)
Definition demo_checker : SignatureChecker := {|
  CheckSig := fun sig key _ _ => (nth 0 sig 0 =? nth 1 key 0);
  CheckLockTime := fun _ => true;
  CheckSequence := fun _ => true |}.

Lemma p2pkh_spend_witness :
  VerifyScript (fun _ => true) demo_checker 1 (Scr.push_vch (Scr.push_vch [] [7; 7]) [2; 7])
    (p2pkh_script (Hash160 [2; 7])) [] = Pass.
Proof.
  apply (p2pkh_spend (fun _ => true) demo_checker 1 (Hash160 [2; 7]) [7; 7] [2; 7]).
  - split; discriminate.
  - unfold size. now rewrite length_Hash160.
  - split; discriminate.
  - split; discriminate.
  - split; [reflexivity|]. exists (p2pkh_script (Hash160 [2; 7])). split; [vm_compute; reflexivity|].
    split; reflexivity.
Defined.

(** ** Signature encodings *)
Section DER.

(** A positive integer in the shortest big-endian form. *)
Definition der_int (x : list Z) : Prop :=
  match x with
  | [] => False
  | b :: rest => b < 128 /\ (b = 0 -> match rest with [] => True | c :: _ => 128 <= c end)
  end.

(** [0x30 len 0x02 lenR R 0x02 lenS S hashtype]. *)
Definition der_signature (R S : list Z) (hashtype : Z) : list Z :=
  [48; size R + size S + 4; 2; size R] ++ R ++ [2; size S] ++ S ++ [hashtype].

Lemma land_128 b : is_u8 b -> (Z.land b 128 =? 0) = (b <? 128).
Proof.
  intros Hb. unfold is_u8 in Hb.
  assert (E : Z.land b 128 = if b <? 128 then 0 else 128).
  { change 128 with (2 ^ 7) at 1. apply Z.bits_inj'. intros i Hi.
    rewrite Z.land_spec, Z.pow2_bits_eqb by lia.
    assert (Ht : Z.testbit b 7 = negb (b <? 128)).
    { destruct (Z.ltb_spec b 128) as [H|H].
      - cbn [negb]. apply (testbit_small b 7); lia.
      - cbn [negb]. apply Z.testbit_true; [lia|]. change (2 ^ 7) with 128.
        replace (b / 128) with 1 by (apply (Z.div_unique b 128 1 (b - 128)); lia). reflexivity. }
    destruct (Z.eqb_spec 7 i) as [<-|Hne].
    - rewrite Ht, andb_true_r. destruct (b <? 128); reflexivity.
    - rewrite andb_false_r. destruct (b <? 128); [now rewrite Z.bits_0|].
      change 128 with (2 ^ 7). rewrite Z.pow2_bits_false by lia. reflexivity. }
  rewrite E. destruct (b <? 128); reflexivity.
Qed.

Definition int_ok (x : list Z) : bool :=
  match x with
  | [] => false
  | b :: rest =>
      ((b <? 128) && negb ((b =? 0) && match rest with [] => false | c :: _ => c <? 128 end))%bool
  end.

Lemma int_ok_der x : int_ok x = true <-> der_int x.
Proof.
  destruct x as [|b rest]; cbn; [split; [discriminate|contradiction]|].
  rewrite andb_true_iff, Z.ltb_lt, negb_true_iff, andb_false_iff, Z.eqb_neq.
  destruct rest as [|c rest]; rewrite ?Z.ltb_ge; intuition lia.
Qed.

(** A signature cut at the lengths it declares. *)
Definition cut (s0 s1 s2 : Z) (R : list Z) (a : Z) (S : list Z) (ht : Z) : list Z :=
  s0 :: s1 :: s2 :: size R :: R ++ a :: size S :: S ++ [ht].

Lemma size_cut s0 s1 s2 R a S ht : size (cut s0 s1 s2 R a S ht) = size R + size S + 7.
Proof.
  unfold cut, size. cbn [length]. rewrite length_app. cbn [length]. rewrite length_app. cbn [length]. lia.
Qed.

Lemma sig_at_R s0 s1 s2 R a S ht i :
  0 <= i -> sig_at (cut s0 s1 s2 R a S ht) (4 + i) = nth (Z.to_nat i) (R ++ a :: size S :: S ++ [ht]) 0.
Proof.
  intros Hi. unfold sig_at, cut. replace (Z.to_nat (4 + i)) with (4 + Z.to_nat i)%nat by lia. reflexivity.
Qed.

Lemma sig_at_S s0 s1 s2 R a S ht i :
  0 <= i -> sig_at (cut s0 s1 s2 R a S ht) (4 + size R + i) = nth (Z.to_nat i) (a :: size S :: S ++ [ht]) 0.
Proof.
  intros Hi. pose proof (size_nonneg R). replace (4 + size R + i) with (4 + (size R + i)) by lia.
  rewrite sig_at_R by lia. unfold size in *. rewrite app_nth2 by lia. f_equal. lia.
Qed.

Lemma int_ok_at X rest :
  bytes X -> X <> [] ->
  int_ok X =
  (negb (negb (Z.land (nth 0 (X ++ rest) 0) 128 =? 0)) &&
   negb ((1 <? size X) && (nth 0 (X ++ rest) 0 =? 0) && (Z.land (nth 1 (X ++ rest) 0) 128 =? 0)))%bool.
Proof.
  intros Hb Hne. destruct X as [|x [|y X]]; [contradiction| |].
  - apply Forall_cons_iff in Hb as [Hx _]. cbn [app nth int_ok].
    rewrite land_128 by exact Hx. change (1 <? size [x]) with false. cbn [andb negb].
    rewrite negb_involutive, andb_false_r. reflexivity.
  - apply Forall_cons_iff in Hb as [Hx Hb]. apply Forall_cons_iff in Hb as [Hy _].
    cbn [app nth int_ok]. rewrite !land_128 by assumption.
    destruct (Z.ltb_spec 1 (size (x :: y :: X))) as [_|H]; [|unfold size in H; cbn [length] in H; lia].
    cbn [andb]. now rewrite negb_involutive.
Qed.

Lemma if_false_iff (c e : bool) : (if c then false else e) = true <-> c = false /\ e = true.
Proof. destruct c; intuition discriminate. Qed.

Lemma valid_cut s0 s1 s2 R a S ht :
  bytes R -> bytes S ->
  IsValidSignatureEncoding (cut s0 s1 s2 R a S ht) true = true <->
  size R + size S + 7 <= 73 /\ s0 = 48 /\ s1 = size R + size S + 4 /\ s2 = 2 /\ a = 2 /\
  der_int R /\ der_int S.
Proof.
  intros HR HS. pose proof (size_nonneg R) as NR. pose proof (size_nonneg S) as NS.
  unfold IsValidSignatureEncoding. rewrite size_cut.
  change (sig_at (cut s0 s1 s2 R a S ht) 0) with s0. change (sig_at (cut s0 s1 s2 R a S ht) 1) with s1.
  change (sig_at (cut s0 s1 s2 R a S ht) 2) with s2. change (sig_at (cut s0 s1 s2 R a S ht) 3) with (size R).
  replace (5 + size R) with (4 + size R + 1) by lia.
  replace (size R + 4) with (4 + size R + 0) by lia.
  replace (size R + 6) with (4 + size R + 2) by lia.
  replace (size R + 7) with (4 + size R + 3) by lia.
  rewrite !sig_at_S by lia.
  change (sig_at (cut s0 s1 s2 R a S ht) 4) with (sig_at (cut s0 s1 s2 R a S ht) (4 + 0)).
  change (sig_at (cut s0 s1 s2 R a S ht) 5) with (sig_at (cut s0 s1 s2 R a S ht) (4 + 1)).
  rewrite !sig_at_R by lia.
  change (Z.to_nat 0) with 0%nat. change (Z.to_nat 1) with 1%nat.
  change (Z.to_nat 2) with 2%nat. change (Z.to_nat 3) with 3%nat.
  change (nth 0 (a :: size S :: S ++ [ht]) 0) with a.
  change (nth 1 (a :: size S :: S ++ [ht]) 0) with (size S).
  change (nth 2 (a :: size S :: S ++ [ht]) 0) with (nth 0 (S ++ [ht]) 0).
  change (nth 3 (a :: size S :: S ++ [ht]) 0) with (nth 1 (S ++ [ht]) 0).
  rewrite <- !int_ok_der.
  assert (IR : R <> [] -> int_ok R = _) by exact (int_ok_at R (a :: size S :: S ++ [ht]) HR).
  assert (IS : S <> [] -> int_ok S = _) by exact (int_ok_at S [ht] HS).
  set (r0 := nth 0 (R ++ _) 0) in *. set (r1 := nth 1 (R ++ _) 0) in *.
  set (x0 := nth 0 (S ++ [ht]) 0) in *. set (x1 := nth 1 (S ++ [ht]) 0) in *.
  clearbody r0 r1 x0 x1.
  rewrite !if_false_iff, !negb_false_iff, !Z.ltb_ge, !Z.leb_gt, !Z.eqb_eq, !Z.eqb_neq.
  destruct R as [|b R]; [cbn [int_ok]; change (size (@nil Z)) with 0; intuition discriminate|].
  destruct S as [|c S]; [cbn [int_ok]; change (size (@nil Z)) with 0; intuition discriminate|].
  rewrite IR, IS by discriminate. clear IR IS.
  rewrite !andb_true_iff, !negb_true_iff, !negb_false_iff, !Z.eqb_eq.
  unfold size in *. cbn [length] in *.
  intuition lia.
Qed.

(** A byte string that declares lengths that fit is cut at them. *)
Lemma valid_is_cut sig :
  bytes sig -> IsValidSignatureEncoding sig true = true ->
  exists s0 s1 s2 R a S ht, sig = cut s0 s1 s2 R a S ht.
Proof.
  intros Hb. unfold IsValidSignatureEncoding.
  rewrite !if_false_iff, !negb_false_iff, !Z.ltb_ge, !Z.leb_gt, !Z.eqb_eq.
  intros (H9 & _ & _ & _ & Hlen & Hsum & _).
  do 4 (destruct sig as [|? sig]; [unfold size in H9; cbn [length] in H9; lia|]).
  change (sig_at (z :: z0 :: z1 :: z2 :: sig) 3) with z2 in *.
  assert (Hr : 0 <= z2) by (do 3 (apply Forall_inv_tail in Hb); apply Forall_inv in Hb; unfold is_u8 in Hb; lia).
  assert (Hbt : bytes sig) by (do 4 (apply Forall_inv_tail in Hb); exact Hb).
  set (r := Z.to_nat z2). set (R := firstn r sig).
  assert (HR : length R = r).
  { subst R. rewrite length_firstn. unfold size in Hlen. cbn [length] in Hlen. lia. }
  assert (Es : sig = R ++ skipn r sig) by (symmetry; apply firstn_skipn).
  assert (Ht : (length (skipn r sig) >= 2)%nat).
  { rewrite length_skipn. unfold size in Hlen. cbn [length] in Hlen. lia. }
  destruct (skipn r sig) as [|a [|lenS u]] eqn:Eu; cbn [length] in Ht; try lia.
  assert (HlS : sig_at (z :: z0 :: z1 :: z2 :: sig) (5 + z2) = lenS).
  { unfold sig_at. replace (Z.to_nat (5 + z2)) with (4 + (r + 1))%nat by lia. cbn [Nat.add nth].
    rewrite Es, app_nth2 by lia. replace (r + 1 - length R)%nat with 1%nat by lia. reflexivity. }
  rewrite HlS in Hsum.
  assert (Hu : size u = lenS + 1).
  { assert (Hl : length sig = (length R + S (S (length u)))%nat)
      by (rewrite Es at 1; rewrite length_app; reflexivity).
    unfold size in *. cbn [length] in *. lia. }
  assert (HS0 : 0 <= lenS).
  { rewrite Es in Hbt. apply Forall_app in Hbt as [_ Hbt]. apply Forall_inv_tail in Hbt.
    apply Forall_inv in Hbt. unfold is_u8 in Hbt. lia. }
  assert (Hune : u <> []) by (intros ->; unfold size in Hu; cbn in Hu; lia).
  destruct (snoc_inv u Hune) as (Sv & ht & ->).
  exists z, z0, z1, R, a, Sv, ht. unfold cut.
  rewrite size_snoc in Hu. rewrite Es at 1.
  assert (HsR : size R = z2) by (unfold size; rewrite HR; lia).
  rewrite HsR. replace (size Sv) with lenS by lia. reflexivity.
Qed.

(** C38: [IsValidSignatureEncoding] accepts a byte string exactly when it is the
    strict DER encoding of two positive integers in their shortest form followed
    by a hash-type byte, of at most 73 bytes in all. *)
Theorem strict_der sig :
  bytes sig ->
  (IsValidSignatureEncoding sig true = true <->
   exists R S ht, sig = der_signature R S ht /\ der_int R /\ der_int S /\ size sig <= 73).
Proof.
  intros Hb. split.
  - intros H. destruct (valid_is_cut sig Hb H) as (s0 & s1 & s2 & R & a & S & ht & E). subst sig.
    assert (HR : bytes R /\ bytes S).
    { unfold cut in Hb. do 4 apply Forall_inv_tail in Hb. apply Forall_app in Hb as [HR Hb].
      do 2 apply Forall_inv_tail in Hb. apply Forall_app in Hb as [HS _]. now split. }
    apply valid_cut in H; try apply HR. destruct H as (H73 & -> & -> & -> & -> & HRi & HSi).
    exists R, S, ht. rewrite size_cut. auto.
  - intros (R & S & ht & -> & HR & HS & H73).
    change (der_signature R S ht) with (cut 48 (size R + size S + 4) 2 R 2 S ht) in *.
    rewrite size_cut in H73.
    unfold cut in Hb. do 4 apply Forall_inv_tail in Hb. apply Forall_app in Hb as [HbR Hb].
    do 2 apply Forall_inv_tail in Hb. apply Forall_app in Hb as [HbS _].
    apply valid_cut; auto. repeat split; auto. 
Qed.

Lemma strict_der_witness :
  IsValidSignatureEncoding (der_signature [1] [2; 3] 1) true = true.
Proof.
  apply strict_der.
  - unfold der_signature. cbn [app size length Z.of_nat]. bytes_concrete.
  - exists [1], [2; 3], 1. repeat split; cbn; try lia; discriminate.
Defined.

End DER.
