(* ===== verification/Primitives.v ===== *)
(** * Transactions and blocks: [src/src/primitives], [src/src/amount.h]

    The objects the node stores and relays, their wire formats (with and
    without witnesses) and their identifiers.  [CTransaction] and
    [CMutableTransaction] have the same fields; the cached hashes of the
    former are the functions [GetHash] and [GetWitnessHash]. *)
From Stdlib Require Import ZArith Lia List Bool.
From S2P Require Import Prelude Serialize Script Hash.
Import ListNotations.
#[local] Open Scope hydra_scope.

(** ** Amounts *)

Definition COIN : Z := 100000000.
Definition CENT : Z := 1000000.
Definition MAX_MONEY : Z := 107822406 * COIN + 25 * (COIN / 100).
Definition MoneyRange (nValue : Z) : bool := (0 <=? nValue) && (nValue <=? MAX_MONEY).

(** ** The objects *)

Record COutPoint : Type := mkOutPoint { prevout_hash : list Z; prevout_n : Z }.

Definition NULL_INDEX : Z := 4294967295.
Definition uint256_zero : list Z := repeat 0 32.

(** [base_blob::IsNull] *)
Definition blob_IsNull (b : list Z) : bool := forallb (Z.eqb 0) b.

Fixpoint blob_eqb (a b : list Z) : bool :=
  match a, b with
  | [], [] => true
  | x :: a', y :: b' => (x =? y) && blob_eqb a' b'
  | _, _ => false
  end.

Definition OutPoint_SetNull : COutPoint := mkOutPoint uint256_zero NULL_INDEX.

Definition OutPoint_IsNull (o : COutPoint) : bool :=
  blob_IsNull (prevout_hash o) && (prevout_n o =? NULL_INDEX).

Definition OutPoint_eqb (a b : COutPoint) : bool :=
  blob_eqb (prevout_hash a) (prevout_hash b) && (prevout_n a =? prevout_n b).

Record CTxIn : Type := mkTxIn {
  prevout : COutPoint;
  scriptSig : list Z;
  nSequence : Z;
  scriptWitness : list (list Z)
}.

Definition SEQUENCE_FINAL : Z := 4294967295.
Definition SEQUENCE_LOCKTIME_DISABLE_FLAG : Z := Z.shiftl 1 31.
Definition SEQUENCE_LOCKTIME_TYPE_FLAG : Z := Z.shiftl 1 22.
Definition SEQUENCE_LOCKTIME_MASK : Z := 65535.
Definition SEQUENCE_LOCKTIME_GRANULARITY : Z := 9.

Record CTxOut : Type := mkTxOut { nValue : Z; scriptPubKey : list Z }.

Definition TxOut_SetNull : CTxOut := mkTxOut (-1) [].
Definition TxOut_IsNull (o : CTxOut) : bool := nValue o =? -1.
Definition TxOut_SetEmpty : CTxOut := mkTxOut 0 [].
Definition TxOut_IsEmpty (o : CTxOut) : bool :=
  (nValue o =? 0) && match scriptPubKey o with [] => true | _ => false end.

Record CTransaction : Type := mkTransaction {
  vin : list CTxIn;
  vout : list CTxOut;
  nVersion : Z;
  nLockTime : Z
}.

Definition IsNull (tx : CTransaction) : bool :=
  match vin tx, vout tx with [], [] => true | _, _ => false end.

Definition IsCoinBase (tx : CTransaction) : bool :=
  match vin tx with
  | [i] => OutPoint_IsNull (prevout i) && (1 <=? length (vout tx))%nat
  | _ => false
  end.

Definition IsCoinStake (tx : CTransaction) : bool :=
  match vin tx, vout tx with
  | i :: _, o :: _ :: _ => negb (OutPoint_IsNull (prevout i)) && TxOut_IsEmpty o
  | _, _ => false
  end.

Definition IsNormalTx (tx : CTransaction) : bool := negb (IsCoinBase tx) && negb (IsCoinStake tx).

Definition HasWitness (tx : CTransaction) : bool :=
  existsb (fun i => match scriptWitness i with [] => false | _ => true end) (vin tx).

Definition HasCreateOrCall (tx : CTransaction) : bool :=
  existsb (fun o => Scr.HasOpCreate (scriptPubKey o) || Scr.HasOpCall (scriptPubKey o)) (vout tx).
Definition HasOpCoinstakeCall (tx : CTransaction) : bool :=
  existsb (fun o => Scr.HasOpCoinstakeCall (scriptPubKey o)) (vout tx).
Definition HasOpSpend (tx : CTransaction) : bool :=
  existsb (fun i => Scr.HasOpSpend (scriptSig i)) (vin tx).
Definition HasOpCreate (tx : CTransaction) : bool :=
  existsb (fun o => Scr.HasOpCreate (scriptPubKey o)) (vout tx).
Definition HasOpCall (tx : CTransaction) : bool :=
  existsb (fun o => Scr.HasOpCall (scriptPubKey o)) (vout tx).
Definition HasOpSender (tx : CTransaction) : bool :=
  existsb (fun o => Scr.HasOpSender (scriptPubKey o)) (vout tx).
Definition GetCreateOrCall (tx : CTransaction) : Z :=
  (if HasOpCall tx then 1 else 0) + (if HasOpCreate tx then 2 else 0).

(** [None] is the [std::runtime_error] "value out of range". *)
Fixpoint value_out (nValueOut : Z) (outs : list CTxOut) : option Z :=
  match outs with
  | [] => Some nValueOut
  | o :: outs' =>
      let nValueOut := i64 (nValueOut + nValue o) in
      if negb (MoneyRange (nValue o)) || negb (MoneyRange nValueOut) then None
      else value_out nValueOut outs'
  end.

Definition GetValueOut (tx : CTransaction) : option Z := value_out 0 (vout tx).

(** ** Wire formats *)

Definition outpoint_codec : codec COutPoint :=
  view_codec (fun '(h, n) => mkOutPoint h n) (fun o => (prevout_hash o, prevout_n o))
    (uint256_codec *> uint32_codec).

(** The witness is not part of [CTxIn]'s own format. *)
Definition txin_codec : codec CTxIn :=
  view_codec (fun '(o, (s, q)) => mkTxIn o s q []) (fun i => (prevout i, (scriptSig i, nSequence i)))
    (outpoint_codec *> vch_codec *> uint32_codec).

Definition txout_codec : codec CTxOut :=
  view_codec (fun '(v, s) => mkTxOut v s) (fun o => (nValue o, scriptPubKey o))
    (int64_codec *> vch_codec).

Definition stack_codec : codec (list (list Z)) := vector_codec vch_codec.

Definition with_witness (i : CTxIn) (w : list (list Z)) : CTxIn :=
  mkTxIn (prevout i) (scriptSig i) (nSequence i) w.

(** The loop over the inputs reading [scriptWitness.stack]. *)
Fixpoint read_witnesses (ins : list CTxIn) : reader (list CTxIn) :=
  match ins with
  | [] => ret []
  | i :: ins' =>
      w <- unser stack_codec ;; l <- read_witnesses ins' ;; ret (with_witness i w :: l)
  end.

(** [UnserializeTransaction] reads the inputs and outputs, in the basic or the
    extended format, ... *)
Definition read_body (fAllowWitness : bool) : reader (Z * list CTxIn * list CTxOut) :=
  vin <- unser (vector_codec txin_codec) ;;
  if match vin with [] => fAllowWitness | _ => false end then
    flags <- unser uint8_codec ;;
    if negb (flags =? 0) then
      vin <- unser (vector_codec txin_codec) ;;
      vout <- unser (vector_codec txout_codec) ;;
      ret (flags, vin, vout)
    else ret (flags, vin, [])
  else
    vout <- unser (vector_codec txout_codec) ;; ret (0, vin, vout).

(** ... then the witnesses if the flag announces them. *)
Definition read_witness_part (fAllowWitness : bool) (flags : Z) (vin : list CTxIn)
    (vout : list CTxOut) (nVersion : Z) : reader (Z * list CTxIn) :=
  if negb (Z.land flags 1 =? 0) && fAllowWitness then
    let flags := Z.lxor flags 1 in
    vin <- read_witnesses vin ;;
    if negb (HasWitness (mkTransaction vin vout nVersion 0)) then failure
    else ret (flags, vin)
  else ret (flags, vin).

(** [fAllowWitness] is the bit [SERIALIZE_TRANSACTION_NO_WITNESS] of the
    stream's version, negated. *)
Definition UnserializeTransaction (fAllowWitness : bool) : reader CTransaction :=
  nVersion <- unser int32_codec ;;
  body <- read_body fAllowWitness ;;
  let '(flags, vin, vout) := body in
  wit <- read_witness_part fAllowWitness flags vin vout nVersion ;;
  let '(flags, vin) := wit in
  if negb (flags =? 0) then failure
  else
    nLockTime <- unser uint32_codec ;;
    ret (mkTransaction vin vout nVersion nLockTime).

Definition SerializeTransaction (fAllowWitness : bool) (tx : CTransaction) : list Z :=
  let flags := if fAllowWitness && HasWitness tx then 1 else 0 in
  ser int32_codec (nVersion tx) ++
  (if negb (flags =? 0) then ser (vector_codec txin_codec) [] ++ ser uint8_codec flags else []) ++
  ser (vector_codec txin_codec) (vin tx) ++
  ser (vector_codec txout_codec) (vout tx) ++
  (if negb (Z.land flags 1 =? 0) then flat_map (fun i => ser stack_codec (scriptWitness i)) (vin tx) else []) ++
  ser uint32_codec (nLockTime tx).

(** What the format can carry: fields in the range of their types, vectors
    within [MAX_SIZE], and, since an empty [vin] introduces the extended
    format, no outputs without inputs when witnesses are allowed. *)
Definition valid_txin (i : CTxIn) : Prop := ok txin_codec (with_witness i []).

Definition valid_tx (fAllowWitness : bool) (tx : CTransaction) : Prop :=
  is_i32 (nVersion tx) /\ is_u32 (nLockTime tx) /\
  Z.of_nat (length (vin tx)) <= MAX_SIZE /\ Forall valid_txin (vin tx) /\
  ok (vector_codec txout_codec) (vout tx) /\
  if fAllowWitness then
    Forall (fun i => ok stack_codec (scriptWitness i)) (vin tx) /\
    (vin tx = [] -> vout tx = [])
  else Forall (fun i => scriptWitness i = []) (vin tx).

Definition transaction_codec (fAllowWitness : bool) : codec CTransaction :=
  Codec (SerializeTransaction fAllowWitness) (UnserializeTransaction fAllowWitness)
        (valid_tx fAllowWitness).

(** [ComputeHash]: [SerializeHash] with [SERIALIZE_TRANSACTION_NO_WITNESS]. *)
Definition GetHash (tx : CTransaction) : list Z := HashWriter [SerializeTransaction false tx].

Definition GetWitnessHash (tx : CTransaction) : list Z :=
  if negb (HasWitness tx) then GetHash tx else HashWriter [SerializeTransaction true tx].

Definition GetTotalSize (tx : CTransaction) : Z :=
  Z.of_nat (length (SerializeTransaction true tx)).

(** ** Blocks *)

Record CBlockHeader : Type := mkHeader {
  hdr_nVersion : Z;
  hashPrevBlock : list Z;
  hashMerkleRoot : list Z;
  nTime : Z;
  nBits : Z;
  nNonce : Z;
  hashStateRoot : list Z;
  hashUTXORoot : list Z;
  prevoutStake : COutPoint;
  vchBlockSigDlgt : list Z
}.

Record CBlock : Type := mkBlock { header : CBlockHeader; vtx : list CTransaction }.

Definition Header_SetNull : CBlockHeader :=
  mkHeader 0 uint256_zero uint256_zero 0 0 0 uint256_zero uint256_zero OutPoint_SetNull [].

Definition Header_IsNull (h : CBlockHeader) : bool := nBits h =? 0.

Definition header_codec : codec CBlockHeader :=
  view_codec
    (fun '(v, (p, (m, (t, (b, (nn, (sr, (ur, (st, sg))))))))) => mkHeader v p m t b nn sr ur st sg)
    (fun h => (hdr_nVersion h, (hashPrevBlock h, (hashMerkleRoot h, (nTime h, (nBits h, (nNonce h,
       (hashStateRoot h, (hashUTXORoot h, (prevoutStake h, vchBlockSigDlgt h))))))))))
    (int32_codec *> uint256_codec *> uint256_codec *> uint32_codec *> uint32_codec *> uint32_codec *>
     uint256_codec *> uint256_codec *> outpoint_codec *> vch_codec).

Definition block_codec (fAllowWitness : bool) : codec CBlock :=
  view_codec (fun '(h, l) => mkBlock h l) (fun b => (header b, vtx b))
    (header_codec *> vector_codec (transaction_codec fAllowWitness)).

Definition GetBlockTime (h : CBlockHeader) : Z := nTime h.

Definition IsProofOfStake (h : CBlockHeader) : bool := negb (OutPoint_IsNull (prevoutStake h)).
Definition IsProofOfWork (h : CBlockHeader) : bool := negb (IsProofOfStake h).
Definition StakeTime (h : CBlockHeader) : Z := if IsProofOfStake h then nTime h else 0.

Definition GetProofOfStake (h : CBlockHeader) : COutPoint * Z :=
  if IsProofOfStake h then (prevoutStake h, nTime h) else (OutPoint_SetNull, 0).

(** [CPubKey::COMPACT_SIGNATURE_SIZE] *)
Definition COMPACT_SIGNATURE_SIZE : nat := 65.

Definition HasProofOfDelegation (h : CBlockHeader) : bool :=
  (2 * COMPACT_SIGNATURE_SIZE <=? length (vchBlockSigDlgt h))%nat.

Definition GetBlockSignature (h : CBlockHeader) : list Z :=
  let v := vchBlockSigDlgt h in
  if (length v <? 2 * COMPACT_SIGNATURE_SIZE)%nat then v
  else firstn (length v - COMPACT_SIGNATURE_SIZE) v.

Definition GetProofOfDelegation (h : CBlockHeader) : list Z :=
  let v := vchBlockSigDlgt h in
  if (length v <? 2 * COMPACT_SIGNATURE_SIZE)%nat then []
  else skipn (length v - COMPACT_SIGNATURE_SIZE) v.

Definition set_sig_dlgt (h : CBlockHeader) (v : list Z) : CBlockHeader :=
  mkHeader (hdr_nVersion h) (hashPrevBlock h) (hashMerkleRoot h) (nTime h) (nBits h) (nNonce h)
    (hashStateRoot h) (hashUTXORoot h) (prevoutStake h) v.

Definition SetBlockSignature (h : CBlockHeader) (vchSign : list Z) : CBlockHeader :=
  if HasProofOfDelegation h then set_sig_dlgt h (vchSign ++ GetProofOfDelegation h)
  else set_sig_dlgt h vchSign.

(** [std::vector::resize(n, 0)] *)
Definition resize (v : list Z) (n : nat) : list Z := firstn n v ++ repeat 0 (n - length v).

Definition SetProofOfDelegation (h : CBlockHeader) (vchPoD : list Z) : CBlockHeader :=
  let vchSign := GetBlockSignature h in
  let vchSign :=
    if (length vchSign =? COMPACT_SIGNATURE_SIZE)%nat then vchSign
    else resize vchSign COMPACT_SIGNATURE_SIZE in
  set_sig_dlgt h (vchSign ++ vchPoD).

(** [CBlockHeaderSign] *)
Definition SerializeHeaderSign (h : CBlockHeader) : list Z :=
  ser int32_codec (hdr_nVersion h) ++ ser uint256_codec (hashPrevBlock h) ++
  ser uint256_codec (hashMerkleRoot h) ++ ser uint32_codec (nTime h) ++
  ser uint32_codec (nBits h) ++ ser uint32_codec (nNonce h) ++
  ser uint256_codec (hashStateRoot h) ++ ser uint256_codec (hashUTXORoot h) ++
  ser outpoint_codec (prevoutStake h) ++
  (if HasProofOfDelegation h then ser vch_codec (GetProofOfDelegation h) else []).

Definition Header_GetHash (h : CBlockHeader) : list Z := HashWriter [ser header_codec h].
Definition GetHashWithoutSign (h : CBlockHeader) : list Z := HashWriter [SerializeHeaderSign h].

(** ** Lemmas on the formats *)

#[export] Instance outpoint_lawful : Lawful outpoint_codec.
Proof. apply view_lawful; [now intros []|typeclasses eauto]. Qed.

#[export] Instance txin_lawful : Lawful txin_codec.
Proof. apply view_lawful; [now intros [? []]|typeclasses eauto]. Qed.

#[export] Instance txout_lawful : Lawful txout_codec.
Proof. apply view_lawful; [now intros []|typeclasses eauto]. Qed.

#[export] Instance stack_lawful : Lawful stack_codec.
Proof. unfold stack_codec. typeclasses eauto. Qed.

#[export] Instance header_lawful : Lawful header_codec.
Proof.
  apply view_lawful; [|typeclasses eauto].
  now intros (?, (?, (?, (?, (?, (?, (?, (?, (?, ?))))))))) _.
Qed.

Lemma ser_txin_strip i : ser txin_codec (with_witness i []) = ser txin_codec i.
Proof. reflexivity. Qed.

Lemma ser_vin_strip l :
  ser (vector_codec txin_codec) (map (fun i => with_witness i []) l) = ser (vector_codec txin_codec) l.
Proof. cbn. rewrite length_map. f_equal. induction l; cbn; congruence. Qed.

Definition strip (l : list CTxIn) : list CTxIn := map (fun i => with_witness i []) l.

Lemma ok_strip l :
  ok (vector_codec txin_codec) (strip l) <->
  Z.of_nat (length l) <= MAX_SIZE /\ Forall valid_txin l.
Proof. cbn. unfold strip. now rewrite length_map, Forall_map. Qed.

Lemma strip_id l : Forall (fun i => scriptWitness i = []) l -> strip l = l.
Proof.
  unfold strip. induction 1 as [|[o s q w] l Hw Hl IH]; [reflexivity|].
  cbn in *. now rewrite Hw, IH.
Qed.

Lemma read_vin_strip l rest :
  Z.of_nat (length l) <= MAX_SIZE -> Forall valid_txin l -> bytes rest ->
  unser (vector_codec txin_codec) (ser (vector_codec txin_codec) l ++ rest) = Some (strip l, rest).
Proof.
  intros Hl Hv Hr. rewrite <- ser_vin_strip. apply unser_ser; [typeclasses eauto| |exact Hr].
  now apply ok_strip.
Qed.

Lemma witness_read_nil s l rest :
  bytes s -> unser (vector_codec txin_codec) s = Some (l, rest) ->
  strip l = l /\ Z.of_nat (length l) <= MAX_SIZE /\ Forall valid_txin l /\
  s = ser (vector_codec txin_codec) l ++ rest /\ bytes rest.
Proof.
  intros Hs H. apply unser_inv in H as (Hok & -> & Hr); [|typeclasses eauto|exact Hs].
  assert (E : strip l = l).
  { apply strip_id. destruct Hok as [_ Hok]. eapply Forall_impl; [|exact Hok].
    intros i [_ Hi]. now rewrite <- Hi. }
  rewrite <- E in Hok. apply ok_strip in Hok as [? ?]. auto.
Qed.

Definition witnesses (l : list CTxIn) : list Z :=
  flat_map (fun i => ser stack_codec (scriptWitness i)) l.

Lemma read_witnesses_ser l rest :
  Forall (fun i => ok stack_codec (scriptWitness i)) l -> bytes rest ->
  bytes (witnesses l) /\ read_witnesses (strip l) (witnesses l ++ rest) = Some (l, rest).
Proof.
  intros Hl Hr. induction Hl as [|[o s q w] l Hw Hl [Hb IH]]; [split; [constructor|reflexivity]|].
  assert (Hbw : bytes (ser stack_codec w)) by now apply ser_bytes.
  split; [now apply bytes_app|]. cbn -[stack_codec]. rewrite <- app_assoc. unfold bind at 1.
  rewrite unser_ser; [|typeclasses eauto|exact Hw|now apply bytes_app].
  unfold bind. fold (strip l) (witnesses l). now rewrite IH.
Qed.

Lemma read_witnesses_inv l0 s l rest :
  bytes s -> read_witnesses l0 s = Some (l, rest) ->
  strip l = strip l0 /\ Forall (fun i => ok stack_codec (scriptWitness i)) l /\
  s = witnesses l ++ rest /\ bytes rest.
Proof.
  revert s l. induction l0 as [|i l0 IH]; intros s l Hs H.
  - injection H as <- <-. repeat split; auto.
  - cbn -[stack_codec] in H. apply bind_iff in H as (w & s1 & Hw & H).
    apply bind_iff in H as (l' & s2 & Hl & [= <- ->]).
    apply unser_inv in Hw as (Hok & -> & Hs1); [|typeclasses eauto|exact Hs].
    apply IH in Hl as (E & HF & -> & Hr); [|exact Hs1].
    cbn -[stack_codec]. rewrite <- app_assoc. unfold strip in *. cbn. repeat split; auto.
    f_equal. exact E.
Qed.

Lemma HasWitness_false_strip tx : HasWitness tx = false <-> strip (vin tx) = vin tx.
Proof.
  unfold HasWitness, strip. induction (vin tx) as [|[o s q w] l IH]; [easy|].
  cbn. destruct w; cbn; [|split; discriminate].
  rewrite IH. unfold with_witness at 2. cbn. split; [intros E; now rewrite E|]. intros E. now injection E.
Qed.

#[global] Opaque stack_codec.

Lemma vin_nil_bytes : ser (vector_codec txin_codec) [] = [0].
Proof. reflexivity. Qed.

(** *** Writing then reading *)

Definition valid_vin (l : list CTxIn) : Prop :=
  Z.of_nat (length l) <= MAX_SIZE /\ Forall valid_txin l.

Lemma bytes_vin l s : valid_vin l -> bytes s -> bytes (ser (vector_codec txin_codec) l ++ s).
Proof.
  intros Hl Hs. apply bytes_app. split; [|exact Hs].
  rewrite <- ser_vin_strip. apply ser_bytes. now apply ok_strip.
Qed.

Lemma bytes_ser {A : Type} (c : codec A) `{Lawful A c} x s :
  ok c x -> bytes s -> bytes (ser c x ++ s).
Proof. intros Hx Hs. apply bytes_app. split; [now apply ser_bytes|exact Hs]. Qed.

Lemma bind_vin {B : Type} (k : list CTxIn -> reader B) l s :
  valid_vin l -> bytes s ->
  (l <- unser (vector_codec txin_codec) ;; k l) (ser (vector_codec txin_codec) l ++ s) = k (strip l) s.
Proof. intros [Hl Hv] Hs. unfold bind. now rewrite read_vin_strip. Qed.

Lemma read_body_basic fAllow ins outs s :
  valid_vin ins -> ok (vector_codec txout_codec) outs -> bytes s ->
  (fAllow = true -> ins = [] -> outs = []) ->
  read_body fAllow (ser (vector_codec txin_codec) ins ++ ser (vector_codec txout_codec) outs ++ s) =
  Some ((0, strip ins, outs), s).
Proof.
  intros Hi Ho Hs Hf. unfold read_body.
  rewrite bind_vin by (auto; now apply (bytes_ser (vector_codec txout_codec))).
  destruct ins as [|i ins]; [destruct fAllow|]; cbn [strip map].
  - rewrite Hf by reflexivity. reflexivity.
  - now rewrite (bind_ser (vector_codec txout_codec)).
  - now rewrite (bind_ser (vector_codec txout_codec)).
Qed.

Lemma read_body_extended flags ins outs s :
  valid_vin ins -> ok (vector_codec txout_codec) outs -> bytes s -> 0 < flags < 256 ->
  read_body true (ser (vector_codec txin_codec) [] ++ ser uint8_codec flags ++
    ser (vector_codec txin_codec) ins ++ ser (vector_codec txout_codec) outs ++ s) =
  Some ((flags, strip ins, outs), s).
Proof.
  intros Hi Ho Hs Hf. unfold read_body.
  pose proof (bytes_ser (vector_codec txout_codec) _ _ Ho Hs) as Bo.
  pose proof (bytes_vin _ _ Hi Bo) as Bi.
  rewrite bind_vin; [|split; [cbn; unfold MAX_SIZE; lia|constructor]|].
  - cbn [strip map]. rewrite (bind_ser uint8_codec) by (cbn; auto; lia).
    destruct (Z.eqb_spec flags 0); [lia|]. cbn [negb].
    rewrite bind_vin by auto. now rewrite (bind_ser (vector_codec txout_codec)).
  - apply bytes_app. split; [apply bytes_writedata|exact Bi].
Qed.

Lemma read_witness_part_written tx v s :
  Forall (fun i => ok stack_codec (scriptWitness i)) (vin tx) -> bytes s -> HasWitness tx = true ->
  read_witness_part true 1 (strip (vin tx)) (vout tx) v (witnesses (vin tx) ++ s) =
  Some ((0, vin tx), s).
Proof.
  intros Hw Hs HW. destruct (read_witnesses_ser (vin tx) s Hw Hs) as [_ R].
  unfold read_witness_part, bind. cbn [Z.land Pos.land Z.of_N Z.eqb negb andb]. rewrite R.
  unfold HasWitness in *. cbn [vin]. now rewrite HW.
Qed.

Lemma Unserialize_written fAllow tx rest :
  valid_tx fAllow tx -> bytes rest ->
  UnserializeTransaction fAllow (SerializeTransaction fAllow tx ++ rest) = Some (tx, rest).
Proof.
  intros (Hver & Hlock & Hlen & Hvin & Hvout & Hw) Hr. pose proof (conj Hlen Hvin : valid_vin _) as Hi.
  pose proof (bytes_ser uint32_codec (nLockTime tx) rest Hlock Hr) as Bt.
  unfold SerializeTransaction, UnserializeTransaction.
  destruct (fAllow && HasWitness tx) eqn:E; cbn [Z.eqb negb Z.land Pos.land Z.of_N app]; rewrite <- !app_assoc.
  - apply andb_prop in E as [-> HW]. destruct Hw as [Hw _]. fold (witnesses (vin tx)).
    destruct (read_witnesses_ser (vin tx) _ Hw Bt) as [Bw _].
    pose proof (proj2 (bytes_app _ _) (conj Bw Bt)) as Bw'.
    rewrite (bind_ser int32_codec);
      [|exact Hver|rewrite vin_nil_bytes; apply (bytes_app [0]); split; [bytes_concrete|];
        apply bytes_app; split; [apply bytes_writedata|]; apply bytes_vin; [exact Hi|];
        now apply (bytes_ser (vector_codec txout_codec))].
    unfold bind at 1. rewrite read_body_extended by (auto; lia).
    unfold bind at 1. rewrite read_witness_part_written by auto. cbn [negb Z.eqb].
    rewrite (bind_ser uint32_codec) by auto. now destruct tx.
  - rewrite (bind_ser int32_codec);
      [|exact Hver|apply bytes_vin; [exact Hi|]; now apply (bytes_ser (vector_codec txout_codec))].
    assert (S : strip (vin tx) = vin tx).
    { destruct fAllow; [now apply HasWitness_false_strip|now apply strip_id]. }
    unfold bind at 1. rewrite read_body_basic; auto; [|intros ->; apply Hw].
    rewrite S. unfold read_witness_part. cbn [Z.land Z.eqb negb andb]. unfold bind at 1, ret at 1.
    cbn [Z.eqb negb]. rewrite (bind_ser uint32_codec) by auto. now destruct tx.
Qed.

(** *** Reading then writing *)

Lemma read_body_inv fAllow s flags ins outs rest :
  bytes s -> read_body fAllow s = Some ((flags, ins, outs), rest) ->
  bytes rest /\ strip ins = ins /\ valid_vin ins /\ ok (vector_codec txout_codec) outs /\
  ((flags = 0 /\ (fAllow = true -> ins = [] -> outs = []) /\
    s = ser (vector_codec txin_codec) ins ++ ser (vector_codec txout_codec) outs ++ rest) \/
   (fAllow = true /\ 0 < flags < 256 /\
    s = ser (vector_codec txin_codec) [] ++ ser uint8_codec flags ++
        ser (vector_codec txin_codec) ins ++ ser (vector_codec txout_codec) outs ++ rest)).
Proof.
  intros Hs H. unfold read_body in H. apply bind_iff in H as (l & s1 & Hl & H).
  apply witness_read_nil in Hl as (El & Hn & Hv & -> & Hs1); [|exact Hs].
  assert (V : valid_vin l) by now split.
  destruct l as [|i l]; [destruct fAllow|].
  - apply bind_iff in H as (f & s2 & Hf & H).
    apply (unser_inv uint8_codec) in Hf as (Hf & -> & Hs2); [|exact Hs1]. cbn in Hf.
    destruct (Z.eqb_spec f 0); cbn [negb] in H.
    + injection H as <- <- <- <-. subst f. repeat split; auto; try apply V; try (cbn; unfold MAX_SIZE; lia).
    + apply bind_iff in H as (l & s3 & Hl & H). apply bind_iff in H as (o & s4 & Ho & [= -> -> -> ->]).
      apply witness_read_nil in Hl as (El' & Hn' & Hv' & -> & Hs3); [|exact Hs2].
      apply (unser_inv (vector_codec txout_codec)) in Ho as (Ho & -> & Hr); [|exact Hs3].
      repeat split; auto; try apply Ho. right. repeat split; auto; lia.
  - apply bind_iff in H as (o & s4 & Ho & [= <- <- -> ->]).
    apply (unser_inv (vector_codec txout_codec)) in Ho as (Ho & -> & Hr); [|exact Hs1].
    repeat split; auto; try apply Ho; try apply V. left. repeat split; auto. discriminate.
  - apply bind_iff in H as (o & s4 & Ho & [= <- <- -> ->]).
    apply (unser_inv (vector_codec txout_codec)) in Ho as (Ho & -> & Hr); [|exact Hs1].
    repeat split; auto; try apply Ho; try apply V. left. repeat split; auto. discriminate.
Qed.

Lemma read_witness_part_inv fAllow flags ins outs v s flags' ins' rest :
  bytes s -> strip ins = ins ->
  read_witness_part fAllow flags ins outs v s = Some ((flags', ins'), rest) ->
  bytes rest /\ strip ins' = ins /\
  ((fAllow = true /\ Z.lxor flags 1 = flags' /\ Z.land flags 1 <> 0 /\
    existsb (fun i => match scriptWitness i with [] => false | _ => true end) ins' = true /\
    Forall (fun i => ok stack_codec (scriptWitness i)) ins' /\ s = witnesses ins' ++ rest) \/
   (flags' = flags /\ ins' = ins /\ s = rest)).
Proof.
  intros Hs Hi H. unfold read_witness_part in H.
  destruct (negb (Z.land flags 1 =? 0) && fAllow) eqn:E.
  - apply andb_prop in E as [Hf ->]. destruct (Z.eqb_spec (Z.land flags 1) 0); [discriminate|].
    apply bind_iff in H as (l & s1 & Hl & H).
    apply read_witnesses_inv in Hl as (El & Hw & -> & Hr); [|exact Hs].
    destruct (HasWitness _) eqn:HW; [|discriminate]. injection H as <- <- <-.
    unfold HasWitness in HW. cbn in HW. rewrite El. split; [exact Hr|]. split; [exact Hi|]. left. repeat split; auto.
  - injection H as <- <- <-. auto 8.
Qed.

Lemma valid_vin_strip l : valid_vin (strip l) <-> valid_vin l.
Proof.
  unfold valid_vin, strip. rewrite length_map, Forall_map. reflexivity.
Qed.

Lemma strip_HasWitness l :
  strip l = l -> existsb (fun i => match scriptWitness i with [] => false | _ => true end) l = false /\
  Forall (fun i => scriptWitness i = []) l.
Proof.
  unfold strip. induction l as [|[o s q w] l IH]; [auto|]. cbn. unfold with_witness at 1. cbn.
  intros E. injection E as Ew El. destruct (IH El) as [-> ?]. subst w. auto.
Qed.

Lemma Unserialize_inv fAllow s tx rest :
  bytes s -> UnserializeTransaction fAllow s = Some (tx, rest) ->
  valid_tx fAllow tx /\ s = SerializeTransaction fAllow tx ++ rest.
Proof.
  intros Hs H. unfold UnserializeTransaction in H.
  apply bind_iff in H as (v & s1 & Hv & H). apply bind_iff in H as ([[flags ins] outs] & s2 & Hb & H).
  apply bind_iff in H as ([flags' ins'] & s3 & Hw & H).
  destruct (Z.eqb_spec flags' 0) as [->|]; [|discriminate]. cbn [negb] in H.
  apply bind_iff in H as (lock & s4 & Hl & [= <- ->]).
  apply (unser_inv int32_codec) in Hv as (Hv & -> & Hs1); [|exact Hs].
  apply read_body_inv in Hb as (Hs2 & Ei & Hi & Ho & Hb); [|exact Hs1].
  apply read_witness_part_inv in Hw as (Hs3 & Ei' & Hw); [|exact Hs2|exact Ei].
  apply (unser_inv uint32_codec) in Hl as (Hl & -> & _); [|exact Hs3].
  assert (Hi' : valid_vin ins') by (apply valid_vin_strip; now rewrite Ei').
  unfold valid_tx, SerializeTransaction, HasWitness. cbn [vin vout nVersion nLockTime].
  destruct Hw as [(-> & Hf & Hl1 & HW & Hok & ->)|(<- & -> & ->)].
  - apply Z.lxor_eq in Hf as ->. destruct Hb as [[? _]|(_ & _ & ->)]; [discriminate|].
    rewrite HW. cbn [andb Z.eqb negb Z.land Pos.land Z.of_N]. rewrite <- !app_assoc, <- (ser_vin_strip ins'), <- Ei'.
    split; [|reflexivity].
    refine (conj Hv (conj Hl (conj (proj1 Hi') (conj (proj2 Hi') (conj Ho (conj Hok _)))))).
    intros ->. discriminate HW.
  - destruct (strip_HasWitness ins Ei) as [HW Hnw]. rewrite HW, andb_false_r.
    destruct Hb as [(_ & Hem & ->)|(_ & ? & _)]; [|lia].
    cbn [Z.eqb negb Z.land app]. rewrite <- !app_assoc.
    split; [|reflexivity].
    refine (conj Hv (conj Hl (conj (proj1 Hi') (conj (proj2 Hi') (conj Ho _))))).
    destruct fAllow; [|exact Hnw]. split; [|auto].
    eapply Forall_impl; [|exact Hnw]. intros i ->. split; cbn; [unfold MAX_SIZE; lia|constructor].
Qed.

Lemma bytes_SerializeTransaction fAllow tx :
  valid_tx fAllow tx -> bytes (SerializeTransaction fAllow tx).
Proof.
  intros (Hver & Hlock & Hlen & Hvin & Hvout & Hw). unfold SerializeTransaction.
  rewrite !bytes_app. split; [now apply (ser_bytes (c := int32_codec))|].
  split; [|split; [|split; [now apply (ser_bytes (c := vector_codec txout_codec))|
    split; [|now apply (ser_bytes (c := uint32_codec))]]]].
  - destruct (fAllow && HasWitness tx); [|constructor]. cbn [Z.eqb negb]. apply bytes_app.
    split; [rewrite vin_nil_bytes; bytes_concrete|apply bytes_writedata].
  - rewrite <- (app_nil_r (ser (vector_codec txin_codec) (vin tx))). apply bytes_vin; [now split|constructor].
  - destruct fAllow; [|constructor]. destruct (HasWitness tx); [|constructor].
    destruct Hw as [Hw _]. apply (read_witnesses_ser (vin tx) [] Hw). constructor.
Qed.

#[export] Instance transaction_lawful fAllow : Lawful (transaction_codec fAllow).
Proof.
  apply lawful_intro.
  - intros tx. apply bytes_SerializeTransaction.
  - intros tx rest. apply Unserialize_written.
  - intros s tx rest. apply Unserialize_inv.
Qed.

#[export] Instance block_lawful fAllow : Lawful (block_codec fAllow).
Proof. apply view_lawful; [now intros []|typeclasses eauto]. Qed.

(** ** Properties *)

(** C27: the transaction format is a bijection between the transactions it can
    carry and the byte strings the reader accepts, in both modes of the
    stream: reading succeeds exactly on the serialization of a valid
    transaction, followed by what is left unread.  So every valid transaction
    is read back, and no transaction has a second encoding. *)
Theorem transaction_format fAllowWitness s tx rest :
  bytes s ->
  UnserializeTransaction fAllowWitness s = Some (tx, rest) <->
  valid_tx fAllowWitness tx /\ s = SerializeTransaction fAllowWitness tx ++ rest.
Proof. apply (unser_iff (c := transaction_codec fAllowWitness)). Qed.

Definition sample_tx : CTransaction :=
  mkTransaction [mkTxIn (mkOutPoint (repeat 7 32) 1) [81] 4294967294 [[1; 2]; []]]
    [mkTxOut 5000 [118; 169]; mkTxOut 0 []] 2 17.

Lemma transaction_format_witness :
  bytes (SerializeTransaction true sample_tx ++ [9]) /\
  UnserializeTransaction true (SerializeTransaction true sample_tx ++ [9]) = Some (sample_tx, [9]) /\
  valid_tx true sample_tx.
Proof.
  assert (B : bytes (SerializeTransaction true sample_tx ++ [9])) by (apply bytes_check; vm_compute; reflexivity).
  assert (E : UnserializeTransaction true (SerializeTransaction true sample_tx ++ [9]) = Some (sample_tx, [9]))
    by (vm_compute; reflexivity).
  split; [exact B|]. split; [exact E|]. apply (transaction_format true _ sample_tx [9] B). exact E.
Defined.

(** The same for whole blocks, headers included. *)
Theorem block_format fAllowWitness s b rest :
  bytes s ->
  unser (block_codec fAllowWitness) s = Some (b, rest) <->
  ok (block_codec fAllowWitness) b /\ s = ser (block_codec fAllowWitness) b ++ rest.
Proof. apply unser_iff. Qed.

Definition sample_header : CBlockHeader :=
  mkHeader 536870912 (repeat 1 32) (repeat 2 32) 1600000000 545259519 0 (repeat 3 32) (repeat 4 32)
    (mkOutPoint (repeat 5 32) 1) (repeat 6 65).

Lemma block_format_witness :
  bytes (ser (block_codec true) (mkBlock sample_header [sample_tx])) /\
  ok (block_codec true) (mkBlock sample_header [sample_tx]).
Proof.
  assert (B : bytes (ser (block_codec true) (mkBlock sample_header [sample_tx])))
    by (apply bytes_check; vm_compute; reflexivity).
  split; [exact B|].
  apply (block_format true _ (mkBlock sample_header [sample_tx]) [] B). vm_compute. reflexivity.
Defined.

(** Replacing the witnesses of the inputs. *)
Definition set_witnesses (tx : CTransaction) (f : CTxIn -> list (list Z)) : CTransaction :=
  mkTransaction (map (fun i => with_witness i (f i)) (vin tx)) (vout tx) (nVersion tx) (nLockTime tx).

Lemma Serialize_set_witnesses tx f :
  SerializeTransaction false (set_witnesses tx f) = SerializeTransaction false tx.
Proof.
  unfold SerializeTransaction. cbn [andb Z.eqb negb Z.land app set_witnesses vin vout nVersion nLockTime].
  do 2 f_equal. cbn [ser vector_codec]. rewrite length_map. f_equal.
  induction (vin tx) as [|i l IH]; [reflexivity|]. cbn [map flat_map]. now rewrite IH.
Qed.

(** The transaction identifier does not depend on the witnesses. *)
Lemma txid_ignores_witness tx f : GetHash (set_witnesses tx f) = GetHash tx.
Proof. unfold GetHash. now rewrite Serialize_set_witnesses. Qed.

(** What is hashed determines the transaction up to its witnesses. *)
Lemma Serialize_nowit_inj tx1 tx2 :
  valid_tx false tx1 -> valid_tx false tx2 ->
  SerializeTransaction false tx1 = SerializeTransaction false tx2 -> tx1 = tx2.
Proof.
  intros H1 H2 E. pose proof (Unserialize_written false tx1 [] H1 (Forall_nil _)) as E1.
  rewrite E in E1. rewrite (Unserialize_written false tx2 [] H2 (Forall_nil _)) in E1. congruence.
Qed.

(** *** Block signatures and delegation proofs *)

Lemma GetBlockSignature_app h s p :
  vchBlockSigDlgt h = s ++ p -> (65 <= length s)%nat -> length p = 65%nat ->
  GetBlockSignature h = s /\ GetProofOfDelegation h = p /\ HasProofOfDelegation h = true.
Proof.
  intros E Hs Hp. unfold GetBlockSignature, GetProofOfDelegation, HasProofOfDelegation, COMPACT_SIGNATURE_SIZE.
  rewrite E, length_app, Hp. replace (length s + 65 - 65)%nat with (length s) by lia.
  destruct (Nat.ltb_spec (length s + 65) (2 * 65)); [lia|].
  rewrite firstn_app_exact, skipn_app_exact by reflexivity. repeat split. apply Nat.leb_le. lia.
Qed.

Lemma length_resize v n : length (resize v n) = n.
Proof. unfold resize. rewrite length_app, length_firstn, repeat_length. lia. Qed.

Lemma length_GetProofOfDelegation h :
  HasProofOfDelegation h = true -> length (GetProofOfDelegation h) = 65%nat.
Proof.
  unfold HasProofOfDelegation, GetProofOfDelegation. intros E%Nat.leb_le.
  destruct (Nat.ltb_spec (length (vchBlockSigDlgt h)) (2 * COMPACT_SIGNATURE_SIZE)); [lia|].
  unfold COMPACT_SIGNATURE_SIZE in *. rewrite length_skipn. lia.
Qed.

(** A new signature is read back and leaves the delegation part alone. *)
Lemma SetBlockSignature_get h sig :
  length sig = 65%nat ->
  let h' := SetBlockSignature h sig in
  GetBlockSignature h' = sig /\ HasProofOfDelegation h' = HasProofOfDelegation h /\
  (HasProofOfDelegation h = true -> GetProofOfDelegation h' = GetProofOfDelegation h).
Proof.
  intros Hs. unfold SetBlockSignature. destruct (HasProofOfDelegation h) eqn:E; cbn zeta.
  - destruct (GetBlockSignature_app (set_sig_dlgt h (sig ++ GetProofOfDelegation h)) sig (GetProofOfDelegation h))
      as (-> & -> & ->); auto using length_GetProofOfDelegation. lia.
  - unfold GetBlockSignature, HasProofOfDelegation, COMPACT_SIGNATURE_SIZE.
    cbn [set_sig_dlgt vchBlockSigDlgt]. rewrite Hs. repeat split. discriminate.
Qed.

Lemma SetProofOfDelegation_shape h pod :
  exists s, vchBlockSigDlgt (SetProofOfDelegation h pod) = s ++ pod /\ length s = 65%nat /\
  (length (GetBlockSignature h) = 65%nat -> s = GetBlockSignature h).
Proof.
  unfold SetProofOfDelegation. cbn [set_sig_dlgt vchBlockSigDlgt]. eexists. split; [reflexivity|].
  destruct (Nat.eqb_spec (length (GetBlockSignature h)) COMPACT_SIGNATURE_SIZE) as [E|E].
  - auto.
  - split; [apply length_resize|]. intros H. now elim E.
Qed.

Lemma GetHashWithoutSign_sig h sig :
  length sig = 65%nat -> GetHashWithoutSign (SetBlockSignature h sig) = GetHashWithoutSign h.
Proof.
  intros Hs. destruct (SetBlockSignature_get h sig Hs) as (_ & Hh & Hp).
  unfold GetHashWithoutSign, SerializeHeaderSign. rewrite Hh.
  destruct (HasProofOfDelegation h) eqn:E; [rewrite Hp by reflexivity|];
    unfold SetBlockSignature; rewrite E; reflexivity.
Qed.

(** Signing a header and attaching a delegation proof do not disturb each
    other: after both, in either order, each is read back as it was set, and
    changing the signature never changes the hash that is signed. *)
Theorem signature_delegation h sig pod :
  length sig = 65%nat -> length pod = 65%nat ->
  let h1 := SetProofOfDelegation (SetBlockSignature h sig) pod in
  let h2 := SetBlockSignature (SetProofOfDelegation h pod) sig in
  GetBlockSignature h1 = sig /\ GetBlockSignature h2 = sig /\
  GetProofOfDelegation h1 = pod /\ GetProofOfDelegation h2 = pod /\
  GetHashWithoutSign (SetBlockSignature h sig) = GetHashWithoutSign h.
Proof.
  intros Hs Hp h1 h2. pose proof (GetHashWithoutSign_sig h sig Hs) as Hh.
  destruct (SetBlockSignature_get h sig Hs) as (S & _).
  destruct (SetProofOfDelegation_shape (SetBlockSignature h sig) pod) as (s1 & E1 & _ & H1).
  rewrite H1, S in E1 by (rewrite S; exact Hs).
  destruct (GetBlockSignature_app h1 sig pod E1) as (-> & -> & _); [lia|exact Hp|].
  destruct (SetProofOfDelegation_shape h pod) as (s2 & E2 & H2 & _).
  destruct (GetBlockSignature_app _ s2 pod E2) as (_ & P2 & D2); [lia|exact Hp|].
  destruct (SetBlockSignature_get (SetProofOfDelegation h pod) sig Hs) as (S' & _ & P').
  unfold h2. rewrite S', P', P2 by exact D2. auto.
Qed.

Lemma signature_delegation_witness :
  let h2 := SetBlockSignature (SetProofOfDelegation sample_header (repeat 8 65)) (repeat 9 65) in
  GetBlockSignature h2 = repeat 9 65 /\ GetProofOfDelegation h2 = repeat 8 65.
Proof.
  destruct (signature_delegation sample_header (repeat 9 65) (repeat 8 65) eq_refl eq_refl)
    as (_ & H1 & _ & H2 & _). exact (conj H1 H2).
Defined.

(** *** Amounts *)

Lemma MoneyRange_spec v : MoneyRange v = true <-> 0 <= v <= MAX_MONEY.
Proof. unfold MoneyRange. rewrite andb_true_iff, !Z.leb_le. reflexivity. Qed.

Fixpoint total_out (outs : list CTxOut) : Z :=
  match outs with [] => 0 | o :: outs' => nValue o + total_out outs' end.

Lemma total_out_nonneg outs :
  Forall (fun o => 0 <= nValue o <= MAX_MONEY) outs -> 0 <= total_out outs.
Proof. induction 1 as [|o outs Ho _ IH]; cbn in *; lia. Qed.

Lemma value_out_iff acc outs v :
  0 <= acc <= MAX_MONEY ->
  value_out acc outs = Some v <->
  Forall (fun o => 0 <= nValue o <= MAX_MONEY) outs /\ v = acc + total_out outs /\ v <= MAX_MONEY.
Proof.
  revert acc. induction outs as [|o outs IH]; intros acc Ha; cbn [value_out total_out].
  - split; [intros [= <-]|intros (_ & -> & _)]; [repeat split; auto; lia|f_equal; lia].
  - assert (W : 0 <= nValue o <= MAX_MONEY -> i64 (acc + nValue o) = acc + nValue o)
      by (intros; apply i64_small; unfold is_i64, MAX_MONEY, COIN in *; lia).
    destruct (MoneyRange (nValue o)) eqn:E1; cbn [negb orb].
    + apply MoneyRange_spec in E1. rewrite W by exact E1.
      destruct (MoneyRange (acc + nValue o)) eqn:E2; cbn [negb].
      * apply MoneyRange_spec in E2. rewrite IH by exact E2. rewrite Forall_cons_iff.
        split; intros (H1 & H2 & H3); repeat split; try tauto; lia.
      * split; [discriminate|]. rewrite Forall_cons_iff. intros ((_ & H1) & H2 & H3).
        apply total_out_nonneg in H1. assert (MoneyRange (acc + nValue o) = true) by (apply MoneyRange_spec; lia). congruence.
    + split; [discriminate|]. rewrite Forall_cons_iff. intros ((H1 & _) & _).
      apply MoneyRange_spec in H1. congruence.
Qed.

(** The total is computed exactly when every amount and their sum are in the
    money range; the 64-bit additions never wrap. *)
Lemma GetValueOut_iff tx v :
  GetValueOut tx = Some v <->
  Forall (fun o => 0 <= nValue o <= MAX_MONEY) (vout tx) /\ v = total_out (vout tx) /\ v <= MAX_MONEY.
Proof. unfold GetValueOut. rewrite value_out_iff by (vm_compute; split; discriminate). reflexivity. Qed.
