(* ===== verification/Sighash.v ===== *)
(** * Signature hashes and the transaction checkers: the second half of
    [src/src/script/interpreter.cpp], [CPubKey] of [src/src/pubkey.h]

    What a signature signs.  [SignatureHash] has the legacy algorithm
    ([CTransactionSignatureSerializer]) and the one of witness version 0;
    [SignatureHashOutput] is the one of contract senders.  The checkers are
    the instances of [SignatureChecker] the node runs scripts with; the
    verification of a signature itself is secp256k1's, a parameter. *)
From Stdlib Require Import ZArith Lia List Bool.
From S2P Require Import Prelude Serialize Script Hash Interpreter Primitives.
Import ListNotations.

(** ** The legacy serializer *)

(** Where the iterator stands after a [GetOp] that returned [false]. *)
Definition GetOp_stop (pc : list Z) : list Z :=
  match pc with
  | [] => []
  | opcode :: pc =>
      if opcode =? OP_PUSHDATA1 then if size pc <? 1 then pc else skipn 1 pc
      else if opcode =? OP_PUSHDATA2 then if size pc <? 2 then pc else skipn 2 pc
      else if opcode =? OP_PUSHDATA4 then if size pc <? 4 then pc else skipn 4 pc
      else pc
  end.

Definition is_codeseparator (o : Z * list Z * list Z) : bool := Scr.opcode_of o =? OP_CODESEPARATOR.

(** The second loop of [SerializeScriptCode]: what was written and [itBegin]. *)
Fixpoint write_segments (l : list (Z * list Z * list Z)) (itBegin out : list Z) : list Z * list Z :=
  match l with
  | [] => (out, itBegin)
  | o :: l' =>
      let it := Scr.rest_of o in
      if is_codeseparator o
      then write_segments l' it (out ++ firstn (length itBegin - length it - 1) itBegin)
      else write_segments l' itBegin out
  end.

Definition SerializeScriptCode (scriptCode : list Z) : list Z :=
  let '(l, at_end) := Scr.ops scriptCode in
  let nCodeSeparators := size (filter is_codeseparator l) in
  let it := last (map Scr.rest_of l) scriptCode in
  let it := if at_end then it else GetOp_stop it in
  let '(out, itBegin) := write_segments l scriptCode [] in
  WriteCompactSize (size scriptCode - nCodeSeparators) ++ out ++
  match itBegin with [] => [] | _ => firstn (length itBegin - length it) itBegin end.

Definition null_txin : CTxIn := mkTxIn OutPoint_SetNull [] SEQUENCE_FINAL [].

Section Serializer.
Variables (txTo : CTransaction) (scriptCode : list Z) (nIn : nat) (nHashType : Z).

Definition fAnyoneCanPay : bool := negb (Z.land nHashType SIGHASH_ANYONECANPAY =? 0).
Definition fHashSingle : bool := Z.land nHashType 31 =? SIGHASH_SINGLE.
Definition fHashNone : bool := Z.land nHashType 31 =? SIGHASH_NONE.

Definition SerializeInput (nInput : nat) : list Z :=
  let nInput := if fAnyoneCanPay then nIn else nInput in
  let i := nth nInput (vin txTo) null_txin in
  ser outpoint_codec (prevout i) ++
  (if negb (nInput =? nIn)%nat then ser vch_codec [] else SerializeScriptCode scriptCode) ++
  (if negb (nInput =? nIn)%nat && (fHashSingle || fHashNone) then ser int32_codec 0
   else ser uint32_codec (nSequence i)).

Definition SerializeOutput (nOutput : nat) : list Z :=
  if fHashSingle && negb (nOutput =? nIn)%nat then ser txout_codec TxOut_SetNull
  else ser txout_codec (nth nOutput (vout txTo) TxOut_SetNull).

Definition SerializeForSignature : list Z :=
  let nInputs := if fAnyoneCanPay then 1%nat else length (vin txTo) in
  let nOutputs := if fHashNone then 0%nat else if fHashSingle then (nIn + 1)%nat else length (vout txTo) in
  ser int32_codec (nVersion txTo) ++
  WriteCompactSize (Z.of_nat nInputs) ++ flat_map SerializeInput (seq 0 nInputs) ++
  WriteCompactSize (Z.of_nat nOutputs) ++ flat_map SerializeOutput (seq 0 nOutputs) ++
  ser uint32_codec (nLockTime txTo).
End Serializer.

(** ** The hashes of the transaction's parts *)

Definition GetPrevoutHash (txTo : CTransaction) : list Z :=
  HashWriter (map (fun i => ser outpoint_codec (prevout i)) (vin txTo)).
Definition GetSequenceHash (txTo : CTransaction) : list Z :=
  HashWriter (map (fun i => ser uint32_codec (nSequence i)) (vin txTo)).
Definition GetFirstPrevoutHash (txTo : CTransaction) : list Z :=
  HashWriter [ser outpoint_codec (prevout (nth 0 (vin txTo) null_txin))].
Definition GetFirstSequenceHash (txTo : CTransaction) : list Z :=
  HashWriter [ser uint32_codec (nSequence (nth 0 (vin txTo) null_txin))].
Definition GetOutputsHash (txTo : CTransaction) : list Z :=
  HashWriter (map (ser txout_codec) (vout txTo)).

Definition GetOutputWithoutSenderSig (output : CTxOut) : CTxOut :=
  mkTxOut (nValue output) (Scr.WithoutSenderSig (scriptPubKey output)).

Definition GetOutputsOpSenderHash (txTo : CTransaction) : list Z :=
  HashWriter (map (fun o => if Scr.HasOpSender (scriptPubKey o)
                            then ser txout_codec (GetOutputWithoutSenderSig o)
                            else ser txout_codec o) (vout txTo)).

Record PrecomputedTransactionData : Type := Precomputed {
  hashPrevouts : list Z;
  hashSequence : list Z;
  hashOutputs : list Z;
  hashOutputsOpSender : list Z;
  ready : bool
}.

Definition PrecomputeTransactionData (txTo : CTransaction) : PrecomputedTransactionData :=
  if HasWitness txTo || HasOpSender txTo then
    Precomputed (GetPrevoutHash txTo) (GetSequenceHash txTo) (GetOutputsHash txTo)
      (if HasOpSender txTo then GetOutputsOpSenderHash txTo else uint256_zero) true
  else Precomputed uint256_zero uint256_zero uint256_zero uint256_zero false.

(** [cacheready ? cache->field : compute()] *)
Definition cached (cache : option PrecomputedTransactionData)
    (field : PrecomputedTransactionData -> list Z) (compute : list Z) : list Z :=
  match cache with
  | Some c => if ready c then field c else compute
  | None => compute
  end.

(** ** The signature hashes; [None] is a failed [assert] *)

Definition SignatureHashOutput (scriptCode : list Z) (txTo : CTransaction) (nOut : nat)
    (nHashType amount : Z) (cache : option PrecomputedTransactionData) : option (list Z) :=
  let anyone := fAnyoneCanPay nHashType in
  let single := fHashSingle nHashType in
  let none := fHashNone nHashType in
  match nth_error (vout txTo) nOut with
  | None => None
  | Some output =>
      if anyone && match vin txTo with [] => true | _ => false end then None
      else
        let hashPrevouts :=
          if anyone then GetFirstPrevoutHash txTo
          else cached cache hashPrevouts (GetPrevoutHash txTo) in
        let hashSequence :=
          if anyone then GetFirstSequenceHash txTo
          else if negb single && negb none then cached cache hashSequence (GetSequenceHash txTo)
          else uint256_zero in
        let hashOutputs :=
          if negb single && negb none then cached cache hashOutputsOpSender (GetOutputsOpSenderHash txTo)
          else if single then HashWriter [ser txout_codec (GetOutputWithoutSenderSig output)]
          else uint256_zero in
        Some (HashWriter
          [ser int32_codec (nVersion txTo); hashPrevouts; hashSequence;
           ser txout_codec (GetOutputWithoutSenderSig output); ser vch_codec scriptCode;
           ser int64_codec amount; hashOutputs; ser uint32_codec (nLockTime txTo);
           ser int32_codec nHashType])
  end.

(** [uint256S] of one *)
Definition uint256_one : list Z := 1 :: repeat 0 31.

Definition SignatureHash (scriptCode : list Z) (txTo : CTransaction) (nIn : nat)
    (nHashType amount : Z) (sigversion : SigVersion) (cache : option PrecomputedTransactionData)
  : option (list Z) :=
  match nth_error (vin txTo) nIn with
  | None => None
  | Some input =>
      let anyone := fAnyoneCanPay nHashType in
      let single := fHashSingle nHashType in
      let none := fHashNone nHashType in
      if is_witness_v0 sigversion then
        let hashPrevouts :=
          if anyone then uint256_zero else cached cache hashPrevouts (GetPrevoutHash txTo) in
        let hashSequence :=
          if negb anyone && negb single && negb none
          then cached cache hashSequence (GetSequenceHash txTo) else uint256_zero in
        let hashOutputs :=
          if negb single && negb none then cached cache hashOutputs (GetOutputsHash txTo)
          else if single && (nIn <? length (vout txTo))%nat
          then HashWriter [ser txout_codec (nth nIn (vout txTo) TxOut_SetNull)]
          else uint256_zero in
        Some (HashWriter
          [ser int32_codec (nVersion txTo); hashPrevouts; hashSequence;
           ser outpoint_codec (prevout input); ser vch_codec scriptCode; ser int64_codec amount;
           ser uint32_codec (nSequence input); hashOutputs; ser uint32_codec (nLockTime txTo);
           ser int32_codec nHashType])
      else if single && (length (vout txTo) <=? nIn)%nat then Some uint256_one
      else Some (HashWriter
          [SerializeForSignature txTo scriptCode nIn nHashType; ser int32_codec nHashType])
  end.

(** ** Public keys and the checkers *)

Definition GetLen (chHeader : Z) : Z :=
  if (chHeader =? 2) || (chHeader =? 3) then 33
  else if (chHeader =? 4) || (chHeader =? 6) || (chHeader =? 7) then 65
  else 0.

(** [CPubKey(vch)]: the key's bytes, [None] when it is invalid. *)
Definition CPubKey (vch : list Z) : option (list Z) :=
  match vch with
  | [] => None
  | h :: _ => let len := GetLen h in if negb (len =? 0) && (len =? size vch) then Some vch else None
  end.

Definition LOCKTIME_THRESHOLD : Z := 500000000.

Section Checkers.
(** [CPubKey::Verify(hash, vchSig)] of a valid key, over secp256k1. *)
Variable Verify : list Z -> list Z -> list Z -> bool.

Variables (txTo : CTransaction) (nIn : nat) (amount : Z) (txdata : option PrecomputedTransactionData).

(** Splitting off the hash type, [vchSig.back()] and [pop_back()]. *)
Definition checked_signature (vchSigIn vchPubKey : list Z) (sighash : Z -> option (list Z)) : bool :=
  match CPubKey vchPubKey with
  | None => false
  | Some pubkey =>
      match vchSigIn with
      | [] => false
      | _ =>
          let nHashType := last vchSigIn 0 in
          let vchSig := removelast vchSigIn in
          match sighash nHashType with
          | Some h => Verify pubkey h vchSig
          | None => false
          end
      end
  end.

Definition tx_CheckSig (vchSigIn vchPubKey scriptCode : list Z) (sigversion : SigVersion) : bool :=
  checked_signature vchSigIn vchPubKey
    (fun nHashType => SignatureHash scriptCode txTo nIn nHashType amount sigversion txdata).

Definition tx_CheckLockTime (lock : Z) : bool :=
  if negb (((nLockTime txTo <? LOCKTIME_THRESHOLD) && (lock <? LOCKTIME_THRESHOLD)) ||
           ((LOCKTIME_THRESHOLD <=? nLockTime txTo) && (LOCKTIME_THRESHOLD <=? lock))) then false
  else if nLockTime txTo <? lock then false
  else if SEQUENCE_FINAL =? nSequence (nth nIn (vin txTo) null_txin) then false
  else true.

Definition tx_CheckSequence (sequence : Z) : bool :=
  let txToSequence := nSequence (nth nIn (vin txTo) null_txin) in
  if u32 (nVersion txTo) <? 2 then false
  else if negb (Z.land txToSequence SEQUENCE_LOCKTIME_DISABLE_FLAG =? 0) then false
  else
    let nLockTimeMask := Z.lor SEQUENCE_LOCKTIME_TYPE_FLAG SEQUENCE_LOCKTIME_MASK in
    let txToSequenceMasked := Z.land txToSequence nLockTimeMask in
    let nSequenceMasked := Z.land sequence nLockTimeMask in
    if negb (((txToSequenceMasked <? SEQUENCE_LOCKTIME_TYPE_FLAG) &&
              (nSequenceMasked <? SEQUENCE_LOCKTIME_TYPE_FLAG)) ||
             ((SEQUENCE_LOCKTIME_TYPE_FLAG <=? txToSequenceMasked) &&
              (SEQUENCE_LOCKTIME_TYPE_FLAG <=? nSequenceMasked))) then false
    else if txToSequenceMasked <? nSequenceMasked then false
    else true.

(** [GenericTransactionSignatureChecker]; the assertion of [SignatureHash]
    holds because [nIn] is the index of an input. *)
Definition TransactionSignatureChecker : SignatureChecker := {|
  CheckSig := tx_CheckSig;
  CheckLockTime := tx_CheckLockTime;
  CheckSequence := tx_CheckSequence |}.

(** [GenericTransactionSignatureOutputChecker], [nIn] being [nOut]; its other
    methods are those of the base class. *)
Definition TransactionSignatureOutputChecker : SignatureChecker := {|
  CheckSig := fun vchSigIn vchPubKey scriptCode _ =>
    checked_signature vchSigIn vchPubKey
      (fun nHashType => SignatureHashOutput scriptCode txTo nIn nHashType amount txdata);
  CheckLockTime := fun _ => false;
  CheckSequence := fun _ => false |}.
End Checkers.

(** ** The reference: [SignatureHashOld] of [src/src/test/sighash_tests.cpp]

    It edits a copy of the transaction and hashes its plain serialization. *)

Definition set_scriptSig (i : CTxIn) (s : list Z) : CTxIn :=
  mkTxIn (prevout i) s (nSequence i) (scriptWitness i).
Definition set_nSequence (i : CTxIn) (q : Z) : CTxIn :=
  mkTxIn (prevout i) (scriptSig i) q (scriptWitness i).

(** [txTmp.vin[i].nSequence = 0] for [i != nIn] *)
Definition free_sequences (nIn : nat) (ins : list CTxIn) : list CTxIn :=
  for_upto (length ins)
    (fun i l => upd l i (fun x => if negb (i =? nIn)%nat then set_nSequence x 0 else x)) ins.

(** [None] where the code returns the number one. *)
Definition edited_tx (scriptCode : list Z) (txTo : CTransaction) (nIn : nat) (nHashType : Z)
  : option CTransaction :=
  let scriptCode := fst (FindAndDelete scriptCode [OP_CODESEPARATOR]) in
  let ins := for_upto (length (vin txTo)) (fun i l => upd l i (fun x => set_scriptSig x [])) (vin txTo) in
  let ins := upd ins nIn (fun x => set_scriptSig x scriptCode) in
  let parts :=
    if Z.land nHashType 31 =? SIGHASH_NONE then Some (free_sequences nIn ins, [])
    else if Z.land nHashType 31 =? SIGHASH_SINGLE then
      if (length (vout txTo) <=? nIn)%nat then None
      else
        let outs := firstn (nIn + 1) (vout txTo) in
        let outs := for_upto nIn (fun i l => upd l i (fun _ => TxOut_SetNull)) outs in
        Some (free_sequences nIn ins, outs)
    else Some (ins, vout txTo) in
  match parts with
  | None => None
  | Some (ins, outs) =>
      let ins := if negb (Z.land nHashType SIGHASH_ANYONECANPAY =? 0)
                 then firstn 1 (upd ins 0 (fun _ => nth nIn ins null_txin)) else ins in
      Some (mkTransaction ins outs (nVersion txTo) (nLockTime txTo))
  end.

Definition SignatureHashOld (scriptCode : list Z) (txTo : CTransaction) (nIn : nat) (nHashType : Z)
  : list Z :=
  if (length (vin txTo) <=? nIn)%nat then uint256_one
  else match edited_tx scriptCode txTo nIn nHashType with
       | None => uint256_one
       | Some txTmp => HashWriter [SerializeTransaction false txTmp; ser int32_codec nHashType]
       end.

(** ** Scripts without their code separators *)

Section Separators.
Import Scr.

Definition is_sep (x : list Z * Z * list Z) : bool := op_of x =? OP_CODESEPARATOR.
Definition no_seps (es : list (list Z * Z * list Z)) : list (list Z * Z * list Z) :=
  filter (fun x => negb (is_sep x)) es.

(** The first byte of an operation is its opcode, and the separator is one byte. *)
Lemma encodes_head e op vch : encodes e op vch -> size e < two32 -> exists e', e = op :: e'.
Proof.
  intros [Hne H] Hs. specialize (H [] ltac:(now rewrite app_nil_r)). rewrite app_nil_r in H.
  destruct e as [|b e]; [easy|]. cbn [GetScriptOp] in H. exists e. f_equal.
  destruct (b <=? OP_PUSHDATA4); [|congruence].
  match type of H with match ?x with _ => _ end = _ => destruct x as [[n pc]|] end; [|discriminate].
  destruct (u32 (size pc) <? n); congruence.
Qed.

Lemma encodes_sep e vch : encodes e OP_CODESEPARATOR vch -> size e < two32 -> e = [OP_CODESEPARATOR].
Proof.
  intros H Hs. destruct (encodes_head e _ _ H Hs) as [e' ->]. destruct H as [_ H].
  specialize (H [] ltac:(now rewrite app_nil_r)). rewrite app_nil_r in H.
  cbn in H. congruence.
Qed.

Definition small_ops (es : list (list Z * Z * list Z)) : Prop :=
  Forall (fun x => encoded x /\ size (enc_of x) < two32) es.

Lemma small_ops_intro es : Forall encoded es -> size (flat es) < two32 -> small_ops es.
Proof.
  unfold small_ops. induction 1 as [|x es Hx Hes IH]; intros Hs; [constructor|].
  rewrite flat_cons, size_app in Hs. pose proof (size_nonneg (enc_of x)). pose proof (size_nonneg (flat es)).
  constructor; [split; [exact Hx|lia]|apply IH; lia].
Qed.

Lemma sep_enc x : encoded x /\ size (enc_of x) < two32 -> is_sep x = true -> enc_of x = [OP_CODESEPARATOR].
Proof.
  intros [Hx Hs] E. unfold is_sep in E. apply Z.eqb_eq in E. unfold encoded in Hx. rewrite E in Hx.
  eapply encodes_sep; eauto.
Qed.

Lemma size_no_seps es :
  small_ops es -> size (flat (no_seps es)) = size (flat es) - size (filter is_sep es).
Proof.
  unfold no_seps. induction 1 as [|x es Hx Hes IH]; [reflexivity|]. cbn [filter].
  rewrite flat_cons, size_app. destruct (is_sep x) eqn:E; cbn [negb].
  - rewrite (sep_enc x Hx E), IH. unfold size. cbn [length]. lia.
  - rewrite flat_cons, size_app, IH. lia.
Qed.

Lemma filter_annotate es t : size (filter is_codeseparator (annotate es t)) = size (filter is_sep es).
Proof.
  unfold size. f_equal. induction es as [|x es IH]; [reflexivity|]. cbn [annotate filter].
  change (is_codeseparator (op_of x, vch_of x, flat es ++ t)) with (is_sep x).
  destruct (is_sep x); cbn [length]; now rewrite IH.
Qed.

Lemma write_segments_spec es b out :
  small_ops es ->
  let '(o, ib) := write_segments (annotate es []) (b ++ flat es) out in
  o ++ ib = out ++ b ++ flat (no_seps es).
Proof.
  intros H. revert b out. induction H as [|x es Hx Hes IH]; intros b out.
  - cbn. now rewrite !app_nil_r.
  - cbn [annotate write_segments no_seps filter]. rewrite app_nil_r.
    change (is_codeseparator (op_of x, vch_of x, flat es)) with (is_sep x).
    cbn [rest_of snd]. rewrite flat_cons. destruct (is_sep x) eqn:E; cbn [negb].
    + rewrite (sep_enc x Hx E), !length_app. cbn [length app].
      replace (length b + (1 + length (flat es)) - length (flat es) - 1)%nat with (length b) by lia.
      rewrite firstn_app_exact by reflexivity. specialize (IH [] (out ++ b)). cbn [app] in IH.
      destruct (write_segments _ _ _) as [o ib]. now rewrite IH, <- app_assoc.
    + specialize (IH (b ++ enc_of x) out). rewrite <- app_assoc in IH.
      destruct (write_segments _ _ _) as [o ib]. rewrite IH, flat_cons, <- app_assoc. reflexivity.
Qed.

(** A script that decodes to its end. *)
Lemma ops_end_nil t : fst (ops t) = [] -> snd (ops t) = true -> t = [].
Proof.
  unfold ops. destruct t as [|o t]; [reflexivity|]. cbn [length ops_from].
  destruct (GetScriptOp (o :: t)) as [[[pc op] v]|]; [|discriminate].
  destruct (ops_from _ pc). discriminate.
Qed.

Lemma ops_complete s :
  bytes s -> size s < two32 -> snd (ops s) = true ->
  exists es, s = flat es /\ small_ops es /\ fst (ops s) = annotate es [].
Proof.
  intros Hb Hs He. destruct (ops_split s Hb Hs) as (es & t & -> & Henc & Ht & Ho & _).
  rewrite ops_flat in He by auto. cbn [snd] in He. apply ops_end_nil in He as ->; [|exact Ht].
  rewrite app_nil_r in *. exists es. auto using small_ops_intro.
Qed.

Lemma last_rest es s : s = flat es -> last (map rest_of (annotate es [])) s = [].
Proof.
  intros ->. induction es as [|x es IH] using rev_ind; [reflexivity|].
  rewrite annotate_app, map_app. cbn [annotate map]. rewrite last_last. reflexivity.
Qed.

Lemma SerializeScriptCode_complete s es :
  s = flat es -> small_ops es -> ops s = (annotate es [], true) ->
  SerializeScriptCode s = ser vch_codec (flat (no_seps es)).
Proof.
  intros Es Hes Ho. unfold SerializeScriptCode. rewrite Ho, filter_annotate, last_rest by exact Es.
  pose proof (write_segments_spec es [] [] Hes) as W. cbn [app] in W. rewrite <- Es in W.
  destruct (write_segments _ s []) as [o ib]. cbn [ser vch_codec]. rewrite <- W.
  fold (size (o ++ ib)). rewrite W, size_no_seps by exact Hes. rewrite <- Es. f_equal. rewrite <- W.
  f_equal. destruct ib as [|b ib]; [reflexivity|]. apply firstn_all2. cbn [length]. lia.
Qed.

(** [FindAndDelete] of the separator removes exactly the separators. *)
Fixpoint drop_seps (es : list (list Z * Z * list Z)) : list (list Z * Z * list Z) :=
  match es with
  | [] => []
  | x :: es' => if is_sep x then drop_seps es' else es
  end.

Lemma no_seps_drop es : no_seps (drop_seps es) = no_seps es.
Proof.
  unfold no_seps. induction es as [|x es IH]; [reflexivity|]. cbn [drop_seps filter].
  destruct (is_sep x) eqn:E; cbn [negb]; [exact IH|]. cbn [filter]. now rewrite E.
Qed.

Lemma length_drop_seps es : (length (drop_seps es) <= length es)%nat.
Proof. induction es as [|x es IH]; cbn; [lia|]. destruct (is_sep x); cbn; lia. Qed.

Lemma small_drop_seps es : small_ops es -> small_ops (drop_seps es).
Proof.
  induction 1 as [|x es Hx Hes IH]; cbn; [constructor|]. destruct (is_sep x); [exact IH|now constructor].
Qed.

Lemma starts_sep x es :
  encoded x /\ size (enc_of x) < two32 ->
  starts_with [OP_CODESEPARATOR] (enc_of x ++ flat es) = is_sep x.
Proof.
  intros [Hx Hs]. destruct (encodes_head _ _ _ Hx Hs) as [e' ->]. unfold is_sep.
  unfold starts_with. cbn [app length firstn]. destruct (Z.leb_spec (size [OP_CODESEPARATOR]) (size (op_of x :: e' ++ flat es)));
    [|unfold size in *; cbn in *; lia].
  cbn [andb]. destruct (list_eq_dec Z.eq_dec _ _) as [E|E]; symmetry.
  - injection E as ->. apply Z.eqb_refl.
  - apply Z.eqb_neq. congruence.
Qed.

Lemma skip_seps fuel es n :
  small_ops es -> (length es <= fuel)%nat ->
  exists m, skip_matches fuel [OP_CODESEPARATOR] (flat es) n = (flat (drop_seps es), m)
  /\ n <= m /\ (m = n -> drop_seps es = es).
Proof.
  intros H. revert fuel n. induction H as [|x es Hx Hes IH]; intros fuel n Hf.
  - exists n. destruct fuel; repeat split; auto; lia.
  - destruct fuel as [|fuel]; [cbn in Hf; lia|]. cbn [skip_matches].
    rewrite flat_cons, starts_sep by exact Hx. cbn [drop_seps]. destruct (is_sep x) eqn:E.
    + rewrite (sep_enc x Hx E). cbn [length app skipn].
      destruct (IH fuel (n + 1)) as (m & -> & Hm & _); [cbn in Hf; lia|].
      exists m. repeat split; lia.
    + exists n. rewrite flat_cons. repeat split; auto; lia.
Qed.

Lemma length_flat es : small_ops es -> (length es <= length (flat es))%nat.
Proof.
  induction 1 as [|x es [[Hne _] _] Hes IH]; [cbn; lia|]. rewrite flat_cons, length_app. cbn [length].
  destruct (enc_of x); [easy|cbn [length]; lia].
Qed.

Lemma find_and_delete_seps fuel e es result n :
  small_ops es -> size (flat es) < two32 -> (length es <= fuel)%nat ->
  let '(r, pc2, m) := find_and_delete fuel [OP_CODESEPARATOR] (e ++ flat es) (flat es) result n in
  r ++ pc2 = result ++ e ++ flat (no_seps es) /\ n <= m /\ (m = n -> no_seps es = es).
Proof.
  revert e es result n. induction fuel as [|fuel IH]; intros e es result n Hes Hs Hf;
    cbn [find_and_delete]; rewrite length_app, Nat.add_sub, (firstn_app_exact (length e)) by reflexivity;
    destruct (skip_seps (length (flat es)) es n Hes (length_flat es Hes)) as (m & -> & Hm & Hd);
    rewrite <- (no_seps_drop es).
  - destruct es; [|cbn in Hf; lia]. cbn. rewrite !app_nil_r. auto.
  - pose proof (small_drop_seps es Hes) as Hdes. pose proof (length_drop_seps es) as Hdl.
    assert (Hds : size (flat (drop_seps es)) <= size (flat es)).
    { clear. induction es as [|x es IH]; cbn [drop_seps]; [lia|]. destruct (is_sep x); [|lia].
      rewrite flat_cons, size_app. pose proof (size_nonneg (enc_of x)). lia. }
    assert (Hns : forall x l, drop_seps es = x :: l -> is_sep x = false).
    { clear. intros x l. induction es as [|y es IH]; cbn; [discriminate|].
      destruct (is_sep y) eqn:E; [exact IH|]. congruence. }
    destruct (drop_seps es) as [|x l] eqn:Ed.
    + cbn. rewrite !app_nil_r. repeat split; auto.
    + pose proof (Hns x l eq_refl) as Ex. inversion Hdes as [|? ? [[Hne Hx] Hxs] Hl]; subst.
      rewrite flat_cons in *. rewrite (Hx (flat l)) by lia.
      pose proof (size_nonneg (enc_of x)). rewrite size_app in Hds.
      specialize (IH (enc_of x) l (result ++ e) m Hl ltac:(lia) ltac:(cbn in Hdl; lia)).
      destruct (find_and_delete _ _ _ _ _ _) as [[r pc2] k]. destruct IH as (E & Hk & Hd').
      unfold no_seps. cbn [filter]. rewrite Ex. cbn [negb]. fold (no_seps l).
      rewrite E, flat_cons, <- app_assoc. repeat split; [lia|].
      intros Ek. rewrite Hd' by lia. rewrite <- Hd by lia. reflexivity.
Qed.

Lemma FindAndDelete_seps es :
  small_ops es -> size (flat es) < two32 ->
  fst (FindAndDelete (flat es) [OP_CODESEPARATOR]) = flat (no_seps es).
Proof.
  intros Hes Hs. unfold FindAndDelete.
  pose proof (find_and_delete_seps (length (flat es)) [] es [] 0 Hes Hs (length_flat es Hes)) as H.
  cbn [app] in H. destruct (find_and_delete _ _ _ _ _ _) as [[r pc2] m]. destruct H as (E & Hm & Hd).
  destruct (Z.ltb_spec 0 m); cbn [fst]; [exact E|]. now rewrite Hd by lia.
Qed.

(** So both algorithms put the same script into the signed input. *)
Lemma SerializeScriptCode_old s :
  bytes s -> size s < two32 -> snd (ops s) = true ->
  SerializeScriptCode s = ser vch_codec (fst (FindAndDelete s [OP_CODESEPARATOR])).
Proof.
  intros Hb Hs He. destruct (ops_complete s Hb Hs He) as (es & -> & Hes & Ho).
  rewrite FindAndDelete_seps by auto. apply SerializeScriptCode_complete; auto.
  rewrite (surjective_pairing (ops (flat es))), Ho, He. reflexivity.
Qed.

End Separators.

(** ** The edited transaction serializes as the serializer writes *)

Section Edited.
Variables (txTo : CTransaction) (scriptCode : list Z) (nIn : nat) (nHashType : Z).
Hypothesis HnIn : (nIn < length (vin txTo))%nat.

Let code : list Z := fst (FindAndDelete scriptCode [OP_CODESEPARATOR]).
Hypothesis Hcode : SerializeScriptCode scriptCode = ser vch_codec code.

Let ins : list CTxIn :=
  upd (for_upto (length (vin txTo)) (fun i l => upd l i (fun x => set_scriptSig x [])) (vin txTo)) nIn
    (fun x => set_scriptSig x code).

Lemma length_ins : length ins = length (vin txTo).
Proof. unfold ins. now rewrite length_upd, (length_for_upto_upd _ (fun _ x => set_scriptSig x [])). Qed.

Lemma length_free l : length (free_sequences nIn l) = length l.
Proof. apply (length_for_upto_upd _ (fun i x => if negb (i =? nIn)%nat then set_nSequence x 0 else x)). Qed.

Lemma nth_ins i :
  (i < length (vin txTo))%nat ->
  nth i ins null_txin =
  set_scriptSig (nth i (vin txTo) null_txin) (if (i =? nIn)%nat then code else []).
Proof.
  intros Hi. unfold ins. rewrite nth_upd.
  rewrite (length_for_upto_upd _ (fun _ x => set_scriptSig x [])).
  rewrite (nth_for_upto_upd _ (fun _ x => set_scriptSig x [])) by exact Hi.
  rewrite Nat.eqb_sym. destruct (Nat.ltb_spec i (length (vin txTo))); [|lia].
  rewrite andb_true_r. destruct (i =? nIn)%nat; reflexivity.
Qed.

(** The inputs after the choice of the hash type. *)
Let ins' : list CTxIn :=
  if fHashSingle nHashType || fHashNone nHashType then free_sequences nIn ins else ins.

Lemma length_ins' : length ins' = length (vin txTo).
Proof. unfold ins'. destruct (_ || _); rewrite ?length_free; apply length_ins. Qed.

Lemma nth_ins' i :
  (i < length (vin txTo))%nat ->
  ser txin_codec (nth i ins' null_txin) =
  ser outpoint_codec (prevout (nth i (vin txTo) null_txin)) ++
  (if negb (i =? nIn)%nat then ser vch_codec [] else SerializeScriptCode scriptCode) ++
  (if negb (i =? nIn)%nat && (fHashSingle nHashType || fHashNone nHashType) then ser int32_codec 0
   else ser uint32_codec (nSequence (nth i (vin txTo) null_txin))).
Proof.
  intros Hi. rewrite Hcode. unfold ins'. destruct (fHashSingle nHashType || fHashNone nHashType).
  - unfold free_sequences.
    rewrite (nth_for_upto_upd _ (fun j x => if negb (j =? nIn)%nat then set_nSequence x 0 else x))
      by (now rewrite length_ins).
    rewrite length_ins. destruct (Nat.ltb_spec i (length (vin txTo))); [|lia].
    rewrite nth_ins by exact Hi. destruct (i =? nIn)%nat; reflexivity.
  - rewrite nth_ins by exact Hi. rewrite andb_false_r. destruct (i =? nIn)%nat; reflexivity.
Qed.

Let ins'' : list CTxIn :=
  if fAnyoneCanPay nHashType then firstn 1 (upd ins' 0 (fun _ => nth nIn ins' null_txin)) else ins'.

Lemma edited_inputs :
  ser (vector_codec txin_codec) ins'' =
  let nInputs := if fAnyoneCanPay nHashType then 1%nat else length (vin txTo) in
  WriteCompactSize (Z.of_nat nInputs) ++
  flat_map (SerializeInput txTo scriptCode nIn nHashType) (seq 0 nInputs).
Proof.
  cbn [ser vector_codec]. unfold ins''. pose proof length_ins' as L.
  destruct (fAnyoneCanPay nHashType) eqn:EA.
  - assert (E1 : forall x, firstn 1 (upd ins' 0 (fun _ => x)) = [x])
      by (intros x; destruct ins'; [cbn in L; lia|reflexivity]).
    rewrite E1. cbn [length flat_map seq]. f_equal. f_equal.
    unfold SerializeInput. rewrite EA. apply nth_ins'. exact HnIn.
  - rewrite L. f_equal. rewrite (flat_map_nth _ _ null_txin), L.
    rewrite !flat_map_concat_map. f_equal. apply map_ext_in. intros i Hi%in_seq.
    unfold SerializeInput. rewrite EA. apply nth_ins'. lia.
Qed.

Let outs : list CTxOut :=
  if fHashNone nHashType then []
  else if fHashSingle nHashType then
    for_upto nIn (fun i l => upd l i (fun _ => TxOut_SetNull)) (firstn (nIn + 1) (vout txTo))
  else vout txTo.

Lemma edited_outputs :
  (fHashSingle nHashType = true -> nIn < length (vout txTo))%nat ->
  ser (vector_codec txout_codec) outs =
  let nOutputs := if fHashNone nHashType then 0%nat
                  else if fHashSingle nHashType then (nIn + 1)%nat else length (vout txTo) in
  WriteCompactSize (Z.of_nat nOutputs) ++
  flat_map (SerializeOutput txTo nIn nHashType) (seq 0 nOutputs).
Proof.
  intros Hout. cbn [ser vector_codec]. unfold outs, SerializeOutput.
  destruct (fHashNone nHashType); [reflexivity|]. destruct (fHashSingle nHashType).
  - specialize (Hout eq_refl). cbn zeta. rewrite (flat_map_nth _ _ TxOut_SetNull).
    rewrite (length_for_upto_upd _ (fun _ _ => TxOut_SetNull)), length_firstn.
    replace (Nat.min (nIn + 1) (length (vout txTo))) with (nIn + 1)%nat by lia. f_equal.
    rewrite !flat_map_concat_map. f_equal. apply map_ext_in. intros i Hi%in_seq.
    rewrite (nth_for_upto_upd _ (fun _ _ => TxOut_SetNull)) by (rewrite length_firstn; lia).
    rewrite nth_firstn. destruct (Nat.ltb_spec i (nIn + 1)); [|lia]. cbn [andb].
    destruct (Nat.ltb_spec i nIn), (Nat.eqb_spec i nIn); try lia; reflexivity.
  - cbn [andb]. cbn zeta. now rewrite (flat_map_nth _ _ TxOut_SetNull).
Qed.

Lemma edited_serialization :
  match edited_tx scriptCode txTo nIn nHashType with
  | Some txTmp => SerializeTransaction false txTmp = SerializeForSignature txTo scriptCode nIn nHashType
  | None => fHashSingle nHashType = true /\ (length (vout txTo) <= nIn)%nat
  end.
Proof.
  unfold edited_tx. fold code. fold ins.
  change (Z.land nHashType 31 =? SIGHASH_NONE) with (fHashNone nHashType).
  change (Z.land nHashType 31 =? SIGHASH_SINGLE) with (fHashSingle nHashType).
  change (negb (Z.land nHashType SIGHASH_ANYONECANPAY =? 0)) with (fAnyoneCanPay nHashType).
  destruct (fHashSingle nHashType && (length (vout txTo) <=? nIn)%nat && negb (fHashNone nHashType)) eqn:E.
  - apply andb_prop in E as [E EN]. apply andb_prop in E as [ES EL]. apply negb_true_iff in EN.
    rewrite EN, ES, EL. apply Nat.leb_le in EL. auto.
  - assert (Hout : (fHashSingle nHashType = true -> nIn < length (vout txTo))%nat).
    { intros ES. rewrite ES in E. cbn [andb] in E. destruct (Nat.leb_spec (length (vout txTo)) nIn); [|lia].
      unfold fHashNone, fHashSingle in *. apply Z.eqb_eq in ES. rewrite ES in E. discriminate E. }
    pose proof edited_inputs as EI. pose proof (edited_outputs Hout) as EO.
    unfold SerializeForSignature.
    cbn zeta in EI, EO.
    match goal with |- match match ?p with _ => _ end with _ => _ end =>
      assert (P : p = Some (ins', outs)) end.
    { unfold ins', outs. destruct (fHashNone nHashType); [now rewrite orb_true_r|].
      rewrite orb_false_r. destruct (fHashSingle nHashType) eqn:ES; [|reflexivity].
      specialize (Hout eq_refl). destruct (Nat.leb_spec (length (vout txTo)) nIn); [lia|reflexivity]. }
    rewrite P. fold ins''. unfold SerializeTransaction. cbn [andb Z.eqb negb Z.land app vin vout nVersion nLockTime].
    rewrite EI, EO, <- !app_assoc. reflexivity.
Qed.
End Edited.

#[local] Opaque HashWriter.

(** ** Properties *)

(** C18: the legacy signature hash, which serializes the parts to be signed
    directly, is the hash of the edited copy of the transaction that defines
    it, for every hash type, input and transaction, and every script that
    decodes to its end. *)
Theorem sighash_legacy_reference scriptCode txTo nIn nHashType amount cache :
  (nIn < length (vin txTo))%nat ->
  bytes scriptCode -> size scriptCode < two32 -> snd (Scr.ops scriptCode) = true ->
  SignatureHash scriptCode txTo nIn nHashType amount BASE cache =
  Some (SignatureHashOld scriptCode txTo nIn nHashType).
Proof.
  intros Hn Hb Hs He. unfold SignatureHash, SignatureHashOld.
  destruct (nth_error (vin txTo) nIn) as [input|] eqn:E; [|apply nth_error_None in E; lia].
  destruct (Nat.leb_spec (length (vin txTo)) nIn); [lia|]. cbn [is_witness_v0].
  pose proof (edited_serialization txTo scriptCode nIn nHashType Hn (SerializeScriptCode_old _ Hb Hs He)) as H'.
  destruct (edited_tx scriptCode txTo nIn nHashType) as [txTmp|] eqn:Et.
  - rewrite H'. destruct (fHashSingle nHashType && (length (vout txTo) <=? nIn)%nat) eqn:ES; [|reflexivity].
    exfalso. apply andb_prop in ES as [ES EL]. unfold edited_tx in Et. unfold fHashSingle in ES.
    rewrite ES, EL in Et. apply Z.eqb_eq in ES. rewrite ES in Et. discriminate Et.
  - destruct H' as [-> Hl]. apply Nat.leb_le in Hl. now rewrite Hl.
Qed.

Lemma sighash_legacy_reference_witness :
  SignatureHash [OP_DUP; OP_CODESEPARATOR; OP_CHECKSIG] sample_tx 0 131 0 BASE None =
  Some (SignatureHashOld [OP_DUP; OP_CODESEPARATOR; OP_CHECKSIG] sample_tx 0 131).
Proof.
  apply (sighash_legacy_reference [OP_DUP; OP_CODESEPARATOR; OP_CHECKSIG] sample_tx 0 131 0 None).
  - cbn. lia.
  - apply bytes_check. reflexivity.
  - reflexivity.
  - reflexivity.
Defined.

Lemma cached_fresh tx field compute :
  (HasWitness tx || HasOpSender tx = true -> field (PrecomputeTransactionData tx) = compute) ->
  cached (Some (PrecomputeTransactionData tx)) field compute = compute.
Proof.
  intros H. unfold cached. destruct (ready (PrecomputeTransactionData tx)) eqn:E; [|reflexivity].
  apply H. unfold PrecomputeTransactionData in E.
  destruct (HasWitness tx || HasOpSender tx); [reflexivity|discriminate].
Qed.

(** Signing with the precomputed hashes of the transaction gives what
    signing without a cache gives; for the hash of contract senders this
    needs the transaction to have a sender output, as it does there. *)
Theorem sighash_cache_transparent tx :
  (forall scriptCode nIn nHashType amount sigversion,
     SignatureHash scriptCode tx nIn nHashType amount sigversion (Some (PrecomputeTransactionData tx)) =
     SignatureHash scriptCode tx nIn nHashType amount sigversion None) /\
  (HasOpSender tx = true -> forall scriptCode nOut nHashType amount,
     SignatureHashOutput scriptCode tx nOut nHashType amount (Some (PrecomputeTransactionData tx)) =
     SignatureHashOutput scriptCode tx nOut nHashType amount None).
Proof.
  assert (R : HasWitness tx || HasOpSender tx = true -> PrecomputeTransactionData tx =
    Precomputed (GetPrevoutHash tx) (GetSequenceHash tx) (GetOutputsHash tx)
      (if HasOpSender tx then GetOutputsOpSenderHash tx else uint256_zero) true)
    by (unfold PrecomputeTransactionData; now intros ->).
  split.
  - intros. unfold SignatureHash.
    rewrite !cached_fresh by (intros H; rewrite (R H); reflexivity). reflexivity.
  - intros HS scriptCode nOut nHashType amount. unfold SignatureHashOutput.
    rewrite !cached_fresh by (intros H; rewrite (R H), ?HS; reflexivity). reflexivity.
Qed.

(** A transaction with a sender output: [1 {20 bytes} {sig} OP_SENDER ...]. *)
Definition sender_script : list Z :=
  [1; 1] ++ Scr.push_vch [] (repeat 7 20) ++ Scr.push_vch [] (repeat 9 70) ++
  [OP_SENDER; 1; 4; 1; 100; 1; 1; 1; 3] ++ Scr.push_vch [] (repeat 8 20) ++ [OP_CALL].

Definition sender_tx : CTransaction :=
  mkTransaction (vin sample_tx) [mkTxOut 0 sender_script; mkTxOut 7 [OP_1]] 2 0.

Lemma sighash_cache_transparent_witness :
  HasOpSender sender_tx = true /\
  SignatureHashOutput [OP_1] sender_tx 0 1 0 (Some (PrecomputeTransactionData sender_tx)) =
  SignatureHashOutput [OP_1] sender_tx 0 1 0 None.
Proof.
  assert (H : HasOpSender sender_tx = true) by (vm_compute; reflexivity).
  split; [exact H|]. apply (proj2 (sighash_cache_transparent sender_tx)). exact H.
Defined.

(** An output whose sender signature may have been replaced. *)
Inductive resigned : CTxOut -> CTxOut -> Prop :=
| resigned_same o : resigned o o
| resigned_new v s sig s' :
    bytes s -> size s < two32 -> Scr.HasOpSender s = true ->
    Scr.UpdateSenderSig s sig = Some s' -> size s' < two32 ->
    resigned (mkTxOut v s) (mkTxOut v s').

Lemma resigned_without o o' :
  resigned o o' ->
  GetOutputWithoutSenderSig o' = GetOutputWithoutSenderSig o /\
  (o' = o \/ Scr.HasOpSender (scriptPubKey o) = true /\ Scr.HasOpSender (scriptPubKey o') = true).
Proof.
  intros [x|v s sig s' Hb Hs Hh Hu Hs']; [auto|].
  unfold Scr.UpdateSenderSig in Hu.
  destruct (ReplaceParam_twice s OP_SENDER 1 sig [] s' Hb Hs ltac:(lia) ltac:(reflexivity) Hu Hs') as [E F].
  unfold GetOutputWithoutSenderSig, Scr.WithoutSenderSig, Scr.UpdateSenderSig. cbn [scriptPubKey nValue].
  rewrite E. split.
  - f_equal. destruct (Scr.ReplaceParam s OP_SENDER 1 []) eqn:R; [reflexivity|].
    destruct (ReplaceParam_split s OP_SENDER 1 sig s' Hb Hs ltac:(lia) Hu)
      as (a & old & b & x & post & t & -> & _ & Henc & Ht & Hx & Hpre & Hlb & Ha).
    rewrite <- Hx, ReplaceParam_flat in R by (auto; try lia; now rewrite Hx). discriminate.
  - right. unfold Scr.HasOpSender in *. now rewrite F.
Qed.

(** C39: a sender's signature is not part of what senders sign: replacing the
    signatures of any of the transaction's sender outputs leaves every output
    signature hash unchanged. *)
Theorem sender_signature_unsigned scriptCode tx tx' nOut nHashType amount :
  vin tx' = vin tx -> nVersion tx' = nVersion tx -> nLockTime tx' = nLockTime tx ->
  Forall2 resigned (vout tx) (vout tx') ->
  SignatureHashOutput scriptCode tx' nOut nHashType amount None =
  SignatureHashOutput scriptCode tx nOut nHashType amount None.
Proof.
  intros Hi Hv Hl Ho. unfold SignatureHashOutput, cached.
  assert (EO : GetOutputsOpSenderHash tx' = GetOutputsOpSenderHash tx).
  { unfold GetOutputsOpSenderHash. f_equal. induction Ho as [|o o' l l' R Ho IH]; [reflexivity|].
    cbn [map]. f_equal; [|exact IH]. destruct (resigned_without o o' R) as [-> [->|[-> ->]]]; reflexivity. }
  assert (EP : GetPrevoutHash tx' = GetPrevoutHash tx) by (unfold GetPrevoutHash; now rewrite Hi).
  assert (ES : GetSequenceHash tx' = GetSequenceHash tx) by (unfold GetSequenceHash; now rewrite Hi).
  assert (EF : GetFirstPrevoutHash tx' = GetFirstPrevoutHash tx) by (unfold GetFirstPrevoutHash; now rewrite Hi).
  assert (EG : GetFirstSequenceHash tx' = GetFirstSequenceHash tx) by (unfold GetFirstSequenceHash; now rewrite Hi).
  rewrite EO, EP, ES, EF, EG, Hi, Hv, Hl.
  assert (EN : match nth_error (vout tx) nOut, nth_error (vout tx') nOut with
    | Some o, Some o' => GetOutputWithoutSenderSig o' = GetOutputWithoutSenderSig o
    | None, None => True | _, _ => False end).
  { clear -Ho. revert nOut. induction Ho as [|o o' l l' R Ho IH]; intros [|n]; cbn [nth_error];
      [exact I|exact I|now apply resigned_without|apply IH]. }
  destruct (nth_error (vout tx) nOut), (nth_error (vout tx') nOut);
    [rewrite EN; reflexivity|contradiction|contradiction|reflexivity].
Qed.

Definition resigned_script : list Z :=
  [1; 1] ++ Scr.push_vch [] (repeat 7 20) ++ Scr.push_vch [] (repeat 5 71) ++
  [OP_SENDER; 1; 4; 1; 100; 1; 1; 1; 3] ++ Scr.push_vch [] (repeat 8 20) ++ [OP_CALL].

Lemma sender_signature_unsigned_witness :
  SignatureHashOutput [OP_1]
    (mkTransaction (vin sender_tx) [mkTxOut 0 resigned_script; mkTxOut 7 [OP_1]] 2 0) 0 1 0 None =
  SignatureHashOutput [OP_1] sender_tx 0 1 0 None.
Proof.
  apply (sender_signature_unsigned [OP_1] sender_tx); try reflexivity.
  constructor; [|repeat constructor]. apply (resigned_new 0 sender_script (repeat 5 71));
    [apply bytes_check| | | |]; vm_compute; reflexivity.
Defined.
