(* ===== verification/Standard.v ===== *)
(** * Output templates and destinations: [src/src/script/standard.cpp]

    [Solver] recognises the standard forms of an output script, payments and
    contract calls alike; destinations are the addresses of payments. *)
From Stdlib Require Import ZArith Lia List Bool.
From S2P Require Import Prelude Serialize Script Hash Interpreter Primitives Sighash.
Import ListNotations.

(** ** Kinds of outputs *)

Inductive txnouttype : Set :=
| TX_NONSTANDARD
| TX_PUBKEY
| TX_PUBKEYHASH
| TX_SCRIPTHASH
| TX_MULTISIG
| TX_NULL_DATA
| TX_WITNESS_V0_SCRIPTHASH
| TX_WITNESS_V0_KEYHASH
| TX_WITNESS_UNKNOWN
| TX_COINSTAKE_CALL
| TX_CREATE_SENDER
| TX_CALL_SENDER
| TX_CREATE
| TX_CALL.

Inductive CTxDestination : Type :=
| CNoDestination
| CKeyID (id : list Z)
| CScriptID (id : list Z)
| WitnessV0ScriptHash (id : list Z)
| WitnessV0KeyHash (id : list Z)
| WitnessUnknown (version : Z) (program : list Z).

Definition STANDARD_MINIMUM_GAS_LIMIT : Z := 10000.
Definition MAX_BLOCK_GAS_LIMIT_DGP : Z := 1000000000.
Definition DEFAULT_BLOCK_GAS_LIMIT_DGP : Z := 40000000.
Definition MAX_BASE_SCRIPT_SIZE : Z := 10000.
Definition addresstype_PUBKEYHASH : Z := 1.
Definition addresstype_NONSTANDARD : Z := 5.

(** [script << opcode] *)
Definition op (opcode : Z) : list Z := [opcode].

(** [None] is the failed assertion of [EncodeOP_N]. *)
Definition GetScriptForDestination (dest : CTxDestination) : option (list Z) :=
  match dest with
  | CNoDestination => Some []
  | CKeyID id => Some (Scr.push_vch (op OP_DUP ++ op OP_HASH160) id ++ op OP_EQUALVERIFY ++ op OP_CHECKSIG)
  | CScriptID id => Some (Scr.push_vch (op OP_HASH160) id ++ op OP_EQUAL)
  | WitnessV0KeyHash id => Some (Scr.push_vch (op OP_0) id)
  | WitnessV0ScriptHash id => Some (Scr.push_vch (op OP_0) id)
  | WitnessUnknown version program =>
      match Scr.EncodeOP_N version with
      | Some n => Some (Scr.push_vch (op n) program)
      | None => None
      end
  end.

(** [GetScriptForRawPubKey] and [GetScriptForMultisig] *)
Definition GetScriptForRawPubKey (pubKey : list Z) : list Z := Scr.push_vch [] pubKey ++ op OP_CHECKSIG.

Definition GetScriptForMultisig (nRequired : Z) (keys : list (list Z)) : option (list Z) :=
  match Scr.EncodeOP_N nRequired, Scr.EncodeOP_N (size keys) with
  | Some m, Some n => Some (fold_left Scr.push_vch keys (op m) ++ op n ++ op OP_CHECKMULTISIG)
  | _, _ => None
  end.

(** ** Contract versions: [VersionVM] of [src/src/qtum/qtumtransaction.h] *)

(** The 32 bits: [format] (2), [rootVM] (6), [vmVersion] (8), [flagOptions] (16). *)
Definition rootVM (raw : Z) : Z := Z.land (Z.shiftr raw 2) 63.
Definition NoExec_raw : Z := 0.
Definition EVMDefault_raw : Z := 4.

(** ** [Solver] *)

(** The state of one template's comparison. *)
Record match_state : Type := mkMatch {
  vSolutions : list (list Z);
  version_rootVM : Z;
  addressType : Z
}.

Definition add_solution (st : match_state) (v : list Z) : match_state :=
  mkMatch (vSolutions st ++ [v]) (version_rootVM st) (addressType st).

(** One turn of the loop goes on, leaves it ([break]), or returns
    [TX_NONSTANDARD] from the function. *)
Inductive turn : Type :=
| Continue (st : match_state)
| Break
| Nonstandard (st : match_state).

Definition is_push (opcode1 : Z) : bool := (0 <=? opcode1) && (opcode1 <=? OP_PUSHDATA4).

Section Solver.
Variables (contractConsensus allowEmptySenderSig : bool).

(** The chain of [if]s on the template's opcode. *)
Definition match_op (opcode2 opcode1 : Z) (vch1 : list Z) (st : match_state) : turn :=
  if opcode2 =? OP_PUBKEY then
    if (size vch1 <? 33) || (65 <? size vch1) then Break else Continue (add_solution st vch1)
  else if opcode2 =? OP_PUBKEYHASH then
    if negb (size vch1 =? 20) then Break else Continue (add_solution st vch1)
  else if opcode2 =? OP_SMALLINTEGER then
    if (opcode1 =? OP_0) || ((OP_1 <=? opcode1) && (opcode1 <=? OP_16)) then
      match Scr.DecodeOP_N opcode1 with
      | Some n => Continue (add_solution st [n])
      | None => Break
      end
    else Break
  else if opcode2 =? OP_VERSION then
    if is_push opcode1 then
      if match vch1 with [] => true | _ => false end || (4 <? size vch1)
         || negb (Z.land (last vch1 0) 128 =? 0) then Nonstandard st
      else
        match Num.vch_to_uint64 vch1 with
        | None => Nonstandard st
        | Some raw =>
            let raw := u32 raw in
            if negb ((raw =? EVMDefault_raw) || (raw =? NoExec_raw)) then Nonstandard st
            else Continue (mkMatch (vSolutions st) (rootVM raw) (addressType st))
        end
    else Continue st
  else if opcode2 =? OP_GAS_LIMIT then
    match Num.vch_to_uint64 vch1 with
    | None => Nonstandard st
    | Some val =>
        if contractConsensus then
          if negb (version_rootVM st =? 0) && (val <? 1) then Nonstandard st
          else if MAX_BLOCK_GAS_LIMIT_DGP <? val then Nonstandard st
          else Continue st
        else
          if negb (version_rootVM st =? 0) && (val <? STANDARD_MINIMUM_GAS_LIMIT) then Nonstandard st
          else if DEFAULT_BLOCK_GAS_LIMIT_DGP / 2 <? val then Nonstandard st
          else Continue st
    end
  else if opcode2 =? OP_DATA then
    if is_push opcode1 && match vch1 with [] => true | _ => false end then Break else Continue st
  else if opcode2 =? OP_ADDRESS_TYPE then
    match Num.vch_to_uint64 vch1 with
    | None => Break
    | Some val =>
        if (val <? addresstype_PUBKEYHASH) || (addresstype_NONSTANDARD <? val) then Break
        else Continue (mkMatch (vSolutions st) (version_rootVM st) val)
    end
  else if opcode2 =? OP_ADDRESS then
    if (addressType st =? addresstype_PUBKEYHASH) && (size vch1 =? 20) then
      match GetScriptForDestination (CKeyID vch1) with
      | Some senderPubKey => Continue (add_solution st (ser vch_codec senderPubKey))
      | None => Break
      end
    else Break
  else if opcode2 =? OP_SCRIPT_SIG then
    if is_push opcode1 then
      if negb allowEmptySenderSig && match vch1 with [] => true | _ => false end then Break
      else if MAX_BASE_SCRIPT_SIZE <? size vch1 then Nonstandard st
      else Continue (add_solution st vch1)
    else Continue st
  else if negb (opcode1 =? opcode2) || match vch1 with [] => false | _ => true end then Break
  else Continue st.

(** The inner loop of [OP_PUBKEYS]; after a [GetOp] that fails the opcode is
    [OP_INVALIDOPCODE] and the data empty. *)
Fixpoint match_pubkeys (fuel : nat) (pc1 : list Z) (opcode1 : Z) (vch1 : list Z) (st : match_state)
  : list Z * Z * list Z * match_state :=
  match fuel with
  | O => (pc1, opcode1, vch1, st)
  | S fuel' =>
      if (33 <=? size vch1) && (size vch1 <=? 65) then
        let st := add_solution st vch1 in
        match Scr.GetScriptOp pc1 with
        | Some (pc1, opcode1, vch1) => match_pubkeys fuel' pc1 opcode1 vch1 st
        | None => (GetOp_stop pc1, OP_INVALIDOPCODE, [], st)
        end
      else (pc1, opcode1, vch1, st)
  end.

(** The comparison with a template; the template's opcodes are single bytes
    above [OP_PUSHDATA4], so [GetOp] takes them one by one. *)
Fixpoint match_loop (pc2 pc1 : list Z) (st : match_state) : turn :=
  match pc2 with
  | [] => match pc1 with [] => Continue st | _ => Break end
  | opcode2 :: pc2 =>
      match Scr.GetScriptOp pc1 with
      | None => Break
      | Some (pc1, opcode1, vch1) =>
          if opcode2 =? OP_PUBKEYS then
            let '(pc1, opcode1, vch1, st) := match_pubkeys (S (length pc1)) pc1 opcode1 vch1 st in
            match pc2 with
            | [] => Break
            | opcode2 :: pc2 =>
                match match_op opcode2 opcode1 vch1 st with
                | Continue st => match_loop pc2 pc1 st
                | t => t
                end
            end
          else
            match match_op opcode2 opcode1 vch1 st with
            | Continue st => match_loop pc2 pc1 st
            | t => t
            end
      end
  end.

(** [mTemplates], in the order of its keys. *)
Definition mTemplates : list (txnouttype * list Z) :=
  [(TX_PUBKEY, [OP_PUBKEY; OP_CHECKSIG]);
   (TX_PUBKEYHASH, [OP_DUP; OP_HASH160; OP_PUBKEYHASH; OP_EQUALVERIFY; OP_CHECKSIG]);
   (TX_MULTISIG, [OP_SMALLINTEGER; OP_PUBKEYS; OP_SMALLINTEGER; OP_CHECKMULTISIG]);
   (TX_COINSTAKE_CALL, [OP_VERSION; OP_DATA; OP_PUBKEYHASH; OP_COINSTAKE_CALL]);
   (TX_CREATE_SENDER, [OP_ADDRESS_TYPE; OP_ADDRESS; OP_SCRIPT_SIG; OP_SENDER;
                       OP_VERSION; OP_GAS_LIMIT; OP_DATA; OP_CREATE]);
   (TX_CALL_SENDER, [OP_ADDRESS_TYPE; OP_ADDRESS; OP_SCRIPT_SIG; OP_SENDER;
                     OP_VERSION; OP_GAS_LIMIT; OP_DATA; OP_PUBKEYHASH; OP_CALL]);
   (TX_CREATE, [OP_VERSION; OP_GAS_LIMIT; OP_DATA; OP_CREATE]);
   (TX_CALL, [OP_VERSION; OP_GAS_LIMIT; OP_DATA; OP_PUBKEYHASH; OP_CALL])].

(** The additional checks of a multisig match. *)
Definition multisig_ok (sols : list (list Z)) : bool :=
  let m := nth 0 (hd [] sols) 0 in
  let n := nth 0 (last sols []) 0 in
  negb ((m <? 1) || (n <? 1) || (n <? m) || negb (size sols - 2 =? n)).

Fixpoint scan_templates (l : list (txnouttype * list Z)) (script1 : list Z)
  : txnouttype * list (list Z) :=
  match l with
  | [] => (TX_NONSTANDARD, [])
  | (kind, script2) :: l' =>
      match match_loop script2 script1 (mkMatch [] 20 0) with
      | Continue st =>
          match kind with
          | TX_MULTISIG =>
              if multisig_ok (vSolutions st) then (kind, vSolutions st)
              else (TX_NONSTANDARD, vSolutions st)
          | _ => (kind, vSolutions st)
          end
      | Nonstandard st => (TX_NONSTANDARD, vSolutions st)
      | Break => scan_templates l' script1
      end
  end.

Definition Solver (scriptPubKey : list Z) : txnouttype * list (list Z) :=
  if Scr.IsPayToScriptHash scriptPubKey then
    (TX_SCRIPTHASH, [firstn 20 (skipn 2 scriptPubKey)])
  else
    match Scr.IsWitnessProgram scriptPubKey with
    | Some (witnessversion, witnessprogram) =>
        if (witnessversion =? 0) && (size witnessprogram =? 20) then
          (TX_WITNESS_V0_KEYHASH, [witnessprogram])
        else if (witnessversion =? 0) && (size witnessprogram =? 32) then
          (TX_WITNESS_V0_SCRIPTHASH, [witnessprogram])
        else if negb (witnessversion =? 0) then
          (TX_WITNESS_UNKNOWN, [[witnessversion]; witnessprogram])
        else (TX_NONSTANDARD, [])
    | None =>
        if match scriptPubKey with
           | o :: rest => (o =? OP_RETURN) && Scr.IsPushOnly rest
           | [] => false
           end
        then (TX_NULL_DATA, [])
        else scan_templates mTemplates scriptPubKey
    end.
End Solver.

(** ** Destinations *)

(** [CPubKey::GetID] *)
Definition GetID (pubKey : list Z) : list Z := Hash160 pubKey.

Definition ExtractDestination (scriptPubKey : list Z) : option CTxDestination :=
  let '(whichType, vSolutions) := Solver false false scriptPubKey in
  let sol i := nth i vSolutions [] in
  match whichType with
  | TX_PUBKEY => match CPubKey (sol 0%nat) with Some pubKey => Some (CKeyID (GetID pubKey)) | None => None end
  | TX_PUBKEYHASH => Some (CKeyID (sol 0%nat))
  | TX_SCRIPTHASH => Some (CScriptID (sol 0%nat))
  | TX_WITNESS_V0_KEYHASH => Some (WitnessV0KeyHash (sol 0%nat))
  | TX_WITNESS_V0_SCRIPTHASH => Some (WitnessV0ScriptHash (sol 0%nat))
  | TX_WITNESS_UNKNOWN => Some (WitnessUnknown (nth 0 (sol 0%nat) 0) (sol 1%nat))
  | _ => None
  end.

Definition IsValidDestination (dest : CTxDestination) : bool :=
  match dest with CNoDestination => false | _ => true end.

Definition IsValidContractSenderAddress (dest : CTxDestination) : bool :=
  match dest with CKeyID _ => true | _ => false end.

(** The type, the addresses and the number of signatures required. *)
Definition ExtractDestinations (scriptPubKey : list Z) (contractConsensus : bool)
  : option (txnouttype * list CTxDestination * Z) :=
  let '(typeRet, vSolutions) := Solver contractConsensus false scriptPubKey in
  match typeRet with
  | TX_NONSTANDARD | TX_NULL_DATA => None
  | TX_MULTISIG =>
      let keys := removelast (tl vSolutions) in
      let addressRet := flat_map (fun v => match CPubKey v with Some k => [CKeyID (GetID k)] | None => [] end) keys in
      match addressRet with
      | [] => None
      | _ => Some (typeRet, addressRet, nth 0 (hd [] vSolutions) 0)
      end
  | _ =>
      match ExtractDestination scriptPubKey with
      | Some address => Some (typeRet, [address], 1)
      | None => None
      end
  end.

Definition GetScriptForWitness (redeemscript : list Z) : option (list Z) :=
  let '(typ, vSolutions) := Solver false false redeemscript in
  match typ with
  | TX_PUBKEY => GetScriptForDestination (WitnessV0KeyHash (Hash160 (nth 0 vSolutions [])))
  | TX_PUBKEYHASH => GetScriptForDestination (WitnessV0KeyHash (nth 0 vSolutions []))
  | _ => GetScriptForDestination (WitnessV0ScriptHash (digest CSHA256 redeemscript))
  end.

(** The sender's script and signature script; an exception of the reads is
    caught and means [false]. *)
Definition ExtractSenderData (outputPubKey : list Z) : option (list Z * list Z) :=
  if Scr.HasOpSender outputPubKey then
    let r1 := Solver true false outputPubKey in
    let r := match r1 with (TX_NONSTANDARD, _) => Solver false false outputPubKey | _ => r1 end in
    match r with
    | (TX_NONSTANDARD, _) => None
    | (_, vSolutions) =>
        if size vSolutions <? 2 then None
        else match unser vch_codec (nth 0 vSolutions []), unser vch_codec (nth 1 vSolutions []) with
             | Some (senderPubKey, _), Some (senderSig, _) => Some (senderPubKey, senderSig)
             | _, _ => None
             end
    end
  else None.

Definition GetSenderPubKey (outputPubKey : list Z) : option (list Z) :=
  if Scr.HasOpSender outputPubKey then
    let r1 := Solver true true outputPubKey in
    let r := match r1 with (TX_NONSTANDARD, _) => Solver false true outputPubKey | _ => r1 end in
    match r with
    | (TX_NONSTANDARD, _) => None
    | (_, vSolutions) =>
        if size vSolutions <? 1 then None
        else match unser vch_codec (nth 0 vSolutions []) with
             | Some (senderPubKey, _) => Some senderPubKey
             | None => None
             end
    end
  else None.

(** [ExtractPublicKeyHash]; [None] where it reports failure through [OK]. *)
Definition ExtractPublicKeyHash (scriptPubKey : list Z) : option (list Z) :=
  match fst (Solver false false scriptPubKey), ExtractDestination scriptPubKey with
  | (TX_PUBKEY | TX_PUBKEYHASH), Some (CKeyID id) => Some id
  | _, _ => None
  end.

(** ** Lemmas of the template matcher *)

(** Selects the branch of [match_op] for a known template opcode. *)
Ltac template_op :=
  unfold match_op;
  cbn [Z.eqb Pos.eqb OP_PUBKEY OP_PUBKEYHASH OP_SMALLINTEGER OP_VERSION OP_GAS_LIMIT OP_DATA
       OP_ADDRESS_TYPE OP_ADDRESS OP_SCRIPT_SIG OP_DUP OP_HASH160 OP_EQUALVERIFY OP_CHECKSIG
       OP_CHECKMULTISIG].

Section SolverLemmas.
Variables (cc es : bool).

Lemma match_loop_step o pc2 e t opcode vch st :
  encodes e opcode vch -> size (e ++ t) < two32 -> (o =? OP_PUBKEYS) = false ->
  match_loop cc es (o :: pc2) (e ++ t) st =
  match match_op cc es o opcode vch st with
  | Continue st => match_loop cc es pc2 t st
  | r => r
  end.
Proof. intros [_ He] Hs Ho. cbn [match_loop]. now rewrite He, Ho by assumption. Qed.

Lemma match_loop_last o e opcode vch st :
  encodes e opcode vch -> size e < two32 -> (o =? OP_PUBKEYS) = false ->
  match_loop cc es [o] e st = match_op cc es o opcode vch st.
Proof.
  intros He Hs Ho. rewrite <- (app_nil_r e) in Hs |- *. rewrite (match_loop_step _ _ _ _ _ _ _ He) by assumption.
  now destruct (match_op cc es o opcode vch st).
Qed.

(** A run of keys is taken whole. *)
Lemma match_pubkeys_all keys : forall fuel key opcode o e v t st,
  Forall (fun k => 33 <= size k <= 65) (key :: keys) ->
  encodes e o v -> size v < 33 -> (length keys < fuel)%nat ->
  size (flat_map push_bytes keys ++ e ++ t) < two32 ->
  match_pubkeys (S fuel) (flat_map push_bytes keys ++ e ++ t) opcode key st =
  (t, o, v, mkMatch (vSolutions st ++ key :: keys) (version_rootVM st) (addressType st)).
Proof.
  induction keys as [|k keys IH]; intros fuel key opcode o e v t st Hk He Hv Hf Hs;
    inversion Hk as [|? ? H1 H2]; subst; (destruct fuel as [|fuel]; [cbn in Hf; lia|]).
  - cbn [flat_map app] in *. remember (S fuel) as f. cbn [match_pubkeys].
    destruct (Z.leb_spec 33 (size key)), (Z.leb_spec (size key) 65); try lia. cbn [andb].
    rewrite (proj2 He) by assumption. subst f. cbn [match_pubkeys].
    destruct (Z.leb_spec 33 (size v)); [lia|]. reflexivity.
  - cbn [flat_map] in *. rewrite <- app_assoc in *. remember (S fuel) as f. cbn [match_pubkeys].
    destruct (Z.leb_spec 33 (size key)), (Z.leb_spec (size key) 65); try lia. cbn [andb].
    inversion H2; subst.
    destruct (push_bytes_encodes k) as (o' & _ & He'); [unfold two32; lia|].
    rewrite (proj2 He') by assumption.
    rewrite (IH fuel k o' o e v t _ H2 He Hv); [|cbn [length] in Hf; lia|rewrite size_app in Hs; pose proof (size_nonneg (push_bytes k)); lia].
    unfold add_solution. cbn [vSolutions version_rootVM addressType]. now rewrite <- app_assoc.
Qed.

(** What the first operation of a script is when the sender templates match it. *)
Lemma sender_first_op pc2 script st st' :
  match_loop cc es (OP_ADDRESS_TYPE :: OP_ADDRESS :: pc2) script st = Continue st' ->
  exists pc1 opcode vch, Scr.GetScriptOp script = Some (pc1, opcode, vch)
    /\ Num.vch_to_uint64 vch = Some addresstype_PUBKEYHASH.
Proof.
  cbn [match_loop]. destruct (Scr.GetScriptOp script) as [[[pc1 o] v]|]; [|discriminate].
  change (OP_ADDRESS_TYPE =? OP_PUBKEYS) with false. change (OP_ADDRESS =? OP_PUBKEYS) with false.
  template_op.
  destruct (Num.vch_to_uint64 v) as [val|] eqn:Ev; [|discriminate].
  destruct (_ || _); [discriminate|].
  destruct (Scr.GetScriptOp pc1) as [[[pc' o'] v']|]; [|discriminate].
  template_op. cbn [addressType].
  destruct (Z.eqb_spec val addresstype_PUBKEYHASH); [|discriminate].
  subst val. intros _. now exists pc1, o, v.
Qed.

(** Data is pushed by the push opcodes only. *)
Lemma data_is_push script pc1 opcode b vch :
  Scr.GetScriptOp script = Some (pc1, opcode, b :: vch) -> is_push opcode = true.
Proof.
  destruct script as [|o s]; [discriminate|]. cbn [Scr.GetScriptOp]. unfold is_push.
  destruct (Z.leb_spec o OP_PUSHDATA4) as [H|H]; [|intros E; inversion E].
  destruct (Z.leb_spec 0 o) as [H0|H0].
  - destruct (if o <? OP_PUSHDATA1 then _ else _) as [[n q]|]; [|discriminate].
    destruct (_ <? n); [discriminate|]. intros E. inversion E. subst.
    now rewrite (proj2 (Z.leb_le _ _) H0), (proj2 (Z.leb_le _ _) H).
  - destruct (Z.ltb_spec o OP_PUSHDATA1) as [_|F]; [|unfold OP_PUSHDATA1 in F; lia].
    destruct (_ <? o); [discriminate|]. destruct o; [lia|lia|]. intros E. inversion E.
Qed.

(** A script that opens with the address type of a key hash is no contract
    call: the version template refuses it for good. *)
Lemma version_refuses_address_type pc2 script pc1 opcode vch st :
  Scr.GetScriptOp script = Some (pc1, opcode, vch) ->
  Num.vch_to_uint64 vch = Some addresstype_PUBKEYHASH ->
  match_loop cc es (OP_VERSION :: pc2) script st = Nonstandard st.
Proof.
  intros Hg Hv. cbn [match_loop]. rewrite Hg. change (OP_VERSION =? OP_PUBKEYS) with false.
  template_op.
  destruct vch as [|b v]; [discriminate|]. rewrite (data_is_push _ _ _ _ _ Hg), Hv.
  now destruct (_ || _).
Qed.

(** The template that answers is one whose comparison succeeds, after others
    that gave up. *)
Lemma scan_found l script k sols :
  scan_templates cc es l script = (k, sols) -> k <> TX_NONSTANDARD ->
  exists l1 pc2 st l2, l = l1 ++ (k, pc2) :: l2
    /\ match_loop cc es pc2 script (mkMatch [] 20 0) = Continue st
    /\ Forall (fun p => match_loop cc es (snd p) script (mkMatch [] 20 0) = Break) l1.
Proof.
  intros H Hk. revert H. induction l as [|[k' pc2] l IH]; cbn [scan_templates]; intros H; [congruence|].
  destruct (match_loop cc es pc2 script (mkMatch [] 20 0)) as [st| |st] eqn:Em; [| |congruence].
  - assert (k' = k) as -> by (destruct k'; try congruence; destruct (multisig_ok _); congruence).
    exists [], pc2, st, l. now repeat split.
  - destruct (IH H) as (l1 & p & st & l2 & -> & Hm & Hb).
    exists ((k', pc2) :: l1), p, st, l2. repeat split; [assumption|now constructor].
Qed.

(** The kinds with a template of their own come from the scan. *)
Lemma Solver_scans script k sols :
  Solver cc es script = (k, sols) -> k = TX_CREATE_SENDER \/ k = TX_CALL_SENDER ->
  scan_templates cc es mTemplates script = (k, sols).
Proof.
  unfold Solver. intros H Hk.
  destruct (Scr.IsPayToScriptHash script); [intuition congruence|].
  destruct (Scr.IsWitnessProgram script) as [[ver prog]|].
  { repeat match goal with H : context [if ?b then _ else _] |- _ => destruct b end; intuition congruence. }
  destruct (match script with [] => false | _ :: _ => _ end); [intuition congruence|assumption].
Qed.

End SolverLemmas.

(** Where the sender templates stand in the map. *)
Lemma sender_template_at l1 k pc2 l2 :
  mTemplates = l1 ++ (k, pc2) :: l2 -> k = TX_CREATE_SENDER \/ k = TX_CALL_SENDER ->
  exists tail, pc2 = OP_ADDRESS_TYPE :: OP_ADDRESS :: tail
    /\ In (TX_COINSTAKE_CALL, [OP_VERSION; OP_DATA; OP_PUBKEYHASH; OP_COINSTAKE_CALL]) l1.
Proof.
  intros E Hk. unfold mTemplates in E.
  do 8 (destruct l1 as [|? l1];
    [injection E as <- <- _; first [destruct Hk; discriminate|eexists; split; [reflexivity|cbn; tauto]]|];
    injection E as <- E).
  now destruct l1.
Qed.

(** ** Sender outputs *)

Lemma Solver_not_sender cc es script k :
  k = TX_CREATE_SENDER \/ k = TX_CALL_SENDER -> fst (Solver cc es script) <> k.
Proof.
  intros Hk. destruct (Solver cc es script) as [k' sols] eqn:E. cbn [fst]. intros ->.
  destruct (scan_found _ _ _ _ _ _ (Solver_scans _ _ _ _ _ E Hk)) as (l1 & pc2 & st & l2 & El & Hm & Hb);
    [intuition congruence|].
  destruct (sender_template_at _ _ _ _ El Hk) as (tail & -> & Hin).
  destruct (sender_first_op _ _ _ _ _ _ Hm) as (pc1 & o & v & Hg & Hv).
  rewrite Forall_forall in Hb. specialize (Hb _ Hin). cbn [snd] in Hb.
  rewrite (version_refuses_address_type _ _ _ _ _ _ _ _ Hg Hv) in Hb. discriminate.
Qed.

(** C37: the templates with a sender are never the answer: the map orders them after
    [TX_COINSTAKE_CALL], whose first opcode, [OP_VERSION], makes the function
    return on the address type that opens every sender output. *)
Theorem sender_templates_unreachable cc es script :
  fst (Solver cc es script) <> TX_CREATE_SENDER /\ fst (Solver cc es script) <> TX_CALL_SENDER.
Proof. split; apply Solver_not_sender; auto. Qed.

(** ** Addresses and their scripts *)

(** The destinations the address formats denote. *)
Definition dest_ok (dest : CTxDestination) : Prop :=
  match dest with
  | CNoDestination => False
  | CKeyID id | CScriptID id | WitnessV0KeyHash id => size id = 20
  | WitnessV0ScriptHash id => size id = 32
  | WitnessUnknown version program => 1 <= version <= 16 /\ 2 <= size program <= 40
  end.

Lemma push_small_bytes b : size b < 76 -> push_bytes b = size b :: b.
Proof.
  intros H. unfold push_bytes, Scr.push_vch. cbn [app]. unfold OP_PUSHDATA1.
  destruct (Z.ltb_spec (size b) 76); [|lia]. rewrite u8_small; [reflexivity|].
  pose proof (size_nonneg b). unfold is_u8. lia.
Qed.

(** What [operator<<] builds for a witness program is read back as one. *)
Lemma witness_program_read version n program :
  0 <= version <= 16 -> 2 <= size program <= 40 -> Scr.EncodeOP_N version = Some n ->
  Scr.IsPayToScriptHash (n :: push_bytes program) = false /\
  Scr.IsWitnessProgram (n :: push_bytes program) = Some (version, program).
Proof.
  intros Hv Hp Hn. rewrite push_small_bytes by lia.
  unfold Scr.EncodeOP_N, OP_0, OP_1 in Hn.
  assert (Hn' : n = 0 /\ version = 0 \/ n = 80 + version /\ 1 <= version).
  { destruct (Z.leb_spec 0 version), (Z.leb_spec version 16); try lia. cbn [andb negb] in Hn.
    destruct (Z.eqb_spec version 0); apply Some_inj in Hn; lia. }
  assert (Hs : size (n :: size program :: program) = size program + 2)
    by (unfold size; cbn [length]; lia).
  unfold Scr.IsPayToScriptHash, Scr.IsWitnessProgram, Scr.DecodeOP_N, Scr.at_. rewrite Hs.
  cbn [nth skipn]. unfold OP_0, OP_1, OP_16, OP_HASH160.
  split.
  - destruct (Z.eqb_spec n 169); [lia|]. now rewrite andb_false_r.
  - destruct (Z.ltb_spec (size program + 2) 4), (Z.ltb_spec 42 (size program + 2)); try lia. cbn [orb].
    rewrite Z.eqb_refl. destruct (Z.eqb_spec n 0); cbn [negb andb].
    + repeat f_equal. lia.
    + destruct (Z.ltb_spec n 81), (Z.ltb_spec 96 n), (Z.leb_spec 81 n), (Z.leb_spec n 96); try lia.
      cbn. repeat f_equal. lia.
Qed.

Lemma solver_p2sh cc es id : size id = 20 ->
  Solver cc es (op OP_HASH160 ++ push_bytes id ++ op OP_EQUAL) = (TX_SCRIPTHASH, [id]).
Proof.
  intros H. rewrite push_small_bytes, H by lia. unfold op. cbn [app].
  assert (E : length id = 20%nat) by (unfold size in H; lia). unfold Solver.
  assert (Hp : Scr.IsPayToScriptHash (OP_HASH160 :: 20 :: id ++ [OP_EQUAL]) = true).
  { unfold Scr.IsPayToScriptHash, Scr.at_. unfold size. cbn [length nth]. rewrite length_app, E.
    rewrite app_nth2 by lia. now rewrite E. }
  rewrite Hp. cbn [skipn]. now rewrite firstn_app_exact.
Qed.

(** Two steps of a comparison: the operation is [He]'s, the template's opcode is
    known, and the script is small enough to be read. *)
Ltac template_step He :=
  rewrite (match_loop_step _ _ _ _ _ _ _ _ _ He) by (reflexivity || (rewrite ?size_app in *; lia));
  template_op; cbn [negb orb andb].

Lemma solver_p2pkh cc es id : size id = 20 ->
  Solver cc es (op OP_DUP ++ op OP_HASH160 ++ push_bytes id ++ op OP_EQUALVERIFY ++ op OP_CHECKSIG)
  = (TX_PUBKEYHASH, [id]).
Proof.
  intros H. set (s := op OP_DUP ++ _).
  assert (Hpb : size (push_bytes id) = 21)
    by (rewrite push_small_bytes by lia; unfold size in *; cbn [length]; lia).
  assert (Hsz : size s = 25) by (unfold s; rewrite !size_app, Hpb; reflexivity).
  assert (Hp : Scr.IsPayToScriptHash s = false) by (unfold Scr.IsPayToScriptHash; now rewrite Hsz).
  assert (Hw : Scr.IsWitnessProgram s = None)
    by (unfold Scr.IsWitnessProgram, Scr.at_; rewrite Hsz; reflexivity).
  unfold Solver. rewrite Hp, Hw. unfold s at 1, op at 1. cbn [app]. change (OP_DUP =? OP_RETURN) with false.
  cbn [andb]. unfold mTemplates. cbn [scan_templates].
  destruct (push_bytes_encodes id) as (o & _ & He); [unfold two32; lia|].
  assert (He1 := encodes_plain OP_DUP eq_refl). assert (He2 := encodes_plain OP_HASH160 eq_refl).
  assert (He3 := encodes_plain OP_EQUALVERIFY eq_refl). assert (He4 := encodes_plain OP_CHECKSIG eq_refl).
  unfold s, op in *. clear Hp Hw s. assert (H2 : 25 < two32) by reflexivity.
  assert (size [OP_DUP] = 1 /\ size [OP_HASH160] = 1 /\ size [OP_EQUALVERIFY] = 1 /\ size [OP_CHECKSIG] = 1)
    by now split.
  template_step He1. template_step He1. template_step He2. template_step He. rewrite H.
  cbn [Z.eqb Pos.eqb negb]. template_step He3. now rewrite (match_loop_last _ _ _ _ _ _ _ He4).
Qed.

(** C36: the script of a well-formed destination is read back as that
    destination. *)
Theorem destination_roundtrip dest : dest_ok dest ->
  exists script, GetScriptForDestination dest = Some script
    /\ ExtractDestination script = Some dest /\ IsValidDestination dest = true.
Proof.
  destruct dest as [|id|id|id|id|version program]; cbn [dest_ok]; intros H; [contradiction| | | | |].
  - exists (op OP_DUP ++ op OP_HASH160 ++ push_bytes id ++ op OP_EQUALVERIFY ++ op OP_CHECKSIG).
    unfold ExtractDestination. rewrite solver_p2pkh by assumption.
    cbn [GetScriptForDestination]. rewrite push_vch_app, <- !app_assoc. now repeat split.
  - exists (op OP_HASH160 ++ push_bytes id ++ op OP_EQUAL).
    unfold ExtractDestination. rewrite solver_p2sh by assumption.
    cbn [GetScriptForDestination]. rewrite push_vch_app, <- !app_assoc. now repeat split.
  - destruct (witness_program_read 0 OP_0 id) as [H1 H2]; [lia|lia|reflexivity|].
    exists (OP_0 :: push_bytes id). unfold ExtractDestination, Solver. rewrite H1, H2, H. now repeat split.
  - destruct (witness_program_read 0 OP_0 id) as [H1 H2]; [lia|lia|reflexivity|].
    exists (OP_0 :: push_bytes id). unfold ExtractDestination, Solver. rewrite H1, H2, H. now repeat split.
  - assert (E : exists n, Scr.EncodeOP_N version = Some n).
    { unfold Scr.EncodeOP_N. destruct (Z.leb_spec 0 version), (Z.leb_spec version 16); try lia.
      cbn [andb negb]. destruct (version =? 0); eexists; reflexivity. }
    destruct E as [n E]. destruct (witness_program_read version n program) as [H1 H2]; [lia|lia|assumption|].
    exists (n :: push_bytes program). cbn [GetScriptForDestination]. rewrite E.
    unfold ExtractDestination, Solver. rewrite H1, H2.
    destruct (Z.eqb_spec version 0); [lia|]. now repeat split.
Qed.

Lemma destination_roundtrip_witness :
  dest_ok (WitnessUnknown 1 [7; 7])
  /\ exists script, GetScriptForDestination (WitnessUnknown 1 [7; 7]) = Some script
    /\ ExtractDestination script = Some (WitnessUnknown 1 [7; 7])
    /\ IsValidDestination (WitnessUnknown 1 [7; 7]) = true.
Proof.
  assert (H : dest_ok (WitnessUnknown 1 [7; 7])) by (unfold dest_ok, size; cbn; lia).
  split; [exact H|]. apply (destination_roundtrip (WitnessUnknown 1 [7; 7]) H).
Defined.

(** ** Multisignature outputs *)

Lemma size_cons {A : Type} (a : A) l : size (a :: l) = 1 + size l.
Proof. unfold size. cbn [length]. lia. Qed.

Lemma push_keys keys : forall script,
  fold_left Scr.push_vch keys script = script ++ flat_map push_bytes keys.
Proof.
  induction keys as [|k keys IH]; intros script; cbn [fold_left flat_map]; [now rewrite app_nil_r|].
  rewrite IH, push_vch_app. now rewrite <- app_assoc.
Qed.

Lemma push_keys_size keys :
  Forall (fun k => 33 <= size k <= 65) keys ->
  34 * size keys <= size (flat_map push_bytes keys) <= 66 * size keys.
Proof.
  induction 1 as [|k keys Hk _ IH]; cbn [flat_map]; [unfold size; cbn; lia|].
  rewrite size_app, push_small_bytes by lia. unfold size in *. cbn [length]. lia.
Qed.

(** The opcode of a small number, and the number back. *)
Lemma small_number v :
  1 <= v <= 16 -> exists n, Scr.EncodeOP_N v = Some n /\ OP_1 <= n <= OP_16
    /\ Scr.DecodeOP_N n = Some v /\ encodes (op n) n [].
Proof.
  intros H. exists (80 + v). unfold Scr.EncodeOP_N, Scr.DecodeOP_N, OP_0, OP_1, OP_16.
  destruct (Z.leb_spec 0 v), (Z.leb_spec v 16); try lia. cbn [andb negb].
  destruct (Z.eqb_spec v 0), (Z.eqb_spec (80 + v) 0); try lia.
  destruct (Z.leb_spec 81 (80 + v)), (Z.leb_spec (80 + v) 96); try lia. cbn [andb].
  repeat split; try lia; [f_equal; lia|f_equal; lia|discriminate|].
  apply (encodes_plain (80 + v)). unfold OP_PUSHDATA4. lia.
Qed.

Lemma smallinteger_op cc es n v st :
  OP_1 <= n <= OP_16 -> Scr.DecodeOP_N n = Some v ->
  match_op cc es OP_SMALLINTEGER n [] st = Continue (add_solution st [v]).
Proof.
  intros H E. template_op. rewrite E.
  destruct (Z.leb_spec OP_1 n), (Z.leb_spec n OP_16); try lia. cbn [andb]. now rewrite orb_true_r.
Qed.

Lemma multisig_ok_keys m (keys : list (list Z)) :
  1 <= m <= size keys -> multisig_ok ([m] :: keys ++ [[size keys]]) = true.
Proof.
  intros H. unfold multisig_ok. cbn [hd nth].
  rewrite app_comm_cons, last_last, size_app, size_cons. cbn [nth].
  change (size [[size keys]]) with 1.
  destruct (Z.ltb_spec m 1), (Z.ltb_spec (size keys) 1), (Z.ltb_spec (size keys) m),
    (Z.eqb_spec (1 + size keys + 1 - 2) (size keys)); try lia; reflexivity.
Qed.

Lemma CPubKey_size k : CPubKey k = Some k -> 33 <= size k <= 65.
Proof.
  unfold CPubKey, GetLen. destruct k as [|h k]; [discriminate|].
  remember (size (h :: k)) as n. destruct ((h =? 2) || (h =? 3)), ((h =? 4) || (h =? 6) || (h =? 7));
    change (33 =? 0) with false; change (65 =? 0) with false; change (0 =? 0) with true; cbn [negb andb];
    destruct (Z.eqb_spec 33 n), (Z.eqb_spec 65 n); intros E; try discriminate E; lia.
Qed.

Section Multisig.
Variables (cc es : bool) (m : Z) (key : list Z) (keys : list (list Z)).
Hypothesis Hm : 1 <= m <= size (key :: keys).
Hypothesis Hn : size (key :: keys) <= 16.
Hypothesis Hk : Forall (fun k => 33 <= size k <= 65) (key :: keys).

(** The template for [m] of the keys matches their script. *)
Lemma multisig_match om on st :
  OP_1 <= om <= OP_16 -> Scr.DecodeOP_N om = Some m -> encodes (op om) om [] ->
  OP_1 <= on <= OP_16 -> Scr.DecodeOP_N on = Some (size (key :: keys)) -> encodes (op on) on [] ->
  match_loop cc es [OP_SMALLINTEGER; OP_PUBKEYS; OP_SMALLINTEGER; OP_CHECKMULTISIG]
    (op om ++ flat_map push_bytes (key :: keys) ++ op on ++ op OP_CHECKMULTISIG) st
  = Continue (mkMatch (vSolutions st ++ [[m]] ++ (key :: keys) ++ [[size (key :: keys)]])
                      (version_rootVM st) (addressType st)).
Proof.
  intros H1 H2 H3 H4 H5 H6. pose proof (push_keys_size _ Hk) as Hsz.
  assert (E2 : 66 * 16 + 10 < two32) by reflexivity.
  assert (E1 : forall o, size (op o) = 1) by reflexivity.
  rewrite (match_loop_step _ _ _ _ _ _ _ _ _ H3) by (reflexivity || (rewrite !size_app, !E1; lia)).
  rewrite (smallinteger_op _ _ _ _ _ H1 H2). cbn [flat_map] in *.
  inversion Hk as [|? ? Hk1 Hk2]; subst.
  destruct (push_bytes_encodes key) as (o & _ & He); [unfold two32; lia|].
  cbn [match_loop]. rewrite <- app_assoc. rewrite size_app in Hsz.
  rewrite (proj2 He) by (rewrite !size_app, !E1; lia).
  change (OP_PUBKEYS =? OP_PUBKEYS) with true. cbn match.
  rewrite (match_pubkeys_all keys _ key o on (op on) []); [|exact Hk|exact H6|unfold size; cbn; lia| |
    rewrite !size_app, !E1; pose proof (size_nonneg (push_bytes key)); lia].
  2: { pose proof (push_keys_size _ Hk2) as Hs2. rewrite !length_app. unfold op, size in *. cbn [length]. lia. }
  rewrite (smallinteger_op _ _ _ _ _ H4 H5). cbn [vSolutions version_rootVM addressType add_solution].
  unfold op. cbn [Scr.GetScriptOp]. change (OP_CHECKMULTISIG <=? OP_PUSHDATA4) with false.
  cbn match. change (OP_CHECKMULTISIG =? OP_PUBKEYS) with false. cbn match. template_op.
  cbn [negb orb]. unfold add_solution. cbn [vSolutions version_rootVM addressType].
  now rewrite <- !app_assoc.
Qed.

Lemma multisig_solved :
  exists script, GetScriptForMultisig m (key :: keys) = Some script
    /\ Solver cc es script = (TX_MULTISIG, [m] :: (key :: keys) ++ [[size (key :: keys)]]).
Proof.
  destruct (small_number m) as (om & A1 & A2 & A3 & A4); [lia|].
  destruct (small_number (size (key :: keys))) as (on & B1 & B2 & B3 & B4); [lia|].
  unfold GetScriptForMultisig. rewrite A1, B1, push_keys, <- app_assoc. eexists. split; [reflexivity|].
  pose proof (multisig_match om on (mkMatch [] 20 0) A2 A3 A4 B2 B3 B4) as Hmatch.
  pose proof (push_keys_size _ Hk) as Hsz.
  remember (op om ++ flat_map push_bytes (key :: keys) ++ op on ++ op OP_CHECKMULTISIG) as s eqn:Es.
  assert (Hs : size s = size (flat_map push_bytes (key :: keys)) + 3)
    by (rewrite Es, !size_app; unfold op, size; cbn [length]; lia).
  pose proof (Forall_inv Hk) as Hk1. cbv beta in Hk1.
  assert (Hp : Scr.IsPayToScriptHash s = false).
  { unfold Scr.IsPayToScriptHash. rewrite Hs. destruct (Z.eqb_spec (size (flat_map push_bytes (key :: keys)) + 3) 23);
      [rewrite size_cons in Hsz; pose proof (size_nonneg keys); lia|reflexivity]. }
  assert (Hw : Scr.IsWitnessProgram s = None).
  { unfold Scr.IsWitnessProgram. rewrite Hs. destruct (Z.ltb_spec 42 (size (flat_map push_bytes (key :: keys)) + 3));
      [now rewrite orb_true_r|].
    assert (Hat : Scr.at_ s 1 = size key)
      by (rewrite Es; cbn [flat_map]; now rewrite push_small_bytes by lia).
    rewrite Hat. cbn [flat_map]. rewrite size_app, push_small_bytes, size_cons by lia.
    pose proof (size_nonneg (flat_map push_bytes keys)).
    destruct (Z.eqb_spec (size key + 2) (1 + size key + size (flat_map push_bytes keys) + 3)); [lia|].
    repeat match goal with |- context [if ?b then _ else _] => destruct b end; reflexivity. }
  unfold Solver. rewrite Hp, Hw. rewrite Es at 1. unfold op at 1. cbn [app].
  assert (Hr : (om =? OP_RETURN) = false) by (apply Z.eqb_neq; unfold OP_1, OP_16, OP_RETURN in *; lia).
  rewrite Hr. cbn [andb]. unfold mTemplates. cbn [scan_templates].
  rewrite Es at 1.
  rewrite (match_loop_step _ _ _ _ _ _ _ _ _ A4) by first [reflexivity|rewrite <- Es, Hs; unfold two32; lia].
  template_op. change (size (A := Z) [] <? 33) with true. cbn [orb].
  rewrite Es at 1.
  rewrite (match_loop_step _ _ _ _ _ _ _ _ _ A4) by first [reflexivity|rewrite <- Es, Hs; unfold two32; lia].
  template_op. change 118 with OP_DUP.
  assert (Hd : (om =? OP_DUP) = false) by (apply Z.eqb_neq; unfold OP_1, OP_16, OP_DUP in *; lia).
  rewrite Hd. cbn [orb negb]. rewrite Hmatch. cbn [vSolutions app].
  pose proof (multisig_ok_keys m (key :: keys) Hm) as Hok. cbn [app] in Hok. now rewrite Hok.
Qed.
End Multisig.

(** [GetScriptForMultisig] builds what [ExtractDestinations] reads back: the
    kind, an address for each key in order, and the number of signatures. *)
Theorem multisig_roundtrip m keys :
  1 <= m <= size keys -> size keys <= 16 ->
  Forall (fun k => CPubKey k = Some k) keys ->
  exists script, GetScriptForMultisig m keys = Some script
    /\ ExtractDestinations script false
       = Some (TX_MULTISIG, map (fun k => CKeyID (Hash160 k)) keys, m).
Proof.
  intros Hm Hn Hk. destruct keys as [|key keys]; [unfold size in Hm; cbn in Hm; lia|].
  assert (Hsz : Forall (fun k => 33 <= size k <= 65) (key :: keys))
    by (eapply Forall_impl; [|exact Hk]; intros; now apply CPubKey_size).
  destruct (multisig_solved false false m key keys Hm Hn Hsz) as (script & -> & E).
  exists script. split; [reflexivity|]. unfold ExtractDestinations. rewrite E.
  cbn [tl hd nth]. rewrite removelast_last.
  assert (Ea : flat_map (fun v => match CPubKey v with Some k => [CKeyID (GetID k)] | None => [] end) (key :: keys)
               = map (fun k => CKeyID (Hash160 k)) (key :: keys)).
  { clear -Hk. induction Hk as [|k l H _ IH]; cbn [flat_map map]; [reflexivity|].
    rewrite H, IH. reflexivity. }
  rewrite Ea. reflexivity.
Qed.

Lemma multisig_roundtrip_witness :
  let key := 2 :: repeat 7 32 in
  exists script, GetScriptForMultisig 1 [key; key] = Some script
    /\ ExtractDestinations script false
       = Some (TX_MULTISIG, map (fun k => CKeyID (Hash160 k)) [key; key], 1).
Proof.
  apply (multisig_roundtrip 1 [2 :: repeat 7 32; 2 :: repeat 7 32]).
  - unfold size. cbn [length]. lia.
  - unfold size. cbn [length]. lia.
  - repeat constructor.
Defined.
