(* ===== verification/Coins.v ===== *)
(** * The set of unspent outputs: [src/src/coins.h], [src/src/coins.cpp] and
    [CCoinsViewDB] of [src/src/txdb.cpp]

    A [CCoinsView] is anything that answers for the set of unspent outputs:
    the database, or a cache in front of another view.  Its virtual methods
    are the class [CoinsView]; what every implementation promises to the cache
    above it is the class [CoinsViewLaws], stated on an abstract map [utxo].
    [CCoinsViewCache] is proved against that interface and is itself an
    instance of it, so caches may be stacked to any depth. *)
From Stdlib Require Import ZArith Lia List Bool.
From S2P Require Import Prelude Script Primitives.
From stdpp Require Import base tactics list numbers countable gmap.
#[local] Open Scope Z_scope.

(** ** Keys *)

#[export] Instance COutPoint_eq_dec : EqDecision COutPoint.
Proof. solve_decision. Defined.

#[export] Instance COutPoint_countable : Countable COutPoint.
Proof.
  apply (inj_countable' (fun o => (prevout_hash o, prevout_n o)) (fun p => mkOutPoint p.1 p.2)).
  by intros [].
Defined.

(** ** Coins *)

(** [fCoinBase] and [fCoinStake] are one-bit fields, [nHeight] has 30 bits. *)
Record Coin : Type := mkCoin {
  out : CTxOut;
  fCoinBase : bool;
  fCoinStake : bool;
  nHeight : Z
}.

Definition new_Coin (outIn : CTxOut) (nHeightIn : Z) (fCoinBaseIn fCoinStakeIn : bool) : Coin :=
  mkCoin outIn fCoinBaseIn fCoinStakeIn (nHeightIn mod 2 ^ 30).

(** [Clear], and the empty constructor. *)
Definition coinEmpty : Coin := mkCoin TxOut_SetNull false false 0.

Definition IsSpent (c : Coin) : bool := TxOut_IsNull (out c).

(** [flags] has the bits [DIRTY] and [FRESH]. *)
Record CCoinsCacheEntry : Type := mkEntry { coin : Coin; DIRTY : bool; FRESH : bool }.

Abbreviation CCoinsMap := (gmap COutPoint CCoinsCacheEntry).

(** How a call ends: with its result and the new state, with a
    [std::logic_error], or in a failed [assert]. *)
Inductive outcome (V : Type) : Type :=
| Return (ret : bool) (v : V)
| Throw
| Abort.
Arguments Return {V} _ _.
Arguments Throw {V}.
Arguments Abort {V}.

(** ** Views *)

(** The virtual methods.  [GetCoin] and [GetBestBlock] are [const] but fill
    caches, so they return the new state; [None] is the result [false]. *)
Class CoinsView (V : Type) : Type := {
  view_GetCoin : V -> COutPoint -> option Coin * V;
  view_GetBestBlock : V -> list Z * V;
  view_BatchWrite : V -> list (COutPoint * CCoinsCacheEntry) -> list Z -> outcome V
}.

(** The effect of a batch: dirty entries replace, the others change nothing. *)
Definition apply_entry (m : gmap COutPoint Coin) (x : COutPoint * CCoinsCacheEntry)
  : gmap COutPoint Coin :=
  if DIRTY x.2 then
    if IsSpent (coin x.2) then delete x.1 m else <[x.1 := coin x.2]> m
  else m.

Definition apply_entries (l : list (COutPoint * CCoinsCacheEntry)) (m : gmap COutPoint Coin)
  : gmap COutPoint Coin := fold_left apply_entry l m.

(** What a view promises.  [BatchWrite] may be called with entries marked
    [FRESH] only where the view has no coin. *)
Class CoinsViewLaws (V : Type) `{CoinsView V} : Type := {
  utxo : V -> gmap COutPoint Coin;
  best : V -> list Z;
  view_ok : V -> Prop;
  utxo_unspent v k c : view_ok v -> utxo v !! k = Some c -> IsSpent c = false;
  GetCoin_law v k :
    view_ok v ->
    (view_GetCoin v k).1 = utxo v !! k /\ view_ok (view_GetCoin v k).2 /\
    utxo (view_GetCoin v k).2 = utxo v /\ best (view_GetCoin v k).2 = best v;
  GetBestBlock_law v :
    view_ok v ->
    (view_GetBestBlock v).1 = best v /\ view_ok (view_GetBestBlock v).2 /\
    utxo (view_GetBestBlock v).2 = utxo v /\ best (view_GetBestBlock v).2 = best v;
  BatchWrite_law v l h :
    view_ok v -> NoDup l.*1 -> blob_IsNull h = false ->
    (forall k e, (k, e) ∈ l -> FRESH e = true -> utxo v !! k = None) ->
    exists v', view_BatchWrite v l h = Return true v' /\ view_ok v' /\
      utxo v' = apply_entries l (utxo v) /\ best v' = h
}.

(** ** The cache *)

Record CCoinsViewCache (V : Type) : Type := mkCache {
  base : V;
  hashBlock : list Z;
  cacheCoins : CCoinsMap;
  cachedCoinsUsage : Z
}.
Arguments mkCache {V} _ _ _ _.
Arguments base {V} _.
Arguments hashBlock {V} _.
Arguments cacheCoins {V} _.
Arguments cachedCoinsUsage {V} _.

Section Cache.
Context {V : Type} `{CoinsView V}.

(** [Coin::DynamicMemoryUsage], the memory allocated for the script. *)
Variable DynamicMemoryUsage : Coin -> Z.

(** [CCoinsViewCache(CCoinsView *baseIn)] *)
Definition new_cache (baseIn : V) : CCoinsViewCache V := mkCache baseIn uint256_zero ∅ 0.

Definition set_coins (c : CCoinsViewCache V) (m : CCoinsMap) (usage : Z) : CCoinsViewCache V :=
  mkCache (base c) (hashBlock c) m usage.

(** The iterator is the entry it points to; [None] is [cacheCoins.end()]. *)
Definition FetchCoin (c : CCoinsViewCache V) (outpoint : COutPoint)
  : option CCoinsCacheEntry * CCoinsViewCache V :=
  match cacheCoins c !! outpoint with
  | Some it => (Some it, c)
  | None =>
      let '(found, base') := view_GetCoin (base c) outpoint in
      match found with
      | None => (None, mkCache base' (hashBlock c) (cacheCoins c) (cachedCoinsUsage c))
      | Some tmp =>
          let e := mkEntry tmp false (IsSpent tmp) in
          (Some e, mkCache base' (hashBlock c) (<[outpoint := e]> (cacheCoins c))
                     (u64 (cachedCoinsUsage c + DynamicMemoryUsage tmp)))
      end
  end.

Definition GetCoin (c : CCoinsViewCache V) (outpoint : COutPoint) : option Coin * CCoinsViewCache V :=
  let '(it, c) := FetchCoin c outpoint in
  match it with
  | Some e => (if IsSpent (coin e) then None else Some (coin e), c)
  | None => (None, c)
  end.

Definition AddCoin (c : CCoinsViewCache V) (outpoint : COutPoint) (newcoin : Coin)
    (possible_overwrite : bool) : outcome (CCoinsViewCache V) :=
  if IsSpent newcoin then Abort
  else if Scr.IsUnspendable (scriptPubKey (out newcoin)) then Return true c
  else
    let found := cacheCoins c !! outpoint in
    let it := match found with Some e => e | None => mkEntry coinEmpty false false end in
    let usage := match found with
                 | Some e => u64 (cachedCoinsUsage c - DynamicMemoryUsage (coin e))
                 | None => cachedCoinsUsage c
                 end in
    if negb possible_overwrite && negb (IsSpent (coin it)) then Throw
    else
      let fresh := negb possible_overwrite && negb (DIRTY it) in
      Return true
        (set_coins c (<[outpoint := mkEntry newcoin true (FRESH it || fresh)]> (cacheCoins c))
           (u64 (usage + DynamicMemoryUsage newcoin))).

(** The result, the coin moved out, and the new state. *)
Definition SpendCoin (c : CCoinsViewCache V) (outpoint : COutPoint)
  : bool * option Coin * CCoinsViewCache V :=
  let '(it, c) := FetchCoin c outpoint in
  match it with
  | None => (false, None, c)
  | Some e =>
      let usage := u64 (cachedCoinsUsage c - DynamicMemoryUsage (coin e)) in
      if FRESH e then (true, Some (coin e), set_coins c (delete outpoint (cacheCoins c)) usage)
      else (true, Some (coin e),
            set_coins c (<[outpoint := mkEntry coinEmpty true false]> (cacheCoins c)) usage)
  end.

Definition AccessCoin (c : CCoinsViewCache V) (outpoint : COutPoint) : Coin * CCoinsViewCache V :=
  let '(it, c) := FetchCoin c outpoint in
  (match it with Some e => coin e | None => coinEmpty end, c).

Definition HaveCoin (c : CCoinsViewCache V) (outpoint : COutPoint) : bool * CCoinsViewCache V :=
  let '(it, c) := FetchCoin c outpoint in
  (match it with Some e => negb (IsSpent (coin e)) | None => false end, c).

Definition HaveCoinInCache (c : CCoinsViewCache V) (outpoint : COutPoint) : bool :=
  match cacheCoins c !! outpoint with
  | Some e => negb (IsSpent (coin e))
  | None => false
  end.

Definition GetBestBlock (c : CCoinsViewCache V) : list Z * CCoinsViewCache V :=
  if blob_IsNull (hashBlock c) then
    let '(h, base') := view_GetBestBlock (base c) in
    (h, mkCache base' h (cacheCoins c) (cachedCoinsUsage c))
  else (hashBlock c, c).

Definition SetBestBlock (c : CCoinsViewCache V) (hashBlockIn : list Z) : CCoinsViewCache V :=
  mkCache (base c) hashBlockIn (cacheCoins c) (cachedCoinsUsage c).

(** One entry of the child's map; [None] is the exception. *)
Definition batch_entry (c : CCoinsViewCache V) (k : COutPoint) (it : CCoinsCacheEntry)
  : option (CCoinsViewCache V) :=
  if negb (DIRTY it) then Some c
  else
    match cacheCoins c !! k with
    | None =>
        if negb (FRESH it && IsSpent (coin it)) then
          Some (set_coins c (<[k := mkEntry (coin it) true (FRESH it)]> (cacheCoins c))
                  (u64 (cachedCoinsUsage c + DynamicMemoryUsage (coin it))))
        else Some c
    | Some itUs =>
        if FRESH it && negb (IsSpent (coin itUs)) then None
        else
          let usage := u64 (cachedCoinsUsage c - DynamicMemoryUsage (coin itUs)) in
          if FRESH itUs && IsSpent (coin it) then
            Some (set_coins c (delete k (cacheCoins c)) usage)
          else
            Some (set_coins c (<[k := mkEntry (coin it) true (FRESH itUs)]> (cacheCoins c))
                    (u64 (usage + DynamicMemoryUsage (coin it))))
    end.

(** The loop over [mapCoins], in the order of the list. *)
Fixpoint batch_loop (c : CCoinsViewCache V) (l : list (COutPoint * CCoinsCacheEntry))
  : option (CCoinsViewCache V) :=
  match l with
  | [] => Some c
  | (k, it) :: l' =>
      match batch_entry c k it with
      | Some c => batch_loop c l'
      | None => None
      end
  end.

Definition BatchWrite (c : CCoinsViewCache V) (mapCoins : list (COutPoint * CCoinsCacheEntry))
    (hashBlockIn : list Z) : outcome (CCoinsViewCache V) :=
  match batch_loop c mapCoins with
  | None => Throw
  | Some c => Return true (mkCache (base c) hashBlockIn (cacheCoins c) (cachedCoinsUsage c))
  end.

Definition Flush (c : CCoinsViewCache V) : outcome (CCoinsViewCache V) :=
  match view_BatchWrite (base c) (map_to_list (cacheCoins c)) (hashBlock c) with
  | Return fOk base' => Return fOk (mkCache base' (hashBlock c) ∅ 0)
  | Throw => Throw
  | Abort => Abort
  end.

Definition Uncache (c : CCoinsViewCache V) (hash : COutPoint) : CCoinsViewCache V :=
  match cacheCoins c !! hash with
  | Some it =>
      if negb (DIRTY it) && negb (FRESH it) then
        set_coins c (delete hash (cacheCoins c)) (u64 (cachedCoinsUsage c - DynamicMemoryUsage (coin it)))
      else c
  | None => c
  end.

Definition GetCacheSize (c : CCoinsViewCache V) : Z := Z.of_nat (base.size (cacheCoins c)).

(** The loops over the inputs of a transaction. *)
Fixpoint value_in (c : CCoinsViewCache V) (ins : list CTxIn) (nResult : Z) : Z * CCoinsViewCache V :=
  match ins with
  | [] => (nResult, c)
  | i :: ins' =>
      let '(x, c) := AccessCoin c (prevout i) in
      value_in c ins' (i64 (nResult + nValue (out x)))
  end.

Definition GetValueIn (c : CCoinsViewCache V) (tx : CTransaction) : Z * CCoinsViewCache V :=
  if IsCoinBase tx then (0, c) else value_in c (vin tx) 0.

Fixpoint have_inputs (c : CCoinsViewCache V) (ins : list CTxIn) : bool * CCoinsViewCache V :=
  match ins with
  | [] => (true, c)
  | i :: ins' =>
      let '(b, c) := HaveCoin c (prevout i) in
      if b then have_inputs c ins' else (false, c)
  end.

Definition HaveInputs (c : CCoinsViewCache V) (tx : CTransaction) : bool * CCoinsViewCache V :=
  if negb (IsCoinBase tx) then have_inputs c (vin tx) else (true, c).

Definition GetOutputFor (c : CCoinsViewCache V) (input : CTxIn) : CTxOut * CCoinsViewCache V :=
  let '(x, c) := AccessCoin c (prevout input) in (out x, c).

(** The loop of [AddCoins] from output [i] on. *)
Fixpoint add_outputs (c : CCoinsViewCache V) (txid : list Z) (cb cs : bool) (height : Z)
    (check : bool) (i : Z) (outs : list CTxOut) : outcome (CCoinsViewCache V) :=
  match outs with
  | [] => Return true c
  | o :: outs' =>
      let '(overwrite, c) := if check then HaveCoin c (mkOutPoint txid i) else (cb, c) in
      match AddCoin c (mkOutPoint txid i) (new_Coin o height cb cs) overwrite with
      | Return _ c => add_outputs c txid cb cs height check (i + 1) outs'
      | Throw => Throw
      | Abort => Abort
      end
  end.

Definition AddCoins (c : CCoinsViewCache V) (tx : CTransaction) (height : Z) (check : bool)
  : outcome (CCoinsViewCache V) :=
  add_outputs c (GetHash tx) (IsCoinBase tx) (IsCoinStake tx) height check 0 (vout tx).
End Cache.

#[export] Instance cache_view {V : Type} `{CoinsView V} (usage : Coin -> Z) :
  CoinsView (CCoinsViewCache V) := {|
  view_GetCoin := GetCoin usage;
  view_GetBestBlock := GetBestBlock;
  view_BatchWrite := BatchWrite usage
|}.

(** ** The invariant of the cache and the map it stands for *)

Definition entry_coin (e : CCoinsCacheEntry) : option Coin :=
  if IsSpent (coin e) then None else Some (coin e).

Definition overlay (e : option CCoinsCacheEntry) (b : option Coin) : option Coin :=
  match e with Some e => entry_coin e | None => b end.

#[local] Arguments blob_IsNull : simpl never.
#[local] Arguments IsSpent : simpl never.
#[local] Arguments u64 : simpl never.

Section CacheLaws.
Context {V : Type} `{Laws : CoinsViewLaws V}.
Variable usage : Coin -> Z.

Definition cache_utxo (c : CCoinsViewCache V) : gmap COutPoint Coin :=
  merge overlay (cacheCoins c) (utxo (base c)).

Definition cache_best (c : CCoinsViewCache V) : list Z :=
  if blob_IsNull (hashBlock c) then best (base c) else hashBlock c.

(** The sum [cachedCoinsUsage] stands for. *)
Definition total_usage (m : CCoinsMap) : Z := map_fold (fun _ e acc => usage (coin e) + acc) 0 m.

(** An entry marked [FRESH] is unknown to the base, one not marked [DIRTY]
    agrees with it. *)
Definition entry_ok (b : gmap COutPoint Coin) (k : COutPoint) (e : CCoinsCacheEntry) : Prop :=
  (FRESH e = true -> b !! k = None) /\ (DIRTY e = false -> entry_coin e = b !! k).

Definition cache_ok (c : CCoinsViewCache V) : Prop :=
  view_ok (base c) /\ map_Forall (entry_ok (utxo (base c))) (cacheCoins c) /\
  cachedCoinsUsage c = u64 (total_usage (cacheCoins c)).

Lemma lookup_cache_utxo c k :
  cache_utxo c !! k = overlay (cacheCoins c !! k) (utxo (base c) !! k).
Proof. unfold cache_utxo. rewrite lookup_merge. by destruct (cacheCoins c !! k), (utxo (base c) !! k). Qed.

Lemma total_insert m k e :
  m !! k = None -> total_usage (<[k := e]> m) = usage (coin e) + total_usage m.
Proof. intros Hk. unfold total_usage. rewrite map_fold_insert_L; [done| |done]. intros; lia. Qed.

Lemma total_delete m k e :
  m !! k = Some e -> total_usage (delete k m) = total_usage m - usage (coin e).
Proof.
  intros Hk. rewrite <- (insert_delete_id m k e Hk) at 2.
  rewrite total_insert by apply lookup_delete_eq. lia.
Qed.

Lemma total_replace m k e e' :
  m !! k = Some e -> total_usage (<[k := e']> m) = total_usage m - usage (coin e) + usage (coin e').
Proof.
  intros Hk. rewrite <- insert_delete_eq, total_insert by apply lookup_delete_eq.
  rewrite (total_delete m k e Hk). lia.
Qed.

Lemma u64_add_l a b : u64 (u64 a + b) = u64 (a + b).
Proof. unfold u64. apply Z.add_mod_idemp_l. done. Qed.

Lemma u64_sub_l a b : u64 (u64 a - b) = u64 (a - b).
Proof. unfold u64. apply Zminus_mod_idemp_l. Qed.

Lemma cache_utxo_unspent c k x : cache_ok c -> cache_utxo c !! k = Some x -> IsSpent x = false.
Proof.
  intros (Hb & _) Hx. rewrite lookup_cache_utxo in Hx.
  destruct (cacheCoins c !! k) as [e|]; cbn in Hx; [|by eapply utxo_unspent].
  unfold entry_coin in Hx. destruct (IsSpent (coin e)) eqn:E; [done|]. by simplify_eq.
Qed.

(** Same base, and a map that differs at one key. *)
Lemma utxo_insert_entry c k e u :
  cache_utxo (set_coins c (<[k := e]> (cacheCoins c)) u) =
  match entry_coin e with Some x => <[k := x]> (cache_utxo c) | None => delete k (cache_utxo c) end.
Proof.
  apply map_eq. intros j. rewrite lookup_cache_utxo. cbn.
  destruct (decide (k = j)) as [<-|Hne].
  - rewrite lookup_insert_eq. cbn. destruct (entry_coin e); by simplify_map_eq.
  - rewrite lookup_insert_ne by done. destruct (entry_coin e);
      rewrite ?lookup_insert_ne, ?lookup_delete_ne by done; by rewrite lookup_cache_utxo.
Qed.

Lemma utxo_delete_entry c k u :
  utxo (base c) !! k = None ->
  cache_utxo (set_coins c (delete k (cacheCoins c)) u) = delete k (cache_utxo c).
Proof.
  intros Hk. apply map_eq. intros j. rewrite lookup_cache_utxo. cbn.
  destruct (decide (k = j)) as [<-|Hne]; [by rewrite !lookup_delete_eq|].
  rewrite !lookup_delete_ne by done. by rewrite lookup_cache_utxo.
Qed.

(** *** Fetching *)

Lemma FetchCoin_spec c k :
  cache_ok c ->
  let '(it, c') := FetchCoin usage c k in
  cache_ok c' /\ cache_utxo c' = cache_utxo c /\ cache_best c' = cache_best c /\
  hashBlock c' = hashBlock c /\ cacheCoins c' !! k = it /\
  match it with Some e => entry_coin e | None => None end = cache_utxo c !! k.
Proof.
  intros (Hb & He & Hu). unfold FetchCoin. rewrite (lookup_cache_utxo c k).
  destruct (cacheCoins c !! k) as [e|] eqn:Ek; [by split_and!|].
  destruct (GetCoin_law (base c) k Hb) as (G1 & G2 & G3 & G4).
  destruct (view_GetCoin (base c) k) as [found base']. cbn in G1, G2, G3, G4. cbn [overlay].
  rewrite <- G1. destruct found as [tmp|].
  - assert (Hs : IsSpent tmp = false) by (eapply utxo_unspent; [exact Hb|by symmetry]).
    rewrite Hs.
    assert (Hec : entry_coin (mkEntry tmp false false) = Some tmp) by (unfold entry_coin; cbn; by rewrite Hs).
    unfold cache_ok; split_and!; cbn.
    + done.
    + rewrite G3. apply map_Forall_insert_2; [|done]. split; [done|]. intros _. by rewrite Hec.
    + rewrite total_insert, Hu, u64_add_l by done. cbn. f_equal; lia.
    + unfold cache_utxo. cbn. rewrite G3. apply map_eq. intros j.
      rewrite !lookup_merge. destruct (decide (k = j)) as [<-|Hne].
      * rewrite lookup_insert_eq, Ek, <- G1. cbn. by rewrite Hec.
      * by rewrite lookup_insert_ne.
    + unfold cache_best. cbn. by rewrite G4.
    + done.
    + apply lookup_insert_eq.
    + done.
  - unfold cache_ok; split_and!; cbn; auto.
    + by rewrite G3.
    + unfold cache_utxo. cbn. by rewrite G3.
    + unfold cache_best. cbn. by rewrite G4.
Qed.

Lemma GetCoin_spec c k :
  cache_ok c ->
  (GetCoin usage c k).1 = cache_utxo c !! k /\ cache_ok (GetCoin usage c k).2 /\
  cache_utxo (GetCoin usage c k).2 = cache_utxo c /\ cache_best (GetCoin usage c k).2 = cache_best c.
Proof.
  intros Hc. pose proof (FetchCoin_spec c k Hc) as F. unfold GetCoin.
  destruct (FetchCoin usage c k) as [[e|] c']; cbn; destruct F as (? & ? & ? & ? & ? & ?); auto.
Qed.

Lemma GetBestBlock_spec c :
  cache_ok c ->
  (GetBestBlock c).1 = cache_best c /\ cache_ok (GetBestBlock c).2 /\
  cache_utxo (GetBestBlock c).2 = cache_utxo c /\ cache_best (GetBestBlock c).2 = cache_best c.
Proof.
  intros (Hb & He & Hu). unfold GetBestBlock, cache_best. destruct (blob_IsNull (hashBlock c)) eqn:E.
  - destruct (GetBestBlock_law (base c) Hb) as (G1 & G2 & G3 & G4).
    destruct (view_GetBestBlock (base c)) as [h base']. cbn in *. unfold cache_utxo, cache_ok. cbn.
    rewrite G3, G4, <- G1.  destruct (blob_IsNull h); by split_and!.
  - cbn. rewrite E. by split_and!.
Qed.

(** *** Adding and spending *)

Lemma AddCoin_spec c k x overwrite :
  cache_ok c -> IsSpent x = false -> (overwrite = false -> cache_utxo c !! k = None) ->
  exists c', AddCoin usage c k x overwrite = Return true c' /\ cache_ok c' /\
    cache_best c' = cache_best c /\
    cache_utxo c' = if Scr.IsUnspendable (scriptPubKey (out x)) then cache_utxo c
                    else <[k := x]> (cache_utxo c).
Proof.
  intros (Hb & He & Hu) Hx Hover. unfold AddCoin. rewrite Hx.
  destruct (Scr.IsUnspendable (scriptPubKey (out x))); [exists c; by split_and!|].
  assert (Hec : forall f, entry_coin (mkEntry x true f) = Some x) by (intros f; unfold entry_coin; cbn; by rewrite Hx).
  assert (Hfind : cache_utxo c !! k = overlay (cacheCoins c !! k) (utxo (base c) !! k)) by apply lookup_cache_utxo.
  destruct (cacheCoins c !! k) as [e|] eqn:Ek; cbn [overlay] in Hfind.
  - assert (Hsp : negb overwrite && negb (IsSpent (coin e)) = false).
    { destruct overwrite; [done|]. cbn. rewrite Hover in Hfind by done. unfold entry_coin in Hfind.
      by destruct (IsSpent (coin e)). }
    rewrite Hsp. eexists. split; [reflexivity|]. destruct (He k e Ek) as [HF HD].
    unfold cache_ok; split_and!; cbn.
    + done.
    + apply map_Forall_insert_2; [|done]. split; cbn; [|done].
      rewrite orb_true_iff, andb_true_iff, !negb_true_iff. intros [Hf|[Ho Hd]]; [by apply HF|].
      rewrite <- HD by done. rewrite <- Hfind. by apply Hover.
    + rewrite (total_replace _ _ e) by done. cbn. rewrite Hu, u64_sub_l, u64_add_l. f_equal; lia.
    + done.
    + etransitivity; [apply (utxo_insert_entry c k _ 0)|by rewrite Hec].
  - assert (Hsp : negb overwrite && negb (IsSpent coinEmpty) = false) by (destruct overwrite; done).
    cbn [coin DIRTY FRESH]. rewrite Hsp. eexists. split; [reflexivity|]. unfold cache_ok; split_and!; cbn.
    + done.
    + apply map_Forall_insert_2; [|done]. split; cbn; [|done].
      rewrite andb_true_r, negb_true_iff. intros Ho. rewrite <- Hfind. by apply Hover.
    + rewrite total_insert by done. cbn. rewrite Hu, u64_add_l. f_equal; lia.
    + done.
    + etransitivity; [apply (utxo_insert_entry c k _ 0)|by rewrite Hec].
Qed.

(** *** Batches from a child *)

Lemma batch_entry_spec c k it :
  cache_ok c -> (FRESH it = true -> cache_utxo c !! k = None) ->
  exists c', batch_entry usage c k it = Some c' /\ cache_ok c' /\
    cache_utxo c' = apply_entry (cache_utxo c) (k, it).
Proof.
  intros (Hb & He & Hu) Hfresh. unfold batch_entry, apply_entry. cbn [fst snd].
  destruct (DIRTY it); cbn [negb]; [|exists c; by split_and!].
  rewrite (lookup_cache_utxo c k) in Hfresh.
  assert (Hins : forall f u, cache_utxo (set_coins c (<[k := mkEntry (coin it) true f]> (cacheCoins c)) u) =
    if IsSpent (coin it) then delete k (cache_utxo c) else <[k := coin it]> (cache_utxo c)).
  { intros f u. rewrite utxo_insert_entry. unfold entry_coin. cbn. by destruct (IsSpent (coin it)). }
  destruct (cacheCoins c !! k) as [itUs|] eqn:Ek; cbn [overlay] in Hfresh.
  - destruct (He k itUs Ek) as [HF HD].
    assert (Hno : FRESH it && negb (IsSpent (coin itUs)) = false).
    { destruct (FRESH it); [|done]. specialize (Hfresh eq_refl). unfold entry_coin in Hfresh.
      by destruct (IsSpent (coin itUs)). }
    rewrite Hno. destruct (FRESH itUs && IsSpent (coin it)) eqn:Ed; eexists; (split; [reflexivity|]).
    + apply andb_prop in Ed as [Ef Es]. rewrite Es, utxo_delete_entry by auto.
      unfold cache_ok; split_and!; cbn; [done|by apply map_Forall_delete| |done].
      by rewrite (total_delete _ _ itUs), Hu, u64_sub_l.
    + rewrite Hins. unfold cache_ok; split_and!; cbn; [done| | |done].
      * apply map_Forall_insert_2; [by split|done].
      * rewrite (total_replace _ _ itUs), Hu, u64_sub_l, u64_add_l by done. f_equal; lia.
  - destruct (FRESH it && IsSpent (coin it)) eqn:Ed; cbn [negb]; eexists; (split; [reflexivity|]).
    + apply andb_prop in Ed as [Ef Es]. rewrite Es. split; [by split_and!|].
      symmetry. apply delete_id. rewrite lookup_cache_utxo, Ek. by apply Hfresh.
    + rewrite Hins. unfold cache_ok; split_and!; cbn; [done| | |done].
      * apply map_Forall_insert_2; [by split|done].
      * rewrite total_insert, Hu, u64_add_l by done. cbn. f_equal; lia.
Qed.

Lemma apply_entry_ne (m : gmap COutPoint Coin) k j it : k <> j -> apply_entry m (k, it) !! j = m !! j.
Proof.
  intros Hne. unfold apply_entry. cbn. destruct (DIRTY it), (IsSpent (coin it)); [|by simplify_map_eq..|done].
  by rewrite lookup_delete_ne.
Qed.

(** The order of the entries does not matter as long as the keys differ. *)
Lemma batch_loop_spec l c :
  cache_ok c -> NoDup l.*1 ->
  (forall k e, (k, e) ∈ l -> FRESH e = true -> cache_utxo c !! k = None) ->
  exists c', batch_loop usage c l = Some c' /\ cache_ok c' /\
    cache_utxo c' = apply_entries l (cache_utxo c).
Proof.
  revert c. induction l as [|[k it] l IH]; intros c Hc Hnd Hf; [exists c; by split_and!|].
  cbn in Hnd. apply NoDup_cons in Hnd as [Hk Hnd].
  destruct (batch_entry_spec c k it Hc) as (c1 & E1 & Hc1 & Hu1);
    [apply Hf; by left|]. cbn [batch_loop]. rewrite E1.
  destruct (IH c1 Hc1 Hnd) as (c' & E' & Hc' & Hu').
  - intros j e Hj Hfe. rewrite Hu1, apply_entry_ne; [apply (Hf j e); [by right|done]|].
    intros ->. apply Hk. by apply (list_elem_of_fmap_2 fst _ (j, e)).
  - exists c'. split_and!; [done..|]. rewrite Hu', Hu1. done.
Qed.

Lemma BatchWrite_spec c l h :
  cache_ok c -> NoDup l.*1 -> blob_IsNull h = false ->
  (forall k e, (k, e) ∈ l -> FRESH e = true -> cache_utxo c !! k = None) ->
  exists c', BatchWrite usage c l h = Return true c' /\ cache_ok c' /\
    cache_utxo c' = apply_entries l (cache_utxo c) /\ cache_best c' = h.
Proof.
  intros Hc Hnd Hh Hf. destruct (batch_loop_spec l c Hc Hnd Hf) as (c' & E & Hc' & Hu).
  unfold BatchWrite. rewrite E. eexists. split; [reflexivity|]. split_and!; [done|done|].
  unfold cache_best. cbn. by rewrite Hh.
Qed.

(** *** Flushing *)

Lemma apply_entries_lookup l (m : gmap COutPoint Coin) k :
  NoDup l.*1 ->
  apply_entries l m !! k =
  match (list_to_map l : CCoinsMap) !! k with
  | Some e => if DIRTY e then entry_coin e else m !! k
  | None => m !! k
  end.
Proof.
  unfold apply_entries. revert m. induction l as [|[j e] l IH]; intros m Hnd; [done|].
  cbn in Hnd. apply NoDup_cons in Hnd as [Hj Hnd]. cbn [fold_left]. rewrite list_to_map_cons, IH by done.
  destruct (decide (j = k)) as [->|Hne].
  - rewrite (not_elem_of_list_to_map_1 l k) by done. rewrite lookup_insert_eq.
    unfold apply_entry, entry_coin. cbn. destruct (DIRTY e), (IsSpent (coin e)); by simplify_map_eq.
  - rewrite lookup_insert_ne by done. by rewrite apply_entry_ne.
Qed.

Lemma Flush_spec c :
  cache_ok c -> blob_IsNull (hashBlock c) = false ->
  exists c', Flush c = Return true c' /\ cache_ok c' /\ cacheCoins c' = ∅ /\
    cache_utxo c' = cache_utxo c /\ utxo (base c') = cache_utxo c /\ best (base c') = hashBlock c.
Proof.
  intros (Hb & He & Hu) Hh.
  destruct (BatchWrite_law (base c) (map_to_list (cacheCoins c)) (hashBlock c)) as (b' & E & Hb' & Hu' & Hbest).
  - done.
  - apply NoDup_fst_map_to_list.
  - done.
  - intros k e Hk%elem_of_map_to_list Hf. by apply (He k e).
  - assert (Hutxo : utxo b' = cache_utxo c).
    { rewrite Hu'. apply map_eq. intros k.
      rewrite apply_entries_lookup, list_to_map_to_list, lookup_cache_utxo by apply NoDup_fst_map_to_list.
      destruct (cacheCoins c !! k) as [e|] eqn:Ek; cbn; [|done].
      destruct (DIRTY e) eqn:Ed; [done|]. symmetry. by apply (He k e). }
    unfold Flush. rewrite E. eexists. split; [reflexivity|]. unfold cache_ok. split_and!; cbn; try done.
    rewrite Hutxo. generalize (cache_utxo c). intros m. apply map_eq. intros k.
    rewrite lookup_merge, lookup_empty. by destruct (m !! k).
Qed.

Lemma Uncache_spec c k :
  cache_ok c -> cache_ok (Uncache usage c k) /\ cache_utxo (Uncache usage c k) = cache_utxo c.
Proof.
  intros (Hb & He & Hu). unfold Uncache. destruct (cacheCoins c !! k) as [e|] eqn:Ek; [|by split_and!].
  destruct (negb (DIRTY e) && negb (FRESH e)) eqn:Ef; [|by split_and!].
  apply andb_prop in Ef as [Ed%negb_true_iff _]. destruct (He k e Ek) as [_ HD]. split.
  - unfold cache_ok; split_and!; cbn; [done|by apply map_Forall_delete|].
    by rewrite (total_delete _ _ e), Hu, u64_sub_l.
  - apply map_eq. intros j. rewrite !lookup_cache_utxo. cbn.
    destruct (decide (k = j)) as [<-|]; [|by rewrite lookup_delete_ne].
    rewrite lookup_delete_eq, Ek. cbn. symmetry. by apply HD.
Qed.

Lemma new_cache_spec (v : V) :
  view_ok v -> cache_ok (new_cache v) /\ cache_utxo (new_cache v) = utxo v.
Proof.
  intros Hv. split; [by split_and!|]. apply map_eq. intros k. rewrite lookup_cache_utxo. done.
Qed.

(** *** Spending *)

Hypothesis usage_empty : usage coinEmpty = 0.

Lemma SpendCoin_spec c k :
  cache_ok c ->
  let '(b, moved, c') := SpendCoin usage c k in
  cache_ok c' /\ cache_utxo c' = delete k (cache_utxo c) /\ cache_best c' = cache_best c /\
  match cache_utxo c !! k with
  | Some x => b = true /\ moved = Some x
  | None => match moved with Some x => IsSpent x = true | None => b = false end
  end.
Proof.
  intros Hc. pose proof (FetchCoin_spec c k Hc) as F. unfold SpendCoin.
  destruct (FetchCoin usage c k) as [[e|] c1]; destruct F as ((Hb & He & Hu) & F1 & F2 & F3 & F4 & F5).
  - destruct (He k e F4) as [HF HD]. rewrite <- F5, <- F1.
    assert (Hres : match entry_coin e with
      | Some x => true = true /\ Some (coin e) = Some x
      | None => IsSpent (coin e) = true end)
      by (unfold entry_coin; by destruct (IsSpent (coin e))).
    destruct (FRESH e) eqn:Ef.
    + rewrite utxo_delete_entry by auto. unfold cache_ok; split_and!; cbn; auto.
      * by apply map_Forall_delete.
      * by rewrite (total_delete _ _ e), Hu, u64_sub_l.
    + rewrite utxo_insert_entry. unfold cache_ok; split_and!; cbn; auto.
      * apply map_Forall_insert_2; [|done]. split; done.
      * rewrite (total_replace _ _ e), Hu, u64_sub_l by done. cbn. rewrite usage_empty. f_equal; lia.
  - rewrite <- F5, F1. split_and!; [done..| |done|done]. symmetry. by apply delete_id.
Qed.
End CacheLaws.

(** The cache keeps the promise it relies on. *)
#[export] Program Instance cache_laws {V : Type} `{CoinsViewLaws V} (usage : Coin -> Z) :
  @CoinsViewLaws (CCoinsViewCache V) (cache_view usage) := {|
  utxo := cache_utxo;
  best := cache_best;
  view_ok := cache_ok usage
|}.
Next Obligation. intros. by eapply cache_utxo_unspent. Qed.
Next Obligation. intros. by apply GetCoin_spec. Qed.
Next Obligation. intros. by apply GetBestBlock_spec. Qed.
Next Obligation. intros. by apply BatchWrite_spec. Qed.

(** ** The database: [CCoinsViewDB]

    The key-value store underneath (LevelDB behind [CDBWrapper]) has a table
    of coins and two records.  A [CDBBatch] is written atomically, which is
    what its documentation promises; whether a batch has outgrown
    [-dbbatchsize] is the parameter [full]. *)

Record CCoinsViewDB : Type := mkDB {
  db_coins : gmap COutPoint Coin;
  DB_BEST_BLOCK : option (list Z);
  DB_HEAD_BLOCKS : list (list Z)
}.

Inductive db_op : Type :=
| EraseCoin (k : COutPoint)
| WriteCoin (k : COutPoint) (c : Coin)
| EraseBest
| WriteBest (h : list Z)
| EraseHeads
| WriteHeads (l : list (list Z)).

Definition db_apply (db : CCoinsViewDB) (o : db_op) : CCoinsViewDB :=
  match o with
  | EraseCoin k => mkDB (delete k (db_coins db)) (DB_BEST_BLOCK db) (DB_HEAD_BLOCKS db)
  | WriteCoin k c => mkDB (<[k := c]> (db_coins db)) (DB_BEST_BLOCK db) (DB_HEAD_BLOCKS db)
  | EraseBest => mkDB (db_coins db) None (DB_HEAD_BLOCKS db)
  | WriteBest h => mkDB (db_coins db) (Some h) (DB_HEAD_BLOCKS db)
  | EraseHeads => mkDB (db_coins db) (DB_BEST_BLOCK db) []
  | WriteHeads l => mkDB (db_coins db) (DB_BEST_BLOCK db) l
  end.

Definition WriteBatch (db : CCoinsViewDB) (batch : list db_op) : CCoinsViewDB :=
  fold_left db_apply batch db.

Definition db_GetCoin (db : CCoinsViewDB) (k : COutPoint) : option Coin := db_coins db !! k.

Definition db_GetBestBlock (db : CCoinsViewDB) : list Z :=
  match DB_BEST_BLOCK db with Some h => h | None => uint256_zero end.

Section DB.
Variable full : list db_op -> bool.

(** The operation put into the batch for one entry. *)
Definition entry_ops (k : COutPoint) (e : CCoinsCacheEntry) : list db_op :=
  if DIRTY e then [if IsSpent (coin e) then EraseCoin k else WriteCoin k (coin e)] else [].

(** The batches written by the loop, and the one left over. *)
Fixpoint db_loop (batch : list db_op) (l : list (COutPoint * CCoinsCacheEntry))
  : list (list db_op) * list db_op :=
  match l with
  | [] => ([], batch)
  | (k, e) :: l' =>
      let batch := batch ++ entry_ops k e in
      if full batch then let '(w, r) := db_loop [] l' in (batch :: w, r)
      else db_loop batch l'
  end.

(** All batches, in the order they are written. *)
Definition db_batches (l : list (COutPoint * CCoinsCacheEntry)) (hashBlock old_tip : list Z)
  : list (list db_op) :=
  let '(w, r) := db_loop [EraseBest; WriteHeads [hashBlock; old_tip]] l in
  w ++ [r ++ [EraseHeads; WriteBest hashBlock]].

(** [old_tip]; [None] is the failed assertion on the interrupted heads. *)
Definition db_old_tip (db : CCoinsViewDB) (hashBlock : list Z) : option (list Z) :=
  let old_tip := db_GetBestBlock db in
  if blob_IsNull old_tip then
    match DB_HEAD_BLOCKS db with
    | [h0; h1] => if blob_eqb h0 hashBlock then Some h1 else None
    | _ => Some old_tip
    end
  else Some old_tip.

Definition db_BatchWrite (db : CCoinsViewDB) (l : list (COutPoint * CCoinsCacheEntry))
    (hashBlock : list Z) : outcome CCoinsViewDB :=
  if blob_IsNull hashBlock then Abort
  else match db_old_tip db hashBlock with
       | None => Abort
       | Some old_tip => Return true (fold_left WriteBatch (db_batches l hashBlock old_tip) db)
       end.

#[export] Instance db_view : CoinsView CCoinsViewDB := {|
  view_GetCoin := fun db k => (db_GetCoin db k, db);
  view_GetBestBlock := fun db => (db_GetBestBlock db, db);
  view_BatchWrite := db_BatchWrite
|}.

(** *** Its laws *)

Definition coin_op (o : db_op) : bool :=
  match o with EraseCoin _ | WriteCoin _ _ => true | _ => false end.

Lemma concat_db_loop b l w r :
  db_loop b l = (w, r) ->
  concat w ++ r = b ++ concat (map (fun x => entry_ops x.1 x.2) l).
Proof.
  revert b w r. induction l as [|[k e] l IH]; intros b w r E; cbn in *.
  - simplify_eq. cbn. by rewrite app_nil_r.
  - destruct (full (b ++ entry_ops k e)).
    + destruct (db_loop [] l) as [w' r'] eqn:E'. simplify_eq. cbn. rewrite <- app_assoc, (IH _ _ _ E').
      by rewrite <- app_assoc.
    + rewrite (IH _ _ _ E). by rewrite <- app_assoc.
Qed.

Lemma fold_WriteBatch bs db : fold_left WriteBatch bs db = fold_left db_apply (concat bs) db.
Proof.
  revert db. induction bs as [|b bs IH]; intros db; [done|]. cbn. rewrite IH. unfold WriteBatch.
  by rewrite fold_left_app.
Qed.

Lemma apply_entry_ops db k e :
  fold_left db_apply (entry_ops k e) db =
  mkDB (apply_entry (db_coins db) (k, e)) (DB_BEST_BLOCK db) (DB_HEAD_BLOCKS db).
Proof.
  unfold entry_ops, apply_entry. cbn. destruct (DIRTY e); [|by destruct db].
  by destruct (IsSpent (coin e)).
Qed.

Lemma apply_all_ops l db :
  fold_left db_apply (concat (map (fun x => entry_ops x.1 x.2) l)) db =
  mkDB (apply_entries l (db_coins db)) (DB_BEST_BLOCK db) (DB_HEAD_BLOCKS db).
Proof.
  revert db. induction l as [|[k e] l IH]; intros db; [by destruct db|].
  cbn. by rewrite fold_left_app, apply_entry_ops, IH.
Qed.

(** Writing all the batches does what the entries say. *)
Lemma db_batches_spec l h old db :
  fold_left WriteBatch (db_batches l h old) db = mkDB (apply_entries l (db_coins db)) (Some h) [].
Proof.
  unfold db_batches. destruct (db_loop _ l) as [w r] eqn:E. apply concat_db_loop in E.
  rewrite fold_WriteBatch, concat_app. cbn [concat]. rewrite app_nil_r, app_assoc, E, <- app_assoc.
  rewrite fold_left_app, fold_left_app. cbn [fold_left db_apply db_coins DB_BEST_BLOCK DB_HEAD_BLOCKS].
  by rewrite apply_all_ops.
Qed.

Definition db_ok (db : CCoinsViewDB) : Prop :=
  DB_HEAD_BLOCKS db = [] /\ map_Forall (fun _ c => IsSpent c = false) (db_coins db).

Lemma apply_entries_unspent l (m : gmap COutPoint Coin) :
  map_Forall (fun _ c => IsSpent c = false) m ->
  map_Forall (fun _ c => IsSpent c = false) (apply_entries l m).
Proof.
  unfold apply_entries. revert m. induction l as [|[k e] l IH]; intros m Hm; [done|]. apply IH.
  unfold apply_entry. cbn. destruct (DIRTY e); [|done].
  destruct (IsSpent (coin e)) eqn:E; [by apply map_Forall_delete|by apply map_Forall_insert_2].
Qed.

#[export] Program Instance db_laws : CoinsViewLaws CCoinsViewDB := {|
  utxo := db_coins;
  best := db_GetBestBlock;
  view_ok := db_ok
|}.
Next Obligation. intros db k c [_ Hm] Hk. by apply (Hm k). Qed.
Next Obligation. by intros. Qed.
Next Obligation. by intros. Qed.
Next Obligation.
  intros db l h [Hh Hm] _ Hn _. cbn. unfold db_BatchWrite. rewrite Hn. unfold db_old_tip. rewrite Hh.
  assert (E : forall (b : bool) (x : option (list Z)), (if b then x else x) = x) by by intros [].
  rewrite E, db_batches_spec. eexists. split; [reflexivity|]. split; [|done].
  split; [done|]. by apply apply_entries_unspent.
Qed.
End DB.

(** ** Interrupted writes *)

Section Crash.
Variable full : list db_op -> bool.

Lemma db_loop_prefix b l w r n :
  db_loop full b l = (w, r) -> (0 < n <= length w)%nat ->
  exists l1 l2, l = l1 ++ l2 /\
    concat (firstn n w) = b ++ concat (map (fun x => entry_ops x.1 x.2) l1).
Proof.
  revert b w r n. induction l as [|[k e] l IH]; intros b w r n E Hn; cbn [db_loop] in E.
  - simplify_eq. cbn in Hn. lia.
  - destruct (full (b ++ entry_ops k e)).
    + destruct (db_loop full [] l) as [w' r'] eqn:E'. simplify_eq. cbn [length] in Hn.
      destruct n as [|[|n]]; [lia| |].
      * exists [(k, e)], l. cbn. by rewrite !app_nil_r.
      * destruct (IH [] w' r (S n) E' ltac:(lia)) as (l1 & l2 & -> & Hc).
        exists ((k, e) :: l1), l2. split; [done|]. cbn [firstn concat map] in *. cbn [fst snd].
        by rewrite <- app_assoc, Hc.
    + destruct (IH _ _ _ n E Hn) as (l1 & l2 & -> & Hc). exists ((k, e) :: l1), l2. split; [done|].
      rewrite Hc. cbn. by rewrite <- app_assoc.
Qed.

(** The state when [n] batches, neither none nor all, have been written. *)
Lemma db_crashed l h old db n :
  (0 < n < length (db_batches full l h old))%nat ->
  exists l1 l2, l = l1 ++ l2 /\
    fold_left WriteBatch (firstn n (db_batches full l h old)) db =
    mkDB (apply_entries l1 (db_coins db)) None [h; old].
Proof.
  unfold db_batches. destruct (db_loop full _ l) as [w r] eqn:E. rewrite length_app. cbn [length].
  intros Hn. destruct (db_loop_prefix _ _ _ _ n E ltac:(lia)) as (l1 & l2 & -> & Hc).
  exists l1, l2. split; [done|]. rewrite firstn_app. replace (n - length w)%nat with 0%nat by lia.
  rewrite firstn_O, app_nil_r, fold_WriteBatch, Hc, fold_left_app.
  by rewrite apply_all_ops.
Qed.

Lemma apply_entries_app l1 l2 (m : gmap COutPoint Coin) :
  apply_entries (l1 ++ l2) m = apply_entries l2 (apply_entries l1 m).
Proof. apply fold_left_app. Qed.

Lemma NoDup_prefix (l1 l2 : list (COutPoint * CCoinsCacheEntry)) : NoDup (l1 ++ l2).*1 -> NoDup l1.*1.
Proof. rewrite fmap_app. by intros [? _]%NoDup_app. Qed.

Lemma apply_prefix_lookup l1 l2 (m : gmap COutPoint Coin) k :
  NoDup (l1 ++ l2).*1 ->
  apply_entries l1 m !! k = m !! k \/ apply_entries l1 m !! k = apply_entries (l1 ++ l2) m !! k.
Proof.
  intros Hnd. rewrite !apply_entries_lookup by eauto using NoDup_prefix.
  destruct ((list_to_map l1 : CCoinsMap) !! k) as [e|] eqn:E; [|by left]. right.
  rewrite list_to_map_app. by rewrite (lookup_union_Some_l _ _ _ _ E).
Qed.

(** Writing the same entries again changes nothing. *)
Lemma apply_prefix_again l1 l2 (m : gmap COutPoint Coin) :
  NoDup (l1 ++ l2).*1 -> apply_entries (l1 ++ l2) (apply_entries l1 m) = apply_entries (l1 ++ l2) m.
Proof.
  intros Hnd. apply map_eq. intros k. rewrite !(apply_entries_lookup (l1 ++ l2)) by done.
  destruct ((list_to_map (l1 ++ l2) : CCoinsMap) !! k) as [e|] eqn:E.
  - destruct (DIRTY e) eqn:Ed; [done|]. rewrite apply_entries_lookup by eauto using NoDup_prefix.
    destruct ((list_to_map l1 : CCoinsMap) !! k) as [e'|] eqn:E'; [|done].
    rewrite list_to_map_app, (lookup_union_Some_l _ _ _ _ E') in E. simplify_eq. by rewrite Ed.
  - rewrite apply_entries_lookup by eauto using NoDup_prefix.
    rewrite list_to_map_app in E. apply lookup_union_None in E as [-> _]. done.
Qed.

Lemma blob_eqb_refl b : blob_eqb b b = true.
Proof. induction b as [|x b IH]; [done|]. cbn. by rewrite Z.eqb_refl, IH. Qed.
End Crash.

(** ** Transactions against a cache *)

Section CacheTx.
Context {V : Type} `{Laws : CoinsViewLaws V}.
Variable usage : Coin -> Z.

Lemma HaveCoin_spec c k :
  cache_ok usage c ->
  (HaveCoin usage c k).1 = bool_decide (is_Some (cache_utxo c !! k)) /\
  cache_ok usage (HaveCoin usage c k).2 /\
  cache_utxo (HaveCoin usage c k).2 = cache_utxo c /\ cache_best (HaveCoin usage c k).2 = cache_best c.
Proof.
  intros Hc. pose proof (FetchCoin_spec usage c k Hc) as F. unfold HaveCoin.
  destruct (FetchCoin usage c k) as [it c']; cbn; destruct F as (F1 & F2 & F3 & _ & _ & F5).
  rewrite <- F5. split_and!; [|done..]. destruct it as [e|]; [|done].
  unfold entry_coin. by destruct (IsSpent (coin e)).
Qed.

Lemma AccessCoin_spec c k :
  cache_ok usage c ->
  cache_ok usage (AccessCoin usage c k).2 /\ cache_utxo (AccessCoin usage c k).2 = cache_utxo c /\
  match cache_utxo c !! k with
  | Some x => (AccessCoin usage c k).1 = x
  | None => IsSpent (AccessCoin usage c k).1 = true
  end.
Proof.
  intros Hc. pose proof (FetchCoin_spec usage c k Hc) as F. unfold AccessCoin.
  destruct (FetchCoin usage c k) as [it c']; cbn; destruct F as (F1 & F2 & F3 & _ & _ & F5).
  split_and!; [done..|]. rewrite <- F5. destruct it as [e|]; [|done].
  unfold entry_coin. by destruct (IsSpent (coin e)) eqn:E.
Qed.

(** [HaveInputs] asks whether every input is in the set. *)
Lemma have_inputs_spec ins c :
  cache_ok usage c ->
  (have_inputs usage c ins).1 = forallb (fun i => bool_decide (is_Some (cache_utxo c !! prevout i))) ins /\
  cache_ok usage (have_inputs usage c ins).2 /\
  cache_utxo (have_inputs usage c ins).2 = cache_utxo c.
Proof.
  revert c. induction ins as [|i ins IH]; intros c Hc; [done|]. cbn.
  destruct (HaveCoin_spec c (prevout i) Hc) as (E & Hc1 & Hu1 & _).
  destruct (HaveCoin usage c (prevout i)) as [b c1]. cbn in *. rewrite <- E. destruct b; [|done].
  destruct (IH c1 Hc1) as (E2 & Hc2 & Hu2). rewrite E2, Hu1. split_and!; [done..|by rewrite Hu2].
Qed.

(** The coins the outputs of a transaction become, from output [i] on. *)
Fixpoint created (m : gmap COutPoint Coin) (txid : list Z) (cb cs : bool) (height i : Z)
    (outs : list CTxOut) : gmap COutPoint Coin :=
  match outs with
  | [] => m
  | o :: outs' =>
      let m := if Scr.IsUnspendable (scriptPubKey o) then m
               else <[mkOutPoint txid i := new_Coin o height cb cs]> m in
      created m txid cb cs height (i + 1) outs'
  end.

Lemma created_lookup_lt m txid cb cs height i outs j :
  (j < i)%Z -> created m txid cb cs height i outs !! mkOutPoint txid j = m !! mkOutPoint txid j.
Proof.
  revert m i. induction outs as [|o outs IH]; intros m i Hj; [done|]. cbn. rewrite IH by lia.
  destruct (Scr.IsUnspendable (scriptPubKey o)); [done|]. rewrite lookup_insert_ne; [done|].
  intros [= ->]. lia.
Qed.

(** With [check], or when the transaction's outputs are new, adding them
    never fails and gives exactly the spendable outputs. *)
Lemma add_outputs_spec txid cb cs height check outs : forall i c,
  cache_ok usage c ->
  Forall (fun o => TxOut_IsNull o = false) outs ->
  (check = false -> cb = false -> forall j, i <= j -> cache_utxo c !! mkOutPoint txid j = None) ->
  exists c', add_outputs usage c txid cb cs height check i outs = Return true c' /\ cache_ok usage c' /\
    cache_utxo c' = created (cache_utxo c) txid cb cs height i outs.
Proof.
  induction outs as [|o outs IH]; intros i c Hc Hn Hf; [by exists c|].
  inversion Hn as [|? ? Ho Hn']; subst. cbn [add_outputs].
  assert (exists ow c1, (if check then HaveCoin usage c (mkOutPoint txid i) else (cb, c)) = (ow, c1) /\
    cache_ok usage c1 /\ cache_utxo c1 = cache_utxo c /\
    (ow = false -> cache_utxo c1 !! mkOutPoint txid i = None)) as (ow & c1 & -> & Hc1 & Hu1 & How).
  { destruct check.
    - destruct (HaveCoin_spec c (mkOutPoint txid i) Hc) as (E & Hc1 & Hu1 & _).
      destruct (HaveCoin usage c _) as [ow c1]. cbn in *. exists ow, c1. split_and!; auto.
      intros ->. rewrite Hu1. symmetry in E. apply bool_decide_eq_false in E.
      by apply eq_None_not_Some.
    - exists cb, c. split_and!; auto. intros ->. by apply Hf. }
  destruct (AddCoin_spec usage c1 (mkOutPoint txid i) (new_Coin o height cb cs) ow Hc1) as (c2 & -> & Hc2 & _ & Hu2);
    [done|done|]. cbn [out new_Coin] in Hu2.
  destruct (IH (i + 1) c2 Hc2 Hn') as (c' & E & Hc' & Hu').
  - intros Hch Hcb j Hj. rewrite Hu2, Hu1.
    destruct (Scr.IsUnspendable (scriptPubKey o)); [apply Hf; auto; lia|].
    rewrite lookup_insert_ne by (intros [= ->]; lia). apply Hf; auto; lia.
  - exists c'. split_and!; [done|done|]. rewrite Hu', Hu2, Hu1. done.
Qed.
End CacheTx.

(** ** The abstract specification

    A client sees a finite map of coins and a block hash.  [spec_step] is
    defined where the documented contract of the call holds. *)

Inductive cache_op : Type :=
| DoGet (k : COutPoint)
| DoHave (k : COutPoint)
| DoAdd (k : COutPoint) (x : Coin) (overwrite : bool)
| DoSpend (k : COutPoint)
| DoUncache (k : COutPoint)
| DoSetBest (h : list Z)
| DoFlush.

(** What the client learns. *)
Inductive answer : Type :=
| ACoin (x : option Coin)
| AHave (b : bool)
| ADone.

Definition spec_step (s : gmap COutPoint Coin * list Z) (o : cache_op)
  : option (answer * (gmap COutPoint Coin * list Z)) :=
  let '(m, h) := s in
  match o with
  | DoGet k => Some (ACoin (m !! k), s)
  | DoHave k => Some (AHave (bool_decide (is_Some (m !! k))), s)
  | DoAdd k x overwrite =>
      if IsSpent x || (negb overwrite && bool_decide (is_Some (m !! k))) then None
      else Some (ADone, (if Scr.IsUnspendable (scriptPubKey (out x)) then m else <[k := x]> m, h))
  | DoSpend k => Some (ACoin (m !! k), (delete k m, h))
  | DoUncache _ => Some (ADone, s)
  | DoSetBest h' => Some (ADone, (m, h'))
  | DoFlush => if blob_IsNull h then None else Some (ADone, s)
  end.

Definition unspent (x : option Coin) : option Coin :=
  match x with Some c => if IsSpent c then None else Some c | None => None end.

Definition cache_step {V : Type} `{CoinsView V} (usage : Coin -> Z) (c : CCoinsViewCache V) (o : cache_op)
  : option (answer * CCoinsViewCache V) :=
  match o with
  | DoGet k => let '(x, c) := GetCoin usage c k in Some (ACoin x, c)
  | DoHave k => let '(b, c) := HaveCoin usage c k in Some (AHave b, c)
  | DoAdd k x overwrite =>
      match AddCoin usage c k x overwrite with Return _ c => Some (ADone, c) | _ => None end
  | DoSpend k => let '(_, moved, c) := SpendCoin usage c k in Some (ACoin (unspent moved), c)
  | DoUncache k => Some (ADone, Uncache usage c k)
  | DoSetBest h => Some (ADone, SetBestBlock c h)
  | DoFlush => match Flush c with Return true c => Some (ADone, c) | _ => None end
  end.

Fixpoint run {S : Type} (step : S -> cache_op -> option (answer * S)) (s : S) (l : list cache_op)
  : option (list answer * S) :=
  match l with
  | [] => Some ([], s)
  | o :: l' =>
      match step s o with
      | None => None
      | Some (a, s) => match run step s l' with Some (r, s) => Some (a :: r, s) | None => None end
      end
  end.

Section Refinement.
Context {V : Type} `{Laws : CoinsViewLaws V}.
Variable usage : Coin -> Z.
Hypothesis usage_empty : usage coinEmpty = 0.

Lemma FetchCoin_hash (c : CCoinsViewCache V) k : hashBlock (FetchCoin usage c k).2 = hashBlock c.
Proof. unfold FetchCoin. repeat case_match; done. Qed.

(** What the client of a cache in a good state sees. *)
Definition abs (c : CCoinsViewCache V) : gmap COutPoint Coin * list Z := (cache_utxo c, hashBlock c).

Lemma cache_step_refines c o a s' :
  cache_ok usage c -> spec_step (abs c) o = Some (a, s') ->
  exists c', cache_step usage c o = Some (a, c') /\ cache_ok usage c' /\ abs c' = s'.
Proof.
  intros Hc. unfold abs. destruct o as [k|k|k x ow|k|k|h|]; cbn [spec_step cache_step]; intros E.
  - destruct (GetCoin_spec usage c k Hc) as (E1 & Hc1 & Hu1 & _). pose proof (FetchCoin_hash c k) as Hh.
    unfold GetCoin in *. destruct (FetchCoin usage c k) as [[e|] c1]; cbn in *; simplify_eq;
      eexists; (split; [by rewrite E1|]); by rewrite Hu1, Hh.
  - destruct (HaveCoin_spec usage c k Hc) as (E1 & Hc1 & Hu1 & _). pose proof (FetchCoin_hash c k) as Hh.
    unfold HaveCoin in *. destruct (FetchCoin usage c k) as [it c1]; cbn in *; simplify_eq.
    eexists. split; [by rewrite E1|]. by rewrite Hu1, Hh.
  - destruct (IsSpent x) eqn:Ex; [done|]. cbn [orb] in E.
    destruct (negb ow && bool_decide (is_Some (cache_utxo c !! k))) eqn:Eo; [done|]. simplify_eq.
    destruct (AddCoin_spec usage c k x ow Hc Ex) as (c' & E1 & Hc1 & _ & Hu1).
    { intros ->. cbn in Eo. apply bool_decide_eq_false in Eo. by apply eq_None_not_Some. }
    rewrite E1. eexists. split; [done|]. split; [done|]. rewrite Hu1. f_equal.
    unfold AddCoin in E1. repeat case_match; simplify_eq; done.
  - pose proof (SpendCoin_spec usage usage_empty c k Hc) as S. pose proof (FetchCoin_hash c k) as Hh.
    assert (Hh' : hashBlock (SpendCoin usage c k).2 = hashBlock c)
      by (unfold SpendCoin; destruct (FetchCoin usage c k) as [[e|] c1]; cbn in *; [by destruct (FRESH e)|done]).
    destruct (SpendCoin usage c k) as [[b moved] c1]. cbn in Hh'. destruct S as (Hc1 & Hu1 & _ & Hm).
    simplify_eq. eexists. split; [|split; [exact Hc1|by rewrite Hu1, Hh']]. do 3 f_equal.
    destruct (cache_utxo c !! k) as [x|] eqn:Ek.
    + destruct Hm as [_ ->]. cbn. by rewrite (cache_utxo_unspent usage c k x Hc Ek).
    + destruct moved as [x|]; cbn; [by rewrite Hm|done].
  - destruct (Uncache_spec usage c k Hc) as [Hc1 Hu1]. simplify_eq. eexists. split; [done|].
    split; [done|]. rewrite Hu1. f_equal. unfold Uncache. by repeat case_match.
  - simplify_eq. by eexists.
  - destruct (blob_IsNull (hashBlock c)) eqn:Eh; [done|]. simplify_eq.
    destruct (Flush_spec usage c Hc Eh) as (c' & E1 & Hc1 & _ & Hu1 & _).
    rewrite E1. eexists. split; [done|]. split; [done|]. rewrite Hu1. f_equal.
    unfold Flush in E1. case_match; by simplify_eq.
Qed.
End Refinement.

(** ** Properties *)

(** C2: a cache in front of any view that keeps its promises (the database, or
    another cache) implements the abstract map: whatever sequence of lookups,
    additions, spends, evictions and flushes a client makes within the
    documented contract, no call fails, every answer is the one the map
    gives, and the invariant on [FRESH], [DIRTY] and the accounted memory
    holds in the end. *)
Theorem cache_refinement {V : Type} `{Laws : CoinsViewLaws V} (usage : Coin -> Z)
    (c : CCoinsViewCache V) (ops : list cache_op) (answers : list answer) s' :
  usage coinEmpty = 0 -> cache_ok usage c -> run spec_step (abs c) ops = Some (answers, s') ->
  exists c', run (cache_step usage) c ops = Some (answers, c') /\ cache_ok usage c' /\ abs c' = s'.
Proof.
  intros Hu. revert c answers. induction ops as [|o ops IH]; intros c answers Hc E; cbn [run] in *.
  - simplify_eq. by exists c.
  - destruct (spec_step (abs c) o) as [[a s1]|] eqn:E1; [|done].
    destruct (cache_step_refines usage Hu c o a s1 Hc E1) as (c1 & -> & Hc1 & <-).
    destruct (run spec_step (abs c1) ops) as [[r s2]|] eqn:E2; [|done]. simplify_eq.
    destruct (IH c1 r Hc1 E2) as (c' & -> & Hc' & Ha). eauto.
Qed.

Definition sample_key (n : Z) : COutPoint := mkOutPoint (repeat 7 32) n.
Definition sample_coin (v : Z) : Coin := mkCoin (mkTxOut v [OP_1]) false false 10.
Definition sample_usage (c : Coin) : Z := Z.of_nat (length (scriptPubKey (out c))).

(** Two caches over a database that already has a coin. *)
Definition sample_cache : CCoinsViewCache (CCoinsViewCache CCoinsViewDB) :=
  new_cache (new_cache (mkDB {[ sample_key 0 := sample_coin 5 ]} (Some (repeat 1 32)) [])).

Definition sample_ops : list cache_op :=
  [DoGet (sample_key 0); DoAdd (sample_key 1) (sample_coin 6) false; DoSpend (sample_key 0);
   DoSetBest (repeat 2 32); DoFlush; DoHave (sample_key 0); DoSpend (sample_key 1); DoHave (sample_key 1)].

Lemma cache_refinement_witness :
  exists c', run (@cache_step _ (@cache_view _ (db_view (fun _ => false)) sample_usage) sample_usage)
    sample_cache sample_ops =
    Some ([ACoin (Some (sample_coin 5)); ADone; ACoin (Some (sample_coin 5)); ADone; ADone; AHave false;
           ACoin (Some (sample_coin 6)); AHave false], c').
Proof.
  pose (L := @cache_laws _ _ (db_laws (fun _ => false)) sample_usage).
  destruct (@cache_refinement _ _ L sample_usage sample_cache sample_ops
    [ACoin (Some (sample_coin 5)); ADone; ACoin (Some (sample_coin 5)); ADone; ADone; AHave false;
     ACoin (Some (sample_coin 6)); AHave false] (∅, repeat 2 32)) as (c' & E & _).
  - reflexivity.
  - assert (H0 : @view_ok _ _ (db_laws (fun _ => false)) (base (base sample_cache)))
      by (split; [done|apply map_Forall_singleton; reflexivity]).
    apply (@new_cache_spec _ _ L). apply (@new_cache_spec _ _ (db_laws (fun _ => false))). exact H0.
  - vm_compute. reflexivity.
  - exists c'. exact E.
Defined.

(** Flushing a cache makes its base hold exactly the set the cache
    stood for, with the cache's block as best block, leaves the cache empty,
    and changes nothing a client can see. *)
Theorem flush_persists {V : Type} `{Laws : CoinsViewLaws V} (usage : Coin -> Z) (c : CCoinsViewCache V) :
  cache_ok usage c -> blob_IsNull (hashBlock c) = false ->
  exists c', Flush c = Return true c' /\ cache_ok usage c' /\ cacheCoins c' = ∅ /\
    cache_utxo c' = cache_utxo c /\ utxo (base c') = cache_utxo c /\ best (base c') = hashBlock c.
Proof. apply Flush_spec. Qed.

Lemma flush_persists_witness :
  exists c', @Flush _ (db_view (fun _ => false))
    (mkCache (mkDB ∅ None []) (repeat 2 32) {[ sample_key 1 := mkEntry (sample_coin 6) true true ]} 1) =
    Return true c' /\ db_coins (base c') !! sample_key 1 = Some (sample_coin 6).
Proof.
  destruct (@flush_persists _ _ (db_laws (fun _ => false)) sample_usage
    (mkCache (mkDB ∅ None []) (repeat 2 32) {[ sample_key 1 := mkEntry (sample_coin 6) true true ]} 1))
    as (c' & E & _ & _ & _ & Hb & _).
  - split; [by split|]. split; [|vm_compute; reflexivity]. apply map_Forall_singleton. by split.
  - reflexivity.
  - exists c'. split; [exact E|]. etransitivity; [exact (f_equal (lookup (sample_key 1)) Hb)|].
    vm_compute. reflexivity.
Defined.

(** C23: a write of the database interrupted between two batches is detected
    and repaired.  After a crash with some but not all batches written, the
    best block reads as unknown, the head blocks name the interrupted
    transition, every coin is the old or the new one, and writing the same
    entries again ends in the state the uninterrupted write ends in. *)
Theorem db_crash_recovery (full : list db_op -> bool) (db : CCoinsViewDB)
    (l : list (COutPoint * CCoinsCacheEntry)) (h old : list Z) (n : nat) :
  NoDup l.*1 -> blob_IsNull h = false -> db_old_tip db h = Some old ->
  (0 < n < length (db_batches full l h old))%nat ->
  let crashed := fold_left WriteBatch (firstn n (db_batches full l h old)) db in
  let new := apply_entries l (db_coins db) in
  db_GetBestBlock crashed = uint256_zero /\ DB_HEAD_BLOCKS crashed = [h; old] /\
  (forall k, db_coins crashed !! k = db_coins db !! k \/ db_coins crashed !! k = new !! k) /\
  db_BatchWrite full crashed l h = Return true (mkDB new (Some h) []) /\
  db_BatchWrite full db l h = Return true (mkDB new (Some h) []).
Proof.
  intros Hnd Hh Ho Hn. destruct (db_crashed full l h old db n Hn) as (l1 & l2 & -> & E). cbn zeta.
  rewrite E. unfold db_BatchWrite. rewrite Hh, Ho, !db_batches_spec. cbn [db_coins DB_HEAD_BLOCKS].
  split_and!; [done|done|intros k; by apply apply_prefix_lookup| |done].
  unfold db_old_tip. cbn [DB_HEAD_BLOCKS]. rewrite blob_eqb_refl.
  replace (blob_IsNull (db_GetBestBlock (mkDB (apply_entries l1 (db_coins db)) None [h; old]))) with true by done.
  rewrite db_batches_spec. cbn [db_coins]. by rewrite apply_prefix_again.
Qed.

Lemma db_crash_recovery_witness :
  let l := [(sample_key 0, mkEntry coinEmpty true false); (sample_key 1, mkEntry (sample_coin 6) true true)] in
  let db := mkDB {[ sample_key 0 := sample_coin 5 ]} (Some (repeat 1 32)) [] in
  let full := fun b => (2 <? length b)%nat in
  DB_HEAD_BLOCKS (fold_left WriteBatch (firstn 1 (db_batches full l (repeat 2 32) (repeat 1 32))) db) =
  [repeat 2 32; repeat 1 32].
Proof.
  intros l db full.
  destruct (db_crash_recovery full db l (repeat 2 32) (repeat 1 32) 1) as (_ & E & _).
  - apply (bool_decide_unpack _). vm_compute. exact I.
  - reflexivity.
  - reflexivity.
  - vm_compute. lia.
  - exact E.
Defined.
