(* ===== verification/Chain.v ===== *)
(** * The block tree and the active chain: [src/src/chain.h], [src/src/chain.cpp],
    and [AddToBlockIndex] and [FindForkInGlobalIndex] of [src/src/validation.cpp]

    Block index entries live in a memory, a list of records, and a pointer is a
    position in it.  [None] as a result of a function that returns a pointer is
    [nullptr]; an outer [None] is a failed assertion or a pointer to nowhere,
    and the theorems show that neither happens on a well-formed tree. *)
From Stdlib Require Import ZArith Lia List Bool.
From S2P Require Import Prelude Serialize ArithUint256 Script Hash Primitives Coins.
From stdpp Require Import base tactics list numbers countable gmap sorting.
#[local] Open Scope Z_scope.

(** ** Block index entries *)

Record CBlockIndex : Type := mkIndex {
  bi_hash : list Z;                 (* the hash [phashBlock] points to *)
  bi_pprev : option nat;
  bi_pnext : option nat;
  bi_pskip : option nat;
  bi_nHeight : Z;
  bi_nFile : Z;
  bi_nDataPos : Z;
  bi_nUndoPos : Z;
  bi_nChainWork : list Z;
  bi_nTx : Z;
  bi_nChainTx : Z;
  bi_nStatus : Z;
  bi_nVersion : Z;
  bi_hashMerkleRoot : list Z;
  bi_nTime : Z;
  bi_nBits : Z;
  bi_nNonce : Z;
  bi_hashStateRoot : list Z;
  bi_hashUTXORoot : list Z;
  bi_vchBlockSigDlgt : list Z;
  bi_nStakeModifier : list Z;
  bi_prevoutStake : COutPoint;
  bi_hashProof : list Z;
  bi_nMoneySupply : Z;
  bi_nBurnedCoins : Z;
  bi_nSequenceId : Z;
  bi_nTimeMax : Z
}.

Definition null256 : list Z := repeat 0 32.

(** [CBlockIndex(const CBlockHeader&)], on top of [SetNull]. *)
Definition new_index (block : CBlockHeader) : CBlockIndex := {|
  bi_hash := null256;
  bi_pprev := None;
  bi_pnext := None;
  bi_pskip := None;
  bi_nHeight := 0;
  bi_nFile := 0;
  bi_nDataPos := 0;
  bi_nUndoPos := 0;
  bi_nChainWork := BaseUint.zero WIDTH;
  bi_nTx := 0;
  bi_nChainTx := 0;
  bi_nStatus := 0;
  bi_nVersion := hdr_nVersion block;
  bi_hashMerkleRoot := hashMerkleRoot block;
  bi_nTime := nTime block;
  bi_nBits := nBits block;
  bi_nNonce := nNonce block;
  bi_hashStateRoot := hashStateRoot block;
  bi_hashUTXORoot := hashUTXORoot block;
  bi_vchBlockSigDlgt := vchBlockSigDlgt block;
  bi_nStakeModifier := null256;
  bi_prevoutStake := prevoutStake block;
  bi_hashProof := null256;
  bi_nMoneySupply := 0;
  bi_nBurnedCoins := 0;
  bi_nSequenceId := 0;
  bi_nTimeMax := 0
|}.

(** [enum BlockStatus] *)
Definition BLOCK_VALID_TREE : Z := 2.
Definition BLOCK_VALID_TRANSACTIONS : Z := 3.
Definition BLOCK_VALID_MASK : Z := Z.lor 1 (Z.lor 2 (Z.lor 3 (Z.lor 4 5))).
Definition BLOCK_HAVE_DATA : Z := 8.
Definition BLOCK_HAVE_UNDO : Z := 16.
Definition BLOCK_FAILED_MASK : Z := Z.lor 32 64.

(** The memory of the entries. *)
Abbreviation memory := (list CBlockIndex).

Definition HaveTxsDownloaded (b : CBlockIndex) : bool := negb (bi_nChainTx b =? 0).
Definition bi_IsProofOfStake (b : CBlockIndex) : bool := negb (OutPoint_IsNull (bi_prevoutStake b)).
Definition GetBlockTime (b : CBlockIndex) : Z := bi_nTime b.
Definition GetBlockTimeMax (b : CBlockIndex) : Z := bi_nTimeMax b.

(** [None] is a failed assertion. *)
Definition IsValid (b : CBlockIndex) (nUpTo : Z) : option bool :=
  if negb (Z.ldiff nUpTo BLOCK_VALID_MASK =? 0) then None
  else if negb (Z.land (bi_nStatus b) BLOCK_FAILED_MASK =? 0) then Some false
  else Some (nUpTo <=? Z.land (bi_nStatus b) BLOCK_VALID_MASK).

(** The new status and whether it changed. *)
Definition RaiseValidity (nStatus nUpTo : Z) : option (Z * bool) :=
  if negb (Z.ldiff nUpTo BLOCK_VALID_MASK =? 0) then None
  else if negb (Z.land nStatus BLOCK_FAILED_MASK =? 0) then Some (nStatus, false)
  else if Z.land nStatus BLOCK_VALID_MASK <? nUpTo then
    Some (Z.lor (Z.ldiff nStatus BLOCK_VALID_MASK) nUpTo, true)
  else Some (nStatus, false).

(** Positions of a block's data in the block files; [(-1, 0)] is the null position. *)
Definition GetBlockPos (b : CBlockIndex) : Z * Z :=
  if negb (Z.land (bi_nStatus b) BLOCK_HAVE_DATA =? 0) then (bi_nFile b, bi_nDataPos b) else (-1, 0).
Definition GetUndoPos (b : CBlockIndex) : Z * Z :=
  if negb (Z.land (bi_nStatus b) BLOCK_HAVE_UNDO =? 0) then (bi_nFile b, bi_nUndoPos b) else (-1, 0).

Definition GetBlockHeader (mem : memory) (b : CBlockIndex) : option CBlockHeader :=
  let header hashPrev :=
    mkHeader (bi_nVersion b) hashPrev (bi_hashMerkleRoot b) (bi_nTime b) (bi_nBits b) (bi_nNonce b)
      (bi_hashStateRoot b) (bi_hashUTXORoot b) (bi_prevoutStake b) (bi_vchBlockSigDlgt b) in
  match bi_pprev b with
  | None => Some (header null256)
  | Some q => match mem !! q with Some bq => Some (header (bi_hash bq)) | None => None end
  end.

(** ** Ancestors *)

Definition InvertLowestOne (n : Z) : Z := Z.land n (n - 1).

Definition GetSkipHeight (height : Z) : Z :=
  if height <? 2 then 0
  else if negb (Z.land height 1 =? 0) then InvertLowestOne (InvertLowestOne (height - 1)) + 1
  else InvertLowestOne height.

(** The test that decides whether the skip pointer is followed. *)
Definition take_skip (height heightSkip heightSkipPrev : Z) : bool :=
  (heightSkip =? height)
  || ((height <? heightSkip) && negb ((heightSkipPrev <? heightSkip - 2) && (height <=? heightSkipPrev))).

Fixpoint walk (fuel : nat) (mem : memory) (pindexWalk : nat) (heightWalk height : Z) : option nat :=
  if height <? heightWalk then
    match fuel, mem !! pindexWalk with
    | S fuel', Some b =>
        let heightSkip := GetSkipHeight heightWalk in
        let heightSkipPrev := GetSkipHeight (heightWalk - 1) in
        match bi_pskip b with
        | Some q =>
            if take_skip height heightSkip heightSkipPrev then walk fuel' mem q heightSkip height
            else match bi_pprev b with
                 | Some q => walk fuel' mem q (heightWalk - 1) height
                 | None => None
                 end
        | None =>
            match bi_pprev b with
            | Some q => walk fuel' mem q (heightWalk - 1) height
            | None => None
            end
        end
    | _, _ => None
    end
  else Some pindexWalk.

Definition GetAncestor (mem : memory) (p : nat) (height : Z) : option (option nat) :=
  match mem !! p with
  | None => None
  | Some b =>
      if (bi_nHeight b <? height) || (height <? 0) then Some None
      else match walk (Z.to_nat (bi_nHeight b)) mem p (bi_nHeight b) height with
           | Some q => Some (Some q)
           | None => None
           end
  end.

(** The new [pskip] of an entry with the given parent and height. *)
Definition BuildSkip (mem : memory) (pprev : option nat) (pskip : option nat) (nHeight : Z)
  : option (option nat) :=
  match pprev with
  | Some q => GetAncestor mem q (GetSkipHeight nHeight)
  | None => Some pskip
  end.

(** ** The active chain: [CChain] *)

(** [vChain[h]] is [None] where the vector holds [nullptr]. *)
Abbreviation CChain := (list (option nat)).

Definition chain_at (vChain : CChain) (nHeight : Z) : option nat :=
  if (nHeight <? 0) || (Z.of_nat (length vChain) <=? nHeight) then None
  else match vChain !! Z.to_nat nHeight with Some q => q | None => None end.

Definition Genesis (vChain : CChain) : option nat :=
  if 0 <? Z.of_nat (length vChain) then chain_at vChain 0 else None.
Definition Tip (vChain : CChain) : option nat :=
  if 0 <? Z.of_nat (length vChain) then chain_at vChain (Z.of_nat (length vChain) - 1) else None.
Definition Height (vChain : CChain) : Z := Z.of_nat (length vChain) - 1.

Definition Contains (mem : memory) (vChain : CChain) (p : nat) : option bool :=
  match mem !! p with
  | None => None
  | Some b => Some (bool_decide (chain_at vChain (bi_nHeight b) = Some p))
  end.

Definition Next (mem : memory) (vChain : CChain) (p : nat) : option (option nat) :=
  match mem !! p with
  | None => None
  | Some b =>
      Some (if bool_decide (chain_at vChain (bi_nHeight b) = Some p)
            then chain_at vChain (bi_nHeight b + 1) else None)
  end.

(** [vector::resize]; new elements are [nullptr]. *)
Definition resize (vChain : CChain) (n : nat) : CChain :=
  take n vChain ++ replicate (n - length vChain) None.

Fixpoint SetTip_loop (fuel : nat) (mem : memory) (vChain : CChain) (pindex : option nat) : option CChain :=
  match pindex with
  | None => Some vChain
  | Some p =>
      match mem !! p with
      | None => None
      | Some b =>
          if bool_decide (vChain !! Z.to_nat (bi_nHeight b) = Some (Some p)) then Some vChain
          else match fuel with
               | O => None
               | S fuel' =>
                   SetTip_loop fuel' mem (<[Z.to_nat (bi_nHeight b) := Some p]> vChain) (bi_pprev b)
               end
      end
  end.

Definition SetTip (mem : memory) (vChain : CChain) (pindex : option nat) : option CChain :=
  match pindex with
  | None => Some []
  | Some p =>
      match mem !! p with
      | None => None
      | Some b =>
          let n := Z.to_nat (bi_nHeight b + 1) in
          SetTip_loop n mem (resize vChain n) (Some p)
      end
  end.

Fixpoint FindFork_loop (fuel : nat) (mem : memory) (vChain : CChain) (pindex : option nat)
  : option (option nat) :=
  match pindex with
  | None => Some None
  | Some p =>
      match mem !! p with
      | None => None
      | Some b =>
          if bool_decide (chain_at vChain (bi_nHeight b) = Some p) then Some (Some p)
          else match fuel with
               | O => None
               | S fuel' => FindFork_loop fuel' mem vChain (bi_pprev b)
               end
      end
  end.

Definition FindFork (mem : memory) (vChain : CChain) (pindex : option nat) : option (option nat) :=
  match pindex with
  | None => Some None
  | Some p =>
      match mem !! p with
      | None => None
      | Some b =>
          match (if Height vChain <? bi_nHeight b then GetAncestor mem p (Height vChain)
                 else Some (Some p)) with
          | None => None
          | Some pindex => FindFork_loop (Z.to_nat (bi_nHeight b + 1)) mem vChain pindex
          end
      end
  end.

Fixpoint common_loop (fuel : nat) (mem : memory) (pa pb : option nat) : option (option nat) :=
  match pa, pb with
  | Some a, Some b =>
      if bool_decide (a = b) then Some (Some a)
      else match fuel, mem !! a, mem !! b with
           | S fuel', Some ba, Some bb => common_loop fuel' mem (bi_pprev ba) (bi_pprev bb)
           | _, _, _ => None
           end
  | None, None => Some None
  | _, _ => None
  end.

(** The last [None] of [common_loop] is the assertion [pa == pb]. *)
Definition LastCommonAncestor (mem : memory) (a b : nat) : option (option nat) :=
  match mem !! a, mem !! b with
  | Some ba, Some bb =>
      let pa := if bi_nHeight bb <? bi_nHeight ba then GetAncestor mem a (bi_nHeight bb) else Some (Some a) in
      let pb := if bi_nHeight ba <? bi_nHeight bb then GetAncestor mem b (bi_nHeight ba) else Some (Some b) in
      match pa, pb with
      | Some pa, Some pb => common_loop (Z.to_nat (Z.min (bi_nHeight ba) (bi_nHeight bb) + 1)) mem pa pb
      | _, _ => None
      end
  | _, _ => None
  end.

(** The hashes of the locator, newest first. *)
Fixpoint locator_loop (fuel : nat) (mem : memory) (vChain : CChain) (nStep : Z) (nHave : nat)
    (pindex : option nat) : option (list (list Z)) :=
  match pindex with
  | None => Some []
  | Some p =>
      match fuel, mem !! p with
      | S fuel', Some b =>
          if bi_nHeight b =? 0 then Some [bi_hash b]
          else
            let nHeight := Z.max (bi_nHeight b - nStep) 0 in
            match (if bool_decide (chain_at vChain (bi_nHeight b) = Some p)
                   then Some (chain_at vChain nHeight) else GetAncestor mem p nHeight) with
            | None => None
            | Some next =>
                let nStep := if (10 <? S nHave)%nat then nStep * 2 else nStep in
                match locator_loop fuel' mem vChain nStep (S nHave) next with
                | Some l => Some (bi_hash b :: l)
                | None => None
                end
            end
      | _, _ => None
      end
  end.

Definition GetLocator (mem : memory) (vChain : CChain) (pindex : option nat) : option (list (list Z)) :=
  let pindex := match pindex with None => Tip vChain | Some p => Some p end in
  match pindex with
  | None => Some []
  | Some p =>
      match mem !! p with
      | None => None
      | Some b => locator_loop (S (Z.to_nat (bi_nHeight b))) mem vChain 1 0 (Some p)
      end
  end.

(** ** Times *)

Definition nMedianTimeSpan : nat := 11.

(** The block times of the entry and its ancestors, oldest first. *)
Fixpoint median_times (n : nat) (mem : memory) (pindex : option nat) : option (list Z) :=
  match n, pindex with
  | S n', Some p =>
      match mem !! p with
      | None => None
      | Some b =>
          match median_times n' mem (bi_pprev b) with
          | Some l => Some (l ++ [GetBlockTime b])
          | None => None
          end
      end
  | _, _ => Some []
  end.

Definition median (pmedian : list Z) : Z :=
  nth (length pmedian / 2) (merge_sort Z.le pmedian) 0.

Definition GetMedianTimePast (mem : memory) (p : nat) : option Z :=
  match median_times nMedianTimeSpan mem (Some p) with
  | Some l => Some (median l)
  | None => None
  end.

(** [std::lower_bound]: the first of [len] elements from [first] on that is not
    below the value; [fuel] bounds the halvings. *)
Fixpoint lower_bound {A : Type} (below : A -> bool) (v : list A) (fuel first len : nat) : nat :=
  match fuel, len with
  | S fuel', S _ =>
      let half := Nat.div2 len in
      match v !! (first + half)%nat with
      | Some x =>
          if below x then lower_bound below v fuel' (first + half + 1) (len - half - 1)
          else lower_bound below v fuel' first half
      | None => first
      end
  | _, _ => first
  end.

Definition FindEarliestAtLeast (mem : memory) (vChain : CChain) (nTime : Z) : option nat :=
  let before p :=
    match p with
    | Some p => match mem !! p with Some b => GetBlockTimeMax b <? nTime | None => false end
    | None => false
    end in
  let lower := lower_bound before vChain (length vChain) 0 (length vChain) in
  match vChain !! lower with Some q => q | None => None end.

(** ** Work *)

(** [None] is the division by zero of [arith_uint256]. *)
Definition GetBlockProof (nBits : Z) : option (list Z) :=
  let '(bnTarget, fNegative, fOverflow) := SetCompact nBits in
  if fNegative || fOverflow || BaseUint.EqualTo bnTarget 0 then Some (BaseUint.of_u64 WIDTH 0)
  else
    match BaseUint.op_div (BaseUint.op_not bnTarget)
            (BaseUint.op_add bnTarget (BaseUint.of_u64 WIDTH 1)) with
    | Some q => Some (BaseUint.op_add q (BaseUint.of_u64 WIDTH 1))
    | None => None
    end.

(** [GetBlockProofEquivalentTime], with the spacing the parameters give at the
    height of [tip]; the products with [sign] are 64-bit. *)
Definition GetBlockProofEquivalentTime (to_work from_work : list Z) (tip_nBits spacing : Z) : option Z :=
  let '(r, sign) :=
    if BaseUint.op_gt to_work from_work then (BaseUint.op_sub to_work from_work, 1)
    else (BaseUint.op_sub from_work to_work, -1) in
  match GetBlockProof tip_nBits with
  | None => None
  | Some proof =>
      match BaseUint.op_div (BaseUint.op_mul r (BaseUint.of_u64 WIDTH (u64 spacing))) proof with
      | None => None
      | Some r =>
          if 63 <? BaseUint.bits r then Some (sign * 9223372036854775807)
          else Some (i64 (u64 (sign * BaseUint.GetLow64 r)))
      end
  end.

(** ** The index: part of [CChainState] *)

(** [ComputeStakeModifier] of [src/src/pos.cpp] *)
Definition ComputeStakeModifier (mem : memory) (pindexPrev : option nat) (kernel : list Z) : option (list Z) :=
  match pindexPrev with
  | None => Some null256
  | Some q =>
      match mem !! q with
      | Some b => Some (Hash (kernel ++ bi_nStakeModifier b))
      | None => None
      end
  end.

Record CChainState : Type := mkChainState {
  mem : memory;
  mapBlockIndex : gmap (list Z) nat;
  setStakeSeen : gset (COutPoint * Z);
  pindexBestHeader : option nat;
  setDirtyBlockIndex : gset nat
}.

Definition LookupBlockIndex (cs : CChainState) (hash : list Z) : option nat := mapBlockIndex cs !! hash.

(** The entry for a new header whose parent is [prev], completed. *)
Definition linked_index (m : memory) (prev : option (nat * CBlockIndex)) (block : CBlockHeader) (hash : list Z)
  : option CBlockIndex :=
  let b := new_index block in
  let pprev := fst <$> prev in
  let nHeight := match prev with Some (_, bq) => bi_nHeight bq + 1 | None => 0 end in
  match BuildSkip m pprev None nHeight, GetBlockProof (bi_nBits b),
        ComputeStakeModifier m pprev
          (if IsProofOfWork block then hash else prevout_hash (prevoutStake block)),
        RaiseValidity (bi_nStatus b) BLOCK_VALID_TREE with
  | Some pskip, Some proof, Some modifier, Some (nStatus, _) => Some {|
      bi_hash := hash;
      bi_pprev := pprev;
      bi_pnext := bi_pnext b;
      bi_pskip := pskip;
      bi_nHeight := nHeight;
      bi_nFile := bi_nFile b;
      bi_nDataPos := bi_nDataPos b;
      bi_nUndoPos := bi_nUndoPos b;
      bi_nChainWork :=
        BaseUint.op_add (match prev with Some (_, bq) => bi_nChainWork bq | None => BaseUint.of_u64 WIDTH 0 end) proof;
      bi_nTx := bi_nTx b;
      bi_nChainTx := bi_nChainTx b;
      bi_nStatus := nStatus;
      bi_nVersion := bi_nVersion b;
      bi_hashMerkleRoot := bi_hashMerkleRoot b;
      bi_nTime := bi_nTime b;
      bi_nBits := bi_nBits b;
      bi_nNonce := bi_nNonce b;
      bi_hashStateRoot := bi_hashStateRoot b;
      bi_hashUTXORoot := bi_hashUTXORoot b;
      bi_vchBlockSigDlgt := bi_vchBlockSigDlgt b;
      bi_nStakeModifier := modifier;
      bi_prevoutStake := bi_prevoutStake b;
      bi_hashProof := bi_hashProof b;
      bi_nMoneySupply := bi_nMoneySupply b;
      bi_nBurnedCoins := bi_nBurnedCoins b;
      bi_nSequenceId := 0;
      bi_nTimeMax := match prev with Some (_, bq) => Z.max (bi_nTimeMax bq) (bi_nTime b) | None => bi_nTime b end
    |}
  | _, _, _, _ => None
  end.

(** The new entry after [pprev] and [nHeight] have been assigned. *)
Definition with_link (b : CBlockIndex) (hash : list Z) (pprev : option nat) (nHeight : Z) : CBlockIndex := {|
  bi_hash := hash;
  bi_pprev := pprev;
  bi_pnext := bi_pnext b;
  bi_pskip := bi_pskip b;
  bi_nHeight := nHeight;
  bi_nFile := bi_nFile b;
  bi_nDataPos := bi_nDataPos b;
  bi_nUndoPos := bi_nUndoPos b;
  bi_nChainWork := bi_nChainWork b;
  bi_nTx := bi_nTx b;
  bi_nChainTx := bi_nChainTx b;
  bi_nStatus := bi_nStatus b;
  bi_nVersion := bi_nVersion b;
  bi_hashMerkleRoot := bi_hashMerkleRoot b;
  bi_nTime := bi_nTime b;
  bi_nBits := bi_nBits b;
  bi_nNonce := bi_nNonce b;
  bi_hashStateRoot := bi_hashStateRoot b;
  bi_hashUTXORoot := bi_hashUTXORoot b;
  bi_vchBlockSigDlgt := bi_vchBlockSigDlgt b;
  bi_nStakeModifier := bi_nStakeModifier b;
  bi_prevoutStake := bi_prevoutStake b;
  bi_hashProof := bi_hashProof b;
  bi_nMoneySupply := bi_nMoneySupply b;
  bi_nBurnedCoins := bi_nBurnedCoins b;
  bi_nSequenceId := bi_nSequenceId b;
  bi_nTimeMax := bi_nTimeMax b
|}.

(** The parent of the new entry [p], and the memory [BuildSkip] walks in.  The new
    entry is in [mapBlockIndex] when its parent is looked up.  So a header
    that names itself as its previous block is linked to itself: what is read
    of the parent is then what the new entry holds at that point, and [BuildSkip]
    walks from it. *)
Definition find_prev (cs : CChainState) (block : CBlockHeader) (hash : list Z) (p : nat)
  : option (memory * option (nat * CBlockIndex)) :=
  match <[hash := p]> (mapBlockIndex cs) !! hashPrevBlock block with
  | None => Some (mem cs, None)
  | Some q =>
      if bool_decide (q = p) then
        let b := new_index block in
        Some (mem cs ++ [with_link b hash (Some p) (bi_nHeight b + 1)], Some (p, b))
      else match mem cs !! q with Some bq => Some (mem cs, Some (q, bq)) | None => None end
  end.

Definition AddToBlockIndex (cs : CChainState) (block : CBlockHeader) : option (nat * CChainState) :=
  let hash := Header_GetHash block in
  match mapBlockIndex cs !! hash with
  | Some p => Some (p, cs)
  | None =>
      let p := length (mem cs) in
      let map := <[hash := p]> (mapBlockIndex cs) in
      match find_prev cs block hash p with
      | None => None
      | Some (m, prev) =>
          match linked_index m prev block hash with
          | None => None
          | Some b =>
              let best :=
                match pindexBestHeader cs with
                | None => Some (Some p)
                | Some h =>
                    match mem cs !! h with
                    | None => None
                    | Some bh => Some (Some (if BaseUint.op_lt (bi_nChainWork bh) (bi_nChainWork b) then p else h))
                    end
                end in
              match best with
              | None => None
              | Some best => Some (p, {|
                  mem := mem cs ++ [b];
                  mapBlockIndex := map;
                  setStakeSeen :=
                    if bi_IsProofOfStake b then {[ (bi_prevoutStake b, bi_nTime b) ]} ∪ setStakeSeen cs
                    else setStakeSeen cs;
                  pindexBestHeader := best;
                  setDirtyBlockIndex := {[ p ]} ∪ setDirtyBlockIndex cs
                |})
              end
          end
      end
  end.

Fixpoint FindForkInGlobalIndex (cs : CChainState) (vChain : CChain) (vHave : list (list Z)) : option (option nat) :=
  match vHave with
  | [] => Some (Genesis vChain)
  | hash :: vHave' =>
      match LookupBlockIndex cs hash with
      | None => FindForkInGlobalIndex cs vChain vHave'
      | Some p =>
          match Contains (mem cs) vChain p with
          | None => None
          | Some true => Some (Some p)
          | Some false =>
              match GetAncestor (mem cs) p (Height vChain) with
              | None => None
              | Some q =>
                  if bool_decide (q = Tip vChain) then Some (Tip vChain)
                  else FindForkInGlobalIndex cs vChain vHave'
              end
          end
      end
  end.

(** ** Skip heights *)

Lemma land_le_l n m : 0 <= n -> 0 <= Z.land n m <= n.
Proof.
  intros H. split; [apply Z.land_nonneg; lia|].
  assert (E : Z.land (Z.ldiff n m) (Z.land n m) = 0).
  { apply Z.bits_inj'. intros i Hi. rewrite Z.land_spec, Z.ldiff_spec, Z.land_spec, Z.bits_0.
    destruct (Z.testbit n i), (Z.testbit m i); reflexivity. }
  pose proof (Z.add_lor_land (Z.ldiff n m) (Z.land n m)) as H1. rewrite E, Z.lor_ldiff_and in H1.
  assert (0 <= Z.ldiff n m) by (apply Z.ldiff_nonneg; lia). lia.
Qed.

Lemma InvertLowestOne_lt n : 0 < n -> 0 <= InvertLowestOne n < n.
Proof.
  intros H. unfold InvertLowestOne. pose proof (land_le_l n (n - 1)).
  pose proof (land_le_l (n - 1) n) as H2. rewrite Z.land_comm in H2. lia.
Qed.

Lemma InvertLowestOne_le n : 0 <= n -> 0 <= InvertLowestOne n <= n.
Proof. intros H. apply land_le_l, H. Qed.

(** "Any number strictly lower than height is acceptable." *)
Lemma GetSkipHeight_lt h : 0 < h -> 0 <= GetSkipHeight h < h.
Proof.
  intros H. unfold GetSkipHeight. destruct (Z.ltb_spec h 2); [lia|].
  destruct (negb _).
  - pose proof (InvertLowestOne_lt (h - 1)). pose proof (InvertLowestOne_le (InvertLowestOne (h - 1))). lia.
  - apply InvertLowestOne_lt. lia.
Qed.

(** ** Well-formed trees *)

(** The [n]-th ancestor, one [pprev] at a time: the reference for [GetAncestor]. *)
Fixpoint back (m : memory) (n : nat) (p : nat) : option nat :=
  match n with
  | O => Some p
  | S n' => b ← m !! p; q ← bi_pprev b; back m n' q
  end.

(** An entry's height is one above its parent's, and its skip pointer, where it
    has one, leads to its ancestor at the skip height. *)
Definition entry_ok (m : memory) (p : nat) (b : CBlockIndex) : Prop :=
  0 <= bi_nHeight b
  /\ match bi_pprev b with
     | None => bi_nHeight b = 0
     | Some q => exists bq, m !! q = Some bq /\ bi_nHeight b = bi_nHeight bq + 1
     end
  /\ forall r, bi_pskip b = Some r -> 0 < bi_nHeight b
       /\ back m (Z.to_nat (bi_nHeight b - GetSkipHeight (bi_nHeight b))) p = Some r.

Definition tree_ok (m : memory) : Prop := forall p b, m !! p = Some b -> entry_ok m p b.

Section Tree.
Variable m : memory.
Hypothesis Hm : tree_ok m.

Lemma height_nonneg p b : m !! p = Some b -> 0 <= bi_nHeight b.
Proof. intros H. apply (Hm p b H). Qed.

Lemma back_height n : forall p b,
  m !! p = Some b -> Z.of_nat n <= bi_nHeight b ->
  exists q bq, back m n p = Some q /\ m !! q = Some bq /\ bi_nHeight bq = bi_nHeight b - Z.of_nat n.
Proof.
  induction n as [|n IH]; intros p b Hp Hn; cbn [back].
  - exists p, b. split_and!; [done..|lia].
  - rewrite Hp. cbn. destruct (Hm p b Hp) as (_ & Hprev & _).
    destruct (bi_pprev b) as [q|]; [|lia]. destruct Hprev as (bq & Hq & E). cbn.
    destruct (IH q bq Hq ltac:(lia)) as (r & br & H1 & H2 & H3). exists r, br. split_and!; [done..|lia].
Qed.

Lemma back_add n k p : back m (n + k) p = (q ← back m n p; back m k q).
Proof.
  revert p. induction n as [|n IH]; intros p; [done|]. cbn [back Nat.add].
  destruct (m !! p) as [b|]; [|done]. cbn. destruct (bi_pprev b); [|done]. apply IH.
Qed.

(** Beyond the root there is nothing. *)
Lemma back_beyond n p b : m !! p = Some b -> bi_nHeight b < Z.of_nat n -> back m n p = None.
Proof.
  revert p b. induction n as [|n IH]; intros p b Hp Hn; cbn [back].
  - pose proof (height_nonneg p b Hp). lia.
  - rewrite Hp. cbn. destruct (Hm p b Hp) as (_ & Hprev & _).
    destruct (bi_pprev b) as [q|]; [|done]. destruct Hprev as (bq & Hq & E). cbn. apply (IH q bq Hq). lia.
Qed.

Lemma walk_spec fuel : forall p b height,
  m !! p = Some b -> 0 <= height <= bi_nHeight b -> bi_nHeight b - height <= Z.of_nat fuel ->
  walk fuel m p (bi_nHeight b) height = back m (Z.to_nat (bi_nHeight b - height)) p.
Proof.
  induction fuel as [|fuel IH]; intros p b height Hp Hh Hf; cbn [walk].
  { destruct (Z.ltb_spec height (bi_nHeight b)); [lia|]. now replace (bi_nHeight b - height) with 0 by lia. }
  destruct (Z.ltb_spec height (bi_nHeight b)) as [Hlt|]; [|now replace (bi_nHeight b - height) with 0 by lia].
  rewrite Hp. destruct (Hm p b Hp) as (_ & Hprev & Hskip).
  assert (Hstep : match bi_pprev b with Some q => walk fuel m q (bi_nHeight b - 1) height | None => None end
                  = back m (Z.to_nat (bi_nHeight b - height)) p).
  { destruct (bi_pprev b) as [q|] eqn:Eq; [|lia]. destruct Hprev as (bq & Hq & E).
    replace (bi_nHeight b - 1) with (bi_nHeight bq) by lia. rewrite (IH q bq) by (done || lia).
    replace (Z.to_nat (bi_nHeight b - height)) with (S (Z.to_nat (bi_nHeight bq - height))) by lia.
    cbn [back]. rewrite Hp. cbn. by rewrite Eq. }
  destruct (bi_pskip b) as [r|]; [|done]. destruct (Hskip r eq_refl) as [H0 Hr].
  destruct (take_skip height (GetSkipHeight (bi_nHeight b)) _) eqn:Et; [|done].
  pose proof (GetSkipHeight_lt (bi_nHeight b) H0) as Hs.
  assert (height <= GetSkipHeight (bi_nHeight b)).
  { unfold take_skip in Et. destruct (Z.eqb_spec (GetSkipHeight (bi_nHeight b)) height); [lia|].
    destruct (Z.ltb_spec height (GetSkipHeight (bi_nHeight b))); [lia|discriminate]. }
  destruct (back_height (Z.to_nat (bi_nHeight b - GetSkipHeight (bi_nHeight b))) p b Hp ltac:(lia))
    as (r' & br & E1 & E2 & E3). rewrite Hr in E1. injection E1 as <-.
  replace (GetSkipHeight (bi_nHeight b)) with (bi_nHeight br) at 1 by lia.
  rewrite (IH r br) by (done || lia).
  replace (Z.to_nat (bi_nHeight b - height))
    with (Z.to_nat (bi_nHeight b - GetSkipHeight (bi_nHeight b)) + Z.to_nat (bi_nHeight br - height))%nat by lia.
  rewrite back_add, Hr. reflexivity.
Qed.

(** [GetAncestor] always returns, and finds what walking back one block at a
    time finds. *)
Lemma GetAncestor_back p b height :
  m !! p = Some b ->
  GetAncestor m p height =
  Some (if (0 <=? height) && (height <=? bi_nHeight b)
        then back m (Z.to_nat (bi_nHeight b - height)) p else None).
Proof.
  intros Hp. unfold GetAncestor. rewrite Hp.
  destruct (Z.ltb_spec (bi_nHeight b) height), (Z.ltb_spec height 0), (Z.leb_spec 0 height),
    (Z.leb_spec height (bi_nHeight b)); try lia; cbn [orb andb]; try done.
  rewrite (walk_spec _ p b height) by (done || lia).
  destruct (back_height (Z.to_nat (bi_nHeight b - height)) p b Hp ltac:(lia)) as (q & bq & -> & _). done.
Qed.

(** The ancestor at a height, where there is one. *)
Lemma GetAncestor_at p b height :
  m !! p = Some b -> 0 <= height <= bi_nHeight b ->
  exists q bq, GetAncestor m p height = Some (Some q) /\ m !! q = Some bq /\ bi_nHeight bq = height
    /\ back m (Z.to_nat (bi_nHeight b - height)) p = Some q.
Proof.
  intros Hp Hh. rewrite (GetAncestor_back p b height Hp).
  destruct (Z.leb_spec 0 height), (Z.leb_spec height (bi_nHeight b)); try lia. cbn [andb].
  destruct (back_height (Z.to_nat (bi_nHeight b - height)) p b Hp ltac:(lia)) as (q & bq & E & Hq & Eh).
  exists q, bq. rewrite E. split_and!; [done..|lia|done].
Qed.
(** ** Branches *)

(** The chain that ends in an entry: the reference for [SetTip]. *)
Definition branch (p : nat) : CChain :=
  match m !! p with
  | Some b => (fun h => back m (Z.to_nat (bi_nHeight b) - h) p) <$> seq 0 (S (Z.to_nat (bi_nHeight b)))
  | None => []
  end.

(** The active chain is empty or the branch of an entry. *)
Definition chain_ok (v : CChain) : Prop := v = [] \/ exists t bt, m !! t = Some bt /\ v = branch t.

(** An entry of the vector stands at its height on top of its ancestors. *)
Definition closed (v : CChain) : Prop :=
  forall h q, v !! h = Some (Some q) ->
    exists bq, m !! q = Some bq /\ bi_nHeight bq = Z.of_nat h
      /\ forall j, (j <= h)%nat -> v !! j = Some (back m (h - j) q).

Lemma branch_length p b : m !! p = Some b -> length (branch p) = S (Z.to_nat (bi_nHeight b)).
Proof. intros H. unfold branch. rewrite H. by rewrite length_fmap, length_seq. Qed.

Lemma branch_lookup p b h :
  m !! p = Some b -> (h <= Z.to_nat (bi_nHeight b))%nat ->
  branch p !! h = Some (back m (Z.to_nat (bi_nHeight b) - h) p).
Proof.
  intros H Hh. unfold branch. rewrite H, list_lookup_fmap, lookup_seq_lt by lia. done.
Qed.

Lemma branch_inv p b h q :
  m !! p = Some b -> branch p !! h = Some (Some q) ->
  (h <= Z.to_nat (bi_nHeight b))%nat /\ back m (Z.to_nat (bi_nHeight b) - h) p = Some q.
Proof.
  intros Hp H. pose proof (lookup_lt_Some _ _ _ H) as Hl. rewrite (branch_length p b Hp) in Hl.
  rewrite (branch_lookup p b h Hp) in H by lia. split; [lia|]. by injection H.
Qed.

Lemma branch_closed p b : m !! p = Some b -> closed (branch p).
Proof.
  intros Hp h q H. destruct (branch_inv p b h q Hp H) as [Hh Hb].
  pose proof (height_nonneg p b Hp) as H0.
  destruct (back_height (Z.to_nat (bi_nHeight b) - h) p b Hp ltac:(lia)) as (q' & bq & E1 & E2 & E3).
  rewrite Hb in E1. injection E1 as <-. exists bq. split_and!; [done|lia|].
  intros j Hj. rewrite (branch_lookup p b j Hp) by lia.
  replace (Z.to_nat (bi_nHeight b) - j)%nat with (Z.to_nat (bi_nHeight b) - h + (h - j))%nat by lia.
  by rewrite back_add, Hb.
Qed.

Lemma chain_closed v : chain_ok v -> closed v.
Proof. intros [->|(t & bt & Ht & ->)]; [by intros h q H|by eapply branch_closed]. Qed.

Lemma resize_lookup (v : CChain) n h q :
  resize v n !! h = Some (Some q) -> v !! h = Some (Some q) /\ (h < n)%nat.
Proof.
  unfold resize. intros H. apply lookup_app_Some in H. destruct H as [H|[_ H]].
  - apply lookup_take_Some in H. tauto.
  - apply lookup_replicate in H. by destruct H.
Qed.

Lemma length_chain_resize (v : CChain) n : length (resize v n) = n.
Proof. unfold resize. rewrite length_app, length_take, length_replicate. lia. Qed.

Lemma resize_closed v n : closed v -> closed (resize v n).
Proof.
  intros Hv h q H. apply resize_lookup in H as [H Hn].
  destruct (Hv h q H) as (bq & H1 & H2 & H3). exists bq. split_and!; [done..|].
  intros j Hj. unfold resize. pose proof (lookup_lt_Some _ _ _ H) as Hl.
  rewrite lookup_app_l by (rewrite length_take; lia). rewrite lookup_take_lt by lia. by apply H3.
Qed.

Lemma branch_intro v p b :
  m !! p = Some b -> length v = S (Z.to_nat (bi_nHeight b)) ->
  (forall h, (h <= Z.to_nat (bi_nHeight b))%nat -> v !! h = Some (back m (Z.to_nat (bi_nHeight b) - h) p)) ->
  v = branch p.
Proof.
  intros Hp Hl H. apply list_eq. intros h. destruct (decide (h <= Z.to_nat (bi_nHeight b))%nat) as [Hh|Hh].
  - by rewrite H, (branch_lookup p b).
  - rewrite !lookup_ge_None_2; [done| |lia]. rewrite (branch_length p b Hp). lia.
Qed.

(** The loop overwrites the part of the vector above the fork. *)
Lemma SetTip_loop_spec fuel : forall (old v : CChain) p b k,
  m !! p = Some b -> closed old -> length old = S (Z.to_nat (bi_nHeight b)) -> length v = length old ->
  (k <= S (Z.to_nat (bi_nHeight b)))%nat -> (S (Z.to_nat (bi_nHeight b)) - k <= fuel)%nat ->
  (forall h, (h + k < S (Z.to_nat (bi_nHeight b)))%nat -> v !! h = old !! h) ->
  (forall h, (h <= Z.to_nat (bi_nHeight b))%nat -> (S (Z.to_nat (bi_nHeight b)) <= h + k)%nat ->
             v !! h = Some (back m (Z.to_nat (bi_nHeight b) - h) p)) ->
  SetTip_loop fuel m v (back m k p) = Some (branch p).
Proof.
  induction fuel as [|fuel IH]; intros old v p b k Hp Ho Hlo Hlv Hk Hf Hlow Hhigh;
    pose proof (height_nonneg p b Hp) as H0; remember (Z.to_nat (bi_nHeight b)) as H eqn:EH.
  - rewrite (back_beyond k p b) by (done || lia). cbn [SetTip_loop]. f_equal.
    apply (branch_intro v p b Hp); [lia|]. intros h Hh. rewrite <- EH. apply Hhigh; lia.
  - destruct (decide (k = S H)) as [->|Hne].
    { rewrite (back_beyond (S H) p b) by (done || lia). cbn [SetTip_loop]. f_equal.
      apply (branch_intro v p b Hp); [lia|]. intros h Hh. rewrite <- EH. apply Hhigh; lia. }
    destruct (back_height k p b Hp ltac:(lia)) as (q & bq & E & Hq & Ehq).
    rewrite E. cbn [SetTip_loop]. rewrite Hq.
    assert (Eh : Z.to_nat (bi_nHeight bq) = (H - k)%nat) by lia. rewrite Eh.
    destruct (bool_decide (v !! (H - k)%nat = Some (Some q))) eqn:Ed.
    + apply bool_decide_eq_true in Ed. f_equal. apply (branch_intro v p b Hp); [lia|].
      intros h Hh. rewrite <- EH in Hh |- *. destruct (decide (h + k < S H)%nat) as [Hl|Hg]; [|apply Hhigh; lia].
      rewrite Hlow in Ed by lia. destruct (Ho _ _ Ed) as (bq' & _ & _ & Hc).
      rewrite (Hlow h Hl), (Hc h) by lia.
      replace (H - h)%nat with (k + (H - k - h))%nat by lia. by rewrite back_add, E.
    + replace (bi_pprev bq) with (back m (S k) p).
      2: { replace (S k) with (k + 1)%nat by lia. rewrite back_add, E. cbn. rewrite Hq. cbn.
           by destruct (bi_pprev bq). }
      apply (IH old _ p b (S k)); rewrite <- ?EH; rewrite ?length_insert; try done; try lia.
      * intros h Hh. rewrite list_lookup_insert_ne by lia. apply Hlow. lia.
      * intros h Hh1 Hh2. destruct (decide (h = H - k)%nat) as [->|Hn].
        -- rewrite list_lookup_insert_eq by lia. replace (H - (H - k))%nat with k by lia. by rewrite E.
        -- rewrite list_lookup_insert_ne by lia. apply Hhigh; lia.
Qed.

Lemma SetTip_branch v p b :
  m !! p = Some b -> chain_ok v -> SetTip m v (Some p) = Some (branch p).
Proof.
  intros Hp Hv. pose proof (height_nonneg p b Hp). unfold SetTip. rewrite Hp.
  change (Some p) with (back m 0 p).
  replace (Z.to_nat (bi_nHeight b + 1)) with (S (Z.to_nat (bi_nHeight b))) by lia.
  apply (SetTip_loop_spec _ (resize v (S (Z.to_nat (bi_nHeight b)))) _ p b 0 Hp);
    rewrite ?length_chain_resize; try done; try lia.
  by apply resize_closed, chain_closed.
Qed.

(** ** The fork with the active chain *)

Lemma chain_at_lookup (v : CChain) (h : nat) q :
  chain_at v (Z.of_nat h) = Some q <-> v !! h = Some (Some q).
Proof.
  unfold chain_at. rewrite Nat2Z.id. destruct (Z.ltb_spec (Z.of_nat h) 0); [lia|]. cbn [orb].
  destruct (Z.leb_spec (Z.of_nat (length v)) (Z.of_nat h)) as [Hl|Hl].
  - rewrite lookup_ge_None_2 by lia. done.
  - destruct (v !! h) as [[r|]|]; split; congruence.
Qed.

(** [q] is an entry of the chain. *)
Definition on_chain (v : CChain) (q : nat) : Prop :=
  exists bq, m !! q = Some bq /\ chain_at v (bi_nHeight bq) = Some q.

Definition ancestor (q p : nat) : Prop := exists n, back m n p = Some q.

(** The last block a chain and the branch of an entry share. *)
Definition is_fork (v : CChain) (p : nat) (r : option nat) : Prop :=
  match r with
  | Some q => on_chain v q /\ ancestor q p
      /\ forall x, on_chain v x -> ancestor x p -> ancestor x q
  | None => forall x, on_chain v x -> ~ ancestor x p
  end.

Lemma ancestor_valid q p b : m !! p = Some b -> ancestor q p ->
  exists n bq, back m n p = Some q /\ m !! q = Some bq /\ bi_nHeight bq = bi_nHeight b - Z.of_nat n
    /\ Z.of_nat n <= bi_nHeight b.
Proof.
  intros Hp [n Hn]. destruct (decide (Z.of_nat n <= bi_nHeight b)) as [H|H].
  - destruct (back_height n p b Hp H) as (q' & bq & E & Hq & Eh). rewrite Hn in E. injection E as <-.
    by exists n, bq.
  - rewrite (back_beyond n p b) in Hn by (done || lia). done.
Qed.

Lemma fork_none (v : CChain) p b k :
  m !! p = Some b -> bi_nHeight b < Z.of_nat k ->
  (forall x j, (j < k)%nat -> back m j p = Some x -> ~ on_chain v x) -> is_fork v p None.
Proof.
  intros Hp Hk Hb x Hx Ha. destruct (ancestor_valid x p b Hp Ha) as (n & bq & E & _ & _ & Hn).
  apply (Hb x n); [lia|done|done].
Qed.

Lemma FindFork_loop_spec fuel (v : CChain) : forall p b k,
  m !! p = Some b ->
  (forall x j, (j < k)%nat -> back m j p = Some x -> ~ on_chain v x) ->
  bi_nHeight b + 1 - Z.of_nat k <= Z.of_nat fuel ->
  exists r, FindFork_loop fuel m v (back m k p) = Some r /\ is_fork v p r.
Proof.
  induction fuel as [|fuel IH]; intros p b k Hp Hbefore Hf.
  all: destruct (decide (Z.of_nat k <= bi_nHeight b)) as [Hk|Hk].
  1: lia.
  1, 3: rewrite (back_beyond k p b) by (done || lia); cbn [FindFork_loop]; exists None;
        split; [done|eapply fork_none; [done| |done]; lia].
  destruct (back_height k p b Hp Hk) as (q & bq & E & Hq & Eh). rewrite E. cbn [FindFork_loop]. rewrite Hq.
  case_bool_decide as Hc.
  - exists (Some q). split; [done|]. split_and!; [by exists bq|by exists k|].
    intros x Hx Ha. destruct (ancestor_valid x p b Hp Ha) as (n & bx & Ex & _).
    destruct (decide (n < k)%nat) as [Hn|Hn]; [by destruct (Hbefore x n Hn Ex)|].
    exists (n - k)%nat. replace n with (k + (n - k))%nat in Ex by lia. by rewrite back_add, E in Ex.
  - replace (bi_pprev bq) with (back m (S k) p).
    2: { replace (S k) with (k + 1)%nat by lia. rewrite back_add, E. cbn. rewrite Hq. cbn.
         by destruct (bi_pprev bq). }
    apply (IH p b (S k) Hp); [|lia]. intros x j Hj Ex.
    destruct (decide (j = k)) as [->|Hn]; [|apply (Hbefore x j); [lia|done]].
    rewrite E in Ex. injection Ex as <-. intros (bx & Hbx & Hx). congruence.
Qed.

(** [FindFork] finds the last common block, for any vector in place of the
    chain: the jump to the chain's height passes only blocks above it. *)
Lemma FindFork_fork (v : CChain) p b :
  m !! p = Some b -> exists r, FindFork m v (Some p) = Some r /\ is_fork v p r.
Proof.
  intros Hp. pose proof (height_nonneg p b Hp) as H0. unfold FindFork. rewrite Hp. unfold Height.
  destruct (Z.ltb_spec (Z.of_nat (length v) - 1) (bi_nHeight b)) as [Hlt|Hge].
  - assert (Hhigh : forall x j, (j < Z.to_nat (bi_nHeight b - (Z.of_nat (length v) - 1)))%nat ->
                    back m j p = Some x -> ~ on_chain v x).
    { intros x j Hj Ex (bx & Hbx & Hx). destruct (ancestor_valid x p b Hp (ex_intro _ j Ex)) as (n & bx' & En & Hbx' & Eh & Hn).
      assert (n = j) as ->.
      { destruct (decide (Z.of_nat j <= bi_nHeight b)) as [Hj'|Hj'].
        - destruct (back_height j p b Hp Hj') as (y & by' & Ey & Hy & Eyh). congruence || (assert (bi_nHeight bx' = bi_nHeight by') by congruence; lia).
        - rewrite (back_beyond j p b) in Ex by (done || lia). done. }
      unfold chain_at in Hx. assert (bx' = bx) as -> by congruence.
      destruct (Z.ltb_spec (bi_nHeight bx) 0), (Z.leb_spec (Z.of_nat (length v)) (bi_nHeight bx)); try done; lia. }
    rewrite (GetAncestor_back p b _ Hp).
    destruct (Z.leb_spec 0 (Z.of_nat (length v) - 1)); cbn [andb].
    + destruct (Z.leb_spec (Z.of_nat (length v) - 1) (bi_nHeight b)); [|lia].
      apply (FindFork_loop_spec _ v p b _ Hp); [done|lia].
    + cbn [FindFork_loop]. exists None. split; [destruct (Z.to_nat (bi_nHeight b + 1)); done|].
      eapply (fork_none v p b); [done| |exact Hhigh]. lia.
  - change (Some p) with (back m 0 p). apply (FindFork_loop_spec _ v p b 0 Hp); [lia|lia].
Qed.
(** ** Common ancestors *)

Definition is_common (a b : nat) (r : option nat) : Prop :=
  match r with
  | Some q => ancestor q a /\ ancestor q b /\ forall x, ancestor x a -> ancestor x b -> ancestor x q
  | None => forall x, ancestor x a -> ~ ancestor x b
  end.

Lemma ancestor_refl p : ancestor p p.
Proof. by exists 0%nat. Qed.

Lemma ancestor_trans x q p : ancestor x q -> ancestor q p -> ancestor x p.
Proof. intros [n Hn] [k Hk]. exists (k + n)%nat. by rewrite back_add, Hk. Qed.

(** Ancestors are the entry itself and the ancestors of its parent. *)
Lemma ancestor_step x p b : m !! p = Some b ->
  (ancestor x p <-> x = p \/ exists q, bi_pprev b = Some q /\ ancestor x q).
Proof.
  intros Hp. split.
  - intros [[|n] Hn]; [left; by injection Hn|]. right. cbn [back] in Hn. rewrite Hp in Hn. cbn in Hn.
    destruct (bi_pprev b) as [q|]; [|done]. exists q. split; [done|by exists n].
  - intros [->|(q & Hq & n & Hn)]; [apply ancestor_refl|]. exists (S n). cbn [back]. by rewrite Hp; cbn; rewrite Hq.
Qed.

Lemma same_height_ancestor a b ba bb :
  m !! a = Some ba -> m !! b = Some bb -> bi_nHeight ba = bi_nHeight bb -> ancestor a b -> a = b.
Proof.
  intros Ha Hb E H. destruct (ancestor_valid a b bb Hb H) as (n & ba' & En & Ha' & Eh & _).
  assert (n = 0%nat) as -> by (rewrite Ha in Ha'; injection Ha' as <-; lia). by injection En.
Qed.

Lemma common_step a b ba bb r :
  m !! a = Some ba -> m !! b = Some bb -> bi_nHeight ba = bi_nHeight bb -> a <> b ->
  match bi_pprev ba, bi_pprev bb with
  | Some a', Some b' => is_common a' b' r
  | _, _ => r = None
  end -> is_common a b r.
Proof.
  intros Ha Hb E Hab Hr.
  assert (Hx : forall x, ancestor x a -> ancestor x b ->
    exists a' b', bi_pprev ba = Some a' /\ bi_pprev bb = Some b' /\ ancestor x a' /\ ancestor x b').
  { intros x Hxa Hxb. pose proof Hxa as Hxa'. pose proof Hxb as Hxb'.
    rewrite (ancestor_step x a ba Ha) in Hxa. rewrite (ancestor_step x b bb Hb) in Hxb.
    destruct Hxa as [->|(a' & ? & ?)]; [by destruct Hab; eapply same_height_ancestor|].
    destruct Hxb as [->|(b' & ? & ?)]; [by destruct Hab; symmetry; eapply same_height_ancestor|].
    by exists a', b'. }
  destruct (bi_pprev ba) as [a'|] eqn:Ea, (bi_pprev bb) as [b'|] eqn:Eb; try subst r;
    try (intros x H1 H2; destruct (Hx x H1 H2) as (? & ? & ? & ? & _); congruence).
  assert (Hup : forall x, ancestor x a' -> ancestor x a) by (intros x H; apply (ancestor_step x a ba Ha); eauto).
  assert (Hupb : forall x, ancestor x b' -> ancestor x b) by (intros x H; apply (ancestor_step x b bb Hb); eauto).
  destruct r as [q|]; cbn [is_common] in *.
  - destruct Hr as (H1 & H2 & H3). split_and!; [auto|auto|]. intros x Hxa Hxb.
    destruct (Hx x Hxa Hxb) as (? & ? & [= <-] & [= <-] & ? & ?). auto.
  - intros x Hxa Hxb. destruct (Hx x Hxa Hxb) as (? & ? & [= <-] & [= <-] & ? & ?). by apply (Hr x).
Qed.

Lemma common_loop_spec fuel : forall a b ba bb,
  m !! a = Some ba -> m !! b = Some bb -> bi_nHeight ba = bi_nHeight bb ->
  bi_nHeight ba < Z.of_nat fuel ->
  exists r, common_loop fuel m (Some a) (Some b) = Some r /\ is_common a b r.
Proof.
  induction fuel as [|fuel IH]; intros a b ba bb Ha Hb E Hf.
  { pose proof (height_nonneg a ba Ha). lia. }
  cbn [common_loop]. case_bool_decide as Hab.
  { subst b. exists (Some a). split; [done|]. split_and!; [apply ancestor_refl..|done]. }
  rewrite Ha, Hb. destruct (Hm a ba Ha) as (_ & Hpa & _), (Hm b bb Hb) as (_ & Hpb & _).
  assert (Hstep := common_step a b ba bb).
  destruct (bi_pprev ba) as [a'|] eqn:Ea, (bi_pprev bb) as [b'|] eqn:Eb.
  - destruct Hpa as (ba' & Ha' & Eha), Hpb as (bb' & Hb' & Ehb).
    destruct (IH a' b' ba' bb' Ha' Hb') as (r & Er & Hr); [lia|lia|]. exists r. split; [done|].
    apply Hstep; rewrite ?Ea, ?Eb; done.
  - destruct Hpa as (ba' & Ha' & Eha). pose proof (height_nonneg a' ba' Ha'). lia.
  - destruct Hpb as (bb' & Hb' & Ehb). pose proof (height_nonneg b' bb' Hb'). lia.
  - exists None. split; [by destruct fuel|]. apply Hstep; rewrite ?Ea, ?Eb; done.
Qed.

Lemma is_common_down a b a' r :
  (forall x, ancestor x b -> ancestor x a -> ancestor x a') -> ancestor a' a ->
  is_common a' b r -> is_common a b r.
Proof.
  intros H Ha Hr. destruct r as [q|]; cbn [is_common] in *.
  - destruct Hr as (H1 & H2 & H3). split_and!; [exact (ancestor_trans _ _ _ H1 Ha)|done|auto].
  - intros x Hx Hb. apply (Hr x); auto.
Qed.

Lemma is_common_sym a b r : is_common a b r -> is_common b a r.
Proof. destruct r as [q|]; cbn [is_common]; [intros (?&?&?); split_and!; auto|intros H x Ha Hb; by apply (H x)]. Qed.

(** The ancestor at a given height is above every ancestor not above that height. *)
Lemma ancestor_at_height a ba h a' x bx :
  m !! a = Some ba -> 0 <= h <= bi_nHeight ba ->
  back m (Z.to_nat (bi_nHeight ba - h)) a = Some a' ->
  ancestor x a -> m !! x = Some bx -> bi_nHeight bx <= h -> ancestor x a'.
Proof.
  intros Ha Hh Ea Hx Hbx Hxh. destruct (ancestor_valid x a ba Ha Hx) as (n & bx' & En & Hbx' & Eh & _).
  rewrite Hbx in Hbx'. injection Hbx' as <-.
  exists (n - Z.to_nat (bi_nHeight ba - h))%nat.
  replace n with (Z.to_nat (bi_nHeight ba - h) + (n - Z.to_nat (bi_nHeight ba - h)))%nat in En by lia.
  by rewrite back_add, Ea in En.
Qed.

Lemma ancestor_lower x b bb bx : m !! b = Some bb -> ancestor x b -> m !! x = Some bx -> bi_nHeight bx <= bi_nHeight bb.
Proof.
  intros Hb Hx Hbx. destruct (ancestor_valid x b bb Hb Hx) as (n & bx' & _ & Hbx' & Eh & _).
  rewrite Hbx in Hbx'. injection Hbx' as <-. lia.
Qed.

(** The higher of the two is brought down first. *)
Lemma common_after_jump a b ba bb :
  m !! a = Some ba -> m !! b = Some bb -> bi_nHeight bb <= bi_nHeight ba ->
  exists a' ba', GetAncestor m a (bi_nHeight bb) = Some (Some a') /\ m !! a' = Some ba'
    /\ bi_nHeight ba' = bi_nHeight bb /\ forall r, is_common a' b r -> is_common a b r.
Proof.
  intros Ha Hb Hle. pose proof (height_nonneg b bb Hb) as H0.
  destruct (GetAncestor_at a ba (bi_nHeight bb) Ha ltac:(lia)) as (a' & ba' & Eg & Ha' & Eh & Eb).
  exists a', ba'. split_and!; [done..|]. intros r Hr. eapply is_common_down; [|eexists; exact Eb|exact Hr].
  intros x Hxb Hxa. destruct (ancestor_valid x b bb Hb Hxb) as (_ & bx & _ & Hbx & _).
  eapply ancestor_at_height; [exact Ha| |exact Eb|done|exact Hbx|by eapply ancestor_lower]. lia.
Qed.

Lemma LastCommonAncestor_common a b ba bb :
  m !! a = Some ba -> m !! b = Some bb ->
  exists r, LastCommonAncestor m a b = Some r /\ is_common a b r.
Proof.
  intros Ha Hb. unfold LastCommonAncestor. rewrite Ha, Hb.
  pose proof (height_nonneg a ba Ha). pose proof (height_nonneg b bb Hb).
  destruct (Z.ltb_spec (bi_nHeight bb) (bi_nHeight ba)), (Z.ltb_spec (bi_nHeight ba) (bi_nHeight bb)); try lia.
  - destruct (common_after_jump a b ba bb Ha Hb ltac:(lia)) as (a' & ba' & -> & Ha' & E & Hr).
    destruct (common_loop_spec (Z.to_nat (Z.min (bi_nHeight ba) (bi_nHeight bb) + 1)) a' b ba' bb Ha' Hb)
      as (r & -> & Hc); [lia|lia|]. exists r. auto.
  - destruct (common_after_jump b a bb ba Hb Ha ltac:(lia)) as (b' & bb' & -> & Hb' & E & Hr).
    destruct (common_loop_spec (Z.to_nat (Z.min (bi_nHeight ba) (bi_nHeight bb) + 1)) a b' ba bb' Ha Hb')
      as (r & -> & Hc); [lia|lia|]. exists r. split; [done|]. apply is_common_sym, Hr, is_common_sym, Hc.
  - apply (common_loop_spec _ a b ba bb Ha Hb); lia.
Qed.
End Tree.

(** ** The work of a block *)

(** The work a compact target stands for. *)
Definition proof_value (nBits : Z) : Z :=
  let '(bnTarget, fNegative, fOverflow) := SetCompact nBits in
  if fNegative || fOverflow || (val bnTarget =? 0) then 0 else 2 ^ 256 / (val bnTarget + 1).

Lemma compact_value_nonneg c : is_u32 c -> 0 <= compact_value c.
Proof.
  intros Hc. destruct (compact_fields c Hc) as (_ & _ & Hs & Hw). unfold compact_value.
  destruct (Z.leb_spec (c / 16777216) 3).
  - apply Z.div_pos; [lia|apply Z.pow_pos_nonneg; lia].
  - apply Z.mul_nonneg_nonneg; [lia|apply Z.pow_nonneg; lia].
Qed.

(** A target that a compact word denotes is never the greatest number. *)
Lemma compact_not_max c : is_u32 c -> compact_value c <> 2 ^ 256 - 1.
Proof.
  intros Hc. destruct (compact_fields c Hc) as (_ & _ & Hs & Hw). unfold compact_value.
  destruct (Z.leb_spec (c / 16777216) 3) as [H|H].
  - assert (0 < 256 ^ (3 - c / 16777216)) by (apply Z.pow_pos_nonneg; lia).
    assert (c mod 8388608 / 256 ^ (3 - c / 16777216) <= c mod 8388608) by (apply Z.div_le_upper_bound; nia).
    assert (8388608 < 2 ^ 256 - 1) by reflexivity. lia.
  - replace (c / 16777216 - 3) with (Z.succ (c / 16777216 - 4)) by lia.
    rewrite Z.pow_succ_r by lia. intros E.
    assert (E2 : (2 ^ 256 - 1) mod 256 = 255) by reflexivity. rewrite <- E in E2.
    replace (c mod 8388608 * (256 * 256 ^ (c / 16777216 - 4)))
      with (c mod 8388608 * 256 ^ (c / 16777216 - 4) * 256) in E2 by ring.
    rewrite Z.mod_mul in E2 by lia. discriminate.
Qed.

Lemma work_bound t : 1 <= t -> 1 <= 2 ^ 256 - t -> 2 ^ 256 / (t + 1) = (2 ^ 256 - 1 - t) / (t + 1) + 1
  /\ 1 <= 2 ^ 256 / (t + 1) < 2 ^ 256.
Proof.
  intros H1 H2. assert (0 < 2 ^ 256) by done. remember (2 ^ 256) as M. split.
  - rewrite <- Z.div_add by lia. f_equal. ring.
  - split; [apply Z.div_le_lower_bound; lia|apply Z.div_lt; lia].
Qed.

(** The expression [~bnTarget / (bnTarget + 1) + 1] is the quotient that does
    not fit the type it is computed in. *)
Lemma GetBlockProof_value nBits : is_u32 nBits ->
  exists w, GetBlockProof nBits = Some w /\ wf256 w /\ val w = proof_value nBits.
Proof.
  intros Hb. unfold GetBlockProof, proof_value. pose proof (SetCompact_spec nBits Hb) as Hs.
  destruct (SetCompact nBits) as [[t neg] ovf]. destruct Hs as ([Hl Hw] & Hv & Ho & _).
  rewrite EqualTo_zero by (done || (rewrite Hl; unfold WIDTH; lia)).
  destruct (of_u64_spec 0 ltac:(done)) as [Ez Hz]. destruct (of_u64_spec 1 ltac:(done)) as [E1 [Hl1 Hw1]].
  destruct (neg || ovf || (val t =? 0)) eqn:Ec; [by eexists|].
  apply orb_false_iff in Ec as [Ec E0]. apply orb_false_iff in Ec as [_ ->].
  symmetry in Ho. apply Z.leb_gt in Ho. apply Z.eqb_neq in E0.
  pose proof (val_range t Hw) as Hr. rewrite Hl in Hr. pose proof (compact_not_max nBits Hb) as Hmax.
  pose proof (compact_value_nonneg nBits Hb). rewrite Z.mod_small in Hv by lia.
  rewrite modulus_256 in *.
  destruct (op_add_spec t (BaseUint.of_u64 WIDTH 1) Hw Hw1 ltac:(lia)) as (Va & Wa & La).
  destruct (op_not_spec t Hw) as (Vn & Wn & Ln). rewrite Hl, modulus_256 in Va, Vn. rewrite E1 in Va.
  rewrite Z.mod_small in Va by lia.
  pose proof (op_div_spec _ _ Wn Wa ltac:(lia)) as Hd. rewrite Va in Hd.
  destruct (Z.eqb_spec (val t + 1) 0); [lia|]. destruct Hd as (q & -> & Vq & Wq & Lq).
  destruct (op_add_spec q (BaseUint.of_u64 WIDTH 1) Wq Hw1 ltac:(lia)) as (Vr & Wr & Lr).
  destruct (work_bound (val t)) as [Ew Bw]; [lia|lia|].
  eexists. split_and!; [done| |]; [split; [lia|done]|].
  rewrite Vr, Lq, Ln, Hl, modulus_256, Vq, Vn, E1, Ew. apply Z.mod_small. lia.
Qed.

(** ** The invariant of the index *)

(** What the fields of an entry say about its parent in the memory. *)
Definition linked (m : memory) (b : CBlockIndex) : Prop :=
  is_u32 (bi_nBits b) /\ wf256 (bi_nChainWork b)
  /\ match bi_pprev b with
     | None => val (bi_nChainWork b) = proof_value (bi_nBits b) mod 2 ^ 256 /\ bi_nTimeMax b = bi_nTime b
     | Some q => exists bq, m !! q = Some bq
         /\ val (bi_nChainWork b) = (val (bi_nChainWork bq) + proof_value (bi_nBits b)) mod 2 ^ 256
         /\ bi_nTimeMax b = Z.max (bi_nTimeMax bq) (bi_nTime b)
         /\ exists h, GetBlockHeader m b = Some h /\ Header_GetHash h = bi_hash b
     end.

Record index_ok (cs : CChainState) : Prop := {
  ix_tree : tree_ok (mem cs);
  ix_map : forall h p, mapBlockIndex cs !! h = Some p <-> exists b, mem cs !! p = Some b /\ bi_hash b = h;
  ix_linked : forall p b, mem cs !! p = Some b -> linked (mem cs) b;
  ix_best : match pindexBestHeader cs with
            | None => mem cs = []
            | Some h => exists bh, mem cs !! h = Some bh
                /\ forall p b, mem cs !! p = Some b -> val (bi_nChainWork b) <= val (bi_nChainWork bh)
            end
}.

(** Growing the memory keeps what held of it. *)
Section Grow.
Variables (m : memory) (x : CBlockIndex).

Lemma grow_lookup p b : m !! p = Some b -> (m ++ [x]) !! p = Some b.
Proof. intros H. by apply lookup_app_l_Some. Qed.

Lemma grow_inv p b : (m ++ [x]) !! p = Some b -> m !! p = Some b \/ (p = length m /\ b = x).
Proof.
  intros H. apply lookup_app_Some in H as [H|[H1 H2]]; [by left|right].
  apply list_lookup_singleton_Some in H2 as [H2 <-]. split; [lia|done].
Qed.

Lemma grow_back n : forall p q, back m n p = Some q -> back (m ++ [x]) n p = Some q.
Proof.
  induction n as [|n IH]; intros p q; cbn [back]; [done|].
  destruct (m !! p) as [b|] eqn:E; [|done]. rewrite (grow_lookup p b E). cbn.
  destruct (bi_pprev b); [|done]. apply IH.
Qed.

Lemma grow_entry_ok p b : entry_ok m p b -> entry_ok (m ++ [x]) p b.
Proof.
  intros (H1 & H2 & H3). split_and!; [done| |].
  - destruct (bi_pprev b) as [q|]; [|done]. destruct H2 as (bq & Hq & E). exists bq.
    split; [by apply grow_lookup|done].
  - intros r Hr. destruct (H3 r Hr) as [H0 Hb]. split; [done|by apply grow_back].
Qed.

Lemma grow_linked b : linked m b -> linked (m ++ [x]) b.
Proof.
  intros (H1 & H2 & H3). split_and!; [done..|]. unfold GetBlockHeader in *.
  destruct (bi_pprev b) as [q|]; [|done]. destruct H3 as (bq & Hq & Hw & Ht & h & Hh & E).
  exists bq. rewrite (grow_lookup q bq Hq). rewrite Hq in Hh. split_and!; [done..|by exists h].
Qed.

Lemma grow_branch t bt : tree_ok m -> m !! t = Some bt -> branch (m ++ [x]) t = branch m t.
Proof.
  intros Hm Ht. pose proof (height_nonneg m Hm t bt Ht). symmetry.
  apply (branch_intro _ _ t bt); [by apply grow_lookup|by rewrite (branch_length m t bt Ht)|].
  intros h Hh. rewrite (branch_lookup m t bt h Ht Hh). f_equal.
  destruct (back_height m Hm (Z.to_nat (bi_nHeight bt) - h) t bt Ht ltac:(lia)) as (q & _ & E & _).
  by rewrite E, (grow_back _ _ _ E).
Qed.

Lemma grow_chain_ok v : tree_ok m -> chain_ok m v -> chain_ok (m ++ [x]) v.
Proof.
  intros Hm [->|(t & bt & Ht & ->)]; [by left|right]. exists t, bt.
  split; [by apply grow_lookup|symmetry; by eapply grow_branch].
Qed.
End Grow.

Lemma RaiseValidity_new : RaiseValidity 0 BLOCK_VALID_TREE = Some (2, true).
Proof. reflexivity. Qed.

#[local] Opaque Header_GetHash Hash.

(** A new entry is made, and is well linked. *)
Lemma linked_index_ok m prev block hash :
  tree_ok m -> is_u32 (nBits block) ->
  (forall q bq, prev = Some (q, bq) -> m !! q = Some bq /\ wf256 (bi_nChainWork bq)
     /\ hashPrevBlock block = bi_hash bq) ->
  hash = Header_GetHash block ->
  exists b, linked_index m prev block hash = Some b /\ bi_hash b = hash
    /\ entry_ok (m ++ [b]) (length m) b /\ linked (m ++ [b]) b.
Proof.
  intros Hm Hb Hprev Hh. unfold linked_index.
  destruct (GetBlockProof_value (nBits block) Hb) as (w & Ew & [Lw Ww] & Vw).
  cbn [new_index bi_nBits bi_nStatus]. rewrite Ew, RaiseValidity_new.
  destruct (of_u64_spec 0 ltac:(done)) as [Ez [Lz Wz]].
  destruct prev as [[q bq]|]; cbn [fst fmap option_fmap option_map].
  - destruct (Hprev q bq eq_refl) as (Hq & [Lq Wq] & Hph).
    pose proof (height_nonneg m Hm q bq Hq) as H0.
    pose proof (GetSkipHeight_lt (bi_nHeight bq + 1) ltac:(lia)) as Hs.
    cbn [BuildSkip ComputeStakeModifier]. rewrite Hq.
    destruct (GetAncestor_at m Hm q bq (GetSkipHeight (bi_nHeight bq + 1)) Hq ltac:(lia))
      as (r & br & -> & Hr & Ehr & Eb).
    eexists. split_and!; [reflexivity|reflexivity| |].
    + split_and!; cbn; [lia|exists bq; split; [by apply grow_lookup|done]|].
      intros r' [= <-]. split; [lia|].
      replace (Z.to_nat (bi_nHeight bq + 1 - GetSkipHeight (bi_nHeight bq + 1)))
        with (S (Z.to_nat (bi_nHeight bq - GetSkipHeight (bi_nHeight bq + 1)))) by lia.
      cbn [back]. rewrite list_lookup_middle by done. cbn. by apply grow_back.
    + destruct (op_add_spec (bi_nChainWork bq) w Wq Ww ltac:(lia)) as (Va & Wa & La).
      split_and!; cbn [bi_nBits bi_nChainWork]; [done|split; [lia|done]|]. cbn [bi_pprev bi_nChainWork bi_nTimeMax bi_nTime].
      exists bq. split_and!; [by apply grow_lookup|by rewrite Va, Vw, Lq, modulus_256|done|].
      unfold GetBlockHeader. cbn. rewrite (grow_lookup m _ q bq Hq). eexists. split; [reflexivity|].
      rewrite Hh, <- Hph. destruct block. reflexivity.
  - cbn [BuildSkip ComputeStakeModifier]. eexists. split_and!; [reflexivity|reflexivity| |].
    + split_and!; cbn [bi_nHeight bi_pprev bi_pskip]; [lia|reflexivity|discriminate].
    + destruct (op_add_spec (BaseUint.of_u64 WIDTH 0) w Wz Ww ltac:(lia)) as (Va & Wa & La).
      split_and!; cbn [bi_nBits bi_nChainWork]; [done|split; [lia|done]|]. cbn [bi_pprev bi_nChainWork bi_nTimeMax bi_nTime].
      split; [by rewrite Va, Ez, Vw, Lz, modulus_256|done].
Qed.

Lemma ix_map_valid cs h q : index_ok cs -> mapBlockIndex cs !! h = Some q ->
  exists bq, mem cs !! q = Some bq /\ bi_hash bq = h.
Proof. intros H E. by apply (ix_map cs H). Qed.

(** The map gains the new entry and nothing else. *)
Lemma grow_map cs b hash : index_ok cs -> bi_hash b = hash -> mapBlockIndex cs !! hash = None ->
  forall h p, <[hash := length (mem cs)]> (mapBlockIndex cs) !! h = Some p
    <-> exists b', (mem cs ++ [b]) !! p = Some b' /\ bi_hash b' = h.
Proof.
  intros H Hb Hnew h p. rewrite lookup_insert_Some. split.
  - intros [[<- <-]|[Hne Hh]].
    + exists b. by rewrite list_lookup_middle.
    + destruct (ix_map_valid cs h p H Hh) as (b' & H1 & H2). exists b'. split; [by apply grow_lookup|done].
  - intros (b' & H1 & H2). apply grow_inv in H1 as [H1|[-> ->]]; [|left; split; congruence].
    right. assert (E : mapBlockIndex cs !! h = Some p) by (apply (ix_map cs H); eauto).
    split; [congruence|done].
Qed.

(** The heaviest header stays the heaviest. *)
Lemma grow_best cs b : index_ok cs -> wf256 (bi_nChainWork b) ->
  exists best,
    match pindexBestHeader cs with
    | None => Some (Some (length (mem cs)))
    | Some h =>
        match mem cs !! h with
        | None => None
        | Some bh =>
            Some (Some (if BaseUint.op_lt (bi_nChainWork bh) (bi_nChainWork b) then length (mem cs) else h))
        end
    end = Some (Some best)
    /\ exists bh, (mem cs ++ [b]) !! best = Some bh
      /\ forall p b', (mem cs ++ [b]) !! p = Some b' -> val (bi_nChainWork b') <= val (bi_nChainWork bh).
Proof.
  intros H [Lb Wb]. pose proof (ix_best cs H) as Hbest.
  destruct (pindexBestHeader cs) as [h|].
  - destruct Hbest as (bh & Hh & Hmax). rewrite Hh.
    destruct (ix_linked cs H h bh Hh) as (_ & [Lh Wh] & _).
    rewrite op_lt_spec by (done || lia). eexists. split; [reflexivity|].
    destruct (Z.ltb_spec (val (bi_nChainWork bh)) (val (bi_nChainWork b))).
    + exists b. rewrite list_lookup_middle by done. split; [done|]. intros p b' Hp.
      apply grow_inv in Hp as [Hp|[_ ->]]; [pose proof (Hmax p b' Hp); lia|lia].
    + exists bh. split; [by apply grow_lookup|]. intros p b' Hp.
      apply grow_inv in Hp as [Hp|[_ ->]]; [by eapply Hmax|lia].
  - eexists. split; [reflexivity|]. exists b. rewrite list_lookup_middle by done. split; [done|].
    intros p b' Hp. rewrite Hbest in Hp. apply list_lookup_singleton_Some in Hp as [_ <-]. lia.
Qed.

Lemma AddToBlockIndex_ok cs block :
  index_ok cs -> is_u32 (nBits block) -> hashPrevBlock block <> Header_GetHash block ->
  exists p cs', AddToBlockIndex cs block = Some (p, cs') /\ index_ok cs'
    /\ mapBlockIndex cs' !! Header_GetHash block = Some p
    /\ (mem cs' = mem cs \/ exists b, mem cs' = mem cs ++ [b]).
Proof.
  intros H Hbits Hself. unfold AddToBlockIndex.
  destruct (mapBlockIndex cs !! Header_GetHash block) as [p|] eqn:E.
  { exists p, cs. split_and!; auto. }
  assert (Hprev : exists prev,
    find_prev cs block (Header_GetHash block) (length (mem cs)) = Some (mem cs, prev)
    /\ forall q bq, prev = Some (q, bq) -> mem cs !! q = Some bq /\ wf256 (bi_nChainWork bq)
         /\ hashPrevBlock block = bi_hash bq).
  { unfold find_prev. rewrite lookup_insert_ne by done.
    destruct (mapBlockIndex cs !! hashPrevBlock block) as [q|] eqn:Eq; [|by exists None].
    destruct (ix_map_valid cs _ _ H Eq) as (bq & Hq & Hhash).
    rewrite bool_decide_false by (apply lookup_lt_Some in Hq; lia). rewrite Hq. eexists. split; [done|].
    intros q' bq' [= <- <-]. split_and!; [done|apply (ix_linked cs H q bq Hq)|done]. }
  destruct Hprev as (prev & -> & Hp).
  destruct (linked_index_ok (mem cs) prev block _ (ix_tree cs H) Hbits Hp eq_refl)
    as (b & -> & Hhash & Hentry & Hlinked).
  destruct (grow_best cs b H (proj1 (proj2 Hlinked))) as (best & -> & Hbest).
  eexists _, _. split; [reflexivity|]. cbn [mapBlockIndex mem]. split_and!; [|by rewrite lookup_insert_eq|eauto].
  split; cbn [mapBlockIndex mem pindexBestHeader].
  - intros p' b' Hb'. apply grow_inv in Hb' as [Hb'|[-> ->]]; [|done]. by apply grow_entry_ok, (ix_tree cs H).
  - by apply grow_map.
  - intros p' b' Hb'. apply grow_inv in Hb' as [Hb'|[_ ->]]; [|done]. apply grow_linked. by eapply (ix_linked cs H).
  - done.
Qed.

(** An entry linked to itself. *)
Lemma linked_self m p b0 block hash :
  m !! p = Some b0 -> bi_nHeight b0 = 1 -> bi_pprev b0 = Some p -> bi_pskip b0 = None -> is_u32 (nBits block) ->
  exists b, linked_index m (Some (p, new_index block)) block hash = Some b /\ wf256 (bi_nChainWork b)
    /\ bi_pprev b = Some p /\ bi_pskip b = Some p /\ bi_nHeight b = 1.
Proof.
  intros Hb0 Hh Hp Hs Hbits. unfold linked_index.
  destruct (GetBlockProof_value (nBits block) Hbits) as (w & Ew & [Lw Ww] & _).
  cbn [new_index bi_nBits bi_nStatus bi_nHeight fst fmap option_fmap option_map]. rewrite Ew, RaiseValidity_new.
  assert (Hskip : BuildSkip m (Some p) None (0 + 1) = Some (Some p)).
  { unfold BuildSkip, GetAncestor. rewrite Hb0, Hh. change (GetSkipHeight (0 + 1)) with 0.
    change ((1 <? 0) || (0 <? 0)) with false. change (Z.to_nat 1) with 1%nat. cbn [walk].
    change (0 <? 1) with true. cbv iota. rewrite Hb0, Hs, Hp. reflexivity. }
  rewrite Hskip. cbn [ComputeStakeModifier]. rewrite Hb0. destruct (of_u64_spec 0 ltac:(done)) as [_ [Lz Wz]].
  change (BaseUint.of_u64 WIDTH 0) with (BaseUint.zero WIDTH) in Lz, Wz.
  destruct (op_add_spec (BaseUint.zero WIDTH) w Wz Ww ltac:(lia)) as (_ & Wa & La).
  eexists. split; [reflexivity|]. cbn [bi_nChainWork bi_pprev bi_pskip bi_nHeight new_index]. split_and!; [split; [lia|done]|done..].
Qed.

(** A header that names itself as its previous block, were there one, would get an
    entry at height 1 that is its own parent; the tree invariant is for the
    others. *)
Lemma AddToBlockIndex_self cs block :
  index_ok cs -> is_u32 (nBits block) -> hashPrevBlock block = Header_GetHash block ->
  mapBlockIndex cs !! Header_GetHash block = None ->
  exists cs' b, AddToBlockIndex cs block = Some (length (mem cs), cs') /\ mem cs' = mem cs ++ [b]
    /\ bi_pprev b = Some (length (mem cs)) /\ bi_pskip b = Some (length (mem cs)) /\ bi_nHeight b = 1.
Proof.
  intros H Hbits Hself E. unfold AddToBlockIndex. rewrite E. unfold find_prev.
  rewrite Hself, lookup_insert_eq, bool_decide_true by done.
  edestruct (linked_self (mem cs ++ [with_link (new_index block) (Header_GetHash block) (Some (length (mem cs)))
    (bi_nHeight (new_index block) + 1)]) (length (mem cs))) as (b & -> & Hw & Hb); [by apply list_lookup_middle|done..|].
  destruct (grow_best cs b H Hw) as (best & -> & _). by eexists _, b.
Qed.

(** ** Reachable states *)

Definition init_state : CChainState := mkChainState [] ∅ ∅ None ∅.

(** Headers arrive in any order and the tip moves to any known entry. *)
Inductive reach : CChainState -> CChain -> Prop :=
| reach_init : reach init_state []
| reach_add cs v block p cs' :
    reach cs v -> is_u32 (nBits block) -> hashPrevBlock block <> Header_GetHash block ->
    AddToBlockIndex cs block = Some (p, cs') -> reach cs' v
| reach_tip cs v p b v' :
    reach cs v -> mem cs !! p = Some b -> SetTip (mem cs) v (Some p) = Some v' -> reach cs v'
| reach_clear cs v v' : reach cs v -> SetTip (mem cs) v None = Some v' -> reach cs v'.

Lemma reach_ok cs v : reach cs v -> index_ok cs /\ chain_ok (mem cs) v.
Proof.
  induction 1 as [|cs v block p cs' _ [IH IHv] Hb Hself E|cs v p b v' _ [IH IHv] Hp E|cs v v' _ [IH _] E].
  - split; [|by left]. split; cbn; try done. intros h p. split; [done|]. by intros (b & ? & _).
  - destruct (AddToBlockIndex_ok cs block IH Hb Hself) as (p' & cs'' & E' & Hok & _ & Hgrow).
    rewrite E in E'. injection E' as <- <-. split; [done|].
    destruct Hgrow as [->|(b & ->)]; [done|]. apply grow_chain_ok; [apply IH|done].
  - split; [done|]. rewrite (SetTip_branch (mem cs) (ix_tree cs IH) v p b Hp IHv) in E.
    injection E as <-. right. by exists p, b.
  - split; [done|]. injection E as <-. by left.
Qed.

(** ** Locators *)
Section Locator.
Variables (m : memory) (v : CChain).
Hypothesis (Hm : tree_ok m) (Hv : closed m v).

(** The next block of a locator, from the chain or by the skip list. *)
Lemma locator_next p b h :
  m !! p = Some b -> 0 <= h <= bi_nHeight b ->
  exists q bq,
    (if bool_decide (chain_at v (bi_nHeight b) = Some p) then Some (chain_at v h) else GetAncestor m p h)
    = Some (Some q) /\ m !! q = Some bq /\ bi_nHeight bq = h /\ ancestor m q p.
Proof.
  intros Hp Hh. destruct (GetAncestor_at m Hm p b h Hp Hh) as (q & bq & E & Hq & Eh & Eb).
  exists q, bq. split_and!; [|done|done|by eexists].
  case_bool_decide as Hc; [|done]. f_equal.
  rewrite <- (Z2Nat.id (bi_nHeight b)) in Hc by lia. apply chain_at_lookup in Hc.
  destruct (Hv _ _ Hc) as (bp & _ & _ & Hall). rewrite <- (Z2Nat.id h) by lia.
  apply chain_at_lookup. rewrite Hall by lia. f_equal.
  by replace (Z.to_nat (bi_nHeight b) - Z.to_nat h)%nat with (Z.to_nat (bi_nHeight b - h)) by lia.
Qed.

(** A list of hashes that leads from an entry back to its root. *)
Inductive leads_back : nat -> list (list Z) -> Prop :=
| leads_root p b : m !! p = Some b -> bi_nHeight b = 0 -> leads_back p [bi_hash b]
| leads_step p b q l : m !! p = Some b -> ancestor m q p -> leads_back q l -> leads_back p (bi_hash b :: l).

(** Once the steps double, each hash is worth a power of two of the height. *)
Lemma locator_loop_spec fuel H : forall p b nStep nHave,
  m !! p = Some b -> bi_nHeight b < Z.of_nat fuel -> 1 <= nStep ->
  bi_nHeight b = 0 \/ bi_nHeight b + nStep <= H + 1 ->
  Z.of_nat nHave <= 11 + Z.log2 (H + 1) -> ((nHave <= 10)%nat -> nStep = 1) ->
  ((10 <= nHave)%nat -> nStep = 2 ^ (Z.of_nat nHave - 10)) ->
  exists l, locator_loop fuel m v nStep nHave (Some p) = Some l /\ leads_back p l
    /\ Z.of_nat (nHave + length l) <= 12 + Z.log2 (H + 1).
Proof.
  induction fuel as [|fuel IH]; intros p b nStep nHave Hp Hf Hs Hh Hn Hsmall Hbig;
    pose proof (height_nonneg m Hm p b Hp) as H0; [lia|].
  cbn [locator_loop]. rewrite Hp. destruct (Z.eqb_spec (bi_nHeight b) 0) as [Ez|Ez].
  { eexists. split_and!; [done|by apply leads_root|]. cbn [length]. lia. }
  destruct Hh as [Hh|Hh]; [lia|].
  destruct (locator_next p b (Z.max (bi_nHeight b - nStep) 0) Hp ltac:(lia)) as (q & bq & -> & Hq & Eq & Ha).
  set (nStep' := if (10 <? S nHave)%nat then nStep * 2 else nStep).
  assert (Hs' : nStep' = nStep * 2 /\ (10 <= nHave)%nat \/ nStep' = 1 /\ nStep = 1 /\ (nHave < 10)%nat).
  { unfold nStep'. destruct (Nat.ltb_spec 10 (S nHave)); [left; split; [done|lia]|right]. rewrite Hsmall by lia. lia. }
  destruct (IH q bq nStep' (S nHave) Hq) as (l & -> & Hl & Hlen); try lia.
  - pose proof (Z.log2_nonneg (H + 1)). destruct (decide (10 <= nHave)%nat) as [Hc|Hc]; [|lia].
    rewrite (Hbig Hc) in Hh. assert (Z.of_nat nHave - 10 <= Z.log2 (H + 1)); [|lia].
    apply Z.log2_le_pow2; lia.
  - intros Hc. destruct Hs' as [[E Hge]|(E & E1 & Hlt)].
    + rewrite E, (Hbig Hge). replace (Z.of_nat (S nHave) - 10) with (Z.succ (Z.of_nat nHave - 10)) by lia.
      rewrite Z.pow_succ_r by lia. lia.
    + rewrite E. by replace (Z.of_nat (S nHave) - 10) with 0 by lia.
  - eexists. split_and!; [done|by eapply leads_step|]. cbn [length]. lia.
Qed.

Lemma GetLocator_spec p b : m !! p = Some b ->
  exists l, GetLocator m v (Some p) = Some l /\ leads_back p l
    /\ Z.of_nat (length l) <= 12 + Z.log2 (bi_nHeight b + 1).
Proof.
  intros Hp. unfold GetLocator. rewrite Hp. pose proof (height_nonneg m Hm p b Hp).
  pose proof (Z.log2_nonneg (bi_nHeight b + 1)).
  apply (locator_loop_spec _ (bi_nHeight b) p b 1 0 Hp); lia.
Qed.
End Locator.

(** ** Answering a locator *)
Section Answer.
Variables (m : memory) (v : CChain).
Hypothesis (Hm : tree_ok m) (Hv : chain_ok m v).

(** The root of an entry's branch. *)
Lemma root_of p b : m !! p = Some b ->
  exists r br, back m (Z.to_nat (bi_nHeight b)) p = Some r /\ m !! r = Some br /\ bi_nHeight br = 0.
Proof.
  intros Hp. pose proof (height_nonneg m Hm p b Hp).
  destruct (back_height m Hm (Z.to_nat (bi_nHeight b)) p b Hp ltac:(lia)) as (r & br & E & Hr & Eh).
  exists r, br. split_and!; [done..|lia].
Qed.

Lemma root_ancestor p b q bq r :
  m !! p = Some b -> m !! q = Some bq -> ancestor m q p ->
  back m (Z.to_nat (bi_nHeight b)) p = Some r -> back m (Z.to_nat (bi_nHeight bq)) q = Some r.
Proof.
  intros Hp Hq Ha Hr. destruct (ancestor_valid m Hm q p b Hp Ha) as (n & bq' & En & Hq' & Eh & Hn).
  rewrite Hq in Hq'. injection Hq' as <-. pose proof (height_nonneg m Hm q bq Hq).
  replace (Z.to_nat (bi_nHeight b)) with (n + Z.to_nat (bi_nHeight bq))%nat in Hr by lia.
  by rewrite back_add, En in Hr.
Qed.

(** A branch that meets the chain shares its root. *)
Lemma chain_root p b x r :
  m !! p = Some b -> on_chain m v x -> ancestor m x p ->
  back m (Z.to_nat (bi_nHeight b)) p = Some r -> on_chain m v r.
Proof.
  intros Hp (bx & Hx & Hc) Ha Hr. pose proof (height_nonneg m Hm x bx Hx).
  pose proof (root_ancestor p b x bx r Hp Hx Ha Hr) as Hr'.
  rewrite <- (Z2Nat.id (bi_nHeight bx)) in Hc by lia. apply chain_at_lookup in Hc.
  destruct (chain_closed m Hm v Hv _ _ Hc) as (_ & _ & _ & Hall). specialize (Hall 0%nat ltac:(lia)).
  rewrite Nat.sub_0_r, Hr' in Hall.
  destruct (root_of x bx Hx) as (r' & br & E & Hr0 & E0). rewrite Hr' in E. injection E as <-.
  exists br. split; [done|]. rewrite E0. by apply (chain_at_lookup v 0).
Qed.

Lemma no_fork_below p b q : m !! p = Some b -> ancestor m q p -> is_fork m v q None -> is_fork m v p None.
Proof.
  intros Hp Hq Hn x Hx Ha. destruct (root_of p b Hp) as (r & br & Er & _ & _).
  destruct (ancestor_valid m Hm q p b Hp Hq) as (_ & bq & _ & Hbq & _).
  apply (Hn r); [exact (chain_root p b x r Hp Hx Ha Er)|].
  eexists. exact (root_ancestor p b q bq r Hp Hbq Hq Er).
Qed.

Lemma no_fork_root p b : m !! p = Some b -> bi_nHeight b = 0 -> ~ on_chain m v p -> is_fork m v p None.
Proof.
  intros Hp E Hn x Hx Ha. apply Hn. apply (chain_root p b x p Hp Hx Ha). by rewrite E.
Qed.

Lemma Tip_branch t bt : m !! t = Some bt -> v = branch m t -> Tip v = Some t /\ Height v = bi_nHeight bt
  /\ on_chain m v t.
Proof.
  intros Ht E. pose proof (height_nonneg m Hm t bt Ht) as H0. pose proof (branch_length m t bt Ht) as Hl.
  rewrite <- E in Hl. unfold Tip, Height. rewrite Hl.
  assert (Hat : chain_at v (bi_nHeight bt) = Some t).
  { rewrite <- (Z2Nat.id (bi_nHeight bt)) by lia. apply chain_at_lookup. rewrite E, (branch_lookup m t bt) by (done || lia).
    by rewrite Nat.sub_diag. }
  destruct (Z.ltb_spec 0 (Z.of_nat (S (Z.to_nat (bi_nHeight bt))))); [|lia].
  replace (Z.of_nat (S (Z.to_nat (bi_nHeight bt))) - 1) with (bi_nHeight bt) by lia.
  split_and!; [done..|by exists bt].
Qed.

Lemma Genesis_branch t bt : m !! t = Some bt -> v = branch m t -> exists g, Genesis v = Some g /\ on_chain m v g.
Proof.
  intros Ht E. destruct (Tip_branch t bt Ht E) as (_ & Hh & Hon).
  destruct (root_of t bt Ht) as (r & br & Er & Hr & E0).
  pose proof (chain_root t bt t r Ht Hon (ancestor_refl m t) Er) as Hon'. exists r. split; [|done].
  destruct Hon' as (br' & Hr' & Hc). rewrite Hr in Hr'. injection Hr' as <-. rewrite E0 in Hc.
  unfold Genesis. pose proof (branch_length m t bt Ht) as Hl. rewrite <- E in Hl. by rewrite Hl.
Qed.
End Answer.

(** What the receiver of a locator answers: a block of its chain that the
    sender's block descends from, where there is one. *)
Lemma FindForkInGlobalIndex_spec cs v p l :
  index_ok cs -> chain_ok (mem cs) v -> leads_back (mem cs) p l ->
  exists r, FindForkInGlobalIndex cs v l = Some r
    /\ match r with
       | Some q => on_chain (mem cs) v q /\ (ancestor (mem cs) q p \/ is_fork (mem cs) v p None)
       | None => v = []
       end.
Proof.
  intros Hi Hv Hl. pose proof (ix_tree cs Hi) as Hm.
  destruct Hv as [->|(t & bt & Ht & E)].
  { exists None. split; [|done].
    assert (Hp : exists b l', mem cs !! p = Some b /\ l = bi_hash b :: l') by (destruct Hl; eauto).
    destruct Hp as (b & l' & Hp & ->). cbn [FindForkInGlobalIndex]. unfold LookupBlockIndex.
    rewrite (proj2 (ix_map cs Hi (bi_hash b) p)) by eauto. unfold Contains. rewrite Hp.
    rewrite bool_decide_eq_false_2 by (unfold chain_at; cbn; destruct (_ || _); done).
    rewrite (GetAncestor_back _ Hm p b _ Hp). cbn. done. }
  assert (Hv : chain_ok (mem cs) v) by (right; by exists t, bt).
  destruct (Tip_branch _ _ Hm t bt Ht E) as (Htip & Hh & Hont).
  destruct (Genesis_branch _ _ Hm Hv t bt Ht E) as (g & Hg & Hong).
  assert (Hstep : forall p b l', mem cs !! p = Some b ->
    FindForkInGlobalIndex cs v (bi_hash b :: l') = FindForkInGlobalIndex cs v l' /\ ~ on_chain (mem cs) v p
    \/ exists q, FindForkInGlobalIndex cs v (bi_hash b :: l') = Some (Some q)
         /\ on_chain (mem cs) v q /\ ancestor (mem cs) q p).
  { clear -Hi Hm Hv Htip Hh Hont. intros p b l' Hp. cbn [FindForkInGlobalIndex]. unfold LookupBlockIndex.
    rewrite (proj2 (ix_map cs Hi (bi_hash b) p)) by eauto. unfold Contains. rewrite Hp.
    case_bool_decide as Hc.
    { right. exists p. split_and!; [done|by exists b|apply ancestor_refl]. }
    assert (Hn : ~ on_chain (mem cs) v p) by (intros (b' & Hb' & Hc'); congruence).
    rewrite (GetAncestor_back _ Hm p b _ Hp), Htip. case_bool_decide as Hd; [|by left].
    right. exists t. split_and!; [done..|]. destruct (_ && _); [by eexists|done]. }
  induction Hl as [p b Hp E0|p b q l Hp Ha Hl IH].
  - destruct (Hstep p b [] Hp) as [[-> Hn]|(q & -> & H1 & H2)]; [|exists (Some q); auto].
    cbn [FindForkInGlobalIndex]. rewrite Hg. exists (Some g). split_and!; [done..|right].
    exact (no_fork_root _ _ Hm Hv p b Hp E0 Hn).
  - destruct (Hstep p b l Hp) as [[-> Hn]|(q' & -> & H1 & H2)]; [|exists (Some q'); auto].
    destruct IH as (r & -> & Hr). exists r. split; [done|]. destruct r as [x|]; [|done].
    destruct Hr as [H1 [H2|H2]]; (split; [done|]).
    + left. exact (ancestor_trans _ _ _ _ H2 Ha).
    + right. exact (no_fork_below _ _ Hm Hv p b q Hp Ha H2).
Qed.

(** ** The median of past block times *)

(** How many elements are at least [x]. *)
Definition count_ge (x : Z) (l : list Z) : nat := length (filter (fun y => x <= y) l).

Lemma count_ge_app x l k : count_ge x (l ++ k) = (count_ge x l + count_ge x k)%nat.
Proof. unfold count_ge. by rewrite filter_app, length_app. Qed.

Lemma count_ge_le x l : (count_ge x l <= length l)%nat.
Proof. unfold count_ge. apply length_filter. Qed.

Lemma count_ge_perm x l k : l ≡ₚ k -> count_ge x l = count_ge x k.
Proof. intros H. unfold count_ge. by rewrite H. Qed.

(** From position [k] on a sorted list is at least its element there ... *)
Lemma sorted_count s : StronglySorted Z.le s -> forall k, (k < length s)%nat ->
  (length s - k <= count_ge (nth k s 0%Z) s)%nat.
Proof.
  induction 1 as [|y s Hs IH Hy]; intros k Hk; cbn [length] in *; [lia|].
  unfold count_ge. destruct k as [|k]; cbn [nth].
  - rewrite filter_cons_True by lia. cbn [length].
    assert (E : filter (fun z => y <= z) s = s).
    { clear -Hy. induction Hy as [|z s Hz _ IH]; [done|]. by rewrite filter_cons_True, IH by done. }
    rewrite E. lia.
  - specialize (IH k ltac:(lia)). unfold count_ge in IH.
    destruct (decide (nth k s 0 <= y)); [rewrite filter_cons_True by done|rewrite filter_cons_False by done];
      cbn [length]; lia.
Qed.

(** ... and an element with enough others above [x] is above [x] itself. *)
Lemma sorted_count_inv s x : StronglySorted Z.le s -> forall k, (k < length s)%nat ->
  (length s - k <= count_ge x s)%nat -> x <= nth k s 0.
Proof.
  induction 1 as [|y s Hs IH Hy]; intros k Hk Hc; cbn [length] in *; [lia|].
  unfold count_ge in *. destruct (decide (x <= y)) as [Hxy|Hxy].
  - destruct k as [|k]; cbn [nth]; [done|].
    assert (Hn : In (nth k s 0) s) by (apply nth_In; lia). apply list_elem_of_In in Hn.
    rewrite Forall_forall in Hy. specialize (Hy _ Hn). lia.
  - rewrite filter_cons_False in Hc by done.
    destruct k as [|k]; cbn [nth]; [|apply IH; lia].
    pose proof (count_ge_le x s). unfold count_ge in *. lia.
Qed.

(** Dropping the oldest time and adding one above the median does not lower it. *)
Lemma median_push l l' t :
  (0 < length l)%nat -> (l = l' \/ exists x, l = x :: l') ->
  median l < t -> median l <= median (l' ++ [t]).
Proof.
  intros Hl Hcase Ht. unfold median in *.
  assert (Hsort : forall k, StronglySorted Z.le (merge_sort Z.le k)) by (intros; apply (StronglySorted_merge_sort _)).
  assert (Hperm : forall k, merge_sort Z.le k ≡ₚ k) by (intros; apply merge_sort_Permutation).
  assert (Hlen : forall k, length (merge_sort Z.le k) = length k) by (intros; by rewrite (Hperm k)).
  set (md := nth (length l / 2) (merge_sort Z.le l) 0) in *.
  assert (Hhalf : forall k, (0 < k)%nat -> (k / 2 < k)%nat) by (intros; apply Nat.div_lt; lia).
  assert (Hc : (length l - length l / 2 <= count_ge md l)%nat).
  { pose proof (sorted_count _ (Hsort l) (length l / 2)) as H. rewrite Hlen in H.
    rewrite (count_ge_perm _ _ _ (Hperm l)) in H. apply H, Hhalf, Hl. }
  assert (Hnew : count_ge md (l' ++ [t]) = S (count_ge md l')).
  { rewrite count_ge_app. unfold count_ge at 2. rewrite filter_cons_True by lia. cbn. lia. }
  apply sorted_count_inv; [apply Hsort|rewrite Hlen, length_app; cbn; apply Hhalf; lia|].
  rewrite Hlen, (count_ge_perm _ _ _ (Hperm _)), Hnew, length_app. cbn [length].
  destruct Hcase as [<-|(x & ->)].
  - pose proof (Nat.Div0.div_mod (length l) 2). pose proof (Nat.Div0.div_mod (length l + 1) 2).
    pose proof (Nat.mod_upper_bound (length l) 2). pose proof (Nat.mod_upper_bound (length l + 1) 2). lia.
  - cbn [length] in *. replace (length l' + 1)%nat with (S (length l')) by lia.
    change (x :: l') with ([x] ++ l') in Hc. rewrite count_ge_app in Hc.
    pose proof (count_ge_le md [x]) as H1. cbn [length] in H1. lia.
Qed.

Lemma median_times_step n m p b : m !! p = Some b ->
  median_times (S n) m (Some p) =
  match median_times n m (bi_pprev b) with Some l => Some (l ++ [GetBlockTime b]) | None => None end.
Proof. intros H. cbn [median_times]. by rewrite H. Qed.

(** The window of an entry is its parent's, moved on by one. *)
Lemma median_times_S n m : forall po l, median_times (S n) m po = Some l ->
  exists l', median_times n m po = Some l' /\ (l = l' \/ exists x, l = x :: l').
Proof.
  induction n as [|n IH]; intros po l.
  - cbn. destruct po as [p|]; [|intros [= <-]; by exists []; auto].
    destruct (m !! p) as [b|]; [|done]. intros [= <-]. exists []. split; [done|]. right. by exists (GetBlockTime b).
  - destruct po as [p|]; [|intros [= <-]; exists []; auto].
    destruct (m !! p) as [b|] eqn:Eb; [|cbn [median_times]; by rewrite Eb].
    rewrite !(median_times_step _ _ _ _ Eb).
    destruct (median_times (S n) m (bi_pprev b)) as [l1|] eqn:E; [|done].
    destruct (IH _ _ E) as (l2 & -> & Hl). intros [= <-].
    exists (l2 ++ [GetBlockTime b]). split; [done|].
    destruct Hl as [->|(x & ->)]; [by left|right; by exists x].
Qed.

Section MedianTime.
Variable m : memory.
Hypothesis Hm : tree_ok m.

Lemma median_times_total n : forall p b, m !! p = Some b -> exists l, median_times n m (Some p) = Some l
  /\ ((0 < n)%nat -> (0 < length l)%nat).
Proof.
  induction n as [|n IH]; intros p b Hp; [exists []; split; [done|lia]|]. cbn [median_times]. rewrite Hp.
  destruct (Hm p b Hp) as (_ & Hq & _). destruct (bi_pprev b) as [q|].
  - destruct Hq as (bq & Hq & _). destruct (IH q bq Hq) as (l & -> & _). eexists. split; [done|].
    intros _. rewrite length_app. cbn. lia.
  - replace (median_times n m None) with (Some (A := list Z) []) by by destruct n.
    eexists. split; [done|]. intros _. cbn. lia.
Qed.

Lemma GetMedianTimePast_total p b : m !! p = Some b -> exists t, GetMedianTimePast m p = Some t.
Proof.
  intros Hp. unfold GetMedianTimePast.
  destruct (median_times_total nMedianTimeSpan p b Hp) as (l & -> & _). by eexists.
Qed.

(** A block whose time is above its parent's median has no lower median. *)
Lemma median_step p b q tq tp :
  m !! p = Some b -> bi_pprev b = Some q ->
  GetMedianTimePast m q = Some tq -> GetMedianTimePast m p = Some tp ->
  tq < GetBlockTime b -> tq <= tp.
Proof.
  intros Hp Hq Eq Ep Ht. unfold GetMedianTimePast, nMedianTimeSpan in *.
  destruct (Hm p b Hp) as (_ & Hprev & _). rewrite Hq in Hprev. destruct Hprev as (bq & Hbq & _).
  destruct (median_times 11 m (Some q)) as [l|] eqn:El; [|done].
  destruct (median_times_S _ _ _ _ El) as (l' & El' & Hl).
  destruct (median_times_total 11 q bq Hbq) as (l2 & El2 & Hpos). rewrite El in El2. injection El2 as <-.
  rewrite (median_times_step _ _ _ _ Hp), Hq, El' in Ep. apply Some_inj in Eq, Ep. subst tq tp.
  apply median_push; [apply Hpos; lia|done|done].
Qed.

(** The rule on block times, for an entry with a parent. *)
Definition time_rule (p : nat) : Prop :=
  forall b q t, m !! p = Some b -> bi_pprev b = Some q -> GetMedianTimePast m q = Some t -> t < GetBlockTime b.

Lemma median_ancestor n : forall p b q tq tp,
  m !! p = Some b -> back m n p = Some q ->
  (forall j x, (j < n)%nat -> back m j p = Some x -> time_rule x) ->
  GetMedianTimePast m q = Some tq -> GetMedianTimePast m p = Some tp -> tq <= tp.
Proof.
  induction n as [|n IH]; intros p b q tq tp Hp Hb Hr Eq Ep.
  { cbn in Hb. injection Hb as <-. rewrite Eq in Ep. apply Some_inj in Ep. lia. }
  cbn [back] in Hb. rewrite Hp in Hb. cbn in Hb.
  destruct (Hm p b Hp) as (_ & Hprev & _). destruct (bi_pprev b) as [r|] eqn:Er; [|done].
  destruct Hprev as (br & Hbr & _). cbn in Hb.
  destruct (GetMedianTimePast_total r br Hbr) as (tr & Etr).
  assert (tr <= tp) by exact (median_step p b r tr tp Hp Er Etr Ep (Hr 0%nat p ltac:(lia) eq_refl b r tr Hp Er Etr)).
  assert (tq <= tr); [|lia]. apply (IH r br q tq tr Hbr Hb); [|done..].
  intros j x Hj Hx. apply (Hr (S j) x); [lia|]. cbn [back]. rewrite Hp. cbn. by rewrite Er.
Qed.
End MedianTime.

(** ** The earliest block at or after a time *)

(** On a vector that [below] splits in two, [lower_bound] finds the split. *)
Lemma lower_bound_spec {A : Type} (below : A -> bool) (v : list A) :
  (forall i j x y, (i <= j)%nat -> v !! i = Some x -> v !! j = Some y -> below y = true -> below x = true) ->
  forall fuel first len, (len <= fuel)%nat -> (first + len <= length v)%nat ->
  (forall i x, (i < first)%nat -> v !! i = Some x -> below x = true) ->
  (forall i x, (first + len <= i)%nat -> v !! i = Some x -> below x = false) ->
  (lower_bound below v fuel first len <= length v)%nat
  /\ (forall i x, (i < lower_bound below v fuel first len)%nat -> v !! i = Some x -> below x = true)
  /\ (forall i x, (lower_bound below v fuel first len <= i)%nat -> v !! i = Some x -> below x = false).
Proof.
  intros Hmono. induction fuel as [|fuel IH]; intros first len Hf Hl Hlo Hhi.
  { replace len with 0%nat in * by lia. cbn. rewrite Nat.add_0_r in *. auto. }
  destruct len as [|len]; [cbn; rewrite Nat.add_0_r in *; auto|].
  cbn [lower_bound]. remember (S len) as n. pose proof (Nat.div2_div n) as Ed.
  assert (Hh : (Nat.div2 n < n)%nat) by (rewrite Ed; apply Nat.div_lt; lia).
  destruct (lookup_lt_is_Some_2 v (first + Nat.div2 n) ltac:(lia)) as [x Hx]. rewrite Hx.
  destruct (below x) eqn:Eb.
  - apply IH; [lia|lia| |].
    + intros i y Hi Hy. apply (Hmono i (first + Nat.div2 n)%nat y x); [lia|done..].
    + intros i y Hi Hy. apply (Hhi i y); [lia|done].
  - apply IH; [lia|lia|done|]. intros i y Hi Hy. destruct (below y) eqn:Ey; [|done].
    rewrite (Hmono (first + Nat.div2 n)%nat i x y) in Eb by (done || lia). done.
Qed.

Lemma timemax_mono cs : index_ok cs -> forall n p b q bq,
  mem cs !! p = Some b -> back (mem cs) n p = Some q -> mem cs !! q = Some bq ->
  bi_nTimeMax bq <= bi_nTimeMax b.
Proof.
  intros Hi. induction n as [|n IH]; intros p b q bq Hp Hb Hq; cbn [back] in Hb.
  { injection Hb as <-. assert (b = bq) as -> by congruence. lia. }
  rewrite Hp in Hb. cbn in Hb. destruct (ix_linked cs Hi p b Hp) as (_ & _ & Hl).
  destruct (bi_pprev b) as [r|]; [|done]. destruct Hl as (br & Hr & _ & Ht & _).
  pose proof (IH r br q bq Hr Hb Hq). lia.
Qed.

Lemma FindEarliestAtLeast_spec cs v t :
  index_ok cs -> chain_ok (mem cs) v ->
  match FindEarliestAtLeast (mem cs) v t with
  | Some q => exists bq, mem cs !! q = Some bq /\ on_chain (mem cs) v q /\ t <= bi_nTimeMax bq
      /\ forall x bx, on_chain (mem cs) v x -> mem cs !! x = Some bx -> bi_nHeight bx < bi_nHeight bq -> bi_nTimeMax bx < t
  | None => forall x bx, on_chain (mem cs) v x -> mem cs !! x = Some bx -> bi_nTimeMax bx < t
  end.
Proof.
  intros Hi Hv. pose proof (ix_tree cs Hi) as Hm. pose proof (chain_closed _ Hm v Hv) as Hcl.
  assert (Hall : forall i y, v !! i = Some y -> exists q, y = Some q).
  { destruct Hv as [->|(t0 & bt & Ht & ->)]; [done|]. intros i y Hy.
    pose proof (lookup_lt_Some _ _ _ Hy) as Hlt. rewrite (branch_length _ t0 bt Ht) in Hlt.
    pose proof (height_nonneg _ Hm t0 bt Ht).
    rewrite (branch_lookup _ t0 bt i Ht) in Hy by lia. injection Hy as <-.
    destruct (back_height _ Hm (Z.to_nat (bi_nHeight bt) - i) t0 bt Ht ltac:(lia)) as (q & _ & E & _). by exists q. }
  unfold FindEarliestAtLeast.
  set (before := fun p : option nat => match p with Some p => match mem cs !! p with Some b => GetBlockTimeMax b <? t | None => false end | None => false end).
  destruct (lower_bound_spec before v) with (fuel := length v) (first := 0%nat) (len := length v)
    as (Hle & Hlo & Hhi); [|lia|lia|lia|intros i x Hx Hl; apply lookup_lt_Some in Hl; lia|].
  { intros i j x y Hij Hx Hy. destruct (Hall i x Hx) as [p ->], (Hall j y Hy) as [q ->].
    destruct (Hcl j q Hy) as (bq & Hq & _ & Hback). specialize (Hback i Hij). rewrite Hx in Hback.
    destruct (Hcl i p Hx) as (bp & Hp & _). unfold before. rewrite Hq, Hp. unfold GetBlockTimeMax.
    injection Hback as Hback. symmetry in Hback.
    pose proof (timemax_mono cs Hi _ q bq p bp Hq Hback Hp). rewrite !Z.ltb_lt. lia. }
  assert (Hat : forall x bx, on_chain (mem cs) v x -> mem cs !! x = Some bx ->
    v !! Z.to_nat (bi_nHeight bx) = Some (Some x)).
  { intros x bx (bx' & Hx' & Hc) Hx. assert (bx' = bx) as -> by congruence.
    pose proof (height_nonneg _ Hm x bx Hx). apply chain_at_lookup. by rewrite Z2Nat.id by lia. }
  destruct (v !! lower_bound before v (length v) 0 (length v)) as [y|] eqn:Ey.
  - destruct (Hall _ _ Ey) as [q ->]. destruct (Hcl _ _ Ey) as (bq & Hq & Eh & _).
    exists bq. split_and!; [done| | |].
    + exists bq. split; [done|]. rewrite Eh. by apply chain_at_lookup.
    + pose proof (Hhi _ _ (le_n _) Ey) as H. unfold before in H. rewrite Hq in H. apply Z.ltb_ge in H. done.
    + intros x bx Hx Hbx Hlt. pose proof (height_nonneg _ Hm x bx Hbx).
      pose proof (Hlo (Z.to_nat (bi_nHeight bx)) (Some x) ltac:(lia) (Hat x bx Hx Hbx)) as H'.
      unfold before in H'. rewrite Hbx in H'. by apply Z.ltb_lt in H'.
  - intros x bx Hx Hbx. apply lookup_ge_None_1 in Ey. pose proof (Hat x bx Hx Hbx) as Hl.
    pose proof (lookup_lt_Some _ _ _ Hl) as Hlt.
    pose proof (Hlo (Z.to_nat (bi_nHeight bx)) (Some x) ltac:(lia) Hl) as H'. unfold before in H'. rewrite Hbx in H'. by apply Z.ltb_lt in H'.
Qed.

(** ** Properties *)

(** C9: whatever headers arrive, none of which names its own hash as its parent,
    and wherever the tip is moved, adding a header and setting a tip always return, and keep the index and the chain
    well-formed: heights, skip pointers, chain work, maximal times and hashes
    agree with the parent's, the map is a bijection with the entries, the best
    header is a heaviest one, and the chain is exactly the branch of its tip. *)
Theorem block_tree_invariant cs v : reach cs v ->
  index_ok cs /\ chain_ok (mem cs) v
  /\ (forall block, is_u32 (nBits block) -> hashPrevBlock block <> Header_GetHash block ->
        exists p cs', AddToBlockIndex cs block = Some (p, cs')
          /\ mapBlockIndex cs' !! Header_GetHash block = Some p)
  /\ (forall p b, mem cs !! p = Some b -> SetTip (mem cs) v (Some p) = Some (branch (mem cs) p)).
Proof.
  intros H. destruct (reach_ok cs v H) as [Hi Hv]. split_and!; [done..| |].
  - intros block Hb Hself. destruct (AddToBlockIndex_ok cs block Hi Hb Hself) as (p & cs' & E & _ & Hp & _).
    by exists p, cs'.
  - intros p b Hp. by apply (SetTip_branch _ (ix_tree cs Hi) v p b).
Qed.

(** C28: [GetAncestor], which follows skip pointers, always returns and finds
    exactly the entry that following [pprev] one block at a time finds, and
    [nullptr] outside the heights of the branch. *)
Theorem get_ancestor_equiv cs v p b height : reach cs v -> mem cs !! p = Some b ->
  GetAncestor (mem cs) p height =
  Some (if (0 <=? height) && (height <=? bi_nHeight b)
        then back (mem cs) (Z.to_nat (bi_nHeight b - height)) p else None).
Proof. intros H. apply GetAncestor_back. apply ix_tree, (reach_ok cs v H). Qed.

(** C31: [FindFork] returns the last block that the active chain and the branch
    of an entry share, [LastCommonAncestor] the last common ancestor of two
    entries; its final assertion never fails. *)
Theorem fork_points cs v p bp q bq : reach cs v -> mem cs !! p = Some bp -> mem cs !! q = Some bq ->
  (exists r, FindFork (mem cs) v (Some p) = Some r /\ is_fork (mem cs) v p r)
  /\ (exists r, LastCommonAncestor (mem cs) p q = Some r /\ is_common (mem cs) p q r).
Proof.
  intros H Hp Hq. pose proof (ix_tree cs (proj1 (reach_ok cs v H))) as Hm. split.
  - by apply (FindFork_fork _ Hm v p bp).
  - by apply (LastCommonAncestor_common _ Hm p q bp bq).
Qed.

(** C32: a locator has at most [12 + log2 (height + 1)] hashes, starts at its
    block and ends at the root; a node that knows the block answers it with a
    block of its own chain that is an ancestor of the locator's block, unless
    the two share no block at all. *)
Theorem locator_sync cs v p b : reach cs v -> mem cs !! p = Some b ->
  exists l, GetLocator (mem cs) v (Some p) = Some l /\ leads_back (mem cs) p l
    /\ Z.of_nat (length l) <= 12 + Z.log2 (bi_nHeight b + 1)
    /\ forall v', chain_ok (mem cs) v' -> v' <> [] ->
       exists q, FindForkInGlobalIndex cs v' l = Some (Some q) /\ on_chain (mem cs) v' q
         /\ (ancestor (mem cs) q p \/ is_fork (mem cs) v' p None).
Proof.
  intros H Hp. destruct (reach_ok cs v H) as [Hi Hv]. pose proof (ix_tree cs Hi) as Hm.
  destruct (GetLocator_spec (mem cs) v Hm (chain_closed _ Hm v Hv) p b Hp) as (l & E & Hl & Hn).
  exists l. split_and!; [done..|]. intros v' Hv' Hne.
  destruct (FindForkInGlobalIndex_spec cs v' p l Hi Hv' Hl) as ([q|] & Er & Hr); [|done].
  exists q. by destruct Hr.
Qed.

(** C35: where every block of a branch is later than the median of the times
    before it, the median time never goes back along the branch. *)
Theorem median_time_monotone cs v n p b q tq tp : reach cs v ->
  mem cs !! p = Some b -> back (mem cs) n p = Some q ->
  (forall j x, (j < n)%nat -> back (mem cs) j p = Some x -> time_rule (mem cs) x) ->
  GetMedianTimePast (mem cs) q = Some tq -> GetMedianTimePast (mem cs) p = Some tp -> tq <= tp.
Proof. intros H. apply median_ancestor. apply ix_tree, (reach_ok cs v H). Qed.

(** [GetBlockProof] never divides by zero, and its 256-bit expression is
    [2^256 / (target + 1)], or 0 for a target that is negative, zero or too
    large. *)
Theorem block_proof_value nBits : is_u32 nBits ->
  exists w, GetBlockProof nBits = Some w /\ wf256 w
    /\ val w = (let '(bnTarget, fNegative, fOverflow) := SetCompact nBits in
                if fNegative || fOverflow || (val bnTarget =? 0) then 0 else 2 ^ 256 / (val bnTarget + 1)).
Proof. apply GetBlockProof_value. Qed.

(** ** A concrete tree

    A genesis block, two blocks on top of it and a competing first block. *)

Definition demo_header (prev : list Z) (time nonce : Z) : CBlockHeader :=
  mkHeader 536870912 prev (repeat 2 32) time 545259519 nonce (repeat 3 32) (repeat 4 32)
    (mkOutPoint (repeat 0 32) 4294967295) [].

Definition demo_h0 : CBlockHeader := demo_header null256 1600000000 0.
Definition demo_h1 : CBlockHeader := demo_header (Header_GetHash demo_h0) 1600000100 1.
Definition demo_h2 : CBlockHeader := demo_header (Header_GetHash demo_h1) 1600000200 2.
Definition demo_h1' : CBlockHeader := demo_header (Header_GetHash demo_h0) 1600000150 3.

Definition demo_add (cs : CChainState) (block : CBlockHeader) : CChainState :=
  match AddToBlockIndex cs block with Some (_, cs') => cs' | None => cs end.

Definition demo_state : CChainState :=
  demo_add (demo_add (demo_add (demo_add init_state demo_h0) demo_h1) demo_h2) demo_h1'.

Lemma reach_demo_add cs v block :
  reach cs v -> is_u32 (nBits block) -> hashPrevBlock block <> Header_GetHash block -> reach (demo_add cs block) v.
Proof.
  intros H Hb Hself. unfold demo_add.
  destruct (AddToBlockIndex_ok cs block (proj1 (reach_ok cs v H)) Hb Hself) as (p & cs' & E & _). rewrite E.
  by eapply reach_add.
Qed.

Lemma demo_memory :
  bi_pprev <$> mem demo_state = [None; Some 0%nat; Some 1%nat; Some 0%nat]
  /\ bi_nHeight <$> mem demo_state = [0; 1; 2; 1].
Proof. vm_compute. done. Qed.

Lemma demo_reach : reach demo_state [].
Proof.
  unfold demo_state. repeat (apply reach_demo_add; [|by split|]); [apply reach_init|..];
    apply (bool_decide_eq_false_1 _); vm_compute; reflexivity.
Qed.

Lemma demo_lookup p : (p < 4)%nat -> exists b, mem demo_state !! p = Some b.
Proof.
  intros H. apply lookup_lt_is_Some_2. rewrite <- (length_fmap bi_nHeight), (proj2 demo_memory). exact H.
Qed.

(** The chain whose tip is the second block. *)
Lemma demo_chain : reach demo_state [Some 0%nat; Some 1%nat; Some 2%nat].
Proof.
  destruct (demo_lookup 2 ltac:(lia)) as [b Hb]. eapply (reach_tip demo_state []); [apply demo_reach|exact Hb|].
  vm_compute. reflexivity.
Qed.

#[local] Opaque demo_state.

Lemma block_tree_invariant_witness :
  reach demo_state [Some 0%nat; Some 1%nat; Some 2%nat] /\ index_ok demo_state
  /\ exists b, mem demo_state !! 3%nat = Some b
     /\ SetTip (mem demo_state) [Some 0%nat; Some 1%nat; Some 2%nat] (Some 3%nat) = Some (branch (mem demo_state) 3).
Proof.
  destruct (block_tree_invariant _ _ demo_chain) as (Hi & _ & _ & Htip).
  destruct (demo_lookup 3 ltac:(lia)) as [b Hb]. split_and!; [exact demo_chain|exact Hi|].
  exists b. split; [exact Hb|exact (Htip 3%nat b Hb)].
Defined.

Lemma get_ancestor_equiv_witness :
  exists b, mem demo_state !! 2%nat = Some b /\ bi_nHeight b = 2
    /\ GetAncestor (mem demo_state) 2 0
       = Some (if (0 <=? 0) && (0 <=? bi_nHeight b) then back (mem demo_state) (Z.to_nat (bi_nHeight b - 0)) 2 else None).
Proof.
  eexists. split_and!; [vm_compute; reflexivity|reflexivity|].
  apply (get_ancestor_equiv _ _ 2 _ 0 demo_chain). vm_compute. reflexivity.
Defined.

Lemma fork_points_witness :
  exists r, FindFork (mem demo_state) [Some 0%nat; Some 1%nat; Some 2%nat] (Some 3%nat) = Some r
    /\ is_fork (mem demo_state) [Some 0%nat; Some 1%nat; Some 2%nat] 3 r.
Proof.
  destruct (demo_lookup 3 ltac:(lia)) as [b Hb]. destruct (demo_lookup 2 ltac:(lia)) as [b2 Hb2].
  exact (proj1 (fork_points _ _ 3 b 2 b2 demo_chain Hb Hb2)).
Defined.

Lemma locator_sync_witness :
  exists b l, mem demo_state !! 3%nat = Some b
    /\ GetLocator (mem demo_state) [Some 0%nat; Some 1%nat; Some 2%nat] (Some 3%nat) = Some l
    /\ leads_back (mem demo_state) 3 l.
Proof.
  destruct (demo_lookup 3 ltac:(lia)) as [b Hb].
  destruct (locator_sync _ _ 3 b demo_chain Hb) as (l & H1 & H2 & _).
  exists b, l. exact (conj Hb (conj H1 H2)).
Defined.

Lemma demo_times : bi_nTime <$> mem demo_state = [1600000000; 1600000100; 1600000200; 1600000150]
  /\ GetMedianTimePast (mem demo_state) 0 = Some 1600000000
  /\ GetMedianTimePast (mem demo_state) 1 = Some 1600000100.
Proof. vm_compute. done. Qed.

Lemma demo_time_rule : time_rule (mem demo_state) 1.
Proof.
  intros b q t Hb Hq Ht.
  assert (E : (bi_nTime <$> mem demo_state) !! 1%nat = Some (bi_nTime b)) by by rewrite list_lookup_fmap, Hb.
  assert (Ep : (bi_pprev <$> mem demo_state) !! 1%nat = Some (bi_pprev b)) by by rewrite list_lookup_fmap, Hb.
  rewrite (proj1 demo_times) in E. rewrite (proj1 demo_memory), Hq in Ep. cbn in E, Ep.
  injection Ep as <-. rewrite (proj1 (proj2 demo_times)) in Ht. unfold GetBlockTime.
  injection E as <-. injection Ht as <-. reflexivity.
Qed.

Lemma median_time_monotone_witness : 1600000000 <= 1600000100.
Proof.
  destruct (demo_lookup 1 ltac:(lia)) as [b Hb].
  refine (median_time_monotone demo_state [Some 0%nat; Some 1%nat; Some 2%nat] 1 1 b 0
    1600000000 1600000100 demo_chain Hb _ _ (proj1 (proj2 demo_times)) (proj2 (proj2 demo_times))).
  - vm_compute. reflexivity.
  - intros j x Hj Hx. assert (j = 0%nat) as -> by lia. cbn [back] in Hx. injection Hx as <-. exact demo_time_rule.
Defined.

Lemma block_proof_value_witness : is_u32 545259519 /\ exists w, GetBlockProof 545259519 = Some w /\ wf256 w.
Proof.
  assert (H : is_u32 545259519) by by split. split; [exact H|].
  destruct (block_proof_value 545259519 H) as (w & H1 & H2 & _). exists w. exact (conj H1 H2).
Defined.
