(* ===== verification/Params.v ===== *)
(** * Consensus parameters: [src/src/consensus/params.h] and [src/src/chainparams.cpp]

    The record keeps the fields that the modelled code reads; [mainnet] has the
    values the main network gives them. *)
From Stdlib Require Import ZArith Lia Bool List.
From S2P Require Import Prelude.

Record Params : Type := mkParams {
  QIP5Height : Z;
  QIP9Height : Z;
  nReduceBlocktimeHeight : Z;
  nContractOutsHeight : Z;
  nRefundFixHeight : Z;
  nDelegationsGasFixHeight : Z;
  powLimit : list Z;
  posLimit : list Z;
  fPowAllowMinDifficultyBlocks : bool;
  fPowNoRetargeting : bool;
  fPoSNoRetargeting : bool;
  nPowTargetSpacing : Z;
  nRBTPowTargetSpacing : Z;
  nPowTargetTimespan : Z;
  nPowTargetTimespanV2 : Z;
  nRBTPowTargetTimespan : Z;
  nRBTPowTargetTimespanV2 : Z;
  nLastPOWBlock : Z;
  totalCoinsSupply : Z;
  initialCoinsSupply : Z;
  blocksPerYear : Z;
  nRewardFixHeight : Z;
  nRewardOffsetHeight : Z;
  nRewardOffsetAmount : Z;
  nFirstMPoSBlock : Z;
  nLastMPoSBlock : Z;
  nMPoSRewardRecipients : Z;
  nCheckpointSpan : Z;
  nRBTCheckpointSpan : Z;
  delegationsAddress : list Z;
  delegationsAddressGasFix : list Z;
  nStakeTimestampMask : Z;
  nRBTStakeTimestampMask : Z;
  nBlocktimeDownscaleFactor : Z;
  nCoinbaseMaturity : Z;
  nRBTCoinbaseMaturity : Z
}.

Section Methods.
Variable params : Params.

Definition StakeTimestampMask (height : Z) : Z :=
  if height <? nReduceBlocktimeHeight params then nStakeTimestampMask params else nRBTStakeTimestampMask params.

Definition BlocktimeDownscaleFactor (height : Z) : Z :=
  if height <? nReduceBlocktimeHeight params then 1 else nBlocktimeDownscaleFactor params.

Definition TargetSpacing (height : Z) : Z :=
  if height <? nReduceBlocktimeHeight params then nPowTargetSpacing params else nRBTPowTargetSpacing params.

(** The masks are 32-bit, so their successors wrap. *)
Definition TimestampDownscaleFactor (height : Z) : Z :=
  if height <? nReduceBlocktimeHeight params then 1
  else u32 (nStakeTimestampMask params + 1) / u32 (nRBTStakeTimestampMask params + 1).

Definition TargetTimespan (height : Z) (ignore : bool) : Z :=
  if height <? QIP9Height params then nPowTargetTimespan params
  else if (QIP9Height params <=? height) && (height <? nReduceBlocktimeHeight params) then
    if ignore then nPowTargetTimespan params else nPowTargetTimespanV2 params
  else
    if ignore then nRBTPowTargetTimespan params else nRBTPowTargetTimespanV2 params.

(** [/] of C++ truncates. *)
Definition DifficultyAdjustmentInterval (height : Z) (ignore : bool) : Z :=
  Z.quot (TargetTimespan height ignore) (TargetSpacing height).

Definition CheckpointSpan (height : Z) : Z :=
  if height <? nReduceBlocktimeHeight params then nCheckpointSpan params else nRBTCheckpointSpan params.

Definition CoinbaseMaturity (height : Z) : Z :=
  if height <? nReduceBlocktimeHeight params then nCoinbaseMaturity params else nRBTCoinbaseMaturity params.

Definition MaxCheckpointSpan : Z :=
  if nCheckpointSpan params <=? nRBTCheckpointSpan params then nRBTCheckpointSpan params else nCheckpointSpan params.

Definition GetDelegationsAddress (height : Z) : list Z :=
  if height <? nDelegationsGasFixHeight params then delegationsAddress params else delegationsAddressGasFix params.
End Methods.

(** The values of the main network: [CChainParams] sets the ones all networks
    share and [CMainParams] the rest.  [uint256S] reads its digits from the last
    byte down. *)
Definition mainnet : Params := {|
  QIP5Height := 0x7fffffff;
  QIP9Height := 5500;
  nReduceBlocktimeHeight := 477300;
  nContractOutsHeight := 852800;
  nRefundFixHeight := 1160400;
  nDelegationsGasFixHeight := 1160400;
  powLimit := repeat 255 30 ++ repeat 0 2;
  posLimit := repeat 255 28 ++ repeat 0 4;
  fPowAllowMinDifficultyBlocks := false;
  fPowNoRetargeting := true;
  fPoSNoRetargeting := false;
  nPowTargetSpacing := 2 * 64;
  nRBTPowTargetSpacing := 32;
  nPowTargetTimespan := 16 * 60;
  nPowTargetTimespanV2 := 4000;
  nRBTPowTargetTimespan := 4 * 60;
  nRBTPowTargetTimespanV2 := 1000;
  nLastPOWBlock := 5000;
  totalCoinsSupply := 1858593274150085;
  initialCoinsSupply := 1858593274150085;
  blocksPerYear := 246375;
  nRewardFixHeight := 658600;
  nRewardOffsetHeight := 658600;
  nRewardOffsetAmount := 33018156505135300;
  nFirstMPoSBlock := 5000 + 1 + 500;
  nLastMPoSBlock := 477299;
  nMPoSRewardRecipients := 1;
  nCheckpointSpan := 500;
  nRBTCheckpointSpan := 4 * 500;
  delegationsAddress := repeat 0 19 ++ 147 :: nil;
  delegationsAddressGasFix := repeat 0 19 ++ 148 :: nil;
  nStakeTimestampMask := 15;
  nRBTStakeTimestampMask := 3;
  nBlocktimeDownscaleFactor := 4;
  nCoinbaseMaturity := 500;
  nRBTCoinbaseMaturity := 4 * 500
|}.

(** The span at any height is within the maximal one. *)
Lemma CheckpointSpan_le params height : CheckpointSpan params height <= MaxCheckpointSpan params.
Proof.
  unfold CheckpointSpan, MaxCheckpointSpan.
  destruct (height <? _), (Z.leb_spec (nCheckpointSpan params) (nRBTCheckpointSpan params)); lia.
Qed.
