(* ===== verification/TxVerify.v ===== *)
(** * Transaction rules: [src/src/consensus/tx_verify.cpp], [CValidationState] of
    [src/src/consensus/validation.h] and [UpdateCoins] of [src/src/validation.cpp]

    Which transactions are final, how relative locks are computed, what a
    transaction must satisfy by itself and against the coins it spends, and what
    it does to them. *)
From Stdlib Require Import ZArith Lia List Bool String.
From S2P Require Import Prelude Serialize Script Interpreter Primitives Sighash Standard Coins Chain Params.
From stdpp Require Import base tactics list numbers countable gmap.
#[local] Open Scope Z_scope.

(** ** Validation states *)

Inductive mode_state : Set := MODE_VALID | MODE_INVALID | MODE_ERROR.

(** The debug message, a formatted text, is left out. *)
Record CValidationState : Type := mkValidation {
  mode : mode_state;
  nDoS : Z;
  strRejectReason : string;
  chRejectCode : Z;
  corruptionPossible : bool
}.

Definition new_state : CValidationState := mkValidation MODE_VALID 0 EmptyString 0 false.

Definition REJECT_INVALID : Z := 16.

Definition DoS (s : CValidationState) (level code : Z) (reason : string) (corruption : bool) : CValidationState :=
  match mode s with
  | MODE_ERROR => mkValidation MODE_ERROR (nDoS s) reason code corruption
  | _ => mkValidation MODE_INVALID (i32 (nDoS s + level)) reason code corruption
  end.

Definition Invalid (s : CValidationState) (code : Z) (reason : string) : CValidationState :=
  DoS s 0 code reason false.

Definition Error (s : CValidationState) (reason : string) : CValidationState :=
  mkValidation MODE_ERROR (nDoS s)
    (match mode s with MODE_VALID => reason | _ => strRejectReason s end) (chRejectCode s) (corruptionPossible s).

(** ** Lock times *)

Definition IsFinalTx (tx : CTransaction) (nBlockHeight nBlockTime : Z) : bool :=
  if nLockTime tx =? 0 then true
  else if nLockTime tx <? (if nLockTime tx <? LOCKTIME_THRESHOLD then nBlockHeight else nBlockTime) then true
  else forallb (fun txin => nSequence txin =? SEQUENCE_FINAL) (vin tx).

Definition LOCKTIME_VERIFY_SEQUENCE : Z := 1.

(** One input with the height of its coin; [block] points to the block under
    construction.  [None] is a failed assertion or a null pointer.  The third
    result is the input's new entry of [prevHeights]. *)
Definition sequence_lock (m : memory) (block : nat) (txin : CTxIn) (nCoinHeight : Z) (locks : Z * Z)
  : option ((Z * Z) * Z) :=
  let '(nMinHeight, nMinTime) := locks in
  if negb (Z.land (nSequence txin) SEQUENCE_LOCKTIME_DISABLE_FLAG =? 0) then Some (locks, 0)
  else if negb (Z.land (nSequence txin) SEQUENCE_LOCKTIME_TYPE_FLAG =? 0) then
    match GetAncestor m block (Z.max (nCoinHeight - 1) 0) with
    | Some (Some a) =>
        match GetMedianTimePast m a with
        | Some nCoinTime =>
            Some ((nMinHeight,
                   Z.max nMinTime
                     (nCoinTime + u32 (Z.shiftl (Z.land (nSequence txin) SEQUENCE_LOCKTIME_MASK)
                                         SEQUENCE_LOCKTIME_GRANULARITY) - 1)), nCoinHeight)
        | None => None
        end
    | _ => None
    end
  else
    Some ((Z.max nMinHeight (nCoinHeight + Z.land (nSequence txin) SEQUENCE_LOCKTIME_MASK - 1), nMinTime), nCoinHeight).

Fixpoint sequence_locks (m : memory) (block : nat) (ins : list CTxIn) (prevHeights : list Z) (locks : Z * Z)
  : option ((Z * Z) * list Z) :=
  match ins, prevHeights with
  | txin :: ins', h :: hs' =>
      match sequence_lock m block txin h locks with
      | Some (locks, h') =>
          match sequence_locks m block ins' hs' locks with
          | Some (locks, hs) => Some (locks, h' :: hs)
          | None => None
          end
      | None => None
      end
  | [], [] => Some (locks, [])
  | _, _ => None
  end.

(** The pair of locks and the new contents of [prevHeights]. *)
Definition CalculateSequenceLocks (m : memory) (tx : CTransaction) (flags : Z) (prevHeights : list Z) (block : nat)
  : option ((Z * Z) * list Z) :=
  if negb (length prevHeights =? length (vin tx))%nat then None
  else
    let fEnforceBIP68 := (2 <=? u32 (nVersion tx)) && negb (Z.land flags LOCKTIME_VERIFY_SEQUENCE =? 0) in
    if negb fEnforceBIP68 then Some ((-1, -1), prevHeights)
    else sequence_locks m block (vin tx) prevHeights (-1, -1).

Definition EvaluateSequenceLocks (m : memory) (block : nat) (lockPair : Z * Z) : option bool :=
  match m !! block with
  | Some b =>
      match bi_pprev b with
      | Some q =>
          match GetMedianTimePast m q with
          | Some nBlockTime => Some (negb ((bi_nHeight b <=? lockPair.1) || (nBlockTime <=? lockPair.2)))
          | None => None
          end
      | None => None
      end
  | None => None
  end.

Definition SequenceLocks (m : memory) (tx : CTransaction) (flags : Z) (prevHeights : list Z) (block : nat)
  : option (bool * list Z) :=
  match CalculateSequenceLocks m tx flags prevHeights block with
  | Some (lockPair, hs) =>
      match EvaluateSequenceLocks m block lockPair with Some b => Some (b, hs) | None => None end
  | None => None
  end.

(** ** Signature operations *)

Definition WITNESS_SCALE_FACTOR : Z := 4.

Definition GetLegacySigOpCount (tx : CTransaction) : Z :=
  let n := fold_left (fun n i => u32 (n + Scr.GetSigOpCount (scriptSig i) false)) (vin tx) 0 in
  fold_left (fun n o => u32 (n + Scr.GetSigOpCount (scriptPubKey o) false)) (vout tx) n.

Section Coins.
Context {V : Type} `{CoinsView V}.
Variable usage : Coin -> Z.

(** The loops over the inputs; [None] is a failed assertion. *)
Fixpoint p2sh_sigops (c : CCoinsViewCache V) (ins : list CTxIn) (nSigOps : Z) : option (Z * CCoinsViewCache V) :=
  match ins with
  | [] => Some (nSigOps, c)
  | i :: ins' =>
      let '(x, c) := AccessCoin usage c (prevout i) in
      if IsSpent x then None
      else
        let spk := scriptPubKey (out x) in
        p2sh_sigops c ins'
          (if Scr.IsPayToScriptHash spk then u32 (nSigOps + Scr.GetSigOpCountP2SH spk (scriptSig i)) else nSigOps)
  end.

Definition GetP2SHSigOpCount (tx : CTransaction) (inputs : CCoinsViewCache V) : option (Z * CCoinsViewCache V) :=
  if IsCoinBase tx then Some (0, inputs) else p2sh_sigops inputs (vin tx) 0.

Fixpoint witness_sigops (flags : Z) (c : CCoinsViewCache V) (ins : list CTxIn) (nSigOps : Z)
  : option (Z * CCoinsViewCache V) :=
  match ins with
  | [] => Some (nSigOps, c)
  | i :: ins' =>
      let '(x, c) := AccessCoin usage c (prevout i) in
      if IsSpent x then None
      else match CountWitnessSigOps flags (scriptSig i) (scriptPubKey (out x)) (scriptWitness i) with
           | Some n => witness_sigops flags c ins' (i64 (nSigOps + n))
           | None => None
           end
  end.

Definition GetTransactionSigOpCost (tx : CTransaction) (inputs : CCoinsViewCache V) (flags : Z)
  : option (Z * CCoinsViewCache V) :=
  let nSigOps := u32 (GetLegacySigOpCount tx * WITNESS_SCALE_FACTOR) in
  if IsCoinBase tx then Some (nSigOps, inputs)
  else
    let r := if has flags SCRIPT_VERIFY_P2SH then
               match GetP2SHSigOpCount tx inputs with
               | Some (n, c) => Some (i64 (nSigOps + u32 (n * WITNESS_SCALE_FACTOR)), c)
               | None => None
               end
             else Some (nSigOps, inputs) in
    match r with
    | Some (nSigOps, c) => witness_sigops flags c (vin tx) nSigOps
    | None => None
    end.
End Coins.

(** ** Context-free checks *)

Definition MAX_TRANSACTION_BASE_SIZE : Z := 1000000.

(** A rejection: the ban score and the reason. *)
Abbreviation rejection := (Z * string)%type.

Definition is_contract_out (o : CTxOut) : bool :=
  let s := scriptPubKey o in
  Scr.HasOpCall s || Scr.HasOpCreate s || Scr.HasOpCoinstakeCall s || Scr.HasOpSender s.

Definition is_nonstandard (script : list Z) : bool :=
  match fst (Solver true false script) with TX_NONSTANDARD => true | _ => false end.

(** The loop over the outputs: the number of contract outputs, or a rejection. *)
Fixpoint check_outputs (allowEmpty : bool) (outs : list CTxOut) (nValueOut contract_outs : Z) : Z + rejection :=
  match outs with
  | [] => inl contract_outs
  | o :: outs' =>
      if TxOut_IsEmpty o && negb allowEmpty then inr (100, "bad-txns-vout-empty"%string)
      else if nValue o <? 0 then inr (100, "bad-txns-vout-negative"%string)
      else if MAX_MONEY <? nValue o then inr (100, "bad-txns-vout-toolarge"%string)
      else
        let nValueOut := i64 (nValueOut + nValue o) in
        if negb (MoneyRange nValueOut) then inr (100, "bad-txns-txouttotal-toolarge"%string)
        else if is_contract_out o then
          if is_nonstandard (scriptPubKey o) then inr (100, "bad-txns-contract-nonstandard"%string)
          else check_outputs allowEmpty outs' nValueOut (contract_outs + 1)
        else check_outputs allowEmpty outs' nValueOut contract_outs
  end.

Fixpoint duplicate_input (vInOutPoints : gset COutPoint) (ins : list CTxIn) : bool :=
  match ins with
  | [] => false
  | i :: ins' =>
      if decide (prevout i ∈ vInOutPoints) then true else duplicate_input ({[ prevout i ]} ∪ vInOutPoints) ins'
  end.

Section Check.
Variables (params : Params.Params) (dgpMaxBlockWeight : Z).

Definition tx_rejection (tx : CTransaction) (nHeight : Z) (fCheckDuplicateInputs : bool) : option rejection :=
  let base_size := Z.of_nat (length (SerializeTransaction false tx)) in
  match vin tx, vout tx with
  | [], _ => Some (10, "bad-txns-vin-empty"%string)
  | _, [] => Some (10, "bad-txns-vout-empty"%string)
  | _, _ =>
      if (MAX_TRANSACTION_BASE_SIZE <? base_size) || (dgpMaxBlockWeight <? base_size * WITNESS_SCALE_FACTOR) then
        Some (100, "bad-txns-oversize"%string)
      else if HasOpCoinstakeCall tx && negb (IsCoinStake tx) then
        Some (100, "bad-txns-coinstake-call-on-not-coinstake-transaction"%string)
      else
        match check_outputs (IsCoinBase tx || IsCoinStake tx) (vout tx) 0 0 with
        | inr r => Some r
        | inl contract_outs =>
            if (nContractOutsHeight params <=? nHeight) && (nHeight <? nRefundFixHeight params)
               && (1 <? contract_outs)
            then Some (100, "bad-txns-contract-outs-more-than-one"%string)
            else if fCheckDuplicateInputs && duplicate_input ∅ (vin tx) then
              Some (100, "bad-txns-inputs-duplicate"%string)
            else if IsCoinBase tx then
              let n := Z.of_nat (length (scriptSig (nth 0 (vin tx) null_txin))) in
              if (n <? 2) || (100 <? n) then Some (100, "bad-cb-length"%string) else None
            else if existsb (fun i => OutPoint_IsNull (prevout i)) (vin tx) then
              Some (10, "bad-txns-prevout-null"%string)
            else None
        end
  end.

Definition CheckTransaction (tx : CTransaction) (state : CValidationState) (nHeight : Z)
    (fCheckDuplicateInputs : bool) : bool * CValidationState :=
  match tx_rejection tx nHeight fCheckDuplicateInputs with
  | None => (true, state)
  | Some (level, reason) => (false, DoS state level REJECT_INVALID reason false)
  end.

(** ** Checks against the coins *)

Section Inputs.
Context {V : Type} `{CoinsView V}.
Variable usage : Coin -> Z.

(** The loop over the inputs: the value spent, a rejection, or a failed
    assertion. *)
Fixpoint check_inputs (c : CCoinsViewCache V) (ins : list CTxIn) (nSpendHeight nValueIn : Z)
  : option ((Z + rejection) * CCoinsViewCache V) :=
  match ins with
  | [] => Some (inl nValueIn, c)
  | i :: ins' =>
      let '(x, c) := AccessCoin usage c (prevout i) in
      if IsSpent x then None
      else if (fCoinBase x || fCoinStake x)
              && (i32 (nSpendHeight - nHeight x) <? CoinbaseMaturity params nSpendHeight) then
        Some (inr (0, "bad-txns-premature-spend-of-coinbase"%string), c)
      else
        let nValueIn := i64 (nValueIn + nValue (out x)) in
        if negb (MoneyRange (nValue (out x))) || negb (MoneyRange nValueIn) then
          Some (inr (100, "bad-txns-inputvalues-outofrange"%string), c)
        else check_inputs c ins' nSpendHeight nValueIn
  end.

(** The verdict, the state and the fee, which a coinstake leaves as it was. *)
Definition CheckTxInputs (tx : CTransaction) (state : CValidationState) (inputs : CCoinsViewCache V)
    (nSpendHeight txfee : Z) : outcome (CValidationState * Z * CCoinsViewCache V) :=
  let '(have, c) := HaveInputs usage inputs tx in
  if negb have then Return false (DoS state 100 REJECT_INVALID "bad-txns-inputs-missingorspent" false, txfee, c)
  else
    match check_inputs c (vin tx) nSpendHeight 0 with
    | None => Abort
    | Some (inr (level, reason), c) => Return false (DoS state level REJECT_INVALID reason false, txfee, c)
    | Some (inl nValueIn, c) =>
        if IsCoinStake tx then Return true (state, txfee, c)
        else
          match GetValueOut tx with
          | None => Throw
          | Some value_out =>
              if nValueIn <? value_out then
                Return false (DoS state 100 REJECT_INVALID "bad-txns-in-belowout" false, txfee, c)
              else
                let txfee_aux := i64 (nValueIn - value_out) in
                if negb (MoneyRange txfee_aux) then
                  Return false (DoS state 100 REJECT_INVALID "bad-txns-fee-outofrange" false, txfee, c)
                else Return true (state, txfee_aux, c)
          end
    end.

(** ** The effect on the coins: [UpdateCoins] *)

(** The coins of the undo record, in the order of the inputs. *)
Fixpoint spend_inputs (c : CCoinsViewCache V) (ins : list CTxIn) : option (list Coin * CCoinsViewCache V) :=
  match ins with
  | [] => Some ([], c)
  | i :: ins' =>
      match SpendCoin usage c (prevout i) with
      | (true, Some x, c) =>
          match spend_inputs c ins' with
          | Some (l, c) => Some (x :: l, c)
          | None => None
          end
      | _ => None
      end
  end.

Definition UpdateCoins (tx : CTransaction) (inputs : CCoinsViewCache V) (nHeight : Z)
  : outcome (list Coin * CCoinsViewCache V) :=
  match (if IsCoinBase tx then Some ([], inputs) else spend_inputs inputs (vin tx)) with
  | None => Abort
  | Some (vprevout, c) =>
      match AddCoins usage c tx nHeight false with
      | Return _ c => Return true (vprevout, c)
      | Throw => Throw
      | Abort => Abort
      end
  end.
End Inputs.
End Check.

(** ** Absolute locks *)
Section Eval.
Variables (CheckLowS : list Z -> bool) (checker : SignatureChecker) (flags : Z) (v : SigVersion).

(** A script that starts with a push runs its second instruction on the data. *)
Lemma eval_after_push s b op rest s' :
  OP_PUSHDATA4 < op ->
  EvalScript CheckLowS checker flags v s (Scr.push_vch [] b ++ op :: rest) = inl s' ->
  exists st, stack st = b :: s /\ vfExec st = [] /\
    forall e, eval_op CheckLowS checker flags v op [] rest st <> Err e.
Proof.
  intros Hop. unfold EvalScript.
  destruct (Z.ltb_spec MAX_SCRIPT_SIZE (Script.size (Scr.push_vch [] b ++ op :: rest))) as [|Hsz]; [done|].
  change (Scr.push_vch [] b) with (push_bytes b) in *.
  assert (H32 : Script.size (push_bytes b ++ op :: rest) < two32) by (unfold MAX_SCRIPT_SIZE, two32 in *; lia).
  assert (Hb : Script.size b < two32).
  { rewrite size_app in H32. pose proof (push_bytes_size b). pose proof (size_nonneg (op :: rest)). lia. }
  destruct (push_bytes_encodes b Hb) as (o & Ho & _ & He).
  rewrite (ops_step _ _ _ _ (He (op :: rest) H32)).
  rewrite (ops_single CheckLowS op rest Hop).
  cbn [eval_ops]. unfold Scr.opcode_of, Scr.data_of, Scr.rest_of. cbn [fst snd].
  unfold eval_op at 1. cbn [vfExec forallb].
  destruct (_ <? _); [done|].
  destruct (Z.ltb_spec OP_16 o) as [Hc|_]; [unfold OP_16, OP_PUSHDATA4 in *; lia|]. cbn [andb].
  destruct (is_disabled o); [done|]. destruct (_ && _ && _); [done|].
  destruct (Z.leb_spec o OP_PUSHDATA4); [|lia]. cbn [andb].
  destruct (_ && _); [done|]. destruct (_ <? _); [done|].
  cbn [fst]. intros Hrun.
  exists (set_stack (EvalState s [] [] 0 (push_bytes b ++ op :: rest)) (b :: s)).
  split_and!; [done|done|]. intros e E.
  cbn [stack eval_ops] in Hrun. unfold Scr.opcode_of, Scr.data_of, Scr.rest_of in Hrun. cbn [fst snd] in Hrun.
  rewrite E in Hrun. discriminate.
Qed.

Lemma eval_op_locktime op rest st :
  op = OP_CHECKLOCKTIMEVERIFY \/ op = OP_CHECKSEQUENCEVERIFY -> vfExec st = [] ->
  eval_op CheckLowS checker flags v op [] rest st =
  let st := set_nOpCount st (nOpCount st + 1) in
  if MAX_OPS_PER_SCRIPT <? nOpCount st then Err SCRIPT_ERR_OP_COUNT
  else if op =? OP_CHECKLOCKTIMEVERIFY then op_checklocktimeverify checker flags st
  else op_checksequenceverify checker flags st.
Proof. intros Hop Hv. unfold eval_op. rewrite Hv. by destruct Hop as [->| ->]. Qed.

Lemma read_locktime n : 0 <= n < 2 ^ 39 -> forall fMin, Num.of_vch (Num.serialize n) fMin 5 = Some n.
Proof.
  intros Hn fMin. apply of_vch_serialize; [|lia|change (8 * 5 - 1) with 39; lia].
  assert (2 ^ 39 < 2 ^ 63) by done. lia.
Qed.

Lemma cltv_checked s lock rest s' :
  has flags SCRIPT_VERIFY_CHECKLOCKTIMEVERIFY = true -> 0 <= lock < 2 ^ 39 ->
  EvalScript CheckLowS checker flags v s
    (Scr.push_vch [] (Num.serialize lock) ++ OP_CHECKLOCKTIMEVERIFY :: rest) = inl s' ->
  CheckLockTime checker lock = true.
Proof.
  intros Hf Hl Hrun. pose proof (fun H => eval_after_push s _ _ _ _ H Hrun) as (st & Hs & Hv & Hok); [done|].
  destruct (CheckLockTime checker lock) eqn:Ec; [done|exfalso].
  rewrite eval_op_locktime in Hok by auto. cbn zeta in Hok. destruct (_ <? _); [by eapply Hok|].
  change (OP_CHECKLOCKTIMEVERIFY =? OP_CHECKLOCKTIMEVERIFY) with true in Hok.
  unfold op_checklocktimeverify in Hok. rewrite Hf in Hok. cbn [negb stack set_nOpCount] in Hok.
  rewrite Hs in Hok. unfold with_num in Hok. rewrite read_locktime in Hok by done.
  destruct (Z.ltb_spec lock 0); [lia|]. rewrite Ec in Hok. by eapply Hok.
Qed.

Lemma csv_checked s seq rest s' :
  has flags SCRIPT_VERIFY_CHECKSEQUENCEVERIFY = true -> 0 <= seq < 2 ^ 39 ->
  Z.land seq SEQUENCE_LOCKTIME_DISABLE_FLAG = 0 ->
  EvalScript CheckLowS checker flags v s
    (Scr.push_vch [] (Num.serialize seq) ++ OP_CHECKSEQUENCEVERIFY :: rest) = inl s' ->
  CheckSequence checker seq = true.
Proof.
  intros Hf Hl Hd Hrun. pose proof (fun H => eval_after_push s _ _ _ _ H Hrun) as (st & Hs & Hv & Hok); [done|].
  destruct (CheckSequence checker seq) eqn:Ec; [done|exfalso].
  rewrite eval_op_locktime in Hok by auto. cbn zeta in Hok. destruct (_ <? _); [by eapply Hok|].
  change (OP_CHECKSEQUENCEVERIFY =? OP_CHECKLOCKTIMEVERIFY) with false in Hok.
  unfold op_checksequenceverify in Hok. rewrite Hf in Hok. cbn [negb stack set_nOpCount] in Hok.
  rewrite Hs in Hok. unfold with_num in Hok. rewrite read_locktime in Hok by done.
  destruct (Z.ltb_spec seq 0); [lia|].
  change Interpreter.SEQUENCE_LOCKTIME_DISABLE_FLAG with SEQUENCE_LOCKTIME_DISABLE_FLAG in Hok.
  rewrite Hd, Ec in Hok. by eapply Hok.
Qed.
End Eval.

(** A spend that verifies has run the output script to its end. *)
Lemma verify_evaluates CheckLowS checker flags scriptSig scriptPubKey witness :
  VerifyScript CheckLowS checker flags scriptSig scriptPubKey witness = Pass ->
  exists s s', EvalScript CheckLowS checker flags BASE s scriptPubKey = inl s'.
Proof.
  unfold VerifyScript. destruct (_ && _); [done|].
  destruct (EvalScript _ _ _ _ [] scriptSig) as [s|]; [|done].
  destruct (EvalScript _ _ _ _ s scriptPubKey) as [s'|] eqn:E; [|done]. by exists s, s'.
Qed.

Lemma final_after_check tx nIn lock h t :
  tx_CheckLockTime tx nIn lock = true -> IsFinalTx tx h t = true ->
  (nIn < length (vin tx))%nat -> 0 < h -> 0 <= nLockTime tx -> 0 <= lock ->
  (lock < LOCKTIME_THRESHOLD -> lock < h) /\ (LOCKTIME_THRESHOLD <= lock -> lock < t).
Proof.
  unfold tx_CheckLockTime, IsFinalTx. intros Hc Hfin Hn Hh Hl0 Hl.
  destruct (negb (_ || _)) eqn:Ek; [done|]. apply negb_false_iff, orb_true_iff in Ek.
  destruct (Z.ltb_spec (nLockTime tx) lock); [done|].
  destruct (Z.eqb_spec SEQUENCE_FINAL (nSequence (nth nIn (vin tx) null_txin))) as [|Hs]; [done|].
  assert (Hall : forallb (fun txin => nSequence txin =? SEQUENCE_FINAL) (vin tx) = false).
  { apply not_true_iff_false. intros Ha. rewrite forallb_forall in Ha.
    specialize (Ha _ (nth_In (vin tx) null_txin Hn)). apply Z.eqb_eq in Ha. congruence. }
  rewrite Hall in Hfin. unfold LOCKTIME_THRESHOLD in *.
  rewrite !andb_true_iff, !Z.ltb_lt, !Z.leb_le in Ek.
  destruct (Z.eqb_spec (nLockTime tx) 0); [lia|].
  destruct (Z.ltb_spec (nLockTime tx) 500000000).
  - destruct (Z.ltb_spec (nLockTime tx) h); [lia|done].
  - destruct (Z.ltb_spec (nLockTime tx) t); [lia|done].
Qed.

(** ** Relative locks *)

(** The bits of a sequence number that matter for a lock. *)
Lemma sequence_masked q :
  Z.land q (Z.lor SEQUENCE_LOCKTIME_TYPE_FLAG SEQUENCE_LOCKTIME_MASK) =
  (if Z.land q SEQUENCE_LOCKTIME_TYPE_FLAG =? 0 then 0 else SEQUENCE_LOCKTIME_TYPE_FLAG)
  + Z.land q SEQUENCE_LOCKTIME_MASK /\ 0 <= Z.land q SEQUENCE_LOCKTIME_MASK < 65536.
Proof.
  assert (Hm : Z.land q SEQUENCE_LOCKTIME_MASK = q mod 2 ^ 16) by (apply (Z.land_ones q 16); lia).
  assert (Hb : 0 <= Z.land q SEQUENCE_LOCKTIME_MASK < 65536)
    by (rewrite Hm; apply (Z.mod_pos_bound q (2 ^ 16)); lia).
  split; [|done].
  assert (Ht : Z.land q SEQUENCE_LOCKTIME_TYPE_FLAG = if Z.testbit q 22 then SEQUENCE_LOCKTIME_TYPE_FLAG else 0).
  { apply Z.bits_inj'. intros i Hi. rewrite Z.land_spec. unfold SEQUENCE_LOCKTIME_TYPE_FLAG.
    rewrite Z.shiftl_1_l, Z.pow2_bits_eqb by lia.
    destruct (Z.eqb_spec 22 i) as [<-|Hn].
    - destruct (Z.testbit q 22); [by rewrite Z.pow2_bits_eqb by lia|by rewrite Z.bits_0].
    - destruct (Z.testbit q 22); [rewrite Z.pow2_bits_eqb by lia|rewrite Z.bits_0]; rewrite andb_false_r; [|done].
      symmetry. by apply Z.eqb_neq. }
  rewrite Z.land_lor_distr_r.
  assert (Hd : Z.land (Z.land q SEQUENCE_LOCKTIME_TYPE_FLAG) (Z.land q SEQUENCE_LOCKTIME_MASK) = 0).
  { rewrite Z.land_assoc, (Z.land_comm _ q), Z.land_assoc, Z.land_diag, <- Z.land_assoc.
    change (Z.land SEQUENCE_LOCKTIME_TYPE_FLAG SEQUENCE_LOCKTIME_MASK) with 0. apply Z.land_0_r. }
  pose proof (Z.add_lor_land (Z.land q SEQUENCE_LOCKTIME_TYPE_FLAG) (Z.land q SEQUENCE_LOCKTIME_MASK)) as E.
  rewrite Hd, Z.add_0_r in E. rewrite E. f_equal. rewrite Ht. by destruct (Z.testbit q 22).
Qed.

(** Every input's lock is below the result. *)
Lemma sequence_locks_max m block : forall ins hs locks res hs',
  sequence_locks m block ins hs locks = Some (res, hs') ->
  (locks.1 <= res.1 /\ locks.2 <= res.2) /\
  forall i txin h, ins !! i = Some txin -> hs !! i = Some h ->
    exists l l' h', sequence_lock m block txin h l = Some (l', h') /\ l'.1 <= res.1 /\ l'.2 <= res.2.
Proof.
  induction ins as [|txin ins IH]; intros [|h hs] locks res hs' E; cbn [sequence_locks] in E; try done.
  { injection E as <- <-. split; [lia|done]. }
  destruct (sequence_lock m block txin h locks) as [[l1 h1]|] eqn:E1; [|done].
  destruct (sequence_locks m block ins hs l1) as [[l2 hs2]|] eqn:E2; [|done]. injection E as <- <-.
  destruct (IH hs l1 l2 hs2 E2) as [[H1 H2] Hall].
  assert (Hstep : locks.1 <= l1.1 /\ locks.2 <= l1.2).
  { unfold sequence_lock in E1. destruct locks as [a b].
    destruct (negb _); [injection E1 as <- <-; lia|]. destruct (negb _).
    - destruct (GetAncestor _ _ _) as [[q|]|]; [|done..]. destruct (GetMedianTimePast m q); [|done].
      injection E1 as <- <-. cbn. lia.
    - injection E1 as <- <-. cbn. lia. }
  split; [lia|]. intros [|i] x y Hx Hy; cbn in Hx, Hy; [|by eapply Hall].
  injection Hx as <-. injection Hy as <-. by exists locks, l1, h1.
Qed.

(** What an input with an enforced lock waits for, in blocks or in time. *)
Definition lock_passed (m : memory) (block : nat) (nCoinHeight seq : Z) : Prop :=
  exists b q t, m !! block = Some b /\ bi_pprev b = Some q /\ GetMedianTimePast m q = Some t
    /\ if Z.land seq SEQUENCE_LOCKTIME_TYPE_FLAG =? 0
       then nCoinHeight + Z.land seq SEQUENCE_LOCKTIME_MASK <= bi_nHeight b
       else exists a ta, GetAncestor m block (Z.max (nCoinHeight - 1) 0) = Some (Some a)
              /\ GetMedianTimePast m a = Some ta
              /\ ta + Z.land seq SEQUENCE_LOCKTIME_MASK * 512 <= t.

Lemma masked_compare (b1 b2 : bool) x y T :
  T = 4194304 -> 0 <= x < 65536 -> 0 <= y < 65536 ->
  (if negb ((((if b1 then 0 else T) + x <? T) && ((if b2 then 0 else T) + y <? T))
            || ((T <=? (if b1 then 0 else T) + x) && (T <=? (if b2 then 0 else T) + y))) then false
   else if (if b1 then 0 else T) + x <? (if b2 then 0 else T) + y then false else true) = true ->
  b1 = b2 /\ y <= x.
Proof.
  intros -> Hx Hy. destruct b1, b2;
    repeat match goal with
    | |- context [?a <? ?b] => destruct (Z.ltb_spec a b)
    | |- context [?a <=? ?b] => destruct (Z.leb_spec a b)
    end; cbn; intros E; try discriminate E; split; try done; lia.
Qed.

Lemma sequence_after_check m tx nIn seq flags hs block hs' txin h :
  tx_CheckSequence tx nIn seq = true ->
  SequenceLocks m tx flags hs block = Some (true, hs') ->
  Z.land flags LOCKTIME_VERIFY_SEQUENCE <> 0 ->
  vin tx !! nIn = Some txin -> hs !! nIn = Some h ->
  lock_passed m block h seq.
Proof.
  unfold tx_CheckSequence, SequenceLocks, CalculateSequenceLocks. intros Hc Hs Hf Hin Hh.
  assert (Hnth : nth nIn (vin tx) null_txin = txin).
  { rewrite nth_lookup, Hin. done. }
  rewrite Hnth in Hc. destruct (Z.ltb_spec (u32 (nVersion tx)) 2); [done|].
  destruct (Z.eqb_spec (Z.land (nSequence txin) SEQUENCE_LOCKTIME_DISABLE_FLAG) 0) as [Hdis|]; [|done].
  cbn [negb] in Hc.
  destruct (sequence_masked (nSequence txin)) as [Eq Bq]. destruct (sequence_masked seq) as [Es Bs].
  rewrite Eq, Es in Hc.
  destruct (negb (length hs =? length (vin tx))%nat); [done|].
  destruct (Z.leb_spec 2 (u32 (nVersion tx))); [|lia].
  destruct (Z.eqb_spec (Z.land flags LOCKTIME_VERIFY_SEQUENCE) 0); [done|]. cbn [negb andb] in Hs.
  destruct (sequence_locks m block (vin tx) hs (-1, -1)) as [[lp hs2]|] eqn:El; [|done].
  destruct (proj2 (sequence_locks_max m block _ _ _ _ _ El) nIn txin h Hin Hh) as (l & l' & h' & E1 & M1 & M2).
  unfold EvaluateSequenceLocks in Hs. destruct (m !! block) as [b|] eqn:Eb; [|done].
  destruct (bi_pprev b) as [q|] eqn:Ep; [|done]. destruct (GetMedianTimePast m q) as [t|] eqn:Et; [|done].
  injection Hs as Hs Hhs. apply negb_true_iff, orb_false_iff in Hs as [Hs1 Hs2].
  apply Z.leb_gt in Hs1, Hs2.
  unfold sequence_lock in E1. rewrite Hdis in E1. change (negb (0 =? 0)) with false in E1. cbn match in E1.
  destruct l as [l1 l2]. exists b, q, t. split_and!; [done..|].
  destruct (masked_compare _ _ _ _ SEQUENCE_LOCKTIME_TYPE_FLAG eq_refl Bq Bs Hc) as [Etype Hle].
  rewrite <- Etype. destruct (Z.land (nSequence txin) SEQUENCE_LOCKTIME_TYPE_FLAG =? 0); cbn [negb] in E1.
  - injection E1 as <- <-. cbn in M1. lia.
  - destruct (GetAncestor _ _ _) as [[a|]|] eqn:Ea; [|done..].
    destruct (GetMedianTimePast m a) as [ta|] eqn:Eta; [|done]. exists a, ta. split_and!; [done..|].
    injection E1 as <- <-. cbn [snd] in M2. unfold SEQUENCE_LOCKTIME_GRANULARITY in M2.
    rewrite Z.shiftl_mul_pow2, u32_small in M2; [|unfold is_u32, two32; change (2 ^ 9) with 512; lia|lia].
    change (2 ^ 9) with 512 in M2. lia.
Qed.

(** ** What [CheckTransaction] accepts *)

Fixpoint count_contracts (outs : list CTxOut) : Z :=
  match outs with [] => 0 | o :: outs' => (if is_contract_out o then 1 else 0) + count_contracts outs' end.

(** An acceptable output; only a coinbase or a coinstake may have empty ones. *)
Definition output_ok (allowEmpty : bool) (o : CTxOut) : Prop :=
  (TxOut_IsEmpty o = true -> allowEmpty = true) /\ 0 <= nValue o <= MAX_MONEY
  /\ (is_contract_out o = true -> is_nonstandard (scriptPubKey o) = false).

Lemma check_outputs_iff ae outs : forall acc k k', 0 <= acc <= MAX_MONEY ->
  (check_outputs ae outs acc k = inl k' <->
   Forall (output_ok ae) outs /\ acc + total_out outs <= MAX_MONEY /\ k' = k + count_contracts outs).
Proof.
  induction outs as [|o outs IH]; intros acc k k' Ha; cbn [check_outputs total_out count_contracts].
  { rewrite Forall_nil. split; [intros [= <-]; split_and!; (done || lia)|].
    intros (_ & _ & ->). f_equal. lia. }
  rewrite Forall_cons. unfold output_ok at 1.
  destruct (TxOut_IsEmpty o && negb ae) eqn:E1.
  { apply andb_true_iff in E1 as [E1 E2]. apply negb_true_iff in E2. rewrite E1, E2. split; [done|].
    intros (((Hx & _) & _) & _). by specialize (Hx eq_refl). }
  destruct (Z.ltb_spec (nValue o) 0); [split; [done|lia]|].
  destruct (Z.ltb_spec MAX_MONEY (nValue o)); [split; [done|lia]|].
  assert (Hw : i64 (acc + nValue o) = acc + nValue o)
    by (apply i64_small; unfold is_i64; unfold MAX_MONEY, COIN in *; lia).
  rewrite Hw. destruct (MoneyRange (acc + nValue o)) eqn:Em; cbn [negb].
  2: { split; [done|]. intros ((_ & Hx) & Hle & _). exfalso.
       assert (Hn : Forall (fun o => 0 <= nValue o <= MAX_MONEY) outs)
         by (eapply Forall_impl; [apply Hx|intros x Hy; apply Hy]).
       apply total_out_nonneg in Hn. assert (MoneyRange (acc + nValue o) = true) by (apply MoneyRange_spec; lia).
       congruence. }
  apply MoneyRange_spec in Em.
  assert (He : TxOut_IsEmpty o = true -> ae = true).
  { intros He. rewrite He in E1. by apply negb_false_iff in E1. }
  destruct (is_contract_out o) eqn:Ec.
  - destruct (is_nonstandard (scriptPubKey o)) eqn:En.
    + split; [done|]. intros (((_ & _ & Hx) & _) & _). by specialize (Hx eq_refl).
    + rewrite (IH _ _ _ Em). split; [intros (? & ? & ->)|intros ((_ & ?) & ? & ->)]; split_and!; auto; lia.
  - rewrite (IH _ _ _ Em). split; [intros (? & ? & ->)|intros ((_ & ?) & ? & ->)]; split_and!; auto; try done; lia.
Qed.

Lemma duplicate_input_iff ins : forall seen,
  duplicate_input seen ins = false <-> NoDup (prevout <$> ins) /\ forall i, i ∈ prevout <$> ins -> i ∉ seen.
Proof.
  induction ins as [|i ins IH]; intros seen; cbn [duplicate_input fmap list_fmap].
  { split; [intros _; split; [constructor|set_solver]|done]. }
  rewrite NoDup_cons. case_decide as Hd.
  - split; [done|]. intros [_ Hi]. destruct (Hi (prevout i)); [set_solver|done].
  - rewrite IH. set_solver.
Qed.

Section CheckSpec.
Variables (params : Params.Params) (dgpMaxBlockWeight : Z).

(** A transaction that is well-formed by itself. *)
Definition tx_ok (tx : CTransaction) (nHeight : Z) (fCheckDuplicateInputs : bool) : Prop :=
  vin tx <> [] /\ vout tx <> []
  /\ Z.of_nat (length (SerializeTransaction false tx)) <= MAX_TRANSACTION_BASE_SIZE
  /\ Z.of_nat (length (SerializeTransaction false tx)) * WITNESS_SCALE_FACTOR <= dgpMaxBlockWeight
  /\ (HasOpCoinstakeCall tx = true -> IsCoinStake tx = true)
  /\ Forall (output_ok (IsCoinBase tx || IsCoinStake tx)) (vout tx)
  /\ total_out (vout tx) <= MAX_MONEY
  /\ (nContractOutsHeight params <= nHeight < nRefundFixHeight params -> count_contracts (vout tx) <= 1)
  /\ (fCheckDuplicateInputs = true -> NoDup (prevout <$> vin tx))
  /\ if IsCoinBase tx then (2 <= length (scriptSig (nth 0 (vin tx) null_txin)) <= 100)%nat
     else Forall (fun i => OutPoint_IsNull (prevout i) = false) (vin tx).

Lemma existsb_false {A : Type} (f : A -> bool) l : existsb f l = false <-> Forall (fun x => f x = false) l.
Proof.
  induction l as [|x l IH]; cbn; [by rewrite Forall_nil|]. rewrite Forall_cons, orb_false_iff. tauto.
Qed.

Lemma reject_none {A : Type} (b : bool) (r : A) x : (if b then Some r else x) = None <-> b = false /\ x = None.
Proof. destruct b; intuition discriminate. Qed.

(** The checks after those of the outputs. *)
Lemma late_checks_iff tx nHeight fDup k :
  (if (nContractOutsHeight params <=? nHeight) && (nHeight <? nRefundFixHeight params) && (1 <? k)
   then Some (100, "bad-txns-contract-outs-more-than-one"%string)
   else if fDup && duplicate_input ∅ (vin tx) then Some (100, "bad-txns-inputs-duplicate"%string)
   else if IsCoinBase tx then
     let n := Z.of_nat (length (scriptSig (nth 0 (vin tx) null_txin))) in
     if (n <? 2) || (100 <? n) then Some (100, "bad-cb-length"%string) else None
   else if existsb (fun i => OutPoint_IsNull (prevout i)) (vin tx) then
     Some (10, "bad-txns-prevout-null"%string)
   else None) = None
  <-> (nContractOutsHeight params <= nHeight < nRefundFixHeight params -> k <= 1)
      /\ (fDup = true -> NoDup (prevout <$> vin tx))
      /\ if IsCoinBase tx then (2 <= length (scriptSig (nth 0 (vin tx) null_txin)) <= 100)%nat
         else Forall (fun i => OutPoint_IsNull (prevout i) = false) (vin tx).
Proof.
  rewrite !reject_none.
  assert (H1 : (nContractOutsHeight params <=? nHeight) && (nHeight <? nRefundFixHeight params) && (1 <? k) = false
               <-> (nContractOutsHeight params <= nHeight < nRefundFixHeight params -> k <= 1)).
  { rewrite !andb_false_iff, Z.leb_gt, !Z.ltb_ge. lia. }
  assert (H2 : fDup && duplicate_input ∅ (vin tx) = false <-> (fDup = true -> NoDup (prevout <$> vin tx))).
  { destruct fDup; cbn [andb]; [|intuition discriminate]. rewrite duplicate_input_iff. set_solver. }
  rewrite H1, H2. destruct (IsCoinBase tx).
  - cbn zeta. rewrite reject_none, orb_false_iff, !Z.ltb_ge.
    split; intros (A & B & Hn); (split; [exact A|split; [exact B|]]); [|split; [|done]]; lia.
  - rewrite reject_none, existsb_false. tauto.
Qed.

Lemma tx_rejection_iff tx nHeight fDup :
  tx_rejection params dgpMaxBlockWeight tx nHeight fDup = None <-> tx_ok tx nHeight fDup.
Proof.
  unfold tx_rejection, tx_ok. destruct (vin tx) as [|i0 ins] eqn:Ei; [split; [done|by intros [? _]]|].
  destruct (vout tx) as [|o0 outs] eqn:Eo; [split; [done|by intros (_ & ? & _)]|]. rewrite <- Eo, <- Ei.
  rewrite !reject_none, orb_false_iff, !Z.ltb_ge, andb_false_iff, negb_false_iff.
  pose proof (fun k' => check_outputs_iff (IsCoinBase tx || IsCoinStake tx) (vout tx) 0 0 k' ltac:(done)) as Ho.
  rewrite Z.add_0_l in Ho.
  assert (Hcs : (HasOpCoinstakeCall tx = false \/ IsCoinStake tx = true) <-> (HasOpCoinstakeCall tx = true -> IsCoinStake tx = true))
    by (destruct (HasOpCoinstakeCall tx); intuition discriminate).
  rewrite Hcs. destruct (check_outputs (IsCoinBase tx || IsCoinStake tx) (vout tx) 0 0) as [k|r].
  - destruct (proj1 (Ho k) eq_refl) as (H1 & H2 & ->). rewrite late_checks_iff, Z.add_0_l.
    rewrite Eo, Ei in *. intuition discriminate.
  - split; [intros (_ & _ & [=])|]. intros (_ & _ & _ & _ & _ & H1 & H2 & _).
    by discriminate (proj2 (Ho _) (conj H1 (conj H2 eq_refl))).
Qed.
End CheckSpec.

Lemma check_outputs_level ae outs : forall acc k level reason,
  check_outputs ae outs acc k = inr (level, reason) -> level = 100.
Proof.
  induction outs as [|o outs IH]; intros acc k level reason; cbn [check_outputs]; [done|].
  repeat (case_match; [by intros [= <- _]|]). case_match; [case_match; [by intros [= <- _]|]|]; apply IH.
Qed.

Lemma rejection_level params dgpMaxBlockWeight tx nHeight fDup level reason :
  tx_rejection params dgpMaxBlockWeight tx nHeight fDup = Some (level, reason) -> level = 10 \/ level = 100.
Proof.
  unfold tx_rejection. destruct (vin tx); [intros [= <- _]; auto|]. destruct (vout tx) eqn:Eo; [intros [= <- _]; auto|].
  rewrite <- Eo. do 2 (case_match; [intros [= <- _]; auto|]).
  destruct (check_outputs _ _ _ _) as [k|[lv rs]] eqn:E.
  - repeat (case_match; [intros [= <- _]; by auto|]). repeat case_match; intros [= <- _]; auto.
  - intros [= <- _]. apply check_outputs_level in E. auto.
Qed.

(** ** Conservation of value *)

Definition coin_value (x : Coin) : Z := nValue (out x).

(** The value of a set of coins. *)
Definition total_value (m : gmap COutPoint Coin) : Z := map_fold (fun _ x acc => coin_value x + acc) 0 m.

Lemma total_value_insert m k x : m !! k = None -> total_value (<[k := x]> m) = coin_value x + total_value m.
Proof. intros H. unfold total_value. rewrite map_fold_insert_L; [done|intros; lia|done]. Qed.

Lemma total_value_delete m k x : m !! k = Some x -> total_value (delete k m) = total_value m - coin_value x.
Proof.
  intros H. rewrite <- (insert_delete_id m k x H) at 2.
  rewrite total_value_insert by apply lookup_delete_eq. lia.
Qed.

(** The coins the inputs spend, taken one after the other. *)
Fixpoint spent (m : gmap COutPoint Coin) (ins : list CTxIn) : gmap COutPoint Coin :=
  match ins with [] => m | i :: ins' => spent (delete (prevout i) m) ins' end.

Fixpoint input_value (m : gmap COutPoint Coin) (ins : list CTxIn) : Z :=
  match ins with
  | [] => 0
  | i :: ins' => match m !! prevout i with Some x => coin_value x | None => 0 end + input_value m ins'
  end.

Lemma input_value_delete m k ins : k ∉ prevout <$> ins -> input_value (delete k m) ins = input_value m ins.
Proof.
  induction ins as [|i ins IH]; intros Hk; [done|]. cbn [input_value].
  rewrite fmap_cons, not_elem_of_cons in Hk. destruct Hk as [H1 H2].
  rewrite IH by done. by rewrite lookup_delete_ne.
Qed.

Lemma total_value_spent ins : forall m,
  NoDup (prevout <$> ins) -> Forall (fun i => is_Some (m !! prevout i)) ins ->
  total_value (spent m ins) = total_value m - input_value m ins.
Proof.
  induction ins as [|i ins IH]; intros m Hn Hs; cbn [spent input_value]; [lia|].
  rewrite fmap_cons, NoDup_cons in Hn. destruct Hn as [Hi Hn].
  apply Forall_cons in Hs as [[x Hx] Hs]. rewrite Hx, IH.
  - rewrite (total_value_delete m _ x Hx), input_value_delete by done. lia.
  - done.
  - rewrite Forall_forall in Hs |- *. intros j Hj. rewrite lookup_delete_ne; [by apply Hs|].
    intros E. apply Hi. rewrite E. by apply list_elem_of_fmap_2.
Qed.

Lemma spent_lookup_None m ins k : m !! k = None -> spent m ins !! k = None.
Proof.
  revert m. induction ins as [|i ins IH]; intros m H; [done|]. cbn [spent]. apply IH.
  destruct (decide (prevout i = k)) as [->|Hn]; [apply lookup_delete_eq|by rewrite lookup_delete_ne].
Qed.

(** The value of the outputs that can and that can never be spent. *)
Fixpoint spendable_out (outs : list CTxOut) : Z :=
  match outs with
  | [] => 0
  | o :: outs' => (if Scr.IsUnspendable (scriptPubKey o) then 0 else nValue o) + spendable_out outs'
  end.

Fixpoint unspendable_out (outs : list CTxOut) : Z :=
  match outs with
  | [] => 0
  | o :: outs' => (if Scr.IsUnspendable (scriptPubKey o) then nValue o else 0) + unspendable_out outs'
  end.

Lemma split_out outs : total_out outs = spendable_out outs + unspendable_out outs.
Proof.
  induction outs as [|o outs IH]; [done|]. cbn [total_out spendable_out unspendable_out]. rewrite IH.
  destruct (Scr.IsUnspendable _); lia.
Qed.

Lemma unspendable_nonneg ae outs : Forall (output_ok ae) outs -> 0 <= unspendable_out outs.
Proof.
  induction 1 as [|o outs (_ & Ho & _) _ IH]; cbn [unspendable_out]; [lia|].
  destruct (Scr.IsUnspendable _); lia.
Qed.

Lemma total_value_created txid cb cs height outs : forall m i,
  (forall j, i <= j -> m !! mkOutPoint txid j = None) ->
  total_value (created m txid cb cs height i outs) = total_value m + spendable_out outs.
Proof.
  induction outs as [|o outs IH]; intros m i Hf; cbn [created spendable_out]; [lia|].
  destruct (Scr.IsUnspendable (scriptPubKey o)).
  - rewrite IH; [lia|]. intros j Hj. apply Hf. lia.
  - rewrite IH.
    + rewrite total_value_insert by (apply Hf; lia). unfold coin_value. cbn [out new_Coin]. lia.
    + intros j Hj. rewrite lookup_insert_ne by (intros [= ->]; lia). apply Hf. lia.
Qed.

Section Conservation.
Context {V : Type} `{Laws : CoinsViewLaws V}.
Variables (params : Params.Params) (usage : Coin -> Z).

(** What a successful check of the inputs has established. *)
Lemma check_inputs_spec nSpendHeight ins : forall c acc res,
  cache_ok usage c -> 0 <= acc <= MAX_MONEY ->
  check_inputs params usage c ins nSpendHeight acc = Some res ->
  cache_ok usage res.2 /\ cache_utxo res.2 = cache_utxo c /\
  forall v, res.1 = inl v ->
    Forall (fun i => is_Some (cache_utxo c !! prevout i)) ins
    /\ v = acc + input_value (cache_utxo c) ins /\ 0 <= v <= MAX_MONEY.
Proof.
  induction ins as [|i ins IH]; intros c acc res Hc Ha E; cbn [check_inputs] in E.
  { injection E as <-. split_and!; [done..|]. intros v [= <-]. cbn [input_value]. split_and!; [constructor|lia..]. }
  destruct (AccessCoin_spec usage c (prevout i) Hc) as (Hc1 & Hu1 & Hx).
  destruct (AccessCoin usage c (prevout i)) as [x c1]. cbn in Hc1, Hu1, Hx.
  destruct (IsSpent x) eqn:Es; [done|].
  destruct (cache_utxo c !! prevout i) as [x'|] eqn:Ex; [subst x'|congruence].
  destruct (_ && _); [injection E as <-; by split_and!|].
  destruct (MoneyRange (nValue (out x))) eqn:E1; [|injection E as <-; by split_and!].
  apply MoneyRange_spec in E1.
  assert (Hw : i64 (acc + nValue (out x)) = acc + nValue (out x))
    by (apply i64_small; unfold is_i64; unfold MAX_MONEY, COIN in *; lia).
  rewrite Hw in E. destruct (MoneyRange (acc + nValue (out x))) eqn:E2; [|injection E as <-; by split_and!].
  apply MoneyRange_spec in E2. cbn [negb orb] in E.
  destruct (IH c1 _ res Hc1 E2 E) as (H1 & H2 & H3). split_and!; [done|congruence|].
  intros v Hv. destruct (H3 v Hv) as (F & Ev & Bv). rewrite Hu1 in F, Ev.
  split_and!; [constructor; [by rewrite Ex|done]| |lia|lia]. cbn [input_value]. rewrite Ex. unfold coin_value. lia.
Qed.

Hypothesis usage_empty : usage coinEmpty = 0.

(** Spending distinct coins of the set succeeds and removes them. *)
Lemma spend_inputs_spec ins : forall c,
  cache_ok usage c -> NoDup (prevout <$> ins) -> Forall (fun i => is_Some (cache_utxo c !! prevout i)) ins ->
  exists l c', spend_inputs usage c ins = Some (l, c') /\ cache_ok usage c'
    /\ cache_utxo c' = spent (cache_utxo c) ins
    /\ Forall2 (fun i x => cache_utxo c !! prevout i = Some x) ins l.
Proof.
  induction ins as [|i ins IH]; intros c Hc Hn Hs; cbn [spend_inputs spent]; [by exists [], c|].
  rewrite fmap_cons, NoDup_cons in Hn. destruct Hn as [Hi Hn]. apply Forall_cons in Hs as [[x Hx] Hs].
  pose proof (SpendCoin_spec usage usage_empty c (prevout i) Hc) as Hsp.
  destruct (SpendCoin usage c (prevout i)) as [[b moved] c1]. rewrite Hx in Hsp.
  destruct Hsp as (Hc1 & Hu1 & _ & -> & ->).
  assert (Hne : forall j, j ∈ ins -> cache_utxo c1 !! prevout j = cache_utxo c !! prevout j).
  { intros j Hj. rewrite Hu1, lookup_delete_ne; [done|]. intros E. apply Hi. rewrite E. by apply list_elem_of_fmap_2. }
  destruct (IH c1 Hc1 Hn) as (l & c' & -> & Hc' & Hu' & Hl).
  - rewrite Forall_forall in Hs |- *. intros j Hj. rewrite Hne by done. by apply Hs.
  - exists (x :: l), c'. split_and!; [done|done|by rewrite Hu', Hu1|]. constructor; [done|].
    rewrite Forall2_same_length_lookup in Hl |- *. destruct Hl as [Hlen Hl]. split; [done|].
    intros n j y Hj Hy. rewrite <- Hne by (by eapply list_elem_of_lookup_2). by eapply Hl.
Qed.

Lemma UpdateCoins_spec c tx h :
  cache_ok usage c -> IsCoinBase tx = false -> NoDup (prevout <$> vin tx) ->
  Forall (fun i => is_Some (cache_utxo c !! prevout i)) (vin tx) ->
  Forall (fun o => TxOut_IsNull o = false) (vout tx) ->
  (forall j, 0 <= j -> cache_utxo c !! mkOutPoint (GetHash tx) j = None) ->
  exists undo c', UpdateCoins usage tx c h = Return true (undo, c') /\ cache_ok usage c'
    /\ cache_utxo c' = created (spent (cache_utxo c) (vin tx)) (GetHash tx) false (IsCoinStake tx) h 0 (vout tx)
    /\ Forall2 (fun i x => cache_utxo c !! prevout i = Some x) (vin tx) undo.
Proof.
  intros Hc Hcb Hn Hs Ho Hf. unfold UpdateCoins. rewrite Hcb.
  destruct (spend_inputs_spec (vin tx) c Hc Hn Hs) as (l & c1 & -> & Hc1 & Hu1 & Hl).
  unfold AddCoins. rewrite Hcb.
  destruct (add_outputs_spec usage (GetHash tx) false (IsCoinStake tx) h false (vout tx) 0 c1 Hc1 Ho)
    as (c2 & -> & Hc2 & Hu2).
  - intros _ _ j Hj. rewrite Hu1. by apply spent_lookup_None, Hf.
  - exists l, c2. split_and!; [done|done|by rewrite Hu2, Hu1|done].
Qed.

(** An accepted spend: the inputs exist, and cover the outputs and the fee. *)
Lemma CheckTxInputs_spec c tx st h fee0 st' fee c1 :
  cache_ok usage c -> IsCoinBase tx = false -> IsCoinStake tx = false ->
  CheckTxInputs params usage tx st c h fee0 = Return true (st', fee, c1) ->
  cache_ok usage c1 /\ cache_utxo c1 = cache_utxo c
  /\ Forall (fun i => is_Some (cache_utxo c !! prevout i)) (vin tx)
  /\ input_value (cache_utxo c) (vin tx) = total_out (vout tx) + fee /\ 0 <= fee <= MAX_MONEY.
Proof.
  intros Hc Hcb Hcs. unfold CheckTxInputs, HaveInputs. rewrite Hcb, Hcs. cbn [negb].
  destruct (have_inputs_spec usage (vin tx) c Hc) as (_ & Hc0 & Hu0).
  destruct (have_inputs usage c (vin tx)) as [have c0]. cbn in Hc0, Hu0. destruct have; [|done]. cbn [negb].
  destruct (check_inputs params usage c0 (vin tx) h 0) as [[r c2]|] eqn:E; [|done].
  destruct (check_inputs_spec h (vin tx) c0 0 _ Hc0 ltac:(done) E) as (H1 & H2 & H3). cbn in H1, H2, H3.
  destruct r as [v|[]]; [|done]. destruct (H3 v eq_refl) as (F & Ev & Bv). rewrite Hu0 in *.
  destruct (GetValueOut tx) as [vo|] eqn:Eo; [|done]. apply GetValueOut_iff in Eo as (Fo & -> & Bo).
  apply total_out_nonneg in Fo.
  destruct (Z.ltb_spec v (total_out (vout tx))); [done|].
  destruct (MoneyRange _) eqn:Em; [|done]. cbn [negb]. intros [= <- <- <-].
  apply MoneyRange_spec in Em. split_and!; [done|done|done| |lia|lia].
  assert (Ew : i64 (v - total_out (vout tx)) = v - total_out (vout tx)); [|lia].
  apply i64_small. unfold is_i64, MAX_MONEY, COIN in *.
  lia.
Qed.
End Conservation.

(** ** Properties *)

(** C25: an output that starts with an absolute lock cannot be spent early.
    Where [VerifyScript] accepts an input under [CHECKLOCKTIMEVERIFY] and the
    transaction is final for a block, the block's height, or its time for a lock
    in seconds, is above the lock. *)
Theorem cltv_spend CheckLowS Verify tx nIn amount txdata flags scriptSig witness lock rest nBlockHeight nBlockTime :
  has flags SCRIPT_VERIFY_CHECKLOCKTIMEVERIFY = true ->
  VerifyScript CheckLowS (TransactionSignatureChecker Verify tx nIn amount txdata) flags scriptSig
    (Scr.push_vch [] (Num.serialize lock) ++ OP_CHECKLOCKTIMEVERIFY :: rest) witness = Pass ->
  IsFinalTx tx nBlockHeight nBlockTime = true ->
  (nIn < length (vin tx))%nat -> 0 < nBlockHeight -> 0 <= nLockTime tx -> 0 <= lock < 2 ^ 39 ->
  (lock < LOCKTIME_THRESHOLD -> lock < nBlockHeight) /\ (LOCKTIME_THRESHOLD <= lock -> lock < nBlockTime).
Proof.
  intros Hf Hv Hfin Hn Hh Hl Hlock. apply verify_evaluates in Hv as (s & s' & E).
  apply cltv_checked in E; [|done..]. eapply final_after_check; [exact E|done..|lia].
Qed.

(** C26: an output that starts with a relative lock cannot be spent early.  Where
    [VerifyScript] accepts an input under [CHECKSEQUENCEVERIFY] and
    [SequenceLocks] accepts the transaction for a block, the block is at least as
    many blocks above the coin, or its median time as many units of 512 seconds
    after the coin's, as the lock says. *)
Theorem csv_spend CheckLowS Verify tx nIn amount txdata flags scriptSig witness seq rest
    m block lockflags hs hs' txin nCoinHeight :
  has flags SCRIPT_VERIFY_CHECKSEQUENCEVERIFY = true ->
  VerifyScript CheckLowS (TransactionSignatureChecker Verify tx nIn amount txdata) flags scriptSig
    (Scr.push_vch [] (Num.serialize seq) ++ OP_CHECKSEQUENCEVERIFY :: rest) witness = Pass ->
  SequenceLocks m tx lockflags hs block = Some (true, hs') ->
  Z.land lockflags LOCKTIME_VERIFY_SEQUENCE <> 0 ->
  0 <= seq < 2 ^ 39 -> Z.land seq SEQUENCE_LOCKTIME_DISABLE_FLAG = 0 ->
  vin tx !! nIn = Some txin -> hs !! nIn = Some nCoinHeight ->
  lock_passed m block nCoinHeight seq.
Proof.
  intros Hf Hv Hs Hlf Hseq Hd Hin Hh. apply verify_evaluates in Hv as (s & s' & E).
  apply csv_checked in E; [|done..]. exact (sequence_after_check m tx nIn seq lockflags hs block hs' txin nCoinHeight E Hs Hlf Hin Hh).
Qed.

(** C34: [CheckTransaction] accepts exactly the well-formed transactions, and on
    any other marks the state invalid with a reject code, a reason and a ban
    score of 10 or 100. *)
Theorem check_transaction_spec params dgpMaxBlockWeight tx state nHeight fDup :
  (tx_ok params dgpMaxBlockWeight tx nHeight fDup /\
   CheckTransaction params dgpMaxBlockWeight tx state nHeight fDup = (true, state)) \/
  (~ tx_ok params dgpMaxBlockWeight tx nHeight fDup /\
   exists level reason, (level = 10 \/ level = 100) /\
   CheckTransaction params dgpMaxBlockWeight tx state nHeight fDup
   = (false, DoS state level REJECT_INVALID reason false)).
Proof.
  rewrite <- tx_rejection_iff. unfold CheckTransaction.
  destruct (tx_rejection params dgpMaxBlockWeight tx nHeight fDup) as [[level reason]|] eqn:E; [right|by left].
  split; [done|]. exists level, reason. split; [|done]. by eapply rejection_level.
Qed.

(** C6: no transaction creates value.  After [CheckTransaction] and
    [CheckTxInputs] have accepted a transaction that is neither a coinbase nor a
    coinstake, and whose outputs are new, [UpdateCoins] succeeds, and the value of
    the coins has gone down by exactly the fee and what was sent to unspendable
    outputs. *)
Theorem no_inflation {V : Type} `{Laws : CoinsViewLaws V} params dgpMaxBlockWeight usage
    (c : CCoinsViewCache V) tx st h fee0 st' fee c1 :
  usage coinEmpty = 0 -> cache_ok usage c -> IsCoinBase tx = false -> IsCoinStake tx = false ->
  CheckTransaction params dgpMaxBlockWeight tx st h true = (true, st) ->
  CheckTxInputs params usage tx st c h fee0 = Return true (st', fee, c1) ->
  (forall j, 0 <= j -> cache_utxo c !! mkOutPoint (GetHash tx) j = None) ->
  exists undo c2, UpdateCoins usage tx c1 h = Return true (undo, c2) /\ cache_ok usage c2
    /\ total_value (cache_utxo c2) + fee + unspendable_out (vout tx) = total_value (cache_utxo c)
    /\ 0 <= fee /\ 0 <= unspendable_out (vout tx).
Proof.
  intros Hus Hc Hcb Hcs Hct Hci Hf.
  destruct (CheckTxInputs_spec params usage c tx st h fee0 st' fee c1 Hc Hcb Hcs Hci) as (Hc1 & Hu1 & Hin & Ev & Hfee).
  assert (Hok : tx_ok params dgpMaxBlockWeight tx h true).
  { apply tx_rejection_iff. unfold CheckTransaction in Hct. by destruct (tx_rejection _ _ _ _ _) as [[]|]. }
  destruct Hok as (_ & _ & _ & _ & _ & Ho & _ & _ & Hdup & _). specialize (Hdup eq_refl).
  destruct (UpdateCoins_spec usage Hus c1 tx h Hc1 Hcb Hdup) as (undo & c2 & E & Hc2 & Hu2 & _).
  - by rewrite Hu1.
  - eapply Forall_impl; [exact Ho|]. intros o (_ & Hv & _). unfold TxOut_IsNull. apply Z.eqb_neq. lia.
  - by rewrite Hu1.
  - exists undo, c2. split_and!; [done|done| |lia|by eapply unspendable_nonneg].
    rewrite Hu2, Hu1, total_value_created by (intros j Hj; by apply spent_lookup_None, Hf).
    rewrite total_value_spent, Ev, split_out by done. lia.
Qed.

Definition lock_tx (lock seq : Z) : CTransaction :=
  mkTransaction [mkTxIn (sample_key 0) [] seq []] [mkTxOut 4 [OP_1]] 2 lock.

Lemma cltv_spend_witness :
  (500 < LOCKTIME_THRESHOLD -> 500 < 501) /\ (LOCKTIME_THRESHOLD <= 500 -> 500 < 0).
Proof.
  refine (cltv_spend (fun _ => true) (fun _ _ _ => true) (lock_tx 500 0) 0 5 None (2 ^ 9) [] [] 500
    [OP_DROP; OP_1] 501 0 _ _ _ _ _ _ _); try (vm_compute; reflexivity); [cbn; lia..|split; [lia|reflexivity]].
Defined.

Lemma csv_spend_witness : lock_passed (mem demo_state) 2 1 1.
Proof.
  refine (csv_spend (fun _ => true) (fun _ _ _ => true) (lock_tx 0 1) 0 5 None (2 ^ 10) [] [] 1
    [OP_DROP; OP_1] (mem demo_state) 2 1 [1] [1] (mkTxIn (sample_key 0) [] 1 []) 1 _ _ _ _ _ _ _ _);
    try (vm_compute; reflexivity); [discriminate|split; [lia|reflexivity]].
Defined.

Definition lock_cache : CCoinsViewCache CCoinsViewDB :=
  new_cache (mkDB {[ sample_key 0 := sample_coin 5 ]} (Some (repeat 1 32)) []).

Lemma no_inflation_witness :
  exists c1 undo c2,
    @CheckTxInputs mainnet _ (db_view (fun _ => false)) sample_usage (lock_tx 0 0) new_state lock_cache 11 0
      = Return true (new_state, 1, c1)
    /\ @UpdateCoins _ (db_view (fun _ => false)) sample_usage (lock_tx 0 0) c1 11 = Return true (undo, c2)
    /\ @total_value (@cache_utxo _ _ (db_laws (fun _ => false)) c2) + 1 = 5.
Proof.
  destruct (@CheckTxInputs mainnet _ (db_view (fun _ => false)) sample_usage (lock_tx 0 0) new_state lock_cache 11 0)
    as [b [[st fee] c1]| |] eqn:E; [|by vm_compute in E..].
  exists c1.
  assert (Hdb : @view_ok _ _ (db_laws (fun _ => false)) (base lock_cache))
    by (split; [done|apply map_Forall_singleton; reflexivity]).
  assert (Eb : (b, st, fee) = (true, new_state, 1)).
  { transitivity (match @CheckTxInputs mainnet _ (db_view (fun _ => false)) sample_usage (lock_tx 0 0) new_state
      lock_cache 11 0 with Return b (st, fee, _) => (b, st, fee) | _ => (b, st, fee) end).
    - by rewrite E.
    - vm_compute. reflexivity. }
  injection Eb as -> -> ->.
  destruct (@no_inflation _ _ (db_laws (fun _ => false)) mainnet 4000000 sample_usage lock_cache (lock_tx 0 0)
    new_state 11 0 new_state 1 c1) as (undo & c2 & Eu & _ & Et & _).
  - reflexivity.
  - apply (@new_cache_spec _ _ (db_laws (fun _ => false))). exact Hdb.
  - reflexivity.
  - reflexivity.
  - vm_compute. reflexivity.
  - exact E.
  - intros j _. etransitivity.
    + exact (f_equal (lookup _) (proj2 (@new_cache_spec _ _ (db_laws (fun _ => false)) sample_usage _ Hdb))).
    + apply lookup_singleton_ne. intros Eq%(f_equal prevout_hash). revert Eq.
      apply (bool_decide_eq_false_1 _). vm_compute. reflexivity.
  - exists undo, c2. split; [done|]. split; [done|]. 
    change (unspendable_out (vout (lock_tx 0 0))) with 0 in Et. rewrite Z.add_0_r in Et.
    rewrite Et. vm_compute. reflexivity.
Defined.
