(* ===== verification/Undo.v ===== *)
(** * Undoing blocks: [AccessByTxid] of [src/src/coins.cpp], [ApplyTxInUndo] and
    [CChainState::DisconnectBlock] of [src/src/validation.cpp]

    Disconnecting a block takes its outputs out of the set of coins and puts the
    coins it spent back, from the records kept when it was connected.  The model
    covers the set of coins; the contract state and the address, log and stake
    indexes that [DisconnectBlock] rolls back beside it are other stores. *)
From Stdlib Require Import ZArith Lia List Bool.
From S2P Require Import Prelude Serialize Script Primitives Coins Chain TxVerify.
From stdpp Require Import base tactics list numbers countable gmap.
#[local] Open Scope Z_scope.

#[export] Instance CTxOut_eq_dec : EqDecision CTxOut.
Proof. solve_decision. Defined.

Inductive DisconnectResult : Set := DISCONNECT_OK | DISCONNECT_UNCLEAN | DISCONNECT_FAILED.

Definition MIN_TRANSACTION_OUTPUT_WEIGHT : Z :=
  WITNESS_SCALE_FACTOR * Z.of_nat (length (ser txout_codec TxOut_SetNull)).

Section Undo.
Context {V : Type} `{CoinsView V}.
Variable usage : Coin -> Z.

(** The weight limit of a block when the program started. *)
Variable dgpMaxBlockWeight : Z.

Definition MAX_OUTPUTS_PER_BLOCK : Z := dgpMaxBlockWeight / MIN_TRANSACTION_OUTPUT_WEIGHT.

(** The loop, with [left] outputs still to try from output [n] on. *)
Fixpoint access_by_txid (left : nat) (view : CCoinsViewCache V) (txid : list Z) (n : Z)
  : Coin * CCoinsViewCache V :=
  match left with
  | O => (coinEmpty, view)
  | S left' =>
      let '(alternate, view) := AccessCoin usage view (mkOutPoint txid n) in
      if negb (IsSpent alternate) then (alternate, view) else access_by_txid left' view txid (n + 1)
  end.

Definition AccessByTxid (view : CCoinsViewCache V) (txid : list Z) : Coin * CCoinsViewCache V :=
  access_by_txid (Z.to_nat MAX_OUTPUTS_PER_BLOCK) view txid 0.

(** [None] is an exception or a failed assertion. *)
Definition ApplyTxInUndo (undo : Coin) (view : CCoinsViewCache V) (k : COutPoint)
  : option (DisconnectResult * CCoinsViewCache V) :=
  let '(have, view) := HaveCoin usage view k in
  let fClean := negb have in
  let '(undo, view) :=
    if nHeight undo =? 0 then
      let '(alternate, view) := AccessByTxid view (prevout_hash k) in
      (if IsSpent alternate then None
       else Some (mkCoin (out undo) (fCoinBase alternate) (fCoinStake undo) (nHeight alternate)), view)
    else (Some undo, view) in
  match undo with
  | None => Some (DISCONNECT_FAILED, view)
  | Some undo =>
      match AddCoin usage view k undo (negb fClean) with
      | Return _ view => Some (if fClean then DISCONNECT_OK else DISCONNECT_UNCLEAN, view)
      | _ => None
      end
  end.

(** The loop over the outputs of a transaction from output [o] on. *)
Fixpoint remove_outputs (view : CCoinsViewCache V) (hash : list Z) (is_coinbase is_coinstake : bool) (height o : Z)
    (outs : list CTxOut) (fClean : bool) : bool * CCoinsViewCache V :=
  match outs with
  | [] => (fClean, view)
  | txout :: outs' =>
      if Scr.IsUnspendable (scriptPubKey txout) then
        remove_outputs view hash is_coinbase is_coinstake height (o + 1) outs' fClean
      else
        let '(is_spent, moved, view) := SpendCoin usage view (mkOutPoint hash o) in
        let coin := match moved with Some x => x | None => coinEmpty end in
        let mismatch := negb is_spent || negb (bool_decide (txout = out coin)) || negb (height =? nHeight coin)
          || xorb is_coinbase (fCoinBase coin) || xorb is_coinstake (fCoinStake coin) in
        remove_outputs view hash is_coinbase is_coinstake height (o + 1) outs' (if mismatch then false else fClean)
  end.

(** The loop over the inputs, the last one first.  The inner [None] is
    [DISCONNECT_FAILED], the outer one an exception. *)
Fixpoint restore_inputs (view : CCoinsViewCache V) (l : list (CTxIn * Coin)) (fClean : bool)
  : option (option bool * CCoinsViewCache V) :=
  match l with
  | [] => Some (Some fClean, view)
  | (i, undo) :: l' =>
      match restore_inputs view l' fClean with
      | Some (Some fClean, view) =>
          match ApplyTxInUndo undo view (prevout i) with
          | Some (DISCONNECT_FAILED, view) => Some (None, view)
          | Some (DISCONNECT_UNCLEAN, view) => Some (Some false, view)
          | Some (DISCONNECT_OK, view) => Some (Some fClean, view)
          | None => None
          end
      | r => r
      end
  end.

(** One transaction; [txundo] is [None] for the first one of the block. *)
Definition disconnect_tx (view : CCoinsViewCache V) (height : Z) (tx : CTransaction) (txundo : option (list Coin))
    (fClean : bool) : option (option bool * CCoinsViewCache V) :=
  let '(fClean, view) :=
    remove_outputs view (GetHash tx) (IsCoinBase tx) (IsCoinStake tx) height 0 (vout tx) fClean in
  match txundo with
  | None => Some (Some fClean, view)
  | Some vprevout =>
      if negb (length vprevout =? length (vin tx))%nat then Some (None, view)
      else restore_inputs view (combine (vin tx) vprevout) fClean
  end.

(** The loop over the transactions, the last one first. *)
Fixpoint disconnect_txs (view : CCoinsViewCache V) (height : Z) (l : list (CTransaction * option (list Coin)))
    (fClean : bool) : option (option bool * CCoinsViewCache V) :=
  match l with
  | [] => Some (Some fClean, view)
  | (tx, txundo) :: l' =>
      match disconnect_txs view height l' fClean with
      | Some (Some fClean, view) => disconnect_tx view height tx txundo fClean
      | r => r
      end
  end.

(** [vtxundo] is what [UndoReadFromDisk] gives, [None] where it fails. *)
Definition DisconnectBlock (m : memory) (block : CBlock) (pindex : nat) (vtxundo : option (list (list Coin)))
    (view : CCoinsViewCache V) : option (DisconnectResult * CCoinsViewCache V) :=
  match m !! pindex with
  | None => None
  | Some b =>
      let '(best, view) := GetBestBlock view in
      if negb (bool_decide (bi_hash b = best)) then None
      else
        match vtxundo with
        | None => Some (DISCONNECT_FAILED, view)
        | Some vtxundo =>
            if negb (length vtxundo + 1 =? length (vtx block))%nat then Some (DISCONNECT_FAILED, view)
            else
              match disconnect_txs view (bi_nHeight b) (combine (vtx block) (None :: map Some vtxundo)) true with
              | None => None
              | Some (None, view) => Some (DISCONNECT_FAILED, view)
              | Some (Some fClean, view) =>
                  match bi_pprev b with
                  | None => None
                  | Some q =>
                      match m !! q with
                      | None => None
                      | Some p =>
                          Some (if fClean then DISCONNECT_OK else DISCONNECT_UNCLEAN, SetBestBlock view (bi_hash p))
                      end
                  end
              end
        end
  end.
End Undo.

(** ** What a transaction does to the set of coins *)

(** The coin that output [k] of a transaction becomes, where it is one of
    [outs] starting at [i] and may be spent. *)
Definition output_coin (txid : list Z) (cb cs : bool) (height i : Z) (outs : list CTxOut) (k : COutPoint) : option Coin :=
  if decide (prevout_hash k = txid /\ i <= prevout_n k) then
    match outs !! Z.to_nat (prevout_n k - i) with
    | Some o => if Scr.IsUnspendable (scriptPubKey o) then None else Some (new_Coin o height cb cs)
    | None => None
    end
  else None.

Lemma created_lookup txid cb cs height outs k : forall m i,
  created m txid cb cs height i outs !! k
  = match output_coin txid cb cs height i outs k with Some x => Some x | None => m !! k end.
Proof.
  destruct k as [h n]. unfold output_coin. cbn [prevout_hash prevout_n].
  induction outs as [|o outs IH]; intros m i; cbn [created].
  { destruct (decide _); [|done]. by rewrite lookup_nil. }
  rewrite IH. clear IH. destruct (decide (h = txid /\ i <= n)) as [[-> Hi]|Hn].
  - destruct (decide (i = n)) as [->|Hne].
    + rewrite decide_False by lia. replace (n - n) with 0 by lia.
      change ((o :: outs) !! Z.to_nat 0) with (Some o). cbv beta iota.
      destruct (Scr.IsUnspendable (scriptPubKey o)); [done|apply lookup_insert_eq].
    + rewrite decide_True by (split; [done|lia]). replace (Z.to_nat (n - i)) with (S (Z.to_nat (n - (i + 1)))) by lia.
      change ((o :: outs) !! S (Z.to_nat (n - (i + 1)))) with (outs !! Z.to_nat (n - (i + 1))).
      destruct (outs !! _) as [o'|]; [destruct (Scr.IsUnspendable (scriptPubKey o')); [|done]|];
      (destruct (Scr.IsUnspendable (scriptPubKey o)); [done|]; by rewrite lookup_insert_ne by congruence).
  - rewrite decide_False by (intros [-> Hi]; apply Hn; split; [done|lia]).
    destruct (Scr.IsUnspendable (scriptPubKey o)); [done|]. rewrite lookup_insert_ne; [done|].
    intros [= -> ->]. apply Hn. split; [done|lia].
Qed.

Lemma spent_lookup ins k : forall m,
  spent m ins !! k = if decide (k ∈ prevout <$> ins) then None else m !! k.
Proof.
  induction ins as [|i ins IH]; intros m; cbn [spent].
  { destruct (decide _) as [H|]; [|done]. by apply elem_of_nil in H. }
  rewrite IH. destruct (decide (prevout i = k)) as [<-|Hne].
  - rewrite (decide_True (P := _ ∈ prevout <$> i :: ins)) by (rewrite fmap_cons; left).
    destruct (decide _); [done|]. apply lookup_delete_eq.
  - rewrite lookup_delete_ne by done. destruct (decide (k ∈ prevout <$> ins)) as [H|H].
    + by rewrite decide_True by (rewrite fmap_cons; by right).
    + rewrite decide_False; [done|]. rewrite fmap_cons. intros [E|E]%elem_of_cons; [by subst|done].
Qed.

(** The set after a transaction. *)
Definition tx_step (height : Z) (m : gmap COutPoint Coin) (tx : CTransaction) : gmap COutPoint Coin :=
  created (if IsCoinBase tx then m else spent m (vin tx)) (GetHash tx) (IsCoinBase tx) (IsCoinStake tx) height 0 (vout tx).

(** A transaction whose outputs are new spends the coins [u] of [m]. *)
Definition applies (height : Z) (m : gmap COutPoint Coin) (tx : CTransaction) (u : list Coin) : Prop :=
  (forall j, 0 <= j -> m !! mkOutPoint (GetHash tx) j = None)
  /\ Forall (fun o => TxOut_IsNull o = false) (vout tx)
  /\ (IsCoinBase tx = false ->
      NoDup (prevout <$> vin tx) /\ Forall2 (fun i x => m !! prevout i = Some x) (vin tx) u).

(** What every coin of the set satisfies: it is unspent, can be spent, and was
    created above the first block. *)
Definition coin_good (x : Coin) : Prop :=
  IsSpent x = false /\ Scr.IsUnspendable (scriptPubKey (out x)) = false /\ nHeight x <> 0.

Definition coins_good (m : gmap COutPoint Coin) : Prop := map_Forall (fun _ => coin_good) m.

Lemma tx_step_good height m tx :
  0 < height < 2 ^ 30 -> Forall (fun o => TxOut_IsNull o = false) (vout tx) ->
  coins_good m -> coins_good (tx_step height m tx).
Proof.
  intros Hh Ho Hg k x. unfold tx_step. rewrite created_lookup. unfold output_coin.
  destruct (decide _) as [_|_].
  - destruct (vout tx !! _) as [o|] eqn:Eo; cbn.
    + destruct (Scr.IsUnspendable (scriptPubKey o)) eqn:Eu.
      * destruct (IsCoinBase tx); [apply Hg|]. rewrite spent_lookup. case_decide; [done|apply Hg].
      * intros [= <-]. rewrite Forall_lookup in Ho. specialize (Ho _ _ Eo).
        split_and!; [done|done|]. cbn. rewrite Z.mod_small; lia.
    + destruct (IsCoinBase tx); [apply Hg|]. rewrite spent_lookup. case_decide; [done|apply Hg].
  - destruct (IsCoinBase tx); [apply Hg|]. rewrite spent_lookup. case_decide; [done|apply Hg].
Qed.

(** ** Undoing a transaction *)

Section Roundtrip.
Context {V : Type} `{Laws : CoinsViewLaws V}.
Variables (usage : Coin -> Z) (dgpMaxBlockWeight : Z).
Hypothesis usage_empty : usage coinEmpty = 0.

Lemma created_delete txid cb cs height outs j : forall m i,
  j < i ->
  delete (mkOutPoint txid j) (created m txid cb cs height i outs)
  = created (delete (mkOutPoint txid j) m) txid cb cs height i outs.
Proof.
  induction outs as [|o outs IH]; intros m i Hj; cbn [created]; [done|].
  rewrite IH by lia. f_equal. destruct (Scr.IsUnspendable (scriptPubKey o)); [done|].
  apply delete_insert_ne. intros [= ->]. lia.
Qed.

(** The outputs of a transaction that are still there match the block. *)
Lemma remove_outputs_spec txid cb cs height outs b : forall i m c,
  0 <= height < 2 ^ 30 -> cache_ok usage c ->
  (forall j, i <= j -> m !! mkOutPoint txid j = None) ->
  cache_utxo c = created m txid cb cs height i outs ->
  exists c', remove_outputs usage c txid cb cs height i outs b = (b, c')
    /\ cache_ok usage c' /\ cache_utxo c' = m.
Proof.
  induction outs as [|o outs IH]; intros i m c Hh Hc Hf Hu; cbn [remove_outputs created] in *; [by exists c|].
  destruct (Scr.IsUnspendable (scriptPubKey o)).
  { apply IH; [done|done| |done]. intros j Hj. apply Hf. lia. }
  pose proof (SpendCoin_spec usage usage_empty c (mkOutPoint txid i) Hc) as Hs.
  destruct (SpendCoin usage c (mkOutPoint txid i)) as [[is_spent moved] c1].
  destruct Hs as (Hc1 & Hu1 & _ & Hr). rewrite Hu in Hu1, Hr.
  rewrite created_lookup_lt, lookup_insert_eq in Hr by lia. destruct Hr as [-> ->].
  rewrite created_delete, delete_insert_id in Hu1 by (try lia; apply Hf; lia).
  cbn [out nHeight fCoinBase fCoinStake new_Coin negb orb]. rewrite bool_decide_true by done.
  rewrite Z.mod_small by done. rewrite Z.eqb_refl, !xorb_nilpotent. cbn [negb orb].
  apply (IH (i + 1) m c1); [done|done| |done]. intros j Hj. apply Hf. lia.
Qed.

(** A coin put back where there is none. *)
Lemma ApplyTxInUndo_spec x c k :
  cache_ok usage c -> coin_good x -> cache_utxo c !! k = None ->
  exists c', ApplyTxInUndo usage dgpMaxBlockWeight x c k = Some (DISCONNECT_OK, c')
    /\ cache_ok usage c' /\ cache_utxo c' = <[k := x]> (cache_utxo c).
Proof.
  intros Hc (Hs & Hsp & Hh) Hk. unfold ApplyTxInUndo.
  destruct (HaveCoin_spec usage c k Hc) as (E & Hc1 & Hu1 & _).
  destruct (HaveCoin usage c k) as [have c1]. cbn [fst snd] in E, Hc1, Hu1. rewrite Hk in E.
  rewrite bool_decide_false in E by (intros []; done). subst have. cbn [negb].
  apply Z.eqb_neq in Hh. rewrite Hh.
  destruct (AddCoin_spec usage c1 k x false Hc1 Hs) as (c2 & -> & Hc2 & _ & Hu2); [by rewrite Hu1|].
  exists c2. rewrite Hu2, Hu1, Hsp. by split_and!.
Qed.

(** The coins spent, put back. *)
Definition restored (m : gmap COutPoint Coin) (l : list (CTxIn * Coin)) : gmap COutPoint Coin :=
  foldr (fun '(i, x) m => <[prevout i := x]> m) m l.

Lemma restored_lookup_None m l k :
  k ∉ (fun p => prevout p.1) <$> l -> m !! k = None -> restored m l !! k = None.
Proof.
  induction l as [|[i x] l IH]; [done|]. rewrite fmap_cons, not_elem_of_cons. intros [Hk Hl] Hm. cbn [restored foldr].
  rewrite lookup_insert_ne by (cbn in Hk; congruence). by apply IH.
Qed.

Lemma restore_inputs_spec l b : forall c,
  cache_ok usage c -> NoDup ((fun p => prevout p.1) <$> l) -> Forall (fun p => coin_good p.2) l ->
  Forall (fun p => cache_utxo c !! prevout p.1 = None) l ->
  exists c', restore_inputs usage dgpMaxBlockWeight c l b = Some (Some b, c')
    /\ cache_ok usage c' /\ cache_utxo c' = restored (cache_utxo c) l.
Proof.
  induction l as [|[i x] l IH]; intros c Hc Hn Hg Hl; cbn [restore_inputs restored foldr]; [by exists c|].
  rewrite fmap_cons, NoDup_cons in Hn. destruct Hn as [Hi Hn].
  apply Forall_cons in Hg as [Hx Hg]. apply Forall_cons in Hl as [Hk Hl].
  destruct (IH c Hc Hn Hg Hl) as (c1 & -> & Hc1 & Hu1).
  destruct (ApplyTxInUndo_spec x c1 (prevout i) Hc1 Hx) as (c2 & -> & Hc2 & Hu2).
  { rewrite Hu1. by apply restored_lookup_None. }
  exists c2. rewrite Hu2, Hu1. by split_and!.
Qed.

Lemma fmap_combine {A B C} (f : A -> C) (l : list A) (u : list B) :
  length u = length l -> (fun p => f p.1) <$> combine l u = f <$> l.
Proof.
  revert u. induction l as [|a l IH]; intros [|y u] Hl; try done. cbn. f_equal. apply IH. cbn in Hl. lia.
Qed.

Lemma restored_insert_ne l m i x k :
  prevout i <> k -> restored (<[prevout i := x]> m) l !! k = restored m l !! k.
Proof.
  intros Hne. induction l as [|[j y] l IH]; cbn [restored foldr]; [by rewrite lookup_insert_ne|].
  destruct (decide (prevout j = k)) as [<-|Hj]; [by rewrite !lookup_insert_eq|].
  rewrite !(lookup_insert_ne _ (prevout j)) by done. exact IH.
Qed.

Lemma restored_same m ins u : Forall2 (fun i x => m !! prevout i = Some x) ins u -> forall m',
  (forall k, k ∉ prevout <$> ins -> m' !! k = m !! k) -> restored m' (combine ins u) = m.
Proof.
  induction 1 as [|i x ins u Hx Hu IH]; intros m' Hm'; cbn [combine restored foldr]; apply map_eq; intros k.
  - apply Hm', not_elem_of_nil.
  - destruct (decide (prevout i = k)) as [<-|Hne]; [by rewrite lookup_insert_eq|].
    rewrite lookup_insert_ne by done. rewrite <- (IH (<[prevout i := x]> m')).
    + symmetry. by apply restored_insert_ne.
    + intros j Hj. destruct (decide (prevout i = j)) as [<-|Hi]; [by rewrite lookup_insert_eq|].
      rewrite lookup_insert_ne by done. apply Hm'. rewrite fmap_cons, not_elem_of_cons. by split; [congruence|].
Qed.

Lemma restored_spent ins m u :
  Forall2 (fun i x => m !! prevout i = Some x) ins u -> restored (spent m ins) (combine ins u) = m.
Proof.
  intros Hu. apply (restored_same _ _ _ Hu). intros k Hk. rewrite spent_lookup. by rewrite decide_False.
Qed.

(** Undoing a transaction gives back the set it was applied to. *)
Lemma disconnect_tx_spec height m tx u b c :
  0 < height < 2 ^ 30 -> cache_ok usage c -> coins_good m -> applies height m tx u ->
  cache_utxo c = tx_step height m tx ->
  exists c', disconnect_tx usage dgpMaxBlockWeight c height tx (if IsCoinBase tx then None else Some u) b
      = Some (Some b, c')
    /\ cache_ok usage c' /\ cache_utxo c' = m.
Proof.
  intros Hh Hc Hg (Hf & Ho & Hin) Hu. unfold disconnect_tx, tx_step in *.
  destruct (remove_outputs_spec (GetHash tx) (IsCoinBase tx) (IsCoinStake tx) height (vout tx) b 0
    (if IsCoinBase tx then m else spent m (vin tx)) c) as (c1 & -> & Hc1 & Hu1); [lia|done| |done|].
  { intros j Hj. destruct (IsCoinBase tx); [by apply Hf|]. by apply spent_lookup_None, Hf. }
  destruct (IsCoinBase tx); [by exists c1|]. destruct (Hin eq_refl) as [Hn Hl].
  pose proof (Forall2_length _ _ _ Hl) as Hlen. rewrite <- Hlen, Nat.eqb_refl. cbn [negb].
  destruct (restore_inputs_spec (combine (vin tx) u) b c1 Hc1) as (c2 & -> & Hc2 & Hu2).
  - by rewrite (fmap_combine prevout) by done.
  - apply Forall_forall. intros [i x] Hp. apply list_elem_of_In, in_combine_r, list_elem_of_In in Hp.
    apply list_elem_of_lookup_1 in Hp as [n Hn']. destruct (Forall2_lookup_r _ _ _ _ _ Hl Hn') as (j & _ & Hj).
    exact (Hg _ _ Hj).
  - apply Forall_forall. intros [i x] Hp. apply list_elem_of_In, in_combine_l, list_elem_of_In in Hp.
    cbn [fst]. rewrite Hu1, spent_lookup. rewrite decide_True; [done|]. by apply list_elem_of_fmap_2.
  - exists c2. split_and!; [done|done|]. rewrite Hu2, Hu1. by apply restored_spent.
Qed.

(** A sequence of transactions with the coins each of them spends. *)
Inductive applies_all (height : Z) : gmap COutPoint Coin -> list (CTransaction * list Coin) -> gmap COutPoint Coin -> Prop :=
| applies_nil m : applies_all height m [] m
| applies_cons m tx u l m' :
    applies height m tx u -> applies_all height (tx_step height m tx) l m' ->
    applies_all height m ((tx, u) :: l) m'.

(** The undo records in the order of the block, which has none for a coinbase. *)
Definition undo_of (p : CTransaction * list Coin) : CTransaction * option (list Coin) :=
  (p.1, if IsCoinBase p.1 then None else Some p.2).

Lemma disconnect_txs_spec height b : 0 < height < 2 ^ 30 -> forall l m m' c,
  cache_ok usage c -> coins_good m -> applies_all height m l m' -> cache_utxo c = m' ->
  exists c', disconnect_txs usage dgpMaxBlockWeight c height (map undo_of l) b = Some (Some b, c')
    /\ cache_ok usage c' /\ cache_utxo c' = m.
Proof.
  intros Hh. induction l as [|[tx u] l IH]; intros m m' c Hc Hg Ha Hu; inversion Ha as [|? ? ? ? ? Ht Hl]; subst.
  { by exists c. }
  destruct (IH _ _ c Hc (tx_step_good _ _ _ Hh (proj1 (proj2 Ht)) Hg) Hl eq_refl) as (c1 & E & Hc1 & Hu1).
  destruct (disconnect_tx_spec height m tx u b c1 Hh Hc1 Hg Ht Hu1) as (c2 & E2 & Hc2 & Hu2).
  exists c2. split; [|by split]. cbn [map undo_of disconnect_txs fst snd]. by rewrite E.
Qed.
End Roundtrip.
