(* ===== verification/Connect.v ===== *)
(** * Connecting blocks: [CheckInputs], [CheckOpSender], [CheckSenderScript] and
    [CChainState::ConnectBlock] of [src/src/validation.cpp]

    What [ConnectBlock] does to the set of coins: for each transaction the checks
    against the coins it spends, the script checks, which may be queued, and the
    update, with the records [DisconnectBlock] needs.  A coinstake that calls
    contracts is checked in its place and applied after all the others.

    The execution of contracts and the address, log and stake indexes are left
    out, and the checks on the reward are in [Reward].  They do not change the
    coins and may only reject a block that the model accepts. *)
From Stdlib Require Import ZArith Lia List Bool String.
From S2P Require Import Prelude Serialize Script Hash Interpreter Primitives Sighash Standard Coins Chain Params TxVerify Undo.
From stdpp Require Import base tactics list numbers countable gmap.
#[local] Open Scope Z_scope.

(** ** Script errors and flags *)

Definition ScriptErrorString (serror : ScriptError) : string :=
  match serror with
  | SCRIPT_ERR_OK => "No error"
  | SCRIPT_ERR_EVAL_FALSE => "Script evaluated without error but finished with a false/empty top stack element"
  | SCRIPT_ERR_VERIFY => "Script failed an OP_VERIFY operation"
  | SCRIPT_ERR_EQUALVERIFY => "Script failed an OP_EQUALVERIFY operation"
  | SCRIPT_ERR_CHECKMULTISIGVERIFY => "Script failed an OP_CHECKMULTISIGVERIFY operation"
  | SCRIPT_ERR_CHECKSIGVERIFY => "Script failed an OP_CHECKSIGVERIFY operation"
  | SCRIPT_ERR_NUMEQUALVERIFY => "Script failed an OP_NUMEQUALVERIFY operation"
  | SCRIPT_ERR_SCRIPT_SIZE => "Script is too big"
  | SCRIPT_ERR_PUSH_SIZE => "Push value size limit exceeded"
  | SCRIPT_ERR_OP_COUNT => "Operation limit exceeded"
  | SCRIPT_ERR_STACK_SIZE => "Stack size limit exceeded"
  | SCRIPT_ERR_SIG_COUNT => "Signature count negative or greater than pubkey count"
  | SCRIPT_ERR_PUBKEY_COUNT => "Pubkey count negative or limit exceeded"
  | SCRIPT_ERR_BAD_OPCODE => "Opcode missing or not understood"
  | SCRIPT_ERR_DISABLED_OPCODE => "Attempted to use a disabled opcode"
  | SCRIPT_ERR_INVALID_STACK_OPERATION => "Operation not valid with the current stack size"
  | SCRIPT_ERR_INVALID_ALTSTACK_OPERATION => "Operation not valid with the current altstack size"
  | SCRIPT_ERR_OP_RETURN => "OP_RETURN was encountered"
  | SCRIPT_ERR_UNBALANCED_CONDITIONAL => "Invalid OP_IF construction"
  | SCRIPT_ERR_NEGATIVE_LOCKTIME => "Negative locktime"
  | SCRIPT_ERR_UNSATISFIED_LOCKTIME => "Locktime requirement not satisfied"
  | SCRIPT_ERR_SIG_HASHTYPE => "Signature hash type missing or not understood"
  | SCRIPT_ERR_SIG_DER => "Non-canonical DER signature"
  | SCRIPT_ERR_MINIMALDATA => "Data push larger than necessary"
  | SCRIPT_ERR_SIG_PUSHONLY => "Only non-push operators allowed in signatures"
  | SCRIPT_ERR_SIG_HIGH_S => "Non-canonical signature: S value is unnecessarily high"
  | SCRIPT_ERR_SIG_NULLDUMMY => "Dummy CHECKMULTISIG argument must be zero"
  | SCRIPT_ERR_MINIMALIF => "OP_IF/NOTIF argument must be minimal"
  | SCRIPT_ERR_SIG_NULLFAIL => "Signature must be zero for failed CHECK(MULTI)SIG operation"
  | SCRIPT_ERR_DISCOURAGE_UPGRADABLE_NOPS => "NOPx reserved for soft-fork upgrades"
  | SCRIPT_ERR_DISCOURAGE_UPGRADABLE_WITNESS_PROGRAM => "Witness version reserved for soft-fork upgrades"
  | SCRIPT_ERR_PUBKEYTYPE => "Public key is neither compressed or uncompressed"
  | SCRIPT_ERR_CLEANSTACK => "Extra items left on stack after execution"
  | SCRIPT_ERR_WITNESS_PROGRAM_WRONG_LENGTH => "Witness program has incorrect length"
  | SCRIPT_ERR_WITNESS_PROGRAM_WITNESS_EMPTY => "Witness program was passed an empty witness"
  | SCRIPT_ERR_WITNESS_PROGRAM_MISMATCH => "Witness program hash mismatch"
  | SCRIPT_ERR_WITNESS_MALLEATED => "Witness requires empty scriptSig"
  | SCRIPT_ERR_WITNESS_MALLEATED_P2SH => "Witness requires only-redeemscript scriptSig"
  | SCRIPT_ERR_WITNESS_UNEXPECTED => "Witness provided for non-witness script"
  | SCRIPT_ERR_WITNESS_PUBKEYTYPE => "Using non-compressed keys in segwit"
  | SCRIPT_ERR_OP_CODESEPARATOR => "Using OP_CODESEPARATOR in non-witness script"
  | SCRIPT_ERR_SIG_FINDANDDELETE => "Signature is found in scriptCode"
  | SCRIPT_ERR_UNKNOWN_ERROR => "unknown error"
  end%string.

(** A mask has the bits of the flags. *)
Definition mask (bits : list Z) : Z := fold_right (fun b m => Z.lor (Z.shiftl 1 b) m) 0 bits.

Definition MANDATORY_SCRIPT_VERIFY_FLAGS : Z := mask [SCRIPT_VERIFY_P2SH].

Definition STANDARD_SCRIPT_VERIFY_FLAGS : Z :=
  Z.lor MANDATORY_SCRIPT_VERIFY_FLAGS
    (mask [SCRIPT_VERIFY_DERSIG; SCRIPT_VERIFY_STRICTENC; SCRIPT_VERIFY_MINIMALDATA; SCRIPT_VERIFY_NULLDUMMY;
           SCRIPT_VERIFY_DISCOURAGE_UPGRADABLE_NOPS; SCRIPT_VERIFY_CLEANSTACK; SCRIPT_VERIFY_MINIMALIF;
           SCRIPT_VERIFY_NULLFAIL; SCRIPT_VERIFY_CHECKLOCKTIMEVERIFY; SCRIPT_VERIFY_CHECKSEQUENCEVERIFY;
           SCRIPT_VERIFY_LOW_S; SCRIPT_VERIFY_WITNESS; SCRIPT_VERIFY_DISCOURAGE_UPGRADABLE_WITNESS_PROGRAM;
           SCRIPT_VERIFY_WITNESS_PUBKEYTYPE; SCRIPT_VERIFY_CONST_SCRIPTCODE]).

Definition STANDARD_NOT_MANDATORY_VERIFY_FLAGS : Z :=
  Z.ldiff STANDARD_SCRIPT_VERIFY_FLAGS MANDATORY_SCRIPT_VERIFY_FLAGS.

Definition REJECT_NONSTANDARD : Z := 64.

(** How a check ends: it goes on, it rejects, or the program stops (a failed
    assertion or an exception). *)
Inductive checked (A : Type) : Type :=
| Accepted (a : A)
| Rejected (s : CValidationState)
| Crashed.
Arguments Accepted {A} _.
Arguments Rejected {A} _.
Arguments Crashed {A}.

Definition and_then {A B : Type} (r : checked A) (k : A -> checked B) : checked B :=
  match r with Accepted a => k a | Rejected s => Rejected s | Crashed => Crashed end.

#[local] Notation "'let!' p ':=' e 'in' k" := (and_then e (fun p => k)) (at level 10, p pattern, e at level 200, k at level 200).

(** [None] is a failed assertion or an exception. *)
Definition or_crash {A : Type} (o : option A) : checked A :=
  match o with Some a => Accepted a | None => Crashed end.

Definition guard (b : bool) (s : CValidationState) : checked unit := if b then Accepted tt else Rejected s.

(** ** Script checks *)

(** A check of an input against the output it spends, or of the sender
    signature in an output. *)
Inductive CScriptCheck : Type :=
| input_check (m_tx_out : CTxOut) (txTo : CTransaction) (nIn : nat) (nFlags : Z)
| output_check (txTo : CTransaction) (nOut : nat) (nFlags : Z).

Section ScriptChecks.
Context {V : Type} `{CoinsView V}.
Variable usage : Coin -> Z.

(** The test for low S values and the verification of signatures, over
    secp256k1; the signature cache remembers answers of the latter. *)
Variables (CheckLowS : list Z -> bool) (Verify : list Z -> list Z -> list Z -> bool).

(** Whether the script execution cache has an entry, and its nonce. *)
Variables (contains : list Z -> bool) (scriptExecutionCacheNonce : list Z).

(** [CScriptCheck::operator()], with [GetScriptError]. *)
Definition run_check (c : CScriptCheck) : verdict :=
  match c with
  | output_check tx nOut nFlags =>
      match vout tx !! nOut with
      | None => Interpreter.Abort
      | Some o =>
          match ExtractSenderData (scriptPubKey o) with
          | None => Fail SCRIPT_ERR_UNKNOWN_ERROR
          | Some (senderPubKey, senderSig) =>
              VerifyScript CheckLowS
                (TransactionSignatureOutputChecker Verify tx nOut (nValue o) (Some (PrecomputeTransactionData tx)))
                nFlags senderSig senderPubKey []
          end
      end
  | input_check m_tx_out tx nIn nFlags =>
      match vin tx !! nIn with
      | None => Interpreter.Abort
      | Some i =>
          VerifyScript CheckLowS
            (TransactionSignatureChecker Verify tx nIn (nValue m_tx_out) (Some (PrecomputeTransactionData tx)))
            nFlags (scriptSig i) (scriptPubKey m_tx_out) (scriptWitness i)
      end
  end.

Definition hashCacheEntry (tx : CTransaction) (flags : Z) : list Z :=
  let h := Hasher64.Write CSHA256 (Hasher64.new CSHA256) (firstn 19 scriptExecutionCacheNonce) in
  let h := Hasher64.Write CSHA256 h (GetWitnessHash tx) in
  let h := Hasher64.Write CSHA256 h (WriteLE32 flags) in
  fst (Hasher64.Finalize CSHA256 h).

(** The loop over the inputs from input [n] on; with [queue] the checks are
    handed over, else made at once. *)
Fixpoint check_input_scripts (queue : bool) (tx : CTransaction) (state : CValidationState) (flags : Z)
    (inputs : CCoinsViewCache V) (n : nat) (ins : list CTxIn) : checked (list CScriptCheck * CCoinsViewCache V) :=
  match ins with
  | [] => Accepted ([], inputs)
  | i :: ins' =>
      let '(coin, inputs) := AccessCoin usage inputs (prevout i) in
      if IsSpent coin then Crashed
      else
        let check := input_check (out coin) tx n flags in
        let! here :=
          (if queue then Accepted [check]
           else match run_check check with
                | Pass => Accepted []
                | Interpreter.Abort => Crashed
                | Fail e =>
                    let failed := DoS state 100 REJECT_INVALID
                      ("mandatory-script-verify-flag-failed (" ++ ScriptErrorString e ++ ")")%string false in
                    if Z.land flags STANDARD_NOT_MANDATORY_VERIFY_FLAGS =? 0 then Rejected failed
                    else
                      match run_check (input_check (out coin) tx n
                              (Z.ldiff flags STANDARD_NOT_MANDATORY_VERIFY_FLAGS)) with
                      | Pass => Rejected (Invalid state REJECT_NONSTANDARD
                                  ("non-mandatory-script-verify-flag (" ++ ScriptErrorString e ++ ")")%string)
                      | Interpreter.Abort => Crashed
                      | Fail _ => Rejected failed
                      end
                end) in
        let! (rest, inputs) := check_input_scripts queue tx state flags inputs (S n) ins' in
        Accepted (here ++ rest, inputs)
  end.

(** The loop over the outputs from output [n] on. *)
Fixpoint check_output_scripts (queue : bool) (tx : CTransaction) (state : CValidationState) (n : nat)
    (outs : list CTxOut) : checked (list CScriptCheck) :=
  match outs with
  | [] => Accepted []
  | o :: outs' =>
      let! here :=
        (if Scr.HasOpSender (scriptPubKey o) then
           if queue then Accepted [output_check tx n 0]
           else match run_check (output_check tx n 0) with
                | Pass => Accepted []
                | Interpreter.Abort => Crashed
                | Fail e => Rejected (DoS state 100 REJECT_INVALID
                    ("sender-output-script-verify-failed (" ++ ScriptErrorString e ++ ")")%string false)
                end
         else Accepted []) in
      let! rest := check_output_scripts queue tx state (S n) outs' in
      Accepted (here ++ rest)
  end.

(** The checks still to be made.  What the script execution cache is told
    afterwards is [hashCacheEntry tx flags]. *)
Definition CheckInputs (tx : CTransaction) (state : CValidationState) (inputs : CCoinsViewCache V)
    (fScriptChecks : bool) (flags : Z) (queue : bool) : checked (list CScriptCheck * CCoinsViewCache V) :=
  if IsCoinBase tx then Accepted ([], inputs)
  else if negb fScriptChecks then Accepted ([], inputs)
  else if contains (hashCacheEntry tx flags) then Accepted ([], inputs)
  else
    let! (checks, inputs) := check_input_scripts queue tx state flags inputs 0 (vin tx) in
    let! senders := check_output_scripts queue tx state 0 (vout tx) in
    Accepted (checks ++ senders, inputs).
End ScriptChecks.

(** ** Contract senders *)

(** The parts of [CheckOpSender]'s loop. *)
Definition sender_output_ok (o : CTxOut) : bool :=
  if Scr.HasOpSender (scriptPubKey o) then
    if Scr.HasOpCreate (scriptPubKey o) || Scr.HasOpCall (scriptPubKey o) then
      match ExtractSenderData (scriptPubKey o) with Some _ => true | None => false end
    else false
  else true.

Definition CheckOpSender (params : Params.Params) (tx : CTransaction) (nHeight : Z) : bool :=
  if negb (HasOpSender tx) then true
  else if negb (QIP5Height params <=? nHeight) then false
  else forallb sender_output_ok (vout tx).

Definition STANDARD_SENDER_STACK_ITEMS : Z := 2.
Definition MAX_STANDARD_SENDER_STACK_ITEM_SIZE : Z := 80.

Definition is_key_script (script : list Z) : bool := Scr.IsPayToPubkeyHash script || Scr.IsPayToPubkey script.

(** The loop of [CheckSenderScript] over the outputs. *)
Definition sender_script_ok (CheckLowS : list Z -> bool) (o : CTxOut) : bool :=
  if Scr.HasOpSender (scriptPubKey o) then
    match ExtractSenderData (scriptPubKey o) with
    | None => false
    | Some (senderPubKey, senderSig) =>
        if negb (is_key_script senderPubKey) then false
        else match EvalScript CheckLowS BaseSignatureChecker 0 BASE [] senderSig with
             | inr _ => false
             | inl stack =>
                 (Script.size stack =? STANDARD_SENDER_STACK_ITEMS)
                 && forallb (fun item => Script.size item <=? MAX_STANDARD_SENDER_STACK_ITEM_SIZE) stack
             end
    end
  else true.

(** ** The coins of [ConnectBlock] *)

Section Connect.
Context {V : Type} `{CoinsView V}.
Variable usage : Coin -> Z.
Variables (CheckLowS : list Z -> bool) (Verify : list Z -> list Z -> list Z -> bool).
Variables (contains : list Z -> bool) (scriptExecutionCacheNonce : list Z).

(** The arguments and the values found before the loop: the index and the block
    in it, the state, the flags, whether scripts are checked, whether there are
    threads for them, and the limits of the block. *)
Variables (params : Params.Params) (m : memory) (pindex : nat) (b : CBlockIndex) (state : CValidationState).
Variables (fScriptChecks threads : bool) (flags nLockTimeFlags dgpMaxBlockSigOps : Z).

(** The variables of the loop; [control] is the queue of script checks. *)
Record connection : Type := mkConnection {
  cn_view : CCoinsViewCache V;
  nFees : Z;
  nSigOpsCost : Z;
  nValueIn : Z;
  nValueOut : Z;
  vtxundo : list (list Coin);
  control : list CScriptCheck
}.

Definition CheckSenderScript (view : CCoinsViewCache V) (tx : CTransaction) : checked (bool * CCoinsViewCache V) :=
  match vin tx with
  | [] => Crashed
  | i :: _ =>
      let '(coin, view) := AccessCoin usage view (prevout i) in
      Accepted (if negb (is_key_script (scriptPubKey (out coin))) then false
                else if negb (HasOpSender tx) then true
                else forallb (sender_script_ok CheckLowS) (vout tx), view)
  end.

Fixpoint prev_heights (view : CCoinsViewCache V) (ins : list CTxIn) : list Z * CCoinsViewCache V :=
  match ins with
  | [] => ([], view)
  | i :: ins' =>
      let '(coin, view) := AccessCoin usage view (prevout i) in
      let '(hs, view) := prev_heights view ins' in
      (nHeight coin :: hs, view)
  end.

(** Whether no input spends a contract's output without [OP_SPEND]. *)
Fixpoint contract_spends_ok (view : CCoinsViewCache V) (ins : list CTxIn) : bool * CCoinsViewCache V :=
  match ins with
  | [] => (true, view)
  | i :: ins' =>
      if Scr.HasOpSpend (scriptSig i) then contract_spends_ok view ins'
      else
        let '(coin, view) := AccessCoin usage view (prevout i) in
        let script := scriptPubKey (out coin) in
        if Scr.HasOpCreate script || Scr.HasOpCall script then (false, view)
        else contract_spends_ok view ins'
  end.

Definition bad (reason : string) : CValidationState := DoS state 100 REJECT_INVALID reason false.

(** The checks of a spend against its coins: the fee and the view. *)
Definition check_spend (tx : CTransaction) (nFees : Z) (view : CCoinsViewCache V)
  : checked (Z * CCoinsViewCache V) :=
  if IsCoinBase tx then Accepted (nFees, view)
  else
    match CheckTxInputs params usage tx state view (bi_nHeight b) 0 with
    | Return true (_, txfee, view) =>
        let nFees := i64 (nFees + txfee) in
        let! _ := guard (MoneyRange nFees) (bad "bad-txns-accumulated-fee-outofrange") in
        let '(prevheights, view) := prev_heights view (vin tx) in
        let! (final, _) := or_crash (SequenceLocks m tx nLockTimeFlags prevheights pindex) in
        let! _ := guard final (bad "bad-txns-nonfinal") in
        Accepted (nFees, view)
    | Return false (s, _, _) => Rejected s
    | _ => Crashed
    end.

(** The script checks, queued unless the transaction deals with contracts. *)
Definition check_scripts (tx : CTransaction) (view : CCoinsViewCache V)
  : checked (list CScriptCheck * CCoinsViewCache V) :=
  if IsCoinBase tx then Accepted ([], view)
  else
    let! (checks, view) :=
      CheckInputs usage CheckLowS Verify contains scriptExecutionCacheNonce tx state view fScriptChecks flags
        (if HasOpSpend tx || HasCreateOrCall tx then false else threads) in
    let '(ok, view) := contract_spends_ok view (vin tx) in
    let! _ := guard ok (bad "bad-txns-invalid-contract-spend") in
    Accepted (checks, view).

(** The values that go in and out. *)
Definition count_values (tx : CTransaction) (cn : connection) (view : CCoinsViewCache V)
  : checked (Z * Z * CCoinsViewCache V) :=
  let! nTxValueOut := or_crash (GetValueOut tx) in
  let '(nTxValueIn, view) := if IsCoinBase tx then (0, view) else GetValueIn usage view tx in
  Accepted (u64 (nValueIn cn + nTxValueIn), u64 (nValueOut cn + nTxValueOut), view).

(** [UpdateCoins], with the coins it has spent. *)
Definition update (tx : CTransaction) (view : CCoinsViewCache V) : checked (list Coin * CCoinsViewCache V) :=
  match UpdateCoins usage tx view (bi_nHeight b) with
  | Return _ r => Accepted r
  | _ => Crashed
  end.

(** The body of the loop for transaction [i]. *)
Definition connect_tx (i : nat) (tx : CTransaction) (cn : connection) : checked connection :=
  let! (fees, view) := check_spend tx (nFees cn) (cn_view cn) in
  let! (cost, view) := or_crash (GetTransactionSigOpCost usage tx view flags) in
  let cost := i64 (nSigOpsCost cn + cost) in
  let! _ := guard (cost <=? dgpMaxBlockSigOps) (bad "bad-blk-sigops") in
  let! (checks, view) := check_scripts tx view in
  let! (vin_, vout_, view) := count_values tx cn view in
  let! _ := guard (CheckOpSender params tx (bi_nHeight b)) (bad "bad-txns-invalid-sender") in
  let queue := control cn ++ checks in
  if HasOpCoinstakeCall tx then
    let! _ := guard (IsCoinStake tx) (bad "bad-txns-invalid-contract-spend") in
    let! (ok, view) := CheckSenderScript view tx in
    let! _ := guard ok (bad "bad-txns-invalid-sender-script") in
    Accepted (mkConnection view fees cost vin_ vout_ (vtxundo cn) queue)
  else
    let! view :=
      (if HasCreateOrCall tx && negb (HasOpSpend tx) then
         let! (ok, view) := CheckSenderScript view tx in
         let! _ := guard ok (bad "bad-txns-invalid-sender-script") in
         Accepted view
       else Accepted view) in
    let! (spent, view) := update tx view in
    Accepted (mkConnection view fees cost vin_ vout_
      (match i with O => vtxundo cn | S _ => vtxundo cn ++ [spent] end) queue).

Fixpoint connect_txs (i : nat) (txs : list CTransaction) (cn : connection) : checked connection :=
  match txs with
  | [] => Accepted cn
  | tx :: txs' => let! cn := connect_tx i tx cn in connect_txs (S i) txs' cn
  end.

(** [HaveCoin] for the outputs of a transaction from output [o] on. *)
Fixpoint have_outputs (view : CCoinsViewCache V) (hash : list Z) (o : Z) (outs : list CTxOut) : bool * CCoinsViewCache V :=
  match outs with
  | [] => (false, view)
  | _ :: outs' =>
      let '(have, view) := HaveCoin usage view (mkOutPoint hash o) in
      if have then (true, view) else have_outputs view hash (o + 1) outs'
  end.

Fixpoint overwrites (view : CCoinsViewCache V) (txs : list CTransaction) : bool * CCoinsViewCache V :=
  match txs with
  | [] => (false, view)
  | tx :: txs' =>
      let '(have, view) := have_outputs view (GetHash tx) 0 (vout tx) in
      if have then (true, view) else overwrites view txs'
  end.

Definition BIP34_IMPLIES_BIP30_LIMIT : Z := 1983702.

(** [control.Wait()]: all queued checks pass. *)
Fixpoint wait (checks : list CScriptCheck) : checked bool :=
  match checks with
  | [] => Accepted true
  | c :: checks' =>
      match run_check CheckLowS Verify c with
      | Interpreter.Abort => Crashed
      | Pass => wait checks'
      | Fail _ => let! _ := wait checks' in Accepted false
      end
  end.

(** The coinstake that was put off, its record first. *)
Definition connect_coinstake (block : CBlock) (cn : connection) : checked connection :=
  if IsProofOfStake (header block) then
    match vtx block !! 1%nat with
    | None => Crashed
    | Some tx =>
        if HasOpCoinstakeCall tx then
          let! (spent, view) := update tx (cn_view cn) in
          Accepted (mkConnection view (nFees cn) (nSigOpsCost cn) (nValueIn cn) (nValueOut cn)
            (spent :: vtxundo cn) (control cn))
        else Accepted cn
    end
  else Accepted cn.

(** For a block above the first one.  [fEnforceBIP30] is false:
    [pindex->phashBlock] has been followed. *)
Definition ConnectBlock (block : CBlock) (view : CCoinsViewCache V) : checked connection :=
  let! q := or_crash (bi_pprev b) in
  let! p := or_crash (m !! q) in
  let '(best, view) := GetBestBlock view in
  if negb (bool_decide (bi_hash p = best)) then Crashed
  else
    let '(over, view) :=
      if BIP34_IMPLIES_BIP30_LIMIT <=? bi_nHeight b then overwrites view (vtx block) else (false, view) in
    let! _ := guard (negb over) (bad "bad-txns-BIP30") in
    let! cn := connect_txs 0 (vtx block) (mkConnection view 0 0 0 0 [] []) in
    let! cn := connect_coinstake block cn in
    let! passed := wait (control cn) in
    let! _ := guard passed (bad "block-validation-failed") in
    Accepted (mkConnection (SetBestBlock (cn_view cn) (bi_hash b)) (nFees cn) (nSigOpsCost cn) (nValueIn cn)
      (nValueOut cn) (vtxundo cn) (control cn)).
End Connect.
Arguments connection V : clear implicits.

(** [pindex->nMoneySupply] after the block, from that of the previous one: all
    are [uint64_t]. *)
Definition nMoneySupply {V} (prev : Z) (cn : connection V) : Z := u64 (u64 (prev + nValueOut cn) - nValueIn cn).

(** ** Checks do not change the coins *)

Section Keeps.
Context {V : Type} `{Laws : CoinsViewLaws V}.
Variable usage : Coin -> Z.

(** A sound cache stays sound and stands for the same set. *)
Definition keeps (c c' : CCoinsViewCache V) : Prop :=
  cache_ok usage c -> cache_ok usage c' /\ cache_utxo c' = cache_utxo c.

#[local] Instance keeps_preorder : PreOrder keeps.
Proof.
  split; [by intros c|]. intros a b c H1 H2 Ha. destruct (H1 Ha) as [Hb E1]. destruct (H2 Hb) as [Hc E2].
  split; [done|congruence].
Qed.

Lemma AccessCoin_keeps c k x c' : AccessCoin usage c k = (x, c') -> keeps c c'.
Proof. intros E Hc. destruct (AccessCoin_spec usage c k Hc) as (H1 & H2 & _). by rewrite E in H1, H2. Qed.

Lemma HaveCoin_keeps c k x c' : HaveCoin usage c k = (x, c') -> keeps c c'.
Proof. intros E Hc. destruct (HaveCoin_spec usage c k Hc) as (_ & H1 & H2 & _). by rewrite E in H1, H2. Qed.

(** What [AccessCoin] finds is the coin of the set. *)
Lemma AccessCoin_found c k x c' :
  AccessCoin usage c k = (x, c') -> cache_ok usage c -> IsSpent x = false -> cache_utxo c !! k = Some x.
Proof.
  intros E Hc Hs. destruct (AccessCoin_spec usage c k Hc) as (_ & _ & Hx). rewrite E in Hx. cbn in Hx.
  by destruct (cache_utxo c !! k); [subst|congruence].
Qed.

Lemma prev_heights_keeps ins : forall c hs c', prev_heights usage c ins = (hs, c') -> keeps c c'.
Proof.
  induction ins as [|i ins IH]; intros c hs c'; cbn [prev_heights]; [by intros [= _ <-]|].
  destruct (AccessCoin usage c (prevout i)) as [x c1] eqn:E1. apply AccessCoin_keeps in E1.
  destruct (prev_heights usage c1 ins) as [hs1 c2] eqn:E2. intros [= _ <-]. etransitivity; [exact E1|by eapply IH].
Qed.

Lemma contract_spends_keeps ins : forall c r c', contract_spends_ok usage c ins = (r, c') -> keeps c c'.
Proof.
  induction ins as [|i ins IH]; intros c r c'; cbn [contract_spends_ok]; [by intros [= _ <-]|].
  destruct (Scr.HasOpSpend _); [apply IH|].
  destruct (AccessCoin usage c (prevout i)) as [x c1] eqn:E1. apply AccessCoin_keeps in E1.
  destruct (_ || _); [by intros [= _ <-]|]. intros E. etransitivity; [exact E1|by eapply IH].
Qed.

Lemma value_in_keeps ins : forall c acc r c', value_in usage c ins acc = (r, c') -> keeps c c'.
Proof.
  induction ins as [|i ins IH]; intros c acc r c'; cbn [value_in]; [by intros [= _ <-]|].
  destruct (AccessCoin usage c (prevout i)) as [x c1] eqn:E1. apply AccessCoin_keeps in E1.
  intros E. etransitivity; [exact E1|by eapply IH].
Qed.

Lemma p2sh_sigops_keeps ins : forall c n r c', p2sh_sigops usage c ins n = Some (r, c') -> keeps c c'.
Proof.
  induction ins as [|i ins IH]; intros c n r c'; cbn [p2sh_sigops]; [by intros [= _ <-]|].
  destruct (AccessCoin usage c (prevout i)) as [x c1] eqn:E1. apply AccessCoin_keeps in E1.
  destruct (IsSpent x); [done|]. intros E. etransitivity; [exact E1|by eapply IH].
Qed.

Lemma witness_sigops_keeps flags ins : forall c n r c', witness_sigops usage flags c ins n = Some (r, c') -> keeps c c'.
Proof.
  induction ins as [|i ins IH]; intros c n r c'; cbn [witness_sigops]; [by intros [= _ <-]|].
  destruct (AccessCoin usage c (prevout i)) as [x c1] eqn:E1. apply AccessCoin_keeps in E1.
  destruct (IsSpent x); [done|]. destruct (CountWitnessSigOps _ _ _ _); [|done].
  intros E. etransitivity; [exact E1|by eapply IH].
Qed.

Lemma sigop_cost_keeps tx c flags r c' : GetTransactionSigOpCost usage tx c flags = Some (r, c') -> keeps c c'.
Proof.
  unfold GetTransactionSigOpCost, GetP2SHSigOpCount. destruct (IsCoinBase tx); [by intros [= _ <-]|].
  destruct (has flags SCRIPT_VERIFY_P2SH); [|apply witness_sigops_keeps].
  destruct (p2sh_sigops usage c (vin tx) 0) as [[n c1]|] eqn:E1; [|done]. apply p2sh_sigops_keeps in E1.
  intros E%witness_sigops_keeps. by etransitivity.
Qed.

Lemma have_outputs_keeps hash outs : forall c o r c', have_outputs usage c hash o outs = (r, c') -> keeps c c'.
Proof.
  induction outs as [|x outs IH]; intros c o r c'; cbn [have_outputs]; [by intros [= _ <-]|].
  destruct (HaveCoin usage c _) as [have c1] eqn:E1. apply HaveCoin_keeps in E1.
  destruct have; [by intros [= _ <-]|]. intros E. etransitivity; [exact E1|by eapply IH].
Qed.

Lemma overwrites_keeps txs : forall c r c', overwrites usage c txs = (r, c') -> keeps c c'.
Proof.
  induction txs as [|tx txs IH]; intros c r c'; cbn [overwrites]; [by intros [= _ <-]|].
  destruct (have_outputs usage c _ _ _) as [have c1] eqn:E1. apply have_outputs_keeps in E1.
  destruct have; [by intros [= _ <-]|]. intros E. etransitivity; [exact E1|by eapply IH].
Qed.

(** [and_then] was accepted only if both sides were. *)
Lemma and_then_accepted {A B} (r : checked A) (k : A -> checked B) x :
  and_then r k = Accepted x -> exists a, r = Accepted a /\ k a = Accepted x.
Proof. destruct r; [eauto|done|done]. Qed.

Lemma guard_accepted bl s u : guard bl s = Accepted u -> bl = true.
Proof. by destruct bl. Qed.

Lemma or_crash_accepted {A} (o : option A) a : or_crash o = Accepted a -> o = Some a.
Proof. by destruct o; intros [= <-]. Qed.

Lemma sender_script_keeps CheckLowS c tx r c' : CheckSenderScript usage CheckLowS c tx = Accepted (r, c') -> keeps c c'.
Proof.
  unfold CheckSenderScript. destruct (vin tx) as [|i ins]; [done|].
  destruct (AccessCoin usage c (prevout i)) as [x c1] eqn:E1. intros [= _ <-]. by eapply AccessCoin_keeps.
Qed.

(** [CheckTxInputs] for any spend: the coins are there. *)
Lemma CheckTxInputs_inputs params c tx st h fee0 st' fee c' :
  cache_ok usage c -> IsCoinBase tx = false ->
  CheckTxInputs params usage tx st c h fee0 = Return true (st', fee, c') ->
  cache_ok usage c' /\ cache_utxo c' = cache_utxo c
  /\ Forall (fun i => is_Some (cache_utxo c !! prevout i)) (vin tx)
  /\ 0 <= input_value (cache_utxo c) (vin tx) <= MAX_MONEY.
Proof.
  intros Hc Hcb. unfold CheckTxInputs, HaveInputs. rewrite Hcb. cbn [negb].
  destruct (have_inputs_spec usage (vin tx) c Hc) as (_ & Hc0 & Hu0).
  destruct (have_inputs usage c (vin tx)) as [have c0]. cbn in Hc0, Hu0. destruct have; [|done]. cbn [negb].
  destruct (check_inputs params usage c0 (vin tx) h 0) as [[r c2]|] eqn:E; [|done].
  destruct (check_inputs_spec params usage h (vin tx) c0 0 _ Hc0 ltac:(done) E) as (H1 & H2 & H3). cbn in H1, H2, H3.
  destruct r as [v|[]]; [|done]. destruct (H3 v eq_refl) as (F & Ev & Bv). rewrite Hu0 in *.
  assert (Hr : cache_ok usage c2 /\ cache_utxo c2 = cache_utxo c
    /\ Forall (fun i => is_Some (cache_utxo c !! prevout i)) (vin tx)
    /\ 0 <= input_value (cache_utxo c) (vin tx) <= MAX_MONEY) by (split_and!; [done..|lia|lia]).
  destruct (IsCoinStake tx); [by intros [= _ _ <-]|].
  destruct (GetValueOut tx); [|done]. destruct (_ <? _); [done|]. destruct (negb _); [done|]. by intros [= _ _ <-].
Qed.
End Keeps.

(** ** Transactions in sequence *)

#[local] Opaque GetHash.

(** No coin of the set carries the hash of the transaction. *)
Definition unused (m : gmap COutPoint Coin) (tx : CTransaction) : Prop :=
  forall j, 0 <= j -> m !! mkOutPoint (GetHash tx) j = None.

(** Its inputs differ and its outputs have values. *)
Definition tx_shape (tx : CTransaction) : Prop :=
  NoDup (prevout <$> vin tx) /\ Forall (fun o => TxOut_IsNull o = false) (vout tx).

Lemma output_coin_hash txid cb cs h i outs k x :
  output_coin txid cb cs h i outs k = Some x -> prevout_hash k = txid /\ i <= prevout_n k.
Proof. unfold output_coin. by case_decide. Qed.

Lemma unused_output m tx cb cs h k x :
  unused m tx -> output_coin (GetHash tx) cb cs h 0 (vout tx) k = Some x -> m !! k = None.
Proof. intros Hf [E Hk]%output_coin_hash. destruct k as [hk n]. cbn in E, Hk. subst hk. by apply Hf. Qed.

Lemma tx_step_unused h m tx tx' : GetHash tx <> GetHash tx' -> unused m tx' -> unused (tx_step h m tx) tx'.
Proof.
  intros Hne Hf j Hj. unfold tx_step. rewrite created_lookup.
  destruct (output_coin _ _ _ _ _ _ _) as [x|] eqn:E; [by apply output_coin_hash in E as [E _]|].
  destruct (IsCoinBase tx); [by apply Hf|]. rewrite spent_lookup. case_decide; [done|by apply Hf].
Qed.

(** A coin that a transaction neither creates nor spends. *)
Lemma tx_step_other h m tx k :
  unused m tx -> is_Some (m !! k) -> k ∉ prevout <$> vin tx -> tx_step h m tx !! k = m !! k.
Proof.
  intros Hf [x Hx] Hk. unfold tx_step. rewrite created_lookup.
  destruct (output_coin _ _ _ _ _ _ _) as [y|] eqn:E; [by rewrite (unused_output _ _ _ _ _ _ _ Hf E) in Hx|].
  destruct (IsCoinBase tx); [done|]. rewrite spent_lookup. by rewrite decide_False.
Qed.

Lemma applies_unused h m tx u : applies h m tx u -> unused m tx.
Proof. by intros (Hf & _). Qed.

Lemma Forall2_kept (m m' : gmap COutPoint Coin) ins u :
  (forall k, k ∈ prevout <$> ins -> is_Some (m !! k) -> m' !! k = m !! k) ->
  Forall2 (fun i x => m !! prevout i = Some x) ins u -> Forall2 (fun i x => m' !! prevout i = Some x) ins u.
Proof.
  intros Hk Hu. induction Hu as [|i x ins u Hx Hu IH]; constructor.
  - rewrite Hk; [done|rewrite fmap_cons; left|by rewrite Hx].
  - apply IH. intros k Hin. apply Hk. rewrite fmap_cons. by right.
Qed.

(** Spends with different hashes and different inputs commute. *)
Lemma tx_step_swap h m t u t1 u1 :
  IsCoinBase t = false -> IsCoinBase t1 = false -> GetHash t <> GetHash t1 ->
  (forall k, k ∈ prevout <$> vin t -> k ∉ prevout <$> vin t1) ->
  applies h m t u -> applies h m t1 u1 ->
  applies h (tx_step h m t1) t u /\ tx_step h (tx_step h m t1) t = tx_step h (tx_step h m t) t1.
Proof.
  intros Hb Hb1 Hh Hd Ht Ht1. pose proof (applies_unused _ _ _ _ Ht) as Hf. pose proof (applies_unused _ _ _ _ Ht1) as Hf1.
  destruct Ht as (_ & Ho & Hin). destruct (Hin Hb) as [Hn Hu]. destruct Ht1 as (_ & Ho1 & Hin1). destruct (Hin1 Hb1) as [Hn1 Hu1].
  assert (Hsome : forall k ins v, Forall2 (fun i x => m !! prevout i = Some x) ins v -> k ∈ prevout <$> ins -> is_Some (m !! k)).
  { intros k ins v H2 (i & -> & Hi)%list_elem_of_fmap_1. apply list_elem_of_lookup_1 in Hi as [n Hi].
    destruct (Forall2_lookup_l _ _ _ _ _ H2 Hi) as (x & _ & Hx). by exists x. }
  split.
  - split; [apply tx_step_unused; [congruence|done]|]. split; [done|]. intros _. split; [done|].
    eapply Forall2_kept; [|exact Hu]. intros k Hk Hs. apply tx_step_other; [done|done|by apply Hd].
  - apply map_eq. intros k. unfold tx_step. rewrite Hb, Hb1. rewrite !created_lookup, !spent_lookup, !created_lookup, !spent_lookup.
    destruct (output_coin (GetHash t) _ _ _ _ _ k) as [x|] eqn:E, (output_coin (GetHash t1) _ _ _ _ _ k) as [y|] eqn:E1.
    + apply output_coin_hash in E as [E _]. apply output_coin_hash in E1 as [E1 _]. congruence.
    + pose proof (unused_output _ _ _ _ _ _ _ Hf E) as Hm. case_decide as Hk; [|done].
      destruct (Hsome k _ _ Hu1 Hk) as [z Hz]. congruence.
    + pose proof (unused_output _ _ _ _ _ _ _ Hf1 E1) as Hm. case_decide as Hk; [|done].
      destruct (Hsome k _ _ Hu Hk) as [z Hz]. congruence.
    + repeat case_decide; done.
Qed.

(** A spend put off to the end might as well come first. *)
Lemma applies_all_swap h t1 u1 l : forall m m',
  IsCoinBase t1 = false ->
  Forall (fun p => IsCoinBase p.1 = false /\ GetHash p.1 <> GetHash t1
    /\ forall k, k ∈ prevout <$> vin p.1 -> k ∉ prevout <$> vin t1) l ->
  applies h m t1 u1 -> applies_all h m l m' ->
  applies h m' t1 u1 /\ applies_all h m ((t1, u1) :: l) (tx_step h m' t1).
Proof.
  induction l as [|[t u] l IH]; intros m m' Hb Hc Ht1 Ha; inversion Ha as [|? ? ? ? ? Ht Hl]; subst.
  { split; [done|]. constructor; [done|constructor]. }
  apply Forall_cons in Hc as [(Hbt & Hh & Hdt) Hc]. cbn [fst] in *.
  destruct (tx_step_swap h m t u t1 u1 Hbt Hb Hh Hdt Ht Ht1) as [Hs Es].
  assert (Hdt' : forall k, k ∈ prevout <$> vin t1 -> k ∉ prevout <$> vin t) by (intros k H1 H2; by apply (Hdt k)).
  destruct (tx_step_swap h m t1 u1 t u Hb Hbt (not_eq_sym Hh) Hdt' Ht1 Ht) as [Hs1 _].
  destruct (IH _ _ Hb Hc Hs1 Hl) as [Hm' Hl']. split; [done|].
  inversion Hl' as [|? ? ? ? ? _ Hl'']; subst. constructor; [done|]. constructor; [done|]. by rewrite Es.
Qed.

(** The shape of a block: a coinbase and then none; no second coinstake, and no
    call from a coinstake in a block that is not proof of stake. *)
Definition block_shape (block : CBlock) : Prop :=
  match vtx block with
  | [] => False
  | tx0 :: rest => IsCoinBase tx0 = true /\ Forall (fun tx => IsCoinBase tx = false) rest
  end
  /\ Forall tx_shape (vtx block)
  /\ if IsProofOfStake (header block) then Forall (fun tx => IsCoinStake tx = false) (drop 2 (vtx block))
     else Forall (fun tx => HasOpCoinstakeCall tx = false) (vtx block).

(** Whether the coinstake is put off. *)
Definition put_off (block : CBlock) : bool :=
  IsProofOfStake (header block) && match vtx block !! 1%nat with Some tx => HasOpCoinstakeCall tx | None => false end.

(** No coin is spent by two inputs of the block. *)
Definition no_double_spend (block : CBlock) : Prop :=
  NoDup (concat ((fun tx => prevout <$> vin tx) <$> tail (vtx block))).

Definition sum_values (u : list Coin) : Z := fold_right (fun x acc => coin_value x + acc) 0 u.

(** What a transaction adds to the value of the coins, but for what it sends to
    unspendable outputs. *)
Definition tx_flow (p : CTransaction * list Coin) : Z :=
  total_out (vout p.1) - (if IsCoinBase p.1 then 0 else sum_values p.2).

Lemma input_value_sum (mm : gmap COutPoint Coin) ins u :
  Forall2 (fun i x => mm !! prevout i = Some x) ins u -> input_value mm ins = sum_values u.
Proof. induction 1 as [|i x ins u Hx _ IH]; [done|]. cbn [input_value sum_values fold_right]. by rewrite Hx, IH. Qed.

Lemma applies_total h m tx u :
  applies h m tx u -> total_value (tx_step h m tx) + unspendable_out (vout tx) = total_value m + tx_flow (tx, u).
Proof.
  intros (Hf & _ & Ha). unfold tx_step, tx_flow. cbn [fst snd]. rewrite split_out. destruct (IsCoinBase tx).
  - rewrite total_value_created by done. lia.
  - destruct (Ha eq_refl) as [Hn Hu]. rewrite total_value_created by (intros j Hj; by apply spent_lookup_None, Hf).
    rewrite total_value_spent; [|done|].
    + rewrite (input_value_sum _ _ _ Hu). lia.
    + clear Ha Hn Hf. induction Hu as [|i x ins v Hx Hu IH]; constructor; [by rewrite Hx|done].
Qed.

Definition unspendable_total (txs : list CTransaction) : Z :=
  fold_right (fun tx acc => unspendable_out (vout tx) + acc) 0 txs.

Definition total_flow (l : list (CTransaction * list Coin)) : Z := fold_right (fun p acc => tx_flow p + acc) 0 l.

Lemma applies_all_total h l : forall m m',
  applies_all h m l m' -> total_value m' + unspendable_total l.*1 = total_value m + total_flow l.
Proof.
  induction l as [|[tx u] l IH]; intros m m' Ha; inversion Ha as [|? ? ? ? ? Ht Hl]; subst; [done|].
  apply IH in Hl. apply applies_total in Ht.
  change (unspendable_total ((tx, u) :: l).*1) with (unspendable_out (vout tx) + unspendable_total l.*1).
  change (total_flow ((tx, u) :: l)) with (tx_flow (tx, u) + total_flow l). lia.
Qed.

(** The difference of the two sums of the loop. *)
Definition net {V} (cn : connection V) : Z := nValueOut cn - nValueIn cn.

(** ** What an accepted block has gone through *)

(** The coins at the check of transaction [n] of a block: the transactions before
    it have been applied, but for a coinstake that is put off. *)
Definition coins_before (h : Z) (mm : gmap COutPoint Coin) (txs : list CTransaction) (n : nat) : gmap COutPoint Coin :=
  foldl (tx_step h) mm (filter (fun tx => HasOpCoinstakeCall tx = false) (take n txs)).

Section ConnectLaws.
Context {V : Type} `{Laws : CoinsViewLaws V}.
Variable usage : Coin -> Z.
Variables (CheckLowS : list Z -> bool) (Verify : list Z -> list Z -> list Z -> bool).
Variables (contains : list Z -> bool) (scriptExecutionCacheNonce : list Z).
Variables (params : Params.Params) (m : memory) (pindex : nat) (b : CBlockIndex) (state : CValidationState).
Variables (fScriptChecks threads : bool) (flags nLockTimeFlags dgpMaxBlockSigOps : Z).
Hypothesis usage_empty : usage coinEmpty = 0.

Abbreviation run := (run_check CheckLowS Verify).
Abbreviation connect_tx := (connect_tx usage CheckLowS Verify contains scriptExecutionCacheNonce params m pindex b state
  fScriptChecks threads flags nLockTimeFlags dgpMaxBlockSigOps).
Abbreviation connect_txs := (connect_txs usage CheckLowS Verify contains scriptExecutionCacheNonce params m pindex b state
  fScriptChecks threads flags nLockTimeFlags dgpMaxBlockSigOps).
Abbreviation ConnectBlock := (ConnectBlock usage CheckLowS Verify contains scriptExecutionCacheNonce params m pindex b
  state fScriptChecks threads flags nLockTimeFlags dgpMaxBlockSigOps).
#[local] Existing Instance keeps_preorder.

(** The check has been made, or will be. *)
Definition settled (checks : list CScriptCheck) (c : CScriptCheck) : Prop := c ∈ checks \/ run c = Pass.

Lemma settled_app_l l1 l2 c : settled l1 c -> settled (l1 ++ l2) c.
Proof. intros [Hc|Hc]; [left; apply elem_of_app; by left|by right]. Qed.

Lemma settled_app_r l1 l2 c : settled l2 c -> settled (l1 ++ l2) c.
Proof. intros [Hc|Hc]; [left; apply elem_of_app; by right|by right]. Qed.

Lemma check_input_scripts_spec queue tx ins : forall n c checks c',
  check_input_scripts usage CheckLowS Verify queue tx state flags c n ins = Accepted (checks, c') ->
  cache_ok usage c ->
  cache_ok usage c' /\ cache_utxo c' = cache_utxo c /\
  forall j i x, ins !! j = Some i -> cache_utxo c !! prevout i = Some x ->
    settled checks (input_check (out x) tx (n + j) flags).
Proof.
  induction ins as [|i ins IH]; intros n c checks c' E Hc; cbn [check_input_scripts] in E.
  { injection E as <- <-. split_and!; [done..|]. intros j i x Hj. by rewrite lookup_nil in Hj. }
  destruct (AccessCoin usage c (prevout i)) as [x c1] eqn:E1.
  destruct (AccessCoin_keeps usage _ _ _ _ E1 Hc) as [Hc1 Hu1].
  destruct (IsSpent x) eqn:Es; [done|]. pose proof (AccessCoin_found usage _ _ _ _ E1 Hc Es) as Hx.
  apply and_then_accepted in E as (here & Eh & E). apply and_then_accepted in E as ([rest c2] & E2 & [= <- <-]).
  destruct (IH _ _ _ _ E2 Hc1) as (Hc2 & Hu2 & Hr). split_and!; [done|congruence|].
  intros [|j] i' y Hj Hy; cbn in Hj.
  - injection Hj as <-. rewrite Hx in Hy. injection Hy as <-. rewrite Nat.add_0_r. apply settled_app_l.
    destruct queue; [injection Eh as <-; left; apply elem_of_cons; by left|].
    right. destruct (run _) as [|e|]; [done| |done]. repeat case_match; done.
  - apply settled_app_r. rewrite <- Nat.add_succ_comm. eapply Hr; [done|]. by rewrite Hu1.
Qed.

Lemma CheckInputs_spec tx c queue checks c' :
  CheckInputs usage CheckLowS Verify contains scriptExecutionCacheNonce tx state c fScriptChecks flags queue
    = Accepted (checks, c') ->
  cache_ok usage c -> IsCoinBase tx = false ->
  cache_ok usage c' /\ cache_utxo c' = cache_utxo c /\
  (fScriptChecks = true -> contains (hashCacheEntry scriptExecutionCacheNonce tx flags) = false ->
   forall j i x, vin tx !! j = Some i -> cache_utxo c !! prevout i = Some x ->
     settled checks (input_check (out x) tx j flags)).
Proof.
  intros E Hc Hcb. unfold CheckInputs in E. rewrite Hcb in E. destruct fScriptChecks; cbn [negb] in E.
  2:{ injection E as <- <-. by split_and!. }
  destruct (contains _); [injection E as <- <-; by split_and!|].
  apply and_then_accepted in E as ([ch c1] & E1 & E). apply and_then_accepted in E as (sn & _ & [= <- <-]).
  destruct (check_input_scripts_spec _ _ _ _ _ _ _ E1 Hc) as (Hc1 & Hu1 & Hs). split_and!; [done..|].
  intros _ _ j i x Hj Hx. apply settled_app_l. by eapply (Hs j).
Qed.

Lemma check_spend_spec tx nf c fees c' :
  check_spend usage params m pindex b state nLockTimeFlags tx nf c = Accepted (fees, c') -> cache_ok usage c ->
  cache_ok usage c' /\ cache_utxo c' = cache_utxo c /\
  (IsCoinBase tx = false -> Forall (fun i => is_Some (cache_utxo c !! prevout i)) (vin tx)
    /\ 0 <= input_value (cache_utxo c) (vin tx) <= MAX_MONEY).
Proof.
  intros E Hc. unfold check_spend in E. destruct (IsCoinBase tx) eqn:Hcb; [by injection E as <- <-|].
  destruct (CheckTxInputs _ _ _ _ _ _ _) as [[] [[st fee] c1]| |] eqn:E1; [|done..].
  destruct (CheckTxInputs_inputs usage _ _ _ _ _ _ _ _ _ Hc Hcb E1) as (Hc1 & Hu1 & Hin & Hv).
  apply and_then_accepted in E as (_ & _ & E). destruct (prev_heights usage c1 (vin tx)) as [hs c2] eqn:E2.
  apply prev_heights_keeps in E2. destruct (E2 Hc1) as [Hc2 Hu2].
  apply and_then_accepted in E as ([fin hs'] & _ & E). apply and_then_accepted in E as (_ & _ & [= _ <-]).
  split_and!; [done|congruence|done].
Qed.

(** The inputs are counted without overflow. *)
Lemma value_in_spec ins : forall c acc r c',
  value_in usage c ins acc = (r, c') -> cache_ok usage c -> Forall (fun i => is_Some (cache_utxo c !! prevout i)) ins ->
  is_i64 acc -> r = i64 (acc + input_value (cache_utxo c) ins).
Proof.
  induction ins as [|i ins IH]; intros c acc r c'; cbn [value_in input_value].
  { intros [= <- _] _ _ Ha. rewrite Z.add_0_r. by rewrite i64_small. }
  destruct (AccessCoin usage c (prevout i)) as [x c1] eqn:E1. intros E Hc [[y Hy] Hs]%Forall_cons Ha.
  destruct (AccessCoin_keeps usage _ _ _ _ E1 Hc) as [Hc1 Hu1].
  destruct (AccessCoin_spec usage c (prevout i) Hc) as (_ & _ & Hx). rewrite E1, Hy in Hx. cbn in Hx. subst x.
  rewrite (IH _ _ _ _ E Hc1); [|by rewrite Hu1|apply i64_range]. rewrite Hy, Hu1, i64_add_l. unfold coin_value. f_equal. lia.
Qed.

Lemma count_values_spec tx cn c vi vo c' :
  count_values usage tx cn c = Accepted (vi, vo, c') -> cache_ok usage c ->
  (IsCoinBase tx = false -> Forall (fun i => is_Some (cache_utxo c !! prevout i)) (vin tx)
    /\ 0 <= input_value (cache_utxo c) (vin tx) <= MAX_MONEY) ->
  cache_ok usage c' /\ cache_utxo c' = cache_utxo c
  /\ u64 (vo - vi) = u64 (net cn + (total_out (vout tx) - if IsCoinBase tx then 0 else input_value (cache_utxo c) (vin tx))).
Proof.
  intros E Hc Hin. unfold count_values, GetValueIn in E.
  apply and_then_accepted in E as (v & (_ & -> & _)%or_crash_accepted%GetValueOut_iff & E). unfold net.
  destruct (IsCoinBase tx).
  - injection E as <- <- <-. split_and!; [done..|]. rewrite u64_sub. f_equal. lia.
  - destruct (value_in usage c (vin tx) 0) as [v2 c2] eqn:E2. injection E as <- <- <-.
    destruct (value_in_keeps usage _ _ _ _ _ E2 Hc) as [Hc2 Hu2]. destruct (Hin eq_refl) as [Hs Hv].
    apply value_in_spec in E2; [|done..]. split_and!; [done..|]. rewrite u64_sub. f_equal.
    rewrite E2, Z.add_0_l, i64_small by (unfold is_i64, MAX_MONEY, COIN in *; lia). lia.
Qed.

(** [UpdateCoins] on a transaction whose coins are there and whose outputs are
    new. *)
Lemma update_spec tx c :
  cache_ok usage c -> tx_shape tx -> unused (cache_utxo c) tx ->
  (IsCoinBase tx = false -> Forall (fun i => is_Some (cache_utxo c !! prevout i)) (vin tx)) ->
  exists u c', update usage b tx c = Accepted (u, c') /\ cache_ok usage c'
    /\ cache_utxo c' = tx_step (bi_nHeight b) (cache_utxo c) tx /\ applies (bi_nHeight b) (cache_utxo c) tx u.
Proof.
  intros Hc [Hn Ho] Hf Hin. unfold update, tx_step, applies. destruct (IsCoinBase tx) eqn:Hcb.
  - unfold UpdateCoins, AddCoins. rewrite Hcb.
    destruct (add_outputs_spec usage (GetHash tx) true (IsCoinStake tx) (bi_nHeight b) false (vout tx) 0 c Hc Ho)
      as (c2 & -> & Hc2 & Hu2); [done|]. exists [], c2. by split_and!.
  - destruct (UpdateCoins_spec usage usage_empty c tx (bi_nHeight b) Hc Hcb Hn (Hin eq_refl) Ho Hf)
      as (u & c2 & -> & Hc2 & Hu2 & Hl). exists u, c2. by split_and!.
Qed.

(** The scripts of a transaction have been checked against the coins of [mm]. *)
Definition scripts_settled (checks : list CScriptCheck) (mm : gmap COutPoint Coin) (tx : CTransaction) : Prop :=
  fScriptChecks = true -> contains (hashCacheEntry scriptExecutionCacheNonce tx flags) = false ->
  IsCoinBase tx = false ->
  forall j i x, vin tx !! j = Some i -> mm !! prevout i = Some x -> settled checks (input_check (out x) tx j flags).

(** One pass of the loop up to the update: the coins are as before. *)
Lemma connect_tx_checks i tx cn cn' :
  connect_tx i tx cn = Accepted cn' -> cache_ok usage (cn_view cn) ->
  (IsCoinBase tx = false -> Forall (fun i => is_Some (cache_utxo (cn_view cn) !! prevout i)) (vin tx)) /\
  u64 (net cn') = u64 (net cn + (total_out (vout tx)
    - if IsCoinBase tx then 0 else input_value (cache_utxo (cn_view cn)) (vin tx))) /\
  exists c checks, cache_ok usage c /\ cache_utxo c = cache_utxo (cn_view cn) /\ control cn' = control cn ++ checks
    /\ scripts_settled checks (cache_utxo (cn_view cn)) tx
    /\ if HasOpCoinstakeCall tx then
         IsCoinStake tx = true /\ cn_view cn' = c /\ vtxundo cn' = vtxundo cn
       else exists u, update usage b tx c = Accepted (u, cn_view cn')
         /\ vtxundo cn' = match i with O => vtxundo cn | S _ => vtxundo cn ++ [u] end.
Proof.
  intros E Hc. unfold Connect.connect_tx in E.
  apply and_then_accepted in E as ([fees c1] & E1 & E). destruct (check_spend_spec _ _ _ _ _ E1 Hc) as (Hc1 & Hu1 & Hin).
  split; [apply Hin|]. apply and_then_accepted in E as ([cost c2] & E2%or_crash_accepted%sigop_cost_keeps & E).
  destruct (E2 Hc1) as [Hc2 Hu2]. apply and_then_accepted in E as (_ & _ & E).
  apply and_then_accepted in E as ([checks c3] & E3 & E).
  assert (H3 : cache_ok usage c3 /\ cache_utxo c3 = cache_utxo (cn_view cn)
               /\ scripts_settled checks (cache_utxo (cn_view cn)) tx).
  { unfold check_scripts in E3. destruct (IsCoinBase tx) eqn:Hcb.
    - injection E3 as <- <-. split_and!; [done|congruence|]. intros _ _ Hcb'. congruence.
    - apply and_then_accepted in E3 as ([ch c4] & E4 & E3).
      destruct (CheckInputs_spec _ _ _ _ _ E4 Hc2 Hcb) as (Hc4 & Hu4 & Hs).
      destruct (contract_spends_ok usage c4 (vin tx)) as [ok c5] eqn:E5. apply contract_spends_keeps in E5.
      destruct (E5 Hc4) as [Hc5 Hu5]. apply and_then_accepted in E3 as (_ & _ & [= <- <-]).
      split_and!; [done|congruence|]. intros H1 H2 _ j i' x. rewrite <- Hu1, <- Hu2. by apply Hs. }
  destruct H3 as (Hc3 & Hu3 & Hs). clear E3. apply and_then_accepted in E as ([[vi vo] c4] & E4 & E).
  destruct (count_values_spec _ _ _ _ _ _ E4 Hc3) as (Hc4 & Hu4 & Hnet); [by rewrite Hu3|]. rewrite Hu3 in Hu4, Hnet.
  clear E4. apply and_then_accepted in E as (_ & _ & E).
  destruct (HasOpCoinstakeCall tx).
  - apply and_then_accepted in E as (? & Hcs%guard_accepted & E). apply and_then_accepted in E as ([ok c5] & E5%sender_script_keeps & E).
    apply and_then_accepted in E as (_ & _ & [= <-]). destruct (E5 Hc4) as [Hc5 Hu5]. split; [exact Hnet|].
    exists c5, checks. split_and!; [done|congruence|done|done|done|done|done].
  - apply and_then_accepted in E as (c5 & E5 & E). apply and_then_accepted in E as ([u c6] & E6 & [= <-]).
    assert (H5 : cache_ok usage c5 /\ cache_utxo c5 = cache_utxo (cn_view cn)).
    { destruct (_ && _); [|by injection E5 as <-]. apply and_then_accepted in E5 as ([ok c7] & E7%sender_script_keeps & E5).
      apply and_then_accepted in E5 as (_ & _ & [= <-]). destruct (E7 Hc4). split; [done|congruence]. }
    destruct H5 as [Hc5 Hu5]. split; [exact Hnet|]. exists c5, checks. split_and!; [done|done|done|done|]. by exists u.
Qed.

(** The coins a transaction has spent satisfied its scripts, or will be seen to. *)
Definition spends_settled (checks : list CScriptCheck) (p : CTransaction * list Coin) : Prop :=
  fScriptChecks = true -> contains (hashCacheEntry scriptExecutionCacheNonce p.1 flags) = false ->
  IsCoinBase p.1 = false ->
  forall j x, p.2 !! j = Some x -> settled checks (input_check (out x) p.1 j flags).

Lemma spends_settled_intro checks mm tx u :
  scripts_settled checks mm tx -> applies (bi_nHeight b) mm tx u -> spends_settled checks (tx, u).
Proof.
  intros Hs (_ & _ & Ha) H1 H2 Hcb j x Hx. destruct (Ha Hcb) as [_ Hu].
  destruct (Forall2_lookup_r _ _ _ _ _ Hu Hx) as (i & Hi & Hm). by eapply Hs.
Qed.

Lemma spends_settled_app_l l1 l2 p : spends_settled l1 p -> spends_settled (l1 ++ l2) p.
Proof. intros Hs H1 H2 H3 j x Hx. by apply settled_app_l, Hs. Qed.

Lemma spends_settled_app_r l1 l2 p : spends_settled l2 p -> spends_settled (l1 ++ l2) p.
Proof. intros Hs H1 H2 H3 j x Hx. by apply settled_app_r, Hs. Qed.

Lemma spend_value_flow h mm tx u :
  applies h mm tx u ->
  total_out (vout tx) - (if IsCoinBase tx then 0 else input_value mm (vin tx)) = tx_flow (tx, u).
Proof.
  intros (_ & _ & Ha). unfold tx_flow. cbn [fst snd]. destruct (IsCoinBase tx); [done|].
  destruct (Ha eq_refl) as [_ Hu]. by rewrite (input_value_sum _ _ _ Hu).
Qed.

(** A transaction applied in its place. *)
Lemma connect_tx_applies i tx cn cn' :
  connect_tx i tx cn = Accepted cn' -> cache_ok usage (cn_view cn) -> HasOpCoinstakeCall tx = false ->
  tx_shape tx -> unused (cache_utxo (cn_view cn)) tx ->
  exists u checks, cache_ok usage (cn_view cn') /\ applies (bi_nHeight b) (cache_utxo (cn_view cn)) tx u
    /\ cache_utxo (cn_view cn') = tx_step (bi_nHeight b) (cache_utxo (cn_view cn)) tx
    /\ vtxundo cn' = match i with O => vtxundo cn | S _ => vtxundo cn ++ [u] end
    /\ control cn' = control cn ++ checks /\ spends_settled checks (tx, u) /\ u64 (net cn') = u64 (net cn + tx_flow (tx, u)).
Proof.
  intros E Hc Hcall Hsh Hf. destruct (connect_tx_checks i tx cn cn' E Hc) as (Hin & Hnet & c & checks & Hc1 & Hu1 & Hct & Hs & Hr).
  rewrite Hcall in Hr. destruct Hr as (u & Eu & Hundo).
  destruct (update_spec tx c Hc1 Hsh) as (u' & c' & Eu' & Hc' & Hu' & Ha); [by rewrite Hu1|by rewrite Hu1|].
  rewrite Eu in Eu'. injection Eu' as <- <-. rewrite Hu1 in Ha, Hu'. exists u, checks.
  split_and!; [done..|by eapply spends_settled_intro|]. by rewrite Hnet, (spend_value_flow _ _ _ _ Ha).
Qed.

Lemma unused_step_all mm tx txs :
  GetHash tx ∉ GetHash <$> txs -> Forall (unused mm) txs -> Forall (unused (tx_step (bi_nHeight b) mm tx)) txs.
Proof.
  intros Hn Hf. rewrite Forall_forall in Hf |- *. intros t Ht. apply tx_step_unused; [|by apply Hf].
  intros E. apply Hn. rewrite E. by apply list_elem_of_fmap_2.
Qed.

(** The transactions of a block, none of which is put off. *)
Lemma connect_txs_applies txs : forall i cn cn',
  connect_txs i txs cn = Accepted cn' -> cache_ok usage (cn_view cn) ->
  Forall (fun tx => HasOpCoinstakeCall tx = false) txs -> Forall tx_shape txs ->
  Forall (unused (cache_utxo (cn_view cn))) txs -> NoDup (GetHash <$> txs) ->
  exists us checks, length us = length txs /\ cache_ok usage (cn_view cn')
    /\ applies_all (bi_nHeight b) (cache_utxo (cn_view cn)) (combine txs us) (cache_utxo (cn_view cn'))
    /\ vtxundo cn' = vtxundo cn ++ match i with O => tail us | S _ => us end
    /\ control cn' = control cn ++ checks /\ Forall (spends_settled checks) (combine txs us)
    /\ u64 (net cn') = u64 (net cn + total_flow (combine txs us)).
Proof.
  induction txs as [|tx txs IH]; intros i cn cn' E Hc Hcall Hsh Hf Hn; cbn [Connect.connect_txs] in E.
  { injection E as <-. exists [], []. split_and!; [done|done|constructor| | |constructor|].
    - by destruct i; rewrite app_nil_r.
    - by rewrite app_nil_r.
    - by rewrite Z.add_0_r. }
  apply and_then_accepted in E as (cn1 & E1 & E2). rewrite fmap_cons, NoDup_cons in Hn. destruct Hn as [Hn1 Hn].
  apply Forall_cons in Hcall as [Hcall1 Hcall]. apply Forall_cons in Hsh as [Hsh1 Hsh]. apply Forall_cons in Hf as [Hf1 Hf].
  destruct (connect_tx_applies _ _ _ _ E1 Hc Hcall1 Hsh1 Hf1) as (u & ch1 & Hc1 & Ha1 & Hu1 & Hundo1 & Hct1 & Hs1 & Hn1').
  destruct (IH _ _ _ E2 Hc1 Hcall Hsh) as (us & ch2 & Hlen & Hc2 & Ha2 & Hundo2 & Hct2 & Hs2 & Hn2');
    [rewrite Hu1; by apply unused_step_all|done|].
  exists (u :: us), (ch1 ++ ch2). split_and!.
  - cbn. by rewrite Hlen.
  - done.
  - cbn [combine]. constructor; [done|]. by rewrite <- Hu1.
  - rewrite Hundo2, Hundo1. destruct i; cbn [tail]; [done|]. by rewrite <- app_assoc.
  - by rewrite Hct2, Hct1, <- app_assoc.
  - cbn [combine]. constructor; [by apply spends_settled_app_l|]. eapply Forall_impl; [exact Hs2|].
    intros p. apply spends_settled_app_r.
  - rewrite Hn2', <- u64_add_l, Hn1', u64_add_l. f_equal.
    change (total_flow (combine (tx :: txs) (u :: us))) with (tx_flow (tx, u) + total_flow (combine txs us)). lia.
Qed.

(** The check of transaction [n] is against what the transactions before it have
    left, a coinstake that was put off not among them. *)
Lemma connect_txs_checked txs : forall i cn cn',
  connect_txs i txs cn = Accepted cn' -> cache_ok usage (cn_view cn) -> Forall tx_shape txs ->
  Forall (unused (cache_utxo (cn_view cn))) txs -> NoDup (GetHash <$> txs) ->
  exists checks, control cn' = control cn ++ checks /\ forall n tx, txs !! n = Some tx -> IsCoinBase tx = false ->
    Forall (fun i => is_Some (coins_before (bi_nHeight b) (cache_utxo (cn_view cn)) txs n !! prevout i)) (vin tx)
    /\ scripts_settled checks (coins_before (bi_nHeight b) (cache_utxo (cn_view cn)) txs n) tx.
Proof.
  induction txs as [|tx txs IH]; intros i cn cn' E Hc Hsh Hf Hn; cbn [Connect.connect_txs] in E.
  { injection E as <-. exists []. rewrite app_nil_r. split; [done|]. intros n tx Hn'. by rewrite lookup_nil in Hn'. }
  apply and_then_accepted in E as (cn1 & E1 & E2). rewrite fmap_cons, NoDup_cons in Hn. destruct Hn as [Hn1 Hn].
  apply Forall_cons in Hsh as [Hsh1 Hsh]. apply Forall_cons in Hf as [Hf1 Hf].
  destruct (connect_tx_checks _ _ _ _ E1 Hc) as (Hin & _ & c & ch1 & Hc0 & Hu0 & Hct1 & Hs1 & Hr).
  assert (H1 : cache_ok usage (cn_view cn1)
    /\ cache_utxo (cn_view cn1) = coins_before (bi_nHeight b) (cache_utxo (cn_view cn)) [tx] 1).
  { unfold coins_before. cbn [take]. rewrite filter_cons, filter_nil. destruct (HasOpCoinstakeCall tx) eqn:Hcall.
    - destruct Hr as (_ & -> & _). by rewrite decide_False by done.
    - rewrite decide_True by done. destruct (connect_tx_applies _ _ _ _ E1 Hc Hcall Hsh1 Hf1) as (_ & _ & H1 & _ & H2 & _).
      by split. }
  destruct H1 as [Hc1 Hu1].
  assert (Hf' : Forall (unused (cache_utxo (cn_view cn1))) txs).
  { rewrite Hu1. unfold coins_before. cbn [take]. rewrite filter_cons, filter_nil.
    destruct (decide _); [by apply unused_step_all|done]. }
  destruct (IH _ _ _ E2 Hc1 Hsh Hf' Hn) as (ch2 & Hct2 & Hall). exists (ch1 ++ ch2).
  split; [by rewrite Hct2, Hct1, app_assoc|]. intros [|n] t Ht Hcb.
  - injection Ht as <-. split; [by apply Hin|]. intros H1 H2 H3 j i' x Hj Hx. apply settled_app_l. by eapply Hs1.
  - assert (Eb : coins_before (bi_nHeight b) (cache_utxo (cn_view cn)) (tx :: txs) (S n)
      = coins_before (bi_nHeight b) (cache_utxo (cn_view cn1)) txs n).
    { rewrite Hu1. unfold coins_before. cbn [take]. rewrite !filter_cons, filter_nil. by destruct (decide _). }
    rewrite Eb. destruct (Hall n t Ht Hcb) as [Ha Hs]. split; [done|].
    intros H1 H2 H3 j i' x Hj Hx. apply settled_app_r. by eapply Hs.
Qed.

Lemma coins_of (mm : gmap COutPoint Coin) ins :
  Forall (fun i => is_Some (mm !! prevout i)) ins -> exists u, Forall2 (fun i x => mm !! prevout i = Some x) ins u.
Proof. induction 1 as [|i ins [x Hx] _ [u IH]]; [by exists []|]. exists (x :: u). by constructor. Qed.

Lemma coins_unique (mm : gmap COutPoint Coin) ins u u' :
  Forall2 (fun i x => mm !! prevout i = Some x) ins u -> Forall2 (fun i x => mm !! prevout i = Some x) ins u' -> u = u'.
Proof.
  intros Hu. revert u'. induction Hu as [|i x ins u Hx Hu IH]; intros u' Hu'; inversion Hu' as [|? y ? v Hy Hv]; subst; [done|].
  f_equal; [congruence|by apply IH].
Qed.

Lemma applies_coins h mm tx u : IsCoinBase tx = false -> applies h mm tx u ->
  Forall (fun i => is_Some (mm !! prevout i)) (vin tx).
Proof.
  intros Hcb (_ & _ & Ha). destruct (Ha Hcb) as [_ Hu]. clear Ha. induction Hu as [|i x ins u Hx Hu IH]; constructor; [by rewrite Hx|done].
Qed.

Lemma IsCoinBase_not_stake tx : IsCoinBase tx = true -> IsCoinStake tx = false.
Proof.
  unfold IsCoinBase, IsCoinStake. destruct (vin tx) as [|i [|]]; [done| |done]. intros [E _]%andb_prop.
  destruct (vout tx) as [|? []]; [done..|]. by rewrite E.
Qed.

Lemma connect_tx_call i tx cn cn' :
  connect_tx i tx cn = Accepted cn' -> HasOpCoinstakeCall tx = true -> IsCoinStake tx = true.
Proof.
  intros E Hcall. unfold Connect.connect_tx in E. apply and_then_accepted in E as ([? ?] & _ & E).
  apply and_then_accepted in E as ([? ?] & _ & E). apply and_then_accepted in E as (_ & _ & E).
  apply and_then_accepted in E as ([? ?] & _ & E). apply and_then_accepted in E as ([[? ?] ?] & _ & E).
  apply and_then_accepted in E as (_ & _ & E). rewrite Hcall in E.
  by apply and_then_accepted in E as (? & ?%guard_accepted & _).
Qed.

Lemma connect_txs_calls txs : forall i cn cn',
  connect_txs i txs cn = Accepted cn' -> Forall (fun tx => IsCoinStake tx = false) txs ->
  Forall (fun tx => HasOpCoinstakeCall tx = false) txs.
Proof.
  induction txs as [|tx txs IH]; intros i cn cn' E Hs; cbn [Connect.connect_txs] in E; [done|].
  apply and_then_accepted in E as (cn1 & E1 & E2). apply Forall_cons in Hs as [Hs1 Hs]. constructor; [|by eapply IH].
  destruct (HasOpCoinstakeCall tx) eqn:Hcall; [|done]. by rewrite (connect_tx_call _ _ _ _ E1 Hcall) in Hs1.
Qed.

(** The coinstake is checked in its place and applied last. *)
Lemma put_off_applies tx0 tx1 rest cn0 cn1 cn2 cn3 u3 c3 :
  connect_tx 0 tx0 cn0 = Accepted cn1 -> connect_tx 1 tx1 cn1 = Accepted cn2 -> connect_txs 2 rest cn2 = Accepted cn3 ->
  update usage b tx1 (cn_view cn3) = Accepted (u3, c3) ->
  cache_ok usage (cn_view cn0) -> HasOpCoinstakeCall tx0 = false -> HasOpCoinstakeCall tx1 = true ->
  Forall (fun tx => HasOpCoinstakeCall tx = false) rest ->
  IsCoinBase tx1 = false -> Forall (fun tx => IsCoinBase tx = false) rest ->
  Forall tx_shape (tx0 :: tx1 :: rest) -> Forall (unused (cache_utxo (cn_view cn0))) (tx0 :: tx1 :: rest) ->
  NoDup (GetHash <$> tx0 :: tx1 :: rest) -> vtxundo cn0 = [] ->
  Forall (fun tx => forall k, k ∈ prevout <$> vin tx -> k ∉ prevout <$> vin tx1) rest ->
  exists u0 us checks, length us = length rest /\ cache_ok usage c3 /\ vtxundo cn3 = us
    /\ applies_all (bi_nHeight b) (cache_utxo (cn_view cn0)) ((tx0, u0) :: (tx1, u3) :: combine rest us) (cache_utxo c3)
    /\ control cn3 = control cn0 ++ checks
    /\ Forall (spends_settled checks) ((tx0, u0) :: (tx1, u3) :: combine rest us)
    /\ u64 (net cn3) = u64 (net cn0 + total_flow ((tx0, u0) :: (tx1, u3) :: combine rest us)).
Proof.
  intros E0 E1 E2 E3 Hc Hcall0 Hcall1 Hcall Hcb1 Hcb Hsh Hf Hn Hun Hd.
  apply Forall_cons in Hsh as [Hsh0 [Hsh1 Hsh]%Forall_cons]. apply Forall_cons in Hf as [Hf0 Hf].
  rewrite !fmap_cons, !NoDup_cons in Hn. destruct Hn as (Hn0 & Hn1 & Hn).
  destruct (connect_tx_applies _ _ _ _ E0 Hc Hcall0 Hsh0 Hf0) as (u0 & ch0 & Hc1 & Ha0 & Hu1 & Hun1 & Hct1 & Hs0 & Hnet0).
  assert (Hf' : Forall (unused (cache_utxo (cn_view cn1))) (tx1 :: rest)).
  { rewrite Hu1. apply unused_step_all; [by rewrite fmap_cons|done]. }
  apply Forall_cons in Hf' as [Hf1 Hfr].
  destruct (connect_tx_checks _ _ _ _ E1 Hc1) as (Hin1 & Hnet1 & c & ch1 & Hc2 & Hu2 & Hct2 & Hs1 & Hr).
  rewrite Hcall1 in Hr. destruct Hr as (_ & Ev & Hun2). subst c.
  destruct (connect_txs_applies rest 2 cn2 cn3 E2 Hc2 Hcall Hsh) as (us & ch2 & Hlen & Hc3 & Ha3 & Hun3 & Hct3 & Hs3 & Hnet3);
    [by rewrite Hu2|done|]. rewrite Hu2 in Ha3.
  destruct (coins_of _ _ (Hin1 Hcb1)) as [u1 Hl1].
  assert (Ha1 : applies (bi_nHeight b) (cache_utxo (cn_view cn1)) tx1 u1) by (split; [done|]; by destruct Hsh1).
  assert (Hfirst : Forall (fun p => IsCoinBase p.1 = false /\ GetHash p.1 <> GetHash tx1
    /\ forall k, k ∈ prevout <$> vin p.1 -> k ∉ prevout <$> vin tx1) (combine rest us)).
  { apply Forall_forall. intros [t u] Ht%list_elem_of_In%in_combine_l%list_elem_of_In. cbn [fst].
    rewrite Forall_forall in Hcb, Hd. split_and!; [by apply Hcb| |by apply Hd].
    intros E. apply Hn1. rewrite <- E. by apply list_elem_of_fmap_2. }
  destruct (applies_all_swap (bi_nHeight b) tx1 u1 (combine rest us) _ _ Hcb1 Hfirst Ha1 Ha3) as [Ha1' Hall].
  destruct (update_spec tx1 (cn_view cn3) Hc3 Hsh1) as (u & c' & E3' & Hc' & Hu' & Ha').
  { by eapply applies_unused. }
  { intros _. by eapply applies_coins. }
  rewrite E3 in E3'. injection E3' as <- <-.
  assert (u3 = u1) as ->.
  { destruct Ha' as (_ & _ & Ha'). destruct Ha1' as (_ & _ & Ha1'). destruct (Ha' Hcb1), (Ha1' Hcb1). by eapply coins_unique. }
  exists u0, us, (ch0 ++ ch1 ++ ch2). split_and!.
  - done.
  - done.
  - by rewrite Hun3, Hun2, Hun1, Hun.
  - constructor; [done|]. rewrite <- Hu1, Hu'. done.
  - by rewrite Hct3, Hct2, Hct1, !app_assoc.
  - constructor; [by apply spends_settled_app_l|]. constructor.
    + apply spends_settled_app_r, spends_settled_app_l. by eapply spends_settled_intro.
    + eapply Forall_impl; [exact Hs3|]. intros p Hp. by apply spends_settled_app_r, spends_settled_app_r.
  - rewrite (spend_value_flow _ _ _ _ Ha1) in Hnet1.
    rewrite <- u64_add_l, Hnet0, u64_add_l in Hnet1. rewrite Hnet3, <- u64_add_l, Hnet1, u64_add_l.
    f_equal. change (total_flow ((tx0, u0) :: (tx1, u1) :: combine rest us))
      with (tx_flow (tx0, u0) + (tx_flow (tx1, u1) + total_flow (combine rest us))). lia.
Qed.

Lemma wait_spec checks : wait CheckLowS Verify checks = Accepted true -> Forall (fun c => run c = Pass) checks.
Proof.
  induction checks as [|c checks IH]; cbn [wait]; [constructor|].
  destruct (run c) as [|e|] eqn:E; [|intros Hw; by apply and_then_accepted in Hw as (? & _ & ?)|done].
  intros Hw. constructor; [done|by apply IH].
Qed.

(** The coins a transaction has spent satisfied its scripts. *)
Definition spends_verified (p : CTransaction * list Coin) : Prop :=
  fScriptChecks = true -> contains (hashCacheEntry scriptExecutionCacheNonce p.1 flags) = false ->
  IsCoinBase p.1 = false ->
  forall j x, p.2 !! j = Some x -> run (input_check (out x) p.1 j flags) = Pass.

Lemma settled_verified checks l :
  Forall (fun c => run c = Pass) checks -> Forall (spends_settled checks) l -> Forall spends_verified l.
Proof.
  intros Hw Hs. eapply Forall_impl; [exact Hs|]. intros p Hp H1 H2 H3 j x Hx.
  destruct (Hp H1 H2 H3 j x Hx) as [Hin|]; [|done]. rewrite Forall_forall in Hw. by apply Hw.
Qed.

(** The loop and the coinstake after it: all transactions of the block have been
    applied, as if in their order. *)
Lemma connect_all_applies block cn0 cn1 cn2 :
  connect_txs 0 (vtx block) cn0 = Accepted cn1 -> connect_coinstake usage b block cn1 = Accepted cn2 ->
  cache_ok usage (cn_view cn0) -> vtxundo cn0 = [] -> block_shape block ->
  Forall (unused (cache_utxo (cn_view cn0))) (vtx block) -> NoDup (GetHash <$> vtx block) ->
  (put_off block = true -> no_double_spend block) ->
  exists us checks, length us = length (vtx block) /\ vtxundo cn2 = tail us /\ cache_ok usage (cn_view cn2)
    /\ applies_all (bi_nHeight b) (cache_utxo (cn_view cn0)) (combine (vtx block) us) (cache_utxo (cn_view cn2))
    /\ control cn2 = control cn0 ++ checks /\ Forall (spends_settled checks) (combine (vtx block) us)
    /\ u64 (net cn2) = u64 (net cn0 + total_flow (combine (vtx block) us)).
Proof.
  intros E1 E2 Hc Hun (Hcb & Hsh & Hstake) Hf Hn Hds.
  assert (Hplain : Forall (fun tx => HasOpCoinstakeCall tx = false) (vtx block) -> cn2 = cn1 ->
    exists us checks, length us = length (vtx block) /\ vtxundo cn2 = tail us /\ cache_ok usage (cn_view cn2)
    /\ applies_all (bi_nHeight b) (cache_utxo (cn_view cn0)) (combine (vtx block) us) (cache_utxo (cn_view cn2))
    /\ control cn2 = control cn0 ++ checks /\ Forall (spends_settled checks) (combine (vtx block) us)
    /\ u64 (net cn2) = u64 (net cn0 + total_flow (combine (vtx block) us))).
  { intros Hcall ->. destruct (connect_txs_applies _ _ _ _ E1 Hc Hcall Hsh Hf Hn) as (us & ch & H1 & H2 & H3 & H4 & H5 & H6 & H7).
    exists us, ch. rewrite H4, Hun. by split_and!. }
  unfold connect_coinstake in E2. unfold put_off, no_double_spend in Hds.
  destruct (IsProofOfStake (header block)); [|apply Hplain; [done|by injection E2]].
  destruct (vtx block) as [|tx0 [|tx1 rest]] eqn:Ev; [done|done|]. cbn [lookup list_lookup] in E2, Hds.
  destruct Hcb as [Hcb0 [Hcb1 Hcb]%Forall_cons]. cbn [drop] in Hstake. cbn [Connect.connect_txs] in E1.
  apply and_then_accepted in E1 as (cna & Ea & E1). apply and_then_accepted in E1 as (cnb & Eb & E1).
  assert (Hcall0 : HasOpCoinstakeCall tx0 = false).
  { destruct (HasOpCoinstakeCall tx0) eqn:Hcall; [|done]. apply (connect_tx_call _ _ _ _ Ea) in Hcall.
    by rewrite IsCoinBase_not_stake in Hcall. }
  pose proof (connect_txs_calls _ _ _ _ E1 Hstake) as Hcall.
  destruct (HasOpCoinstakeCall tx1) eqn:Hcall1.
  2:{ apply Hplain; [by repeat constructor|by injection E2]. }
  apply and_then_accepted in E2 as ([u3 c3] & Eu & [= <-]). clear Hplain.
  specialize (Hds eq_refl). cbn [tail] in Hds. rewrite fmap_cons in Hds. cbn [concat] in Hds.
  apply NoDup_app in Hds as (_ & Hds & _).
  destruct (put_off_applies tx0 tx1 rest cn0 cna cnb cn1 u3 c3) as (u0 & us & ch & Hl & Hc3 & Hun3 & Ha & Hct & Hs & Hnet); try done.
  { apply Forall_forall. intros t Ht k Hk Hk1. apply (Hds k Hk1).
    apply list_elem_of_In, in_concat. exists (prevout <$> vin t).
    split; [|by apply list_elem_of_In]. apply list_elem_of_In. by apply (list_elem_of_fmap_2 (fun tx => prevout <$> vin tx)). }
  exists (u0 :: u3 :: us), ch. cbn [cn_view vtxundo control combine tail length]. rewrite Hun3, Hl. by split_and!.
Qed.

(** The steps of an accepted block. *)
Lemma ConnectBlock_steps block view cn :
  ConnectBlock block view = Accepted cn -> cache_ok usage view ->
  exists c cn1 cn2, cache_ok usage c /\ cache_utxo c = cache_utxo view
    /\ connect_txs 0 (vtx block) (mkConnection c 0 0 0 0 [] []) = Accepted cn1
    /\ connect_coinstake usage b block cn1 = Accepted cn2 /\ Forall (fun ch => run ch = Pass) (control cn2)
    /\ cn = mkConnection (SetBestBlock (cn_view cn2) (bi_hash b)) (nFees cn2) (nSigOpsCost cn2) (nValueIn cn2)
              (nValueOut cn2) (vtxundo cn2) (control cn2).
Proof.
  intros E Hc. unfold Connect.ConnectBlock in E.
  apply and_then_accepted in E as (q & _ & E). apply and_then_accepted in E as (p & _ & E).
  destruct (GetBestBlock_spec usage view Hc) as (_ & Hc0 & Hu0 & _).
  destruct (GetBestBlock view) as [best c0]. cbn [fst snd] in Hc0, Hu0. destruct (negb _); [done|].
  destruct (if BIP34_IMPLIES_BIP30_LIMIT <=? bi_nHeight b then overwrites usage c0 (vtx block) else (false, c0)) as [over c1] eqn:Eo.
  assert (H1 : cache_ok usage c1 /\ cache_utxo c1 = cache_utxo view).
  { destruct (_ <=? _); [|by injection Eo as _ <-]. apply overwrites_keeps in Eo. destruct (Eo Hc0). split; [done|congruence]. }
  destruct H1 as [Hc1 Hu1]. apply and_then_accepted in E as (_ & _ & E).
  apply and_then_accepted in E as (cn1 & E1 & E). apply and_then_accepted in E as (cn2 & E2 & E).
  apply and_then_accepted in E as (passed & Ew & E). apply and_then_accepted in E as (? & ->%guard_accepted & [= <-]).
  exists c1, cn1, cn2. split_and!; [done..|by apply wait_spec|done].
Qed.

(** What an accepted block has done. *)
Lemma ConnectBlock_spec block view cn :
  ConnectBlock block view = Accepted cn -> cache_ok usage view -> block_shape block ->
  Forall (unused (cache_utxo view)) (vtx block) -> NoDup (GetHash <$> vtx block) ->
  (put_off block = true -> no_double_spend block) ->
  exists us, length us = length (vtx block) /\ vtxundo cn = tail us /\ cache_ok usage (cn_view cn)
    /\ hashBlock (cn_view cn) = bi_hash b
    /\ applies_all (bi_nHeight b) (cache_utxo view) (combine (vtx block) us) (cache_utxo (cn_view cn))
    /\ Forall spends_verified (combine (vtx block) us)
    /\ u64 (net cn) = u64 (total_flow (combine (vtx block) us)).
Proof.
  intros E Hc Hsh Hf Hn Hds. destruct (ConnectBlock_steps _ _ _ E Hc) as (c1 & cn1 & cn2 & Hc1 & Hu1 & E1 & E2 & Hw & ->).
  destruct (connect_all_applies block _ cn1 cn2 E1 E2) as (us & ch & Hl & Hun & Hc2 & Ha & Hct & Hs & Hnet); try done.
  { cbn [cn_view]. by rewrite Hu1. }
  cbn [cn_view control] in Ha, Hct. rewrite Hu1 in Ha. exists us. cbn [cn_view vtxundo SetBestBlock hashBlock].
  split_and!; [done..| |done]. rewrite Hct in Hw. by eapply settled_verified.
Qed.

Lemma connect_coinstake_control block cn cn' :
  connect_coinstake usage b block cn = Accepted cn' -> control cn' = control cn.
Proof.
  unfold connect_coinstake. destruct (IsProofOfStake (header block)); [|by intros [= <-]].
  destruct (vtx block !! 1%nat) as [tx|]; [|done]. destruct (HasOpCoinstakeCall tx); [|by intros [= <-]].
  intros E. by apply and_then_accepted in E as ([? ?] & _ & [= <-]).
Qed.

(** Every check of an accepted block, double spends or not. *)
Lemma ConnectBlock_checked block view cn n tx j txin :
  ConnectBlock block view = Accepted cn -> cache_ok usage view -> Forall tx_shape (vtx block) ->
  Forall (unused (cache_utxo view)) (vtx block) -> NoDup (GetHash <$> vtx block) -> fScriptChecks = true ->
  vtx block !! n = Some tx -> IsCoinBase tx = false ->
  contains (hashCacheEntry scriptExecutionCacheNonce tx flags) = false -> vin tx !! j = Some txin ->
  exists x, coins_before (bi_nHeight b) (cache_utxo view) (vtx block) n !! prevout txin = Some x
    /\ run (input_check (out x) tx j flags) = Pass.
Proof.
  intros E Hc Hsh Hf Hn Hsc Htx Hcb Hct Hj. destruct (ConnectBlock_steps _ _ _ E Hc) as (c1 & cn1 & cn2 & Hc1 & Hu1 & E1 & E2 & Hw & _).
  destruct (connect_txs_checked _ _ _ _ E1) as (ch & Hch & Hall); [done..|cbn [cn_view]; by rewrite Hu1|done|].
  rewrite (connect_coinstake_control _ _ _ E2), Hch in Hw. cbn [cn_view control app] in Hw, Hall. rewrite Hu1 in Hall.
  destruct (Hall n tx Htx Hcb) as [Hin Hs]. rewrite Forall_lookup in Hin. destruct (Hin j txin Hj) as [x Hx].
  exists x. split; [done|]. destruct (Hs Hsc Hct Hcb j txin x Hj Hx) as [Hc'|]; [|done].
  rewrite Forall_forall in Hw. by apply Hw.
Qed.
End ConnectLaws.

(** ** Properties *)


Lemma applies_all_lengths h l : forall m m' i tx u,
  applies_all h m l m' -> l !! i = Some (tx, u) -> IsCoinBase tx = false -> length u = length (vin tx).
Proof.
  induction l as [|p l IH]; intros m m' i tx u Ha Hi Hcb; [by rewrite lookup_nil in Hi|].
  inversion Ha as [|? t v ? ? (_ & _ & Ht) Hl]; subst. destruct i as [|i]; [|by eapply IH].
  injection Hi as -> ->. destruct (Ht Hcb) as [_ Hu]. symmetry. by eapply Forall2_length.
Qed.

Lemma zip_with_combine {A B} (l : list A) (l' : list B) : zip_with pair l l' = combine l l'.
Proof. revert l'. induction l as [|a l IH]; intros [|y l']; try done; cbn; by rewrite IH. Qed.

Lemma fst_combine {A B} (l : list A) (u : list B) : length u = length l -> (combine l u).*1 = l.
Proof.
  revert u. induction l as [|a l IH]; intros [|y u] Hl; [done..|]. injection Hl as Hl.
  change (a :: (combine l u).*1 = a :: l). by rewrite IH.
Qed.

(** The coin recorded for an input of an applied transaction. *)
Lemma recorded_coins h m txs us m' n tx j txin :
  applies_all h m (combine txs us) m' -> length us = length txs -> txs !! n = Some tx -> IsCoinBase tx = false ->
  vin tx !! j = Some txin ->
  exists u x, us !! n = Some u /\ u !! j = Some x /\ combine txs us !! n = Some (tx, u).
Proof.
  intros Ha Hl Htx Hcb Hj. destruct (lookup_lt_is_Some_2 us n) as [u Hu]. { rewrite Hl. by eapply lookup_lt_Some. }
  assert (Hp : combine txs us !! n = Some (tx, u)).
  { rewrite <- (zip_with_combine txs us). apply lookup_zip_with_Some. by exists tx, u. }
  assert (Hlen : length u = length (vin tx)) by by eapply applies_all_lengths.
  destruct (lookup_lt_is_Some_2 u j) as [x Hx]. { rewrite Hlen. by eapply lookup_lt_Some. }
  by exists u, x.
Qed.


(** C5: in an accepted block every input satisfies the script of the coin it
    spends.  Script checks are on, that is, the block is not below the one assumed
    valid, and the transaction's answer is not in the cache of earlier checks;
    the transactions are well formed and have distinct hashes, and outputs not yet
    in the set.  Then, for every transaction [n] but the coinbase and every input
    of it, [VerifyScript] has accepted the input against the coin that was in the
    set when the transaction was checked, whether the check was made at once or
    queued: the set after the transactions before it, without a coinstake that is
    put off.  Transactions that spend the same coin are not excluded.  Where the
    block has the shape [CheckBlock] ensures, and no coin is spent twice if a
    coinstake is put off, the coin in the undo data has been verified too. *)
Theorem block_scripts_verified {V : Type} `{Laws : CoinsViewLaws V} usage CheckLowS Verify contains nonce params
    m pindex b state threads flags nLockTimeFlags dgpMaxBlockSigOps block view cn n tx j txin :
  usage coinEmpty = 0 -> cache_ok usage view -> Forall tx_shape (vtx block) ->
  Forall (unused (cache_utxo view)) (vtx block) -> NoDup (GetHash <$> vtx block) ->
  ConnectBlock usage CheckLowS Verify contains nonce params m pindex b state true threads flags
    nLockTimeFlags dgpMaxBlockSigOps block view = Accepted cn ->
  vtx block !! n = Some tx -> IsCoinBase tx = false -> contains (hashCacheEntry nonce tx flags) = false ->
  vin tx !! j = Some txin ->
  let verified x := VerifyScript CheckLowS
    (TransactionSignatureChecker Verify tx j (nValue (out x)) (Some (PrecomputeTransactionData tx)))
    flags (scriptSig txin) (scriptPubKey (out x)) (scriptWitness txin) = Pass in
  (exists x, coins_before (bi_nHeight b) (cache_utxo view) (vtx block) n !! prevout txin = Some x /\ verified x) /\
  (block_shape block -> (put_off block = true -> no_double_spend block) ->
   exists u x, vtxundo cn !! pred n = Some u /\ u !! j = Some x /\ verified x).
Proof.
  intros Hus Hc Htxs Hf Hn E Htx Htx0 Hct Hin verified. split.
  - destruct (ConnectBlock_checked usage CheckLowS Verify contains nonce params m pindex b state true threads flags
      nLockTimeFlags dgpMaxBlockSigOps Hus block view cn n tx j txin) as (x & Hx & Hv); [done..|].
    exists x. split; [done|]. cbn in Hv. by rewrite Hin in Hv.
  - intros Hsh Hds.
    destruct (ConnectBlock_spec usage CheckLowS Verify contains nonce params m pindex b state true threads flags
      nLockTimeFlags dgpMaxBlockSigOps Hus block view cn E Hc Hsh Hf Hn Hds) as (us & Hl & Hun & _ & _ & Ha & Hv & _).
    destruct (recorded_coins _ _ _ _ _ n tx j txin Ha Hl) as (u & x & Hu & Hx & Hp); [done..|].
    exists u, x. split_and!; [|done|].
    + destruct Hsh as (Hcb & _). destruct (vtx block) as [|tx0 rest]; [done|]. destruct Hcb as [Hcb _].
      destruct n; [injection Htx as <-; congruence|]. rewrite Hun. by destruct us.
    + rewrite Forall_lookup in Hv. specialize (Hv _ _ Hp eq_refl Hct Htx0 j x Hx). cbn in Hv. by rewrite Hin in Hv.
Qed.

(** C16: the money supply recorded in the block index is the value of the coins.
    Where the supply of the previous block is the value of all unspent coins and
    what was sent to unspendable outputs before, the supply after an accepted
    block is the value of the new set and what has been sent there by then, if that
    fits [uint64_t].  This is for blocks in which no coin is spent twice if a coinstake
    is put off: [put_off_double_spend] below has an accepted block that spends one
    twice, whose coins gain value the supply does not count.  The block has the
    shape [CheckBlock] ensures; the transactions have distinct hashes, and outputs
    not yet in the set. *)
Theorem money_supply_tracks {V : Type} `{Laws : CoinsViewLaws V} usage CheckLowS Verify contains nonce params
    m pindex b state fScriptChecks threads flags nLockTimeFlags dgpMaxBlockSigOps block view cn prev burned :
  usage coinEmpty = 0 -> cache_ok usage view -> block_shape block -> Forall (unused (cache_utxo view)) (vtx block) ->
  NoDup (GetHash <$> vtx block) -> (put_off block = true -> no_double_spend block) ->
  ConnectBlock usage CheckLowS Verify contains nonce params m pindex b state fScriptChecks threads flags
    nLockTimeFlags dgpMaxBlockSigOps block view = Accepted cn ->
  prev = total_value (cache_utxo view) + burned ->
  is_u64 (total_value (cache_utxo (cn_view cn)) + (burned + unspendable_total (vtx block))) ->
  nMoneySupply prev cn = total_value (cache_utxo (cn_view cn)) + (burned + unspendable_total (vtx block)).
Proof.
  intros Hus Hc Hsh Hf Hn Hds E -> Hr.
  destruct (ConnectBlock_spec usage CheckLowS Verify contains nonce params m pindex b state fScriptChecks threads flags
    nLockTimeFlags dgpMaxBlockSigOps Hus block view cn E Hc Hsh Hf Hn Hds) as (us & Hl & _ & _ & _ & Ha & _ & Hnet).
  apply applies_all_total in Ha. rewrite (fst_combine _ _ Hl) in Ha. rewrite <- (u64_small _ Hr). unfold nMoneySupply, net in *.
  rewrite u64_sub_l.
  replace (total_value (cache_utxo view) + burned + nValueOut cn - nValueIn cn)
    with (nValueOut cn - nValueIn cn + (total_value (cache_utxo view) + burned)) by lia.
  rewrite <- u64_add_l, Hnet, u64_add_l. f_equal. lia.
Qed.

(** ** A block with a coinstake that calls a contract *)

Definition demo_key : list Z := 2 :: repeat 5 32.
Definition demo_spk : list Z := Scr.push_vch [] demo_key ++ [OP_CHECKSIG].
Definition demo_sig : list Z := Scr.push_vch [] [48; 1].
Definition demo_call : list Z :=
  Scr.push_vch (Scr.push_vch (Scr.push_vch [] [4]) [1; 2; 3; 4]) (repeat 9 20) ++ [OP_COINSTAKE_CALL].

Definition demo_coin (v : Z) : Coin := mkCoin (mkTxOut v demo_spk) false false 1.

Definition demo_coinbase : CTransaction :=
  mkTransaction [mkTxIn OutPoint_SetNull [1; 2] SEQUENCE_FINAL []] [mkTxOut 0 []] 2 0.

Definition demo_coinstake : CTransaction :=
  mkTransaction [mkTxIn (sample_key 0) demo_sig SEQUENCE_FINAL []]
    [mkTxOut 0 []; mkTxOut 50000 demo_spk; mkTxOut 0 demo_call] 2 0.

(** An ordinary spend of coin [n]. *)
Definition demo_spend (n : Z) : CTransaction :=
  mkTransaction [mkTxIn (sample_key n) demo_sig SEQUENCE_FINAL []] [mkTxOut 40000 demo_spk] 2 0.

Definition demo_block (n : Z) : CBlock :=
  mkBlock (mkHeader 1 null256 null256 0 0 0 null256 null256 (sample_key 0) [])
    [demo_coinbase; demo_coinstake; demo_spend n].

Definition demo_index (i : nat) : CBlockIndex :=
  match mem demo_state !! i with Some x => x | None => new_index Header_SetNull end.

Definition demo_view : CCoinsViewCache CCoinsViewDB :=
  new_cache (mkDB (<[sample_key 0 := demo_coin 50000]> {[sample_key 1 := demo_coin 50000]})
    (Some (bi_hash (demo_index 1))) []).

Definition demo_connect (n : Z) : checked (connection CCoinsViewDB) :=
  @ConnectBlock _ (db_view (fun _ => false)) sample_usage (fun _ => true) (fun _ _ _ => true) (fun _ => false) [] mainnet
    (mem demo_state) 2 (demo_index 2) new_state true true 1 0 1000 (demo_block n) demo_view.

Lemma demo_connects n : n = 0 \/ n = 1 -> exists cn, demo_connect n = Accepted cn.
Proof.
  intros Hn.
  assert (E : match demo_connect n with Accepted _ => true | _ => false end = true)
    by (destruct Hn as [-> | ->]; vm_compute; reflexivity).
  destruct (demo_connect n) as [cn| |]; [by exists cn|done|done].
Qed.

(** The transactions of the block are well formed. *)
Lemma demo_txs_checked n :
  n = 0 \/ n = 1 ->
  forallb (fun tx => fst (CheckTransaction mainnet 4000000 tx new_state 2 true)) (vtx (demo_block n)) = true.
Proof. intros [-> | ->]; vm_compute; reflexivity. Qed.

Definition demo_total (r : checked (connection CCoinsViewDB)) : option Z :=
  match r with
  | Accepted cn => Some (total_value (@cache_utxo _ _ (db_laws (fun _ => false)) (cn_view cn)))
  | _ => None
  end.

(** A coin can be spent twice in one block as far as the coins are concerned.  In
    this block the coinstake, which calls a contract, and a later transaction
    spend the same coin: the coinstake is checked while the coin is there and
    applied after it is gone, and [SpendCoin] finds the spent entry of the cache.
    The coins are then worth 40000 more than before.  The block carries no reward, which
    [CheckReward] would not accept; [Reward] has one that does. *)
Theorem put_off_double_spend :
  ~ no_double_spend (demo_block 0)
  /\ total_value (@cache_utxo _ _ (db_laws (fun _ => false)) demo_view) = 100000
  /\ demo_total (demo_connect 0) = Some 140000 /\ demo_total (demo_connect 1) = Some 90000.
Proof.
  split_and!; try (vm_compute; reflexivity).
  unfold no_double_spend. cbn. intros [Hn _]%NoDup_cons. apply Hn. left.
Qed.

#[local] Existing Instance db_laws.

(** The hypotheses of the theorems hold of the block with different coins. *)
Lemma demo_view_ok : @view_ok _ _ (db_laws (fun _ => false)) (base demo_view).
Proof. split; [done|]. apply map_Forall_insert_2; [reflexivity|]. apply map_Forall_singleton. reflexivity. Qed.

Lemma demo_utxo : @cache_utxo _ _ (db_laws (fun _ => false)) demo_view
  = <[sample_key 0 := demo_coin 50000]> {[sample_key 1 := demo_coin 50000]}.
Proof. exact (proj2 (@new_cache_spec _ _ (db_laws (fun _ => false)) sample_usage _ demo_view_ok)). Qed.


Lemma demo_unused : Forall (unused (@cache_utxo _ _ (db_laws (fun _ => false)) demo_view)) (vtx (demo_block 1)).
Proof.
  rewrite demo_utxo. apply Forall_forall. intros tx Htx j _.
  assert (Hne : GetHash tx <> repeat 7 32).
  { assert (Hall : forallb (fun tx => negb (bool_decide (GetHash tx = repeat 7 32))) (vtx (demo_block 1)) = true)
      by (vm_compute; reflexivity).
    rewrite forallb_forall in Hall. apply list_elem_of_In, Hall, negb_true_iff, bool_decide_eq_false in Htx. exact Htx. }
  rewrite lookup_insert_ne by (intros E%(f_equal prevout_hash); by apply Hne).
  apply lookup_singleton_ne. intros E%(f_equal prevout_hash). by apply Hne.
Qed.

Lemma demo_hashes : NoDup (GetHash <$> vtx (demo_block 1)).
Proof. apply (bool_decide_eq_true_1 _). vm_compute. reflexivity. Qed.

Lemma demo_inputs : no_double_spend (demo_block 1).
Proof. apply (bool_decide_eq_true_1 _). vm_compute. reflexivity. Qed.

Lemma demo_shape : block_shape (demo_block 1).
Proof.
  split; [split; [done|by repeat constructor]|]. split.
  - repeat constructor; try done; by intros ?%elem_of_nil.
  - repeat constructor.
Qed.



Lemma money_supply_tracks_witness :
  exists cn, demo_connect 1 = Accepted cn /\ nMoneySupply 100007 cn = 90007.
Proof.
  destruct (demo_connects 1 (or_intror eq_refl)) as [cn E]. exists cn. split; [exact E|].
  assert (Et : total_value (@cache_utxo _ _ (db_laws (fun _ => false)) (cn_view cn)) = 90000).
  { assert (Ed : demo_total (demo_connect 1) = Some 90000) by (vm_compute; reflexivity).
    rewrite E in Ed. injection Ed as Ed. exact Ed. }
  assert (Eb : unspendable_total (vtx (demo_block 1)) = 0) by (vm_compute; reflexivity).
  assert (R : nMoneySupply 100007 cn
    = total_value (@cache_utxo _ _ (db_laws (fun _ => false)) (cn_view cn)) + (7 + unspendable_total (vtx (demo_block 1)))).
  { apply (@money_supply_tracks _ _ (db_laws (fun _ => false)) sample_usage (fun _ => true) (fun _ _ _ => true)
      (fun _ => false) [] mainnet (mem demo_state) 2 (demo_index 2) new_state true true 1 0 1000
      (demo_block 1) demo_view cn 100007 7).
    - reflexivity.
    - exact (proj1 (@new_cache_spec _ _ (db_laws (fun _ => false)) sample_usage _ demo_view_ok)).
    - exact demo_shape.
    - exact demo_unused.
    - exact demo_hashes.
    - intros _. exact demo_inputs.
    - exact E.
    - vm_compute. reflexivity.
    - rewrite Et, Eb. split; [discriminate|reflexivity]. }
  rewrite R, Et, Eb. reflexivity.
Defined.

Lemma block_scripts_verified_witness :
  exists cn u x y, demo_connect 1 = Accepted cn
    /\ coins_before 2 (@cache_utxo _ _ (db_laws (fun _ => false)) demo_view) (vtx (demo_block 1)) 1 !! sample_key 0 = Some y
    /\ vtxundo cn !! 0%nat = Some u /\ u !! 0%nat = Some x
    /\ VerifyScript (fun _ => true)
         (TransactionSignatureChecker (fun _ _ _ => true) demo_coinstake 0 (nValue (out y))
            (Some (PrecomputeTransactionData demo_coinstake)))
         1 demo_sig (scriptPubKey (out y)) [] = Pass
    /\ VerifyScript (fun _ => true)
         (TransactionSignatureChecker (fun _ _ _ => true) demo_coinstake 0 (nValue (out x))
            (Some (PrecomputeTransactionData demo_coinstake)))
         1 demo_sig (scriptPubKey (out x)) [] = Pass.
Proof.
  destruct (demo_connects 1 (or_intror eq_refl)) as [cn E]. exists cn.
  destruct (@block_scripts_verified _ _ (db_laws (fun _ => false)) sample_usage (fun _ => true) (fun _ _ _ => true)
    (fun _ => false) [] mainnet (mem demo_state) 2 (demo_index 2) new_state true 1 0 1000
    (demo_block 1) demo_view cn 1 demo_coinstake 0 (mkTxIn (sample_key 0) demo_sig SEQUENCE_FINAL []))
    as [(y & Hy & Hvy) H2].
  - reflexivity.
  - exact (proj1 (@new_cache_spec _ _ (db_laws (fun _ => false)) sample_usage _ demo_view_ok)).
  - exact (proj1 (proj2 demo_shape)).
  - exact demo_unused.
  - exact demo_hashes.
  - exact E.
  - reflexivity.
  - reflexivity.
  - reflexivity.
  - reflexivity.
  - assert (Eh : bi_nHeight (demo_index 2) = 2) by (vm_compute; reflexivity). rewrite Eh in Hy.
    destruct (H2 demo_shape (fun _ => demo_inputs)) as (u & x & Hu & Hx & Hv).
    exists u, x, y. split_and!; [exact E|exact Hy|exact Hu|exact Hx|exact Hvy|exact Hv].
Defined.
