(* ===== verification/Merkle.v ===== *)
(** * Merkle roots: [src/src/consensus/merkle.cpp]

    The hashes of a level are paired, an odd one with itself, and each pair is
    hashed by [SHA256D64] until one is left.  The root alone does not determine
    the leaves: repeating the end of a list may give the same one
    (CVE-2012-2459), which [mutated] reports. *)
From Stdlib Require Import ZArith Lia List Bool Arith.
From S2P Require Import Prelude Serialize Sha256 Hash Primitives.
Import ListNotations.

(** [hashes.push_back(hashes.back())] for an odd number of hashes. *)
Definition pad_level (hashes : list (list Z)) : list (list Z) :=
  if Nat.odd (length hashes) then hashes ++ [last hashes []] else hashes.

(** The loop over [pos]: two hashes to be paired are the same. *)
Fixpoint same_pairs (hashes : list (list Z)) : bool :=
  match hashes with
  | a :: b :: hashes' => blob_eqb a b || same_pairs hashes'
  | _ => false
  end.

(** The first [n] hashes of an array of bytes. *)
Fixpoint hash_array (n : nat) (m : list Z) : list (list Z) :=
  match n with
  | O => []
  | S n' => firstn 32 m :: hash_array n' (skipn 32 m)
  end.

(** [SHA256D64] in place, and [resize]. *)
Definition hash_level (hashes : list (list Z)) : list (list Z) :=
  let n := (length hashes / 2)%nat in hash_array n (sha256.SHA256D64 (concat hashes) n).

(** The loop; [None] is not reached with as much fuel as there are hashes. *)
Fixpoint merkle_loop (fuel : nat) (hashes : list (list Z)) (mutation : bool) : option (list (list Z) * bool) :=
  if (length hashes <=? 1)%nat then Some (hashes, mutation)
  else
    match fuel with
    | O => None
    | S fuel' => merkle_loop fuel' (hash_level (pad_level hashes)) (mutation || same_pairs hashes)
    end.

Definition ComputeMerkleRoot (hashes : list (list Z)) : option (list Z * bool) :=
  match merkle_loop (length hashes) hashes false with
  | Some ([], mutation) => Some (uint256_zero, mutation)
  | Some (h :: _, mutation) => Some (h, mutation)
  | None => None
  end.

Definition BlockMerkleRoot (block : CBlock) : option (list Z * bool) :=
  ComputeMerkleRoot (map GetHash (vtx block)).

(** [None] is an access beyond the leaves. *)
Definition BlockWitnessMerkleRoot (block : CBlock) (pfProofOfStake : option bool) : option (list Z * bool) :=
  let fProofOfStake := match pfProofOfStake with Some b => b | None => IsProofOfStake (header block) end in
  let first := if fProofOfStake then 2%nat else 1%nat in
  if (length (vtx block) <? first)%nat then None
  else ComputeMerkleRoot (repeat uint256_zero first ++ map GetWitnessHash (skipn first (vtx block))).

(** ** The reference: hashes of pairs *)

Definition is_hash (h : list Z) : Prop := bytes h /\ length h = 32%nat.

Fixpoint pairs (l : list (list Z)) : list (list Z) :=
  match l with
  | a :: b :: l' => Hash (a ++ b) :: pairs l'
  | [a] => [Hash (a ++ a)]
  | [] => []
  end.

(** Induction two elements at a time. *)
Lemma list_ind2 {A} (P : list A -> Prop) :
  P [] -> (forall a, P [a]) -> (forall a b l, P l -> P (a :: b :: l)) -> forall l, P l.
Proof.
  intros H0 H1 H2. fix IH 1. intros [|a [|b l]]; [exact H0|apply H1|apply H2, IH].
Qed.

Lemma bytes_Hash x : bytes (Hash x).
Proof.
  unfold Hash, CHash256.Finalize. destruct (Hasher64.Finalize CSHA256 _) as [buf sha].
  apply bytes_flat_map. intros y. apply bytes_rev, bytes_le_bytes.
Qed.

Lemma is_hash_Hash x : is_hash (Hash x).
Proof. split; [apply bytes_Hash|apply length_Hash]. Qed.

Lemma pairs_hashes l : Forall is_hash (pairs l).
Proof. induction l as [|a|a b l IH] using list_ind2; cbn [pairs]; auto using is_hash_Hash. Qed.

Lemma length_pairs l : length (pairs l) = ((length l + 1) / 2)%nat.
Proof.
  induction l as [|a|a b l IH] using list_ind2; [reflexivity..|]. cbn [pairs length]. rewrite IH.
  replace (S (S (length l)) + 1)%nat with (length l + 1 + 1 * 2)%nat by lia. rewrite Nat.div_add; lia.
Qed.

Lemma pad_cons2 a b l : l <> [] -> pad_level (a :: b :: l) = a :: b :: pad_level l.
Proof.
  intros Hl. unfold pad_level. cbn [length]. rewrite Nat.odd_succ, Nat.even_succ. destruct (Nat.odd (length l)); [|reflexivity].
  destruct l as [|c l]; [contradiction|]. reflexivity.
Qed.

Lemma hash_array_app h n m : is_hash h -> hash_array (S n) (h ++ m) = h :: hash_array n m.
Proof.
  intros [_ Hl]. cbn [hash_array]. now rewrite firstn_app_exact, skipn_app_exact by exact Hl.
Qed.

(** On an even number of hashes. *)
Lemma hash_level_pairs l : Forall is_hash l -> Nat.odd (length l) = false -> hash_level l = pairs l.
Proof.
  intros Hl Ho. unfold hash_level.
  assert (Hlen : length (concat l) = (32 * length l)%nat).
  { clear Ho. induction Hl as [|h l [_ Hh] _ IH]; [reflexivity|]. cbn [concat length]. rewrite length_app. lia. }
  assert (Hb : bytes (concat l)).
  { clear Ho Hlen. induction Hl as [|h l [Hh _] _ IH]; [constructor|]. cbn [concat]. now apply Forall_app. }
  assert (He : exists k, length l = (2 * k)%nat).
  { apply Nat.even_spec. now rewrite <- Nat.negb_odd, Ho. }
  destruct He as [k Hk]. rewrite Hk, Nat.mul_comm, Nat.div_mul by lia.
  rewrite sha256d64_blocks; [|exact Hb|lia]. clear Ho Hlen Hb.
  revert k Hk. induction l as [|a|a b l IH] using list_ind2; intros k Hk.
  - cbn in Hk. now replace k with O by lia.
  - cbn in Hk. lia.
  - destruct k as [|k]; [cbn in Hk; lia|]. inversion Hl as [|? ? Ha Hl1]; subst. inversion Hl1 as [|? ? Hb Hl2]; subst.
    cbn [concat parse_blocks flat_map pairs]. rewrite app_assoc.
    assert (Hab : length (a ++ b) = 64%nat) by (rewrite length_app; destruct Ha, Hb; lia).
    rewrite firstn_app_exact, skipn_app_exact by exact Hab.
    rewrite hash_array_app by apply is_hash_Hash. f_equal. apply IH; [assumption|]. cbn in Hk. lia.
Qed.

Lemma pad_level_props l : Forall is_hash l -> Forall is_hash (pad_level l) /\ Nat.odd (length (pad_level l)) = false /\
  pairs (pad_level l) = pairs l.
Proof.
  intros Hl. repeat split.
  - unfold pad_level. destruct (Nat.odd (length l)) eqn:Ho; [|exact Hl]. apply Forall_app. split; [exact Hl|].
    constructor; [|constructor]. destruct l as [|a l]; [discriminate|].
    rewrite Forall_forall in Hl. apply Hl. clear. revert a. induction l as [|b l IH]; intros a; [now left|].
    right. apply (IH b).
  - unfold pad_level. destruct (Nat.odd (length l)) eqn:Ho; [|exact Ho]. rewrite length_app, Nat.add_1_r, Nat.odd_succ, <- Nat.negb_odd.
    now rewrite Ho.
  - clear Hl. induction l as [|a|a b l IH] using list_ind2; [reflexivity..|]. destruct l as [|c l]; [reflexivity|].
    rewrite pad_cons2 by discriminate. cbn [pairs] in *. now rewrite IH.
Qed.

Lemma level_pairs l : Forall is_hash l -> hash_level (pad_level l) = pairs l.
Proof. intros Hl. destruct (pad_level_props l Hl) as (H1 & H2 & <-). now apply hash_level_pairs. Qed.

(** ** Binding *)

#[local] Opaque Hash.

(** What is hashed to get from a level to the next. *)
Fixpoint inputs (l : list (list Z)) : list (list Z) :=
  match l with
  | a :: b :: l' => (a ++ b) :: inputs l'
  | [a] => [a ++ a]
  | [] => []
  end.

(** Everything that is hashed in the [k] levels above [l]. *)
Fixpoint hashed (k : nat) (l : list (list Z)) : list (list Z) :=
  match k with
  | O => []
  | S k' => inputs l ++ hashed k' (pairs l)
  end.

(** Two different inputs of 64 bytes, one from each list, have the same double
    SHA-256.  That such inputs exist somewhere is no news; here they are among
    those of the two trees. *)
Definition collision (xs ys : list (list Z)) : Prop :=
  exists x y, In x xs /\ In y ys /\ x <> y /\ Hash x = Hash y
    /\ bytes x /\ bytes y /\ length x = 64%nat /\ length y = 64%nat.

Lemma collision_incl xs ys xs' ys' : collision xs ys -> incl xs xs' -> incl ys ys' -> collision xs' ys'.
Proof. intros (x & y & Hx & Hy & H) Ix Iy. exists x, y. split; [now apply Ix|]. split; [now apply Iy|exact H]. Qed.

(** The number of levels above [n] leaves is [k]. *)
Definition levels (k n : nat) : Prop :=
  match k with O => n = 1%nat | S k' => (2 ^ k' < n <= 2 ^ k)%nat end.

Lemma levels_next k n : levels (S k) n -> levels k ((n + 1) / 2).
Proof.
  unfold levels. intros [H1 H2]. pose proof (Nat.div_mod (n + 1) 2 ltac:(lia)) as Hd.
  pose proof (Nat.mod_upper_bound (n + 1) 2 ltac:(lia)) as Hm. destruct k as [|k].
  - cbn in H1, H2. assert (n = 2)%nat as -> by lia. reflexivity.
  - cbn [Nat.pow] in *. lia.
Qed.

Lemma levels_loop k n : levels k n -> ((n <=? 1)%nat = match k with O => true | S _ => false end).
Proof.
  destruct k as [|k]; cbn [levels]; [intros ->; reflexivity|]. intros [H _].
  apply Nat.leb_gt. pose proof (Nat.pow_nonzero 2 k ltac:(lia)). lia.
Qed.

(** The loop level by level, with any fuel that suffices. *)
Fixpoint tree (k : nat) (l : list (list Z)) : list (list Z) * bool :=
  match k with
  | O => (l, false)
  | S k' => let '(r, mu) := tree k' (pairs l) in (r, same_pairs l || mu)
  end.

Lemma merkle_loop_tree k : forall fuel l mu,
  (k <= fuel)%nat -> levels k (length l) -> Forall is_hash l ->
  merkle_loop fuel l mu = Some (fst (tree k l), mu || snd (tree k l)).
Proof.
  induction k as [|k IH]; intros fuel l mu Hk Hl Hh.
  - pose proof (levels_loop _ _ Hl) as E. cbn [tree fst snd]. rewrite orb_false_r. destruct fuel; cbn [merkle_loop]; now rewrite E.
  - pose proof (levels_loop _ _ Hl) as E. destruct fuel as [|fuel]; [lia|]. cbn [merkle_loop]. rewrite E, level_pairs by exact Hh.
    rewrite IH; [|lia|rewrite length_pairs; now apply levels_next|apply pairs_hashes].
    cbn [tree]. destruct (tree k (pairs l)) as [r mu']. cbn [fst snd]. now rewrite orb_assoc.
Qed.

Lemma levels_exist n : (0 < n)%nat -> exists k, (k <= n)%nat /\ levels k n.
Proof.
  intros Hn. destruct (Nat.eq_dec n 1) as [->|H1]; [exists O; split; [lia|reflexivity]|].
  pose proof (Nat.log2_up_spec n ltac:(lia)) as H. exists (Nat.log2_up n). split.
  - pose proof (Nat.log2_up_lt_lin n ltac:(lia)). lia.
  - pose proof (Nat.log2_up_pos n ltac:(lia)). destruct (Nat.log2_up n) as [|k]; [lia|]. cbn [levels]. cbn [Nat.pred] in H. lia.
Qed.

Lemma blob_eqb_spec a : forall b, blob_eqb a b = true <-> a = b.
Proof.
  induction a as [|x a IH]; intros [|y b]; cbn; split; intros H; try congruence; try discriminate.
  - apply andb_prop in H as [H1%Z.eqb_eq H2%IH]. now subst.
  - injection H as -> H. apply andb_true_intro. split; [apply Z.eqb_refl|now apply IH].
Qed.

Lemma is_hash_app a b : is_hash a -> is_hash b -> bytes (a ++ b) /\ length (a ++ b) = 64%nat.
Proof. intros [Ha La] [Hb Lb]. split; [now apply Forall_app|rewrite length_app; lia]. Qed.

Lemma app_hashes a b c d xs ys : is_hash a -> is_hash b -> is_hash c -> is_hash d ->
  Hash (a ++ b) = Hash (c ++ d) -> (a = c /\ b = d) \/ collision ((a ++ b) :: xs) ((c ++ d) :: ys).
Proof.
  intros Ha Hb Hc Hd E. destruct (list_eq_dec Z.eq_dec (a ++ b) (c ++ d)) as [H|H].
  - left. assert (E1 := f_equal (firstn 32) H). assert (E2 := f_equal (skipn 32) H). destruct Ha, Hc.
    rewrite !firstn_app_exact in E1 by assumption. rewrite !skipn_app_exact in E2 by assumption. now split.
  - right. destruct (is_hash_app a b Ha Hb), (is_hash_app c d Hc Hd).
    exists (a ++ b), (c ++ d). now repeat split; try left.
Qed.

Lemma same_pairs_cons a b l : same_pairs (a :: b :: l) = false -> a <> b /\ same_pairs l = false.
Proof.
  cbn [same_pairs]. intros [H1 H2]%orb_false_elim. split; [|exact H2]. intros E. apply blob_eqb_spec in E. congruence.
Qed.

(** One level, both of whose lists have no repeated pair, determines the one
    below it. *)
Lemma pairs_inj l1 : forall l2,
  Forall is_hash l1 -> Forall is_hash l2 -> same_pairs l1 = false -> same_pairs l2 = false ->
  pairs l1 = pairs l2 -> l1 = l2 \/ collision (inputs l1) (inputs l2).
Proof.
  induction l1 as [|a|a b l1 IH] using list_ind2; intros l2 H1 H2 S1 S2 E.
  - destruct l2 as [|c [|d l2]]; [now left|discriminate..].
  - inversion H1 as [|? ? Ha _]; subst. destruct l2 as [|c [|d [|? [|]]]]; try discriminate; injection E as E.
    + inversion H2 as [|? ? Hc _]; subst. destruct (app_hashes a a c c [] []) as [[-> _]|]; auto.
    + inversion H2 as [|? ? Hc H2']; subst. inversion H2' as [|? ? Hd _]; subst.
      destruct (app_hashes a a c d [] []) as [[-> ->]|]; auto. apply same_pairs_cons in S2. now destruct S2.
  - inversion H1 as [|? ? Ha H1']; subst. inversion H1' as [|? ? Hb H1'']; subst. apply same_pairs_cons in S1 as [S1 S1'].
    destruct l2 as [|c [|d l2]]; [discriminate| |].
    + inversion H2 as [|? ? Hc _]; subst. injection E as E E'.
      destruct (app_hashes a b c c (inputs l1) []) as [[-> ->]|]; auto. now destruct S1.
    + inversion H2 as [|? ? Hc H2']; subst. inversion H2' as [|? ? Hd H2'']; subst. apply same_pairs_cons in S2 as [_ S2'].
      injection E as E E'. destruct (app_hashes a b c d (inputs l1) (inputs l2)) as [[-> ->]|]; auto.
      destruct (IH l2) as [->|Hcol]; auto. right. apply (collision_incl _ _ _ _ Hcol); apply incl_tl, incl_refl.
Qed.

Lemma tree_inj k : forall l1 l2,
  Forall is_hash l1 -> Forall is_hash l2 -> fst (tree k l1) = fst (tree k l2) ->
  snd (tree k l1) = false -> snd (tree k l2) = false -> l1 = l2 \/ collision (hashed k l1) (hashed k l2).
Proof.
  induction k as [|k IH]; intros l1 l2 H1 H2 E M1 M2; [now left|]. cbn [tree hashed] in *.
  destruct (tree k (pairs l1)) as [r1 m1] eqn:E1, (tree k (pairs l2)) as [r2 m2] eqn:E2. cbn [fst snd] in *.
  apply orb_false_elim in M1 as [S1 M1], M2 as [S2 M2].
  specialize (IH (pairs l1) (pairs l2) (pairs_hashes l1) (pairs_hashes l2)). rewrite E1, E2 in IH.
  destruct (IH E M1 M2) as [Hp|Hcol].
  - destruct (pairs_inj l1 l2 H1 H2 S1 S2 Hp) as [->|Hcol]; [now left|right].
    apply (collision_incl _ _ _ _ Hcol); apply incl_appl, incl_refl.
  - right. apply (collision_incl _ _ _ _ Hcol); apply incl_appr, incl_refl.
Qed.

(** The level [d] above a list of leaves. *)
Fixpoint level (d : nat) (l : list (list Z)) : list (list Z) :=
  match d with O => l | S d' => level d' (pairs l) end.

(** A taller tree is the tree on one of its levels, which hashes less and reports
    less. *)
Lemma tree_level d k : forall l, Forall is_hash l ->
  fst (tree (d + k) l) = fst (tree k (level d l)) /\ Forall is_hash (level d l)
  /\ incl (hashed k (level d l)) (hashed (d + k) l)
  /\ (snd (tree (d + k) l) = false -> snd (tree k (level d l)) = false).
Proof.
  induction d as [|d IH]; intros l Hl; cbn [level Nat.add].
  - split; [reflexivity|]. split; [exact Hl|]. split; [apply incl_refl|trivial].
  - destruct (IH (pairs l) (pairs_hashes l)) as (E & Hh & Hi & Hs). cbn [tree hashed].
    destruct (tree (d + k) (pairs l)) as [r mu]. cbn [fst snd] in *. split; [exact E|]. split; [exact Hh|].
    split; [now apply incl_appr|]. intros [_ Hm]%orb_false_elim. now apply Hs.
Qed.

Lemma length_tree k : forall l, levels k (length l) -> length (fst (tree k l)) = 1%nat.
Proof.
  induction k as [|k IH]; intros l Hl; [exact Hl|]. cbn [tree]. specialize (IH (pairs l)).
  destruct (tree k (pairs l)) as [r mu]. cbn [fst] in *. apply IH. rewrite length_pairs. now apply levels_next.
Qed.

(** The root is that of the tree. *)
Lemma ComputeMerkleRoot_tree k l :
  levels k (length l) -> Forall is_hash l ->
  exists r, fst (tree k l) = [r] /\ ComputeMerkleRoot l = Some (r, snd (tree k l)).
Proof.
  intros Hl Hh. assert (Hk : (k <= length l)%nat).
  { destruct k as [|k]; [lia|]. cbn [levels] in Hl. pose proof (Nat.pow_gt_lin_r 2 k ltac:(lia)). lia. }
  pose proof (length_tree k l Hl) as Ht. unfold ComputeMerkleRoot. rewrite (merkle_loop_tree k) by assumption.
  destruct (fst (tree k l)) as [|r [|]]; try discriminate. exists r. now split.
Qed.

Lemma same_pairs_repeated l : Nat.odd (length l) = true -> same_pairs (l ++ [last l []]) = true.
Proof.
  induction l as [|a|a b l IH] using list_ind2; intros Ho; [discriminate| |].
  - cbn [app last same_pairs]. rewrite (proj2 (blob_eqb_spec a a) eq_refl). reflexivity.
  - destruct l as [|c l]; [discriminate|]. change (last (a :: b :: c :: l) []) with (last (c :: l) []).
    cbn [app same_pairs] in *. rewrite IH by exact Ho. apply orb_true_r.
Qed.

Lemma levels_odd k n : levels (S k) n -> Nat.odd n = true -> (1 < n)%nat -> levels (S k) (n + 1).
Proof.
  cbn [levels]. intros [H1 H2] Ho Hn. split; [lia|]. destruct (Nat.eq_dec n (2 ^ S k)) as [->|]; [|lia].
  cbn [Nat.pow] in Ho. rewrite Nat.odd_mul in Ho. discriminate.
Qed.

(** C15: a Merkle root whose computation reports no mutation binds the
    leaves.  [ComputeMerkleRoot] returns for any two lists of hashes, with
    trees of heights [k] and [d + k].  If the roots are equal and neither
    computation reports a mutation, the leaves of the lower tree are the hashes
    at the same distance from the root in the other one, so the leaves
    themselves where the heights are equal; unless two different inputs that were hashed in
    these trees have the same double SHA-256.  Repeating the last of an odd
    number of hashes does give the same root, and is reported. *)
Theorem merkle_root_binds k d l1 l2 :
  levels k (length l1) -> levels (d + k) (length l2) -> Forall is_hash l1 -> Forall is_hash l2 ->
  (exists r1 mu1 r2 mu2, ComputeMerkleRoot l1 = Some (r1, mu1) /\ ComputeMerkleRoot l2 = Some (r2, mu2) /\
     (r1 = r2 -> mu1 = false -> mu2 = false -> l1 = level d l2 \/ collision (hashed k l1) (hashed (d + k) l2))) /\
  (Nat.odd (length l1) = true -> (1 < length l1)%nat -> exists r mu,
     ComputeMerkleRoot l1 = Some (r, mu) /\ ComputeMerkleRoot (l1 ++ [last l1 []]) = Some (r, true)).
Proof.
  intros L1 L2 H1 H2. destruct (ComputeMerkleRoot_tree k l1 L1 H1) as (r1 & T1 & E1).
  destruct (ComputeMerkleRoot_tree (d + k) l2 L2 H2) as (r2 & T2 & E2). split.
  - exists r1, (snd (tree k l1)), r2, (snd (tree (d + k) l2)). repeat split; [assumption..|].
    intros -> M1 M2. destruct (tree_level d k l2 H2) as (El & Hl & Hi & Hs).
    destruct (tree_inj k l1 (level d l2)) as [->|Hcol]; [assumption..|congruence|assumption|now apply Hs|now left|].
    right. apply (collision_incl _ _ _ _ Hcol); [apply incl_refl|exact Hi].
  - intros Ho Hn. destruct k as [|k]; [cbn in L1; lia|].
    destruct (pad_level_props l1 H1) as (Hp & _ & Ep). unfold pad_level in Hp, Ep. rewrite Ho in Hp, Ep.
    destruct (ComputeMerkleRoot_tree (S k) (l1 ++ [last l1 []])) as (r & T & E);
      [rewrite length_app; now apply levels_odd|exact Hp|].
    exists r1, (snd (tree (S k) l1)). split; [exact E1|]. rewrite E. cbn [tree] in T, T1 |- *. rewrite Ep in *.
    rewrite (same_pairs_repeated l1 Ho). destruct (tree k (pairs l1)) as [r0 mu0]. cbn [fst snd] in *. now replace r with r1 by congruence.
Qed.

Lemma merkle_root_binds_witness :
  (exists r1 mu1 r2 mu2, ComputeMerkleRoot [repeat 1 32; repeat 2 32; repeat 3 32] = Some (r1, mu1) /\
     ComputeMerkleRoot [repeat 1 32; repeat 2 32; repeat 4 32] = Some (r2, mu2) /\
     (r1 = r2 -> mu1 = false -> mu2 = false ->
      [repeat 1 32; repeat 2 32; repeat 3 32] = [repeat 1 32; repeat 2 32; repeat 4 32]
      \/ collision (hashed 2 [repeat 1 32; repeat 2 32; repeat 3 32]) (hashed 2 [repeat 1 32; repeat 2 32; repeat 4 32]))) /\
  exists r mu, ComputeMerkleRoot [repeat 1 32; repeat 2 32; repeat 3 32] = Some (r, mu) /\
    ComputeMerkleRoot [repeat 1 32; repeat 2 32; repeat 3 32; repeat 3 32] = Some (r, true).
Proof.
  destruct (merkle_root_binds 2 0 [repeat 1 32; repeat 2 32; repeat 3 32] [repeat 1 32; repeat 2 32; repeat 4 32]) as [A B].
  - cbn. lia.
  - cbn. lia.
  - repeat (constructor; [split; [bytes_concrete|reflexivity]|]). constructor.
  - repeat (constructor; [split; [bytes_concrete|reflexivity]|]). constructor.
  - split; [exact A|]. apply B; [reflexivity|cbn; lia].
Defined.
