(* ===== verification/Work.v ===== *)
(** * Required work: [src/src/pow.cpp] and [CheckQIP9BlockTimeDiff] of
    [src/src/rpc/blockchain.cpp]

    The target of a block follows from the spacing of the blocks before it: by an
    exponential moving average at first, by [mul_exp], which multiplies with an
    exponential, once QIP9 is active. *)
From Stdlib Require Import ZArith Lia List Bool.
From S2P Require Import Prelude ArithUint256 Primitives Chain Params.
From stdpp Require Import base tactics list numbers.
#[local] Open Scope Z_scope.

Definition zero256 : list Z := BaseUint.of_u64 WIDTH 0.

(** The loop of [mul_exp]; [None] is a division by zero or too little fuel.
    [a * abs_p] takes the factor at 32 bits. *)
Fixpoint mul_exp_loop (fuel : nat) (isNegative : bool) (abs_p q : Z) (a result : list Z) (n : Z) : option (list Z) :=
  if negb (BaseUint.op_gt a zero256) then Some result
  else
    match fuel with
    | O => None
    | S fuel' =>
        let n := u64 (n + 1) in
        match BaseUint.op_div (BaseUint.op_mul32 a (u32 abs_p)) (BaseUint.of_u64 WIDTH (u64 q)) with
        | None => None
        | Some a =>
            match BaseUint.op_div a (BaseUint.of_u64 WIDTH n) with
            | None => None
            | Some a =>
                let result := if isNegative && (n mod 2 =? 1) then BaseUint.op_sub result a else BaseUint.op_add result a in
                mul_exp_loop fuel' isNegative abs_p q a result n
            end
        end
    end.

(** From the term after [2 * abs_p / q] on, each is at most half the one before. *)
Definition mul_exp (a : list Z) (p q : Z) : option (list Z) :=
  let abs_p := if 0 <=? p then p else - p in
  mul_exp_loop (Z.to_nat (2 * u32 abs_p / q) + 258) (p <? 0) abs_p q a a 0.

(** "ppcoin: find last block index up to pindex" *)
Fixpoint last_block (fuel : nat) (m : memory) (pindex : nat) (fProofOfStake : bool) : option nat :=
  match m !! pindex with
  | None => None
  | Some b =>
      match bi_pprev b with
      | Some q =>
          if xorb (bi_IsProofOfStake b) fProofOfStake then
            match fuel with O => None | S fuel' => last_block fuel' m q fProofOfStake end
          else Some pindex
      | None => Some pindex
      end
  end.

Definition GetLastBlockIndex (m : memory) (pindex : nat) (fProofOfStake : bool) : option nat :=
  match m !! pindex with
  | None => None
  | Some b => last_block (Z.to_nat (bi_nHeight b)) m pindex fProofOfStake
  end.

Section Work.
Variable params : Params.Params.

Definition GetLimit (fProofOfStake : bool) : list Z :=
  UintToArith256 (if fProofOfStake then posLimit params else powLimit params).

(** The loop of [CheckQIP9BlockTimeDiff]: where it stops, the stakes and the
    time between them.  [prev] is the time of [pindexPrevStake]. *)
Fixpoint qip9_loop (fuel : nat) (m : memory) (pindex : option nat) (prev : option Z) (nStakesHandled nStakesTime : Z)
  : option (option CBlockIndex * Z * Z) :=
  match pindex with
  | None => Some (None, nStakesHandled, nStakesTime)
  | Some p =>
      match m !! p with
      | None => None
      | Some b =>
          if nStakesHandled <? 72 then
            let '(prev, handled, time) :=
              if bi_IsProofOfStake b then
                match prev with
                | Some t => (Some (bi_nTime b), nStakesHandled + 1, i32 (nStakesTime + u32 (t - bi_nTime b)))
                | None => (Some (bi_nTime b), nStakesHandled, nStakesTime)
                end
              else (prev, nStakesHandled, nStakesTime) in
            match fuel with O => None | S fuel' => qip9_loop fuel' m (bi_pprev b) prev handled time end
          else Some (Some b, nStakesHandled, nStakesTime)
      end
  end.

Definition CheckQIP9BlockTimeDiff (m : memory) (pindex : nat) : option bool :=
  match m !! pindex with
  | None => None
  | Some b =>
      match qip9_loop (Z.to_nat (bi_nHeight b) + 1) m (Some pindex) None 0 0 with
      | None => None
      | Some (last, nStakesHandled, nStakesTime) =>
          let targetSpacing := TargetSpacing params (match last with Some b => bi_nHeight b | None => 0 end) in
          Some (2 * targetSpacing * nStakesHandled <? nStakesTime)
      end
  end.

(** The new target before it is limited.  [*=] takes its factor at 32 bits,
    [/=] its divisor at 64. *)
Definition retarget (bnNew : list Z) (nHeight nActualSpacing : Z) (ignore : bool) : option (list Z) :=
  let nTargetSpacing := TargetSpacing params nHeight in
  let nInterval := DifficultyAdjustmentInterval params nHeight ignore in
  let nActualSpacing := if nActualSpacing <? 0 then nTargetSpacing else nActualSpacing in
  if (nHeight <? QIP9Height params) || ignore then
    let nActualSpacing := if nTargetSpacing * 10 <? nActualSpacing then nTargetSpacing * 10 else nActualSpacing in
    BaseUint.op_div
      (BaseUint.op_mul32 bnNew (u32 ((nInterval - 1) * nTargetSpacing + nActualSpacing + nActualSpacing)))
      (BaseUint.of_u64 WIDTH (u64 ((nInterval + 1) * nTargetSpacing)))
  else
    let nActualSpacing := if nTargetSpacing * 20 <? nActualSpacing then nTargetSpacing * 20 else nActualSpacing in
    let step := u32 (u32 (StakeTimestampMask params nHeight) + 1) in
    mul_exp bnNew (Z.quot (2 * (nActualSpacing - nTargetSpacing)) step) (Z.quot ((nInterval + 1) * nTargetSpacing) step).

Definition CalculateNextWorkRequired (m : memory) (pindexLast : nat) (nFirstBlockTime : Z) (fProofOfStake : bool) : option Z :=
  match m !! pindexLast with
  | None => None
  | Some b =>
      if (if fProofOfStake then fPoSNoRetargeting params else fPowNoRetargeting params) then Some (bi_nBits b)
      else
        match CheckQIP9BlockTimeDiff m pindexLast with
        | None => None
        | Some ignore =>
            match retarget (compact_target (bi_nBits b)) (bi_nHeight b + 1) (bi_nTime b - nFirstBlockTime) ignore with
            | None => None
            | Some bnNew =>
                let limit := GetLimit fProofOfStake in
                GetCompact (if BaseUint.op_le bnNew zero256 || BaseUint.op_gt bnNew limit then limit else bnNew) false
            end
        end
  end.

(** "Return the last non-special-min-difficulty-rules-block" *)
Fixpoint min_difficulty_loop (fuel : nat) (m : memory) (pindex : nat) (ignore : bool) (nTargetLimit : Z) : option Z :=
  match m !! pindex with
  | None => None
  | Some b =>
      match bi_pprev b with
      | Some q =>
          if negb (Z.rem (bi_nHeight b) (DifficultyAdjustmentInterval params (bi_nHeight b) ignore) =? 0)
             && (bi_nBits b =? nTargetLimit) then
            match fuel with O => None | S fuel' => min_difficulty_loop fuel' m q ignore nTargetLimit end
          else Some (bi_nBits b)
      | None => Some (bi_nBits b)
      end
  end.

(** [nTime] is the time of the new block. *)
Definition GetNextWorkRequired (m : memory) (pindexLast : option nat) (nTime : Z) (fProofOfStake : bool) : option Z :=
  match GetCompact (GetLimit fProofOfStake) false with
  | None => None
  | Some nTargetLimit =>
      match pindexLast with
      | None => Some nTargetLimit
      | Some last =>
          match GetLastBlockIndex m last fProofOfStake with
          | None => None
          | Some prev =>
              match m !! prev with
              | None => None
              | Some bprev =>
                  match bi_pprev bprev with
                  | None => Some nTargetLimit
                  | Some q =>
                      match GetLastBlockIndex m q fProofOfStake with
                      | None => None
                      | Some prevprev =>
                          match m !! prevprev, m !! last with
                          | Some bprevprev, Some blast =>
                              match bi_pprev bprevprev with
                              | None => Some nTargetLimit
                              | Some _ =>
                                  if fPowAllowMinDifficultyBlocks params then
                                    if bi_nTime blast + TargetSpacing params (bi_nHeight blast + 1) * 2 <? nTime
                                    then Some nTargetLimit
                                    else match CheckQIP9BlockTimeDiff m last with
                                         | Some ignore =>
                                             min_difficulty_loop (Z.to_nat (bi_nHeight blast)) m last ignore nTargetLimit
                                         | None => None
                                         end
                                  else CalculateNextWorkRequired m prev (bi_nTime bprevprev) fProofOfStake
                              end
                          | _, _ => None
                          end
                      end
                  end
              end
          end
      end
  end.

Definition CheckProofOfWork (hash : list Z) (nBits : Z) : bool :=
  let '(bnTarget, fNegative, fOverflow) := SetCompact nBits in
  if fNegative || BaseUint.EqualTo bnTarget 0 || fOverflow
     || BaseUint.op_gt bnTarget (UintToArith256 (powLimit params)) then false
  else negb (BaseUint.op_gt (UintToArith256 hash) bnTarget).
End Work.

(** ** The exponential is total *)

Lemma zero256_spec : val zero256 = 0 /\ wf256 zero256.
Proof. apply of_u64_spec. split; [lia|reflexivity]. Qed.

(** Every use of [/] here is by a non-zero 64-bit number. *)
Lemma div_u64 a d :
  wf256 a -> 0 < d < two64 ->
  exists q, BaseUint.op_div a (BaseUint.of_u64 WIDTH d) = Some q /\ val q = val a / d /\ wf256 q.
Proof.
  intros [La Wa] Hd. destruct (of_u64_spec d) as [Ev [Ld Wd]]; [unfold is_u64; lia|].
  pose proof (op_div_spec a _ Wa Wd ltac:(congruence)) as H. rewrite Ev in H.
  destruct (Z.eqb_spec d 0); [lia|]. destruct H as (q & E & V & Wq & Lq).
  exists q. split_and!; [done|done|]. split; [congruence|done].
Qed.

Definition bits_of (v : Z) : Z := if v =? 0 then 0 else Z.log2 v + 1.

Lemma bits_of_half v w : 0 < v -> 0 <= w -> 2 * w <= v -> bits_of w <= bits_of v - 1.
Proof.
  intros Hv Hw H. unfold bits_of. destruct (Z.eqb_spec v 0); [lia|].
  pose proof (Z.log2_nonneg v). destruct (Z.eqb_spec w 0); [lia|].
  pose proof (Z.log2_le_mono _ _ H). rewrite Z.log2_double in * by lia. lia.
Qed.

Lemma bits_of_256 a : wf256 a -> bits_of (val a) <= 256.
Proof.
  intros [La Wa]. pose proof (val_range a Wa) as R. rewrite La, modulus_256 in R.
  unfold bits_of. destruct (Z.eqb_spec (val a) 0); [lia|].
  pose proof (proj1 (Z.log2_lt_pow2 (val a) 256 ltac:(lia)) ltac:(lia)). lia.
Qed.

Lemma term_halves v p q n :
  0 <= v -> 0 <= p -> 0 < q -> 0 < n -> 2 * p <= q * n ->
  2 * ((v * p) mod modulus WIDTH / q / n) <= v.
Proof.
  intros Hv Hp Hq Hn H. rewrite Z.div_div by lia.
  assert ((v * p) mod modulus WIDTH <= v * p) by (apply Z.mod_le; [nia|reflexivity]).
  set (d := q * n) in *. assert (0 < d) by (unfold d; nia).
  pose proof (Z.mul_div_le ((v * p) mod modulus WIDTH) d ltac:(lia)). nia.
Qed.

(** What the loop still needs: a step for each term that may grow, then one for
    each bit that is left. *)
Definition steps_left (p q n v : Z) : Z :=
  let N := 2 * p / q + 1 in Z.max 0 (N - n) + (if n <? N then 256 else bits_of v).

Lemma steps_left_step p q n v w :
  0 <= p -> 0 < q -> 0 <= n -> 0 < v -> 0 <= w -> bits_of w <= 256 ->
  (2 * p <= q * (n + 1) -> 2 * w <= v) ->
  steps_left p q (n + 1) w < steps_left p q n v.
Proof.
  intros Hp Hq Hn Hv Hw Hb Hh. unfold steps_left.
  pose proof (Z.mul_succ_div_gt (2 * p) q Hq) as HN. revert HN. generalize (2 * p / q) as N. intros N HN.
  destruct (Z.ltb_spec n (N + 1)), (Z.ltb_spec (n + 1) (N + 1)); try lia.
  pose proof (bits_of_half v w Hv Hw (Hh ltac:(nia))). lia.
Qed.

Lemma mul_exp_loop_total fuel : forall neg abs_p q a result n,
  wf256 a -> wf256 result -> 0 < q < two64 -> 0 <= n -> n + Z.of_nat fuel < two64 ->
  steps_left (u32 abs_p) q n (val a) <= Z.of_nat fuel ->
  exists r, mul_exp_loop fuel neg abs_p q a result n = Some r /\ wf256 r.
Proof.
  destruct zero256_spec as [Ez [Lz Wz]].
  induction fuel as [|fuel IH]; intros neg abs_p q a result n Ha Hr Hq Hn Hf Hs; cbn [mul_exp_loop];
    pose proof Ha as [La Wa]; rewrite op_gt_spec, Ez by (done || congruence);
    pose proof (val_range a Wa) as R;
    destruct (Z.ltb_spec 0 (val a)) as [Hpos|]; cbn [negb]; try by exists result.
  - exfalso. unfold steps_left, bits_of in Hs.
    destruct (Z.eqb_spec (val a) 0); [lia|]. pose proof (Z.log2_nonneg (val a)).
    destruct (n <? _); lia.
  - assert (Hp : is_u32 (u32 abs_p)) by apply u32_range.
    rewrite (u64_small (n + 1)), (u64_small q) by (unfold is_u64; lia).
    destruct (op_mul32_spec a (u32 abs_p) Wa Hp) as (Mv & Mw & Ml).
    destruct (div_u64 (BaseUint.op_mul32 a (u32 abs_p)) q) as (a1 & -> & V1 & H1); [split; [congruence|done]|done|].
    destruct (div_u64 a1 (n + 1) H1 ltac:(lia)) as (a2 & -> & V2 & H2).
    rewrite V1, Mv, La in V2. pose proof H2 as [L2 W2]. pose proof Hr as [Lr Wr].
    apply IH; [done| |done|clear -Hn; lia|clear -Hf; lia|].
    + destruct (neg && _).
      * destruct (op_sub_spec result a2) as (_ & ? & ?); [done|done|congruence|]. split; [congruence|done].
      * destruct (op_add_spec result a2) as (_ & ? & ?); [done|done|congruence|]. split; [congruence|done].
    + pose proof (steps_left_step (u32 abs_p) q n (val a) (val a2) (proj1 Hp) (proj1 Hq) Hn Hpos
        (proj1 (val_range a2 W2)) (bits_of_256 a2 H2)) as Hstep.
      rewrite Nat2Z.inj_succ in Hs. apply Z.lt_succ_r. eapply Z.lt_le_trans; [apply Hstep|exact Hs].
      intros HN. rewrite V2. apply term_halves; [apply R|apply Hp|apply Hq|clear -Hn; lia|exact HN].
Qed.

(** The fuel of [mul_exp] is always enough. *)
Lemma mul_exp_total a p q :
  wf256 a -> 0 < q < two64 -> exists r, mul_exp a p q = Some r /\ wf256 r.
Proof.
  intros Ha Hq. unfold mul_exp. set (abs_p := if 0 <=? p then p else - p).
  assert (Hp : is_u32 (u32 abs_p)) by apply u32_range. destruct Hp as [Hp0 Hp1].
  assert (0 <= 2 * u32 abs_p / q) by (apply Z.div_pos; lia).
  assert (2 * u32 abs_p / q <= 2 * u32 abs_p) by (apply Z.div_le_upper_bound; nia).
  apply mul_exp_loop_total; try done; unfold two32, two64 in *; try lia.
  unfold steps_left. pose proof (bits_of_256 a Ha). destruct (0 <? _) eqn:E; lia.
Qed.

(** ** The walks end within their fuel *)
Section Walks.
Variable m : memory.
Hypothesis Hm : tree_ok m.

Lemma parent_below p b q :
  m !! p = Some b -> bi_pprev b = Some q -> exists bq, m !! q = Some bq /\ bi_nHeight b = bi_nHeight bq + 1.
Proof. intros Hp Hq. destruct (Hm p b Hp) as (_ & H & _). by rewrite Hq in H. Qed.

(** The walk stops at a block of the kind, or at one without a parent. *)
Lemma last_block_total fuel f : forall p b,
  m !! p = Some b -> bi_nHeight b <= Z.of_nat fuel ->
  exists r br, last_block fuel m p f = Some r /\ m !! r = Some br
    /\ (bi_pprev br = None \/ bi_IsProofOfStake br = f).
Proof.
  induction fuel as [|fuel IH]; intros p b Hp Hf; cbn [last_block]; rewrite Hp;
    destruct (bi_pprev b) as [q|] eqn:Eq; [|by exists p, b; auto| |by exists p, b; auto];
    destruct (parent_below p b q Hp Eq) as (bq & Hq & Eh);
    pose proof (height_nonneg m Hm q bq Hq);
    destruct (xorb (bi_IsProofOfStake b) f) eqn:Ex;
    try (exists p, b; split_and!; [done|done|right; by apply xorb_eq]).
  - lia.
  - apply (IH q bq Hq). lia.
Qed.

Lemma GetLastBlockIndex_total p b f :
  m !! p = Some b ->
  exists r br, GetLastBlockIndex m p f = Some r /\ m !! r = Some br
    /\ (bi_pprev br = None \/ bi_IsProofOfStake br = f).
Proof.
  intros Hp. unfold GetLastBlockIndex. rewrite Hp. apply (last_block_total _ _ p b Hp).
  pose proof (height_nonneg m Hm p b Hp). lia.
Qed.

Lemma qip9_loop_total fuel : forall pindex prev handled time,
  match pindex with
  | None => True
  | Some p => exists b, m !! p = Some b /\ bi_nHeight b < Z.of_nat fuel
  end ->
  exists r, qip9_loop fuel m pindex prev handled time = Some r.
Proof.
  induction fuel as [|fuel IH]; intros [p|] prev handled time; cbn [qip9_loop]; try by eexists.
  - intros (b & Hp & Hf). pose proof (height_nonneg m Hm p b Hp). lia.
  - intros (b & Hp & Hf). rewrite Hp. destruct (handled <? 72); [|by eexists].
    assert (Hnext : match bi_pprev b with
                    | None => True
                    | Some q => exists bq, m !! q = Some bq /\ bi_nHeight bq < Z.of_nat fuel
                    end).
    { destruct (bi_pprev b) as [q|] eqn:Eq; [|done].
      destruct (parent_below p b q Hp Eq) as (bq & Hq & Eh). exists bq. split; [done|lia]. }
    destruct (bi_IsProofOfStake b); [destruct prev|]; by apply IH.
Qed.

Lemma CheckQIP9BlockTimeDiff_total params p b :
  m !! p = Some b -> exists ignore, CheckQIP9BlockTimeDiff params m p = Some ignore.
Proof.
  intros Hp. unfold CheckQIP9BlockTimeDiff. rewrite Hp. pose proof (height_nonneg m Hm p b Hp).
  destruct (qip9_loop_total (Z.to_nat (bi_nHeight b) + 1) (Some p) None 0 0) as [[[last h] t] ->];
    [exists b; split; [done|lia]|by eexists].
Qed.
End Walks.

(** ** The required target is in range *)

(** Limits that are not zero, and spacings no shorter than the steps of the
    timestamps, as every network has them. *)
Record params_ok (params : Params.Params) : Prop := {
  po_limit : forall f, wf256 (GetLimit params f) /\ 0 < val (GetLimit params f);
  po_spacing : forall h, 0 < TargetSpacing params h <= 2 ^ 20;
  po_timespan : forall h ignore, 0 <= TargetTimespan params h ignore <= 2 ^ 31;
  po_mask : forall h, 0 <= StakeTimestampMask params h /\ StakeTimestampMask params h + 1 <= TargetSpacing params h
}.

Definition NoRetargeting (params : Params.Params) (fProofOfStake : bool) : bool :=
  if fProofOfStake then fPoSNoRetargeting params else fPowNoRetargeting params.

(** [nBits] stands for a positive target within the limit. *)
Definition good_bits (params : Params.Params) (fProofOfStake : bool) (nBits : Z) : Prop :=
  exists t, SetCompact nBits = (t, false, false) /\ wf256 t /\ 0 < val t <= val (GetLimit params fProofOfStake).

Section Range.
Variable params : Params.Params.
Hypothesis Hok : params_ok params.

Lemma interval_range h ignore :
  0 < (DifficultyAdjustmentInterval params h ignore + 1) * TargetSpacing params h < two64
  /\ TargetSpacing params h <= (DifficultyAdjustmentInterval params h ignore + 1) * TargetSpacing params h.
Proof.
  destruct (po_spacing _ Hok h) as [S0 S1]. destruct (po_timespan _ Hok h ignore) as [T0 T1].
  unfold DifficultyAdjustmentInterval. rewrite Z.quot_div_nonneg by lia.
  assert (0 <= TargetTimespan params h ignore / TargetSpacing params h) by (apply Z.div_pos; lia).
  pose proof (Z.mul_div_le (TargetTimespan params h ignore) (TargetSpacing params h) S0).
  unfold two64. nia.
Qed.

Lemma retarget_total a h spacing ignore :
  wf256 a -> exists r, retarget params a h spacing ignore = Some r /\ wf256 r.
Proof.
  intros [La Wa]. unfold retarget. destruct (interval_range h ignore) as [Hd Hle].
  destruct (_ || _).
  - rewrite (u64_small (_ * _)) by (unfold is_u64; lia).
    match goal with |- context [BaseUint.op_mul32 a (u32 ?x)] =>
      destruct (op_mul32_spec a (u32 x) Wa (u32_range x)) as (_ & Mw & Ml) end.
    edestruct div_u64 as (r & E & _ & Hr); [split; [etransitivity; [exact Ml|exact La]|exact Mw]|exact Hd|].
    exists r. split; [exact E|exact Hr].
  - destruct (po_spacing _ Hok h) as [S0 S1]. destruct (po_mask _ Hok h) as [M0 M1].
    rewrite (u32_small (StakeTimestampMask params h)), (u32_small (_ + 1)) by (unfold is_u32, two32; lia).
    apply mul_exp_total; [by split|]. rewrite Z.quot_div_nonneg by lia.
    split; [apply Z.div_str_pos; lia|]. eapply Z.le_lt_trans; [|apply Hd].
    apply Z.div_le_upper_bound; nia.
Qed.

Lemma compact_good f a :
  wf256 a -> 0 < val a <= val (GetLimit params f) ->
  exists c, GetCompact a false = Some c /\ good_bits params f c.
Proof.
  intros Ha Hv. destruct (compact_truncated a Ha) as (c & b & E & _ & Es & Hb & Hle & Hlow & _).
  exists c. split; [done|]. exists b. split_and!; [done|done|lia|lia].
Qed.

Lemma limit_good f : exists c, GetCompact (GetLimit params f) false = Some c /\ good_bits params f c.
Proof. destruct (po_limit _ Hok f). apply compact_good; [done|lia]. Qed.

Lemma CalculateNextWorkRequired_good m p b t f :
  tree_ok m -> m !! p = Some b -> is_u32 (bi_nBits b) ->
  (NoRetargeting params f = true -> good_bits params f (bi_nBits b)) ->
  exists c, CalculateNextWorkRequired params m p t f = Some c /\ good_bits params f c.
Proof.
  intros Hm Hp Hb Hno. unfold CalculateNextWorkRequired. rewrite Hp. fold (NoRetargeting params f).
  destruct (NoRetargeting params f); [by exists (bi_nBits b); auto|].
  destruct (CheckQIP9BlockTimeDiff_total m Hm params p b Hp) as [ignore ->].
  assert (Ht : wf256 (compact_target (bi_nBits b))).
  { unfold compact_target. pose proof (SetCompact_spec (bi_nBits b) Hb) as S.
    destruct (SetCompact (bi_nBits b)) as [[x ?] ?]. apply S. }
  destruct (retarget_total _ (bi_nHeight b + 1) (bi_nTime b - t) ignore Ht) as (r & -> & [Lr Wr]).
  destruct (po_limit _ Hok f) as [[Ll Wl] Hl]. destruct zero256_spec as [Ez [Lz Wz]].
  rewrite op_le_spec, op_gt_spec, Ez by (done || congruence).
  apply compact_good; destruct (Z.leb_spec (val r) 0), (Z.ltb_spec (val (GetLimit params f)) (val r)); cbn [orb];
    try (split; done); lia.
Qed.
End Range.

(** C7: The target a block must meet always exists and is in range.  On a well
    formed tree, without the rule for minimal difficulty, [GetNextWorkRequired]
    returns: no walk runs out, no division is by zero, the series of [mul_exp]
    ends.  The bits it returns decode without sign or overflow to a positive target
    of at most the limit of the kind of block; where retargeting is off, this
    is so if the blocks of that kind have such bits already.  For proof of work,
    [CheckProofOfWork] then accepts exactly the hashes up to the target. *)
Theorem next_work_in_range (params : Params.Params) (m : memory) (last : nat) (nTime : Z) (fProofOfStake : bool) :
  params_ok params -> fPowAllowMinDifficultyBlocks params = false ->
  tree_ok m -> is_Some (m !! last) ->
  (forall p b, m !! p = Some b -> is_u32 (bi_nBits b)) ->
  (NoRetargeting params fProofOfStake = true ->
   forall p b, m !! p = Some b -> bi_IsProofOfStake b = fProofOfStake -> good_bits params fProofOfStake (bi_nBits b)) ->
  exists c t, GetNextWorkRequired params m (Some last) nTime fProofOfStake = Some c
    /\ SetCompact c = (t, false, false) /\ 0 < val t <= val (GetLimit params fProofOfStake)
    /\ (fProofOfStake = false -> forall hash, wf256 (UintToArith256 hash) ->
        CheckProofOfWork params hash c = (val (UintToArith256 hash) <=? val t)).
Proof.
  intros Hok Hmin Hm [bl Hl] Hbits Hno.
  assert (Hres : exists c, GetNextWorkRequired params m (Some last) nTime fProofOfStake = Some c
                   /\ good_bits params fProofOfStake c).
  { unfold GetNextWorkRequired. destruct (limit_good params Hok fProofOfStake) as (cl & -> & Hcl).
    destruct (GetLastBlockIndex_total m Hm last bl fProofOfStake Hl) as (p & b & -> & Hp & Hk). rewrite Hp.
    destruct (bi_pprev b) as [q|] eqn:Eq; [|by exists cl].
    destruct (parent_below m Hm p b q Hp Eq) as (bq & Hq & _).
    destruct (GetLastBlockIndex_total m Hm q bq fProofOfStake Hq) as (r & br & -> & Hr & _). rewrite Hr, Hl, Hmin.
    destruct (bi_pprev br); [|by exists cl].
    apply (CalculateNextWorkRequired_good params Hok m p b); [done|done|by eapply Hbits|].
    intros Hnr. destruct Hk as [?|Hk]; [congruence|]. by apply (Hno Hnr p b). }
  destruct Hres as (c & Hc & t & Ht & [Lt Wt] & Hv). exists c, t. split_and!; [done|done|lia|lia|].
  intros -> hash [Lh Wh]. unfold CheckProofOfWork. rewrite Ht.
  destruct (po_limit _ Hok false) as [[Ll Wl] _]. fold (GetLimit params false).
  change (UintToArith256 (powLimit params)) with (GetLimit params false).
  rewrite EqualTo_zero, !op_gt_spec by (done || congruence || (rewrite Lt; unfold WIDTH; lia)).
  destruct (Z.eqb_spec (val t) 0), (Z.ltb_spec (val (GetLimit params false)) (val t)); try lia. cbn [orb].
  by rewrite Z.leb_antisym.
Qed.

(** ** Witness: three staked blocks on the main network, spaced too far apart *)

Lemma mainnet_ok : params_ok mainnet.
Proof.
  split.
  - intros []; (split; [split; [reflexivity|]|vm_compute; reflexivity]);
      repeat (apply Forall_cons_2; [vm_compute; split; [discriminate|reflexivity]|]); constructor.
  - intros h. unfold TargetSpacing. destruct (_ <? _); cbn; lia.
  - intros h ignore. unfold TargetTimespan. repeat case_match; cbn; lia.
  - intros h. unfold StakeTimestampMask, TargetSpacing. destruct (_ <? _); cbn; lia.
Qed.

Definition demo_index (pprev : option nat) (height time : Z) (staked : bool) : CBlockIndex := {|
  bi_hash := null256; bi_pprev := pprev; bi_pnext := None; bi_pskip := None; bi_nHeight := height;
  bi_nFile := 0; bi_nDataPos := 0; bi_nUndoPos := 0; bi_nChainWork := BaseUint.zero WIDTH;
  bi_nTx := 1; bi_nChainTx := 1; bi_nStatus := 0; bi_nVersion := 1; bi_hashMerkleRoot := null256;
  bi_nTime := time; bi_nBits := 0x1c00ffff; bi_nNonce := 0; bi_hashStateRoot := null256; bi_hashUTXORoot := null256;
  bi_vchBlockSigDlgt := []; bi_nStakeModifier := null256;
  bi_prevoutStake := if staked then mkOutPoint (repeat 1 32) 0 else mkOutPoint null256 0xffffffff;
  bi_hashProof := null256; bi_nMoneySupply := 0; bi_nBurnedCoins := 0; bi_nSequenceId := 0; bi_nTimeMax := 0
|}.

Definition demo_tree : memory :=
  [demo_index None 0 1600000000 false; demo_index (Some 0%nat) 1 1600000128 true;
   demo_index (Some 1%nat) 2 1600000256 true; demo_index (Some 2%nat) 3 1600000656 true].

Lemma demo_tree_ok : tree_ok demo_tree.
Proof.
  intros p b Hp. do 4 (destruct p as [|p]; [injection Hp as <-; split_and!; [cbn; lia|cbn|done];
    first [reflexivity|by eexists]|]). done.
Qed.

Lemma next_work_in_range_witness :
  exists c t, GetNextWorkRequired mainnet demo_tree (Some 3%nat) 1600001000 true = Some c
    /\ SetCompact c = (t, false, false) /\ 0 < val t <= val (GetLimit mainnet true).
Proof.
  destruct (next_work_in_range mainnet demo_tree 3 1600001000 true) as (c & t & H1 & H2 & H3 & _).
  - exact mainnet_ok.
  - reflexivity.
  - exact demo_tree_ok.
  - by eexists.
  - intros p b Hp. do 4 (destruct p as [|p]; [injection Hp as <-; split; cbn; [lia|reflexivity]|]). done.
  - discriminate.
  - exists c, t. exact (conj H1 (conj H2 H3)).
Defined.

(** The target there grows, but not to the limit; [mul_exp] at minus the logarithm of two halves. *)
Example demo_next_work :
  GetNextWorkRequired mainnet demo_tree (Some 3%nat) 1600001000 true = Some 0x1c0187fe
  /\ option_map val (mul_exp (BaseUint.of_u64 WIDTH 1000000) (-693147) 1000000) = Some 499999.
Proof. split; vm_compute; reflexivity. Qed.
