(* ===== verification/Stake.v ===== *)
(** * Proof of stake: [src/src/pos.cpp] and the search for spent coins of
    [src/src/validation.cpp]

    The kernel of a stake is a hash over the coin that stakes and the stake
    modifier of the block before; it has to meet the target weighted with the
    value of the coin.  A coin must be mature and must not have staked lately. *)
From Stdlib Require Import ZArith Lia List Bool.
From S2P Require Import Prelude Serialize ArithUint256 Script Hash Primitives Coins Chain Params Merkle Work.
From stdpp Require Import base tactics list numbers gmap strings.
#[local] Open Scope Z_scope.

(** ** The kernel *)

(** What the kernel hash is taken over. *)
Definition kernel_data (nStakeModifier : list Z) (blockFromTime : Z) (prevout : COutPoint) (nTimeBlock : Z) : list Z :=
  nStakeModifier ++ ser_writedata 4 blockFromTime ++ prevout_hash prevout
    ++ ser_writedata 4 (prevout_n prevout) ++ ser_writedata 4 nTimeBlock.

Section Kernel.
Variable params : Params.Params.

(** [None] is the [uint_error] of a division by zero.  The last two arguments
    and results are [hashProofOfStake] and [targetProofOfStake]. *)
Definition CheckStakeKernelHash (pindexPrev : CBlockIndex) (nBits blockFromTime prevoutValue : Z) (prevout : COutPoint)
    (nTimeBlock : Z) (hashProofOfStake targetProofOfStake : list Z) : option (bool * list Z * list Z) :=
  if nTimeBlock <? blockFromTime then Some (false, hashProofOfStake, targetProofOfStake)
  else
    let fNoBNOverflow := nReduceBlocktimeHeight params <=? bi_nHeight pindexPrev + 1 in
    let bnTarget := compact_target nBits in
    let bnWeight := BaseUint.of_u64 WIDTH (u64 prevoutValue) in
    let bnTarget := if fNoBNOverflow then bnTarget else BaseUint.op_mul bnTarget bnWeight in
    let target := ArithToUint256 bnTarget in
    let hash := Hash (kernel_data (bi_nStakeModifier pindexPrev) blockFromTime prevout nTimeBlock) in
    match (if fNoBNOverflow then BaseUint.op_div (UintToArith256 hash) bnWeight else Some (UintToArith256 hash)) with
    | None => None
    | Some bnProofOfStake => Some (negb (BaseUint.op_gt bnProofOfStake bnTarget), hash, target)
    end.

Definition CheckCoinStakeTimestamp (nTimeBlock nHeight : Z) : bool :=
  Z.land nTimeBlock (StakeTimestampMask params nHeight) =? 0.
End Kernel.

(** ** Coins already spent on the main chain *)

(** The inputs of one transaction, from the [k]-th on: where [prevout] is. *)
Fixpoint find_input (prevout : COutPoint) (ins : list CTxIn) (k : nat) : option nat :=
  match ins with
  | [] => None
  | i :: ins' => if decide (Primitives.prevout i = prevout) then Some k else find_input prevout ins' (S k)
  end.

(** The transactions of a block, from the [j]-th on. *)
Fixpoint find_spend (prevout : COutPoint) (txs : list CTransaction) (j : nat) : option (nat * nat * CTransaction) :=
  match txs with
  | [] => None
  | tx :: txs' =>
      match find_input prevout (vin tx) 0 with
      | Some k => Some (j, k, tx)
      | None => find_spend prevout txs' (S j)
      end
  end.

Section MainChain.
Variables (params : Params.Params) (m : memory) (chainActive : CChain).

(** What the block and undo files hold for an entry of the index; [None] where
    [ReadBlockFromDisk] or [UndoReadFromDisk] fails. *)
Variables (ReadBlockFromDisk : CBlockIndex -> option CBlock) (UndoReadFromDisk : CBlockIndex -> option (list (list Coin))).

Definition GetSpentCoinFromBlock (pindex : CBlockIndex) (prevout : COutPoint) : option Coin :=
  match ReadBlockFromDisk pindex with
  | None => None
  | Some block =>
      match find_spend prevout (drop 1 (vtx block)) 1 with
      | None => None
      | Some (j, k, tx) =>
          match UndoReadFromDisk pindex with
          | None => None
          | Some vtxundo =>
              if negb (Z.of_nat (length vtxundo) =? Z.of_nat (length (vtx block)) - 1) then None
              else
                match vtxundo !! (j - 1)%nat with
                | None => None
                | Some vprevout => if negb (length vprevout =? length (vin tx))%nat then None else vprevout !! k
                end
          end
      end
  end.

(** Whether a block from [pindex] down to the fork has staked [prevoutStake];
    [None] is a dangling pointer or too little fuel. *)
Fixpoint staked_since (fuel : nat) (pindex : option nat) (pforkBase : nat) (prevoutStake : COutPoint) : option bool :=
  match pindex with
  | None => Some false
  | Some p =>
      if bool_decide (p = pforkBase) then Some false
      else
        match m !! p with
        | None => None
        | Some b =>
            if bool_decide (bi_prevoutStake b = prevoutStake) then Some true
            else match fuel with O => None | S fuel' => staked_since fuel' (bi_pprev b) pforkBase prevoutStake end
        end
  end.

Fixpoint spent_since (fuel : nat) (pindex : option nat) (pforkBase : nat) (prevoutStake : COutPoint)
  : option (option Coin) :=
  match pindex with
  | None => Some None
  | Some p =>
      if bool_decide (p = pforkBase) then Some None
      else
        match m !! p with
        | None => None
        | Some b =>
            match GetSpentCoinFromBlock b prevoutStake with
            | Some coin => Some (Some coin)
            | None => match fuel with O => None | S fuel' => spent_since fuel' (bi_pprev b) pforkBase prevoutStake end
            end
        end
  end.

(** The coin, or [Some None] where the code returns false; [None] is a
    null pointer. *)
Definition GetSpentCoinFromMainChain (pforkPrev : nat) (prevoutStake : COutPoint) : option (option Coin) :=
  match FindFork m chainActive (Some pforkPrev), Tip chainActive with
  | Some (Some pforkBase), Some tip =>
      match m !! pforkBase, m !! tip, m !! pforkPrev with
      | Some bbase, Some btip, Some bprev =>
          let nHeight := bi_nHeight btip in
          if CoinbaseMaturity params nHeight <? nHeight - bi_nHeight bbase then Some None
          else
            match staked_since (Z.to_nat (bi_nHeight bprev + 1)) (Some pforkPrev) pforkBase prevoutStake with
            | None => None
            | Some true => Some None
            | Some false => spent_since (Z.to_nat (nHeight + 1)) (Some tip) pforkBase prevoutStake
            end
      | _, _, _ => None
      end
  | _, _ => None
  end.
End MainChain.

(** ** Staking a coin *)

Record CStakeCache : Type := mkStakeCache { blockFromTime : Z; amount : Z }.

Section Coin.
Context {V : Type} `{CoinsView V}.
Variable usage : Coin -> Z.
Variables (params : Params.Params) (m : memory) (chainActive : CChain).
Variables (ReadBlockFromDisk : CBlockIndex -> option CBlock) (UndoReadFromDisk : CBlockIndex -> option (list (list Coin))).

(** The loop over the last headers: the height where [prevout] has staked, or -1. *)
Fixpoint last_stake (n : nat) (p : nat) (prevout : COutPoint) : option Z :=
  match n with
  | O => Some (-1)
  | S n' =>
      match m !! p with
      | None => None
      | Some b =>
          if bool_decide (bi_prevoutStake b = prevout) then Some (bi_nHeight b)
          else match bi_pprev b with None => Some (-1) | Some q => last_stake n' q prevout end
      end
  end.

(** The coin and the block it is from, or [inr] the message of the rejection;
    [None] is a dangling pointer. *)
Definition GetStakeCoin (view : CCoinsViewCache V) (prevout : COutPoint) (pindexPrev : nat)
  : option ((Coin * nat + string) * CCoinsViewCache V) :=
  let '(found, view) := GetCoin usage view prevout in
  match found with
  | None => Some (inr "Stake prevout does not exist"%string, view)
  | Some coinPrev =>
      match m !! pindexPrev with
      | None => None
      | Some bprev =>
          let nHeight := bi_nHeight bprev + 1 in
          let coinbaseMaturity := CoinbaseMaturity params nHeight in
          if nHeight - Coins.nHeight coinPrev <? coinbaseMaturity then
            Some (inr "Stake prevout is not mature"%string, view)
          else
            match GetAncestor m pindexPrev (Coins.nHeight coinPrev) with
            | None => None
            | Some None => Some (inr "Block for prevout can not be loaded"%string, view)
            | Some (Some blockFrom) =>
                match last_stake (Z.to_nat coinbaseMaturity) pindexPrev prevout with
                | None => None
                | Some coinHeight =>
                    if negb (coinHeight =? -1) && (nHeight - coinHeight <? coinbaseMaturity) then
                      Some (inr "Stake prevout is not mature"%string, view)
                    else Some (inl (coinPrev, blockFrom), view)
                end
            end
      end
  end.

(** [CheckKernel] without a cache.  The two hashes are local, and begin as null. *)
Definition CheckKernel (view : CCoinsViewCache V) (pindexPrev : nat) (nBits nTimeBlock : Z) (prevout : COutPoint)
  : option (bool * CCoinsViewCache V) :=
  let '(found, view) := GetCoin usage view prevout in
  match (match found with
         | Some coinPrev => Some (Some coinPrev)
         | None => GetSpentCoinFromMainChain params m chainActive ReadBlockFromDisk UndoReadFromDisk pindexPrev prevout
         end) with
  | None => None
  | Some None => Some (false, view)
  | Some (Some coinPrev) =>
      match m !! pindexPrev with
      | None => None
      | Some bprev =>
          let nHeight := bi_nHeight bprev + 1 in
          if nHeight - Coins.nHeight coinPrev <? CoinbaseMaturity params nHeight then Some (false, view)
          else
            match GetAncestor m pindexPrev (Coins.nHeight coinPrev) with
            | None => None
            | Some None => Some (false, view)
            | Some (Some q) =>
                if IsSpent coinPrev then Some (false, view)
                else
                  match m !! q with
                  | None => None
                  | Some blockFrom =>
                      match CheckStakeKernelHash params bprev nBits (bi_nTime blockFrom) (nValue (out coinPrev)) prevout
                              nTimeBlock null256 null256 with
                      | None => None
                      | Some (r, _, _) => Some (r, view)
                      end
                  end
            end
      end
  end.

(** [CheckKernel] with a cache of the kernels. *)
Definition CheckKernel_cached (view : CCoinsViewCache V) (pindexPrev : nat) (nBits nTimeBlock : Z) (prevout : COutPoint)
    (cache : gmap COutPoint CStakeCache) : option (bool * CCoinsViewCache V) :=
  match cache !! prevout with
  | None => CheckKernel view pindexPrev nBits nTimeBlock prevout
  | Some stake =>
      match m !! pindexPrev with
      | None => None
      | Some bprev =>
          match CheckStakeKernelHash params bprev nBits (blockFromTime stake) (amount stake) prevout nTimeBlock
                  null256 null256 with
          | None => None
          | Some (true, _, _) => CheckKernel view pindexPrev nBits nTimeBlock prevout
          | Some (false, _, _) => Some (false, view)
          end
      end
  end.

Definition CheckKernelCache (pindexPrev : CBlockIndex) (nBits nTimeBlock : Z) (prevout : COutPoint)
    (cache : gmap COutPoint CStakeCache) (hashProofOfStake : list Z) : option (bool * list Z) :=
  match cache !! prevout with
  | None => Some (false, hashProofOfStake)
  | Some stake =>
      match CheckStakeKernelHash params pindexPrev nBits (blockFromTime stake) (amount stake) prevout nTimeBlock
              hashProofOfStake null256 with
      | None => None
      | Some (r, hash, _) => Some (r, hash)
      end
  end.

Definition CacheKernel (cache : gmap COutPoint CStakeCache) (prevout : COutPoint) (pindexPrev : nat)
    (view : CCoinsViewCache V) : option (gmap COutPoint CStakeCache * CCoinsViewCache V) :=
  match cache !! prevout with
  | Some _ => Some (cache, view)
  | None =>
      let '(found, view) := GetCoin usage view prevout in
      match found with
      | None => Some (cache, view)
      | Some coinPrev =>
          match m !! pindexPrev with
          | None => None
          | Some bprev =>
              let nHeight := bi_nHeight bprev + 1 in
              if nHeight - Coins.nHeight coinPrev <? CoinbaseMaturity params nHeight then Some (cache, view)
              else
                match GetAncestor m pindexPrev (Coins.nHeight coinPrev) with
                | None => None
                | Some None => Some (cache, view)
                | Some (Some q) =>
                    match m !! q with
                    | None => None
                    | Some blockFrom =>
                        Some (<[prevout := mkStakeCache (bi_nTime blockFrom) (nValue (out coinPrev))]> cache, view)
                    end
                end
          end
      end
  end.
End Coin.

(** ** Sharing the reward with the owner of a delegated coin *)

(** The shares of the owner and of the staker. *)
Definition SplitOfflineStakeReward (nReward fee : Z) : option (Z * Z) :=
  if 100 <? fee then None
  else
    let nRewardStaker := Z.quot (i64 (nReward * fee)) 100 in
    Some (i64 (nReward - nRewardStaker), nRewardStaker).

Definition IsDelegateOutputExist (inFee : Z) : bool := (0 <=? inFee) && (inFee <? 100).

(** The result is an [int]. *)
Definition GetDelegationFeeTx (tx : CTransaction) (coin : Coin) (delegateOutputExist : bool) : Z :=
  let nValueCoin := nValue (out coin) in
  let minVoutSize := if delegateOutputExist then 3%nat else 2%nat in
  if negb (IsCoinStake tx) || (length (vout tx) <? minVoutSize)%nat || (nValueCoin <=? 0) then -1
  else
    let value k := match vout tx !! k with Some o => nValue o | None => 0 end in
    let nValueStaker := i64 (value 1%nat - nValueCoin) in
    let nValueDelegate := if delegateOutputExist then value 2%nat else 0 in
    let nReward := i64 (nValueStaker + nValueDelegate) in
    if nReward <=? 0 then -1
    else i32 (Z.quot (i64 (i64 (i64 (nValueStaker * 100) + nReward) - 1)) nReward).

(** ** The kernel, in integers *)


(** The kernel hash as a number. *)
Definition kernel_number (b : CBlockIndex) (from : Z) (prevout : COutPoint) (time : Z) : Z :=
  le_value (Hash (kernel_data (bi_nStakeModifier b) from prevout time)).

#[local] Opaque Hash.

Lemma Hash_number d : val (UintToArith256 (Hash d)) = le_value (Hash d) /\ wf256 (UintToArith256 (Hash d)).
Proof. destruct (is_hash_Hash d). by apply UintToArith256_spec. Qed.

Lemma compact_target_wf nBits : is_u32 nBits -> wf256 (compact_target nBits).
Proof.
  intros Hb. unfold compact_target. pose proof (SetCompact_spec nBits Hb) as S.
  destruct (SetCompact nBits) as [[x ?] ?]. apply S.
Qed.

(** C12: When a kernel is accepted.  From the reduced block time on, the hash must
    be below (target + 1) times the value of the coin, computed without overflow, so the
    chance is proportional to the value; a coin without value makes the
    division throw.  Before, the hash may reach the product of target and value,
    which is taken modulo 2^256.  A block older than the coin is rejected. *)
Theorem kernel_weighted (params : Params.Params) (b : CBlockIndex) (nBits from value time : Z) (prevout : COutPoint)
    (h0 t0 : list Z) :
  is_u32 nBits -> 0 <= value < 2 ^ 63 ->
  option_map (fun r => fst (fst r)) (CheckStakeKernelHash params b nBits from value prevout time h0 t0)
  = if time <? from then Some false
    else if bi_nHeight b + 1 <? nReduceBlocktimeHeight params then
      Some (kernel_number b from prevout time <=? (val (compact_target nBits) * value) mod 2 ^ 256)
    else if value =? 0 then None
    else Some (kernel_number b from prevout time <? (val (compact_target nBits) + 1) * value).
Proof.
  intros Hb Hv. unfold CheckStakeKernelHash, kernel_number. destruct (time <? from); [done|].
  set (d := kernel_data _ _ _ _). destruct (Hash_number d) as [En [Ln Wn]].
  destruct (compact_target_wf nBits Hb) as [Lt Wt].
  rewrite u64_small by (unfold is_u64, two64; lia).
  destruct (of_u64_spec value) as [Ev [Lv Wv]]; [unfold is_u64, two64; lia|].
  rewrite Z.leb_antisym. destruct (_ <? nReduceBlocktimeHeight params); cbn [negb].
  - destruct (op_mul_spec (compact_target nBits) (BaseUint.of_u64 WIDTH value)) as (Mv & Mw & Ml); [done|done|congruence|].
    cbn [option_map fst]. rewrite op_gt_spec by (done || congruence).
    by rewrite Mv, En, Ev, Lt, modulus_256, Z.leb_antisym.
  - pose proof (op_div_spec (UintToArith256 (Hash d)) _ Wn Wv ltac:(congruence)) as Hd. rewrite Ev in Hd.
    destruct (Z.eqb_spec value 0); [by rewrite Hd|]. destruct Hd as (q & -> & Eq & Wq & Lq).
    cbn [option_map fst]. rewrite op_gt_spec by (done || congruence). rewrite Eq, En. f_equal.
    rewrite <- Z.leb_antisym. apply eq_true_iff_eq. rewrite Z.leb_le, Z.ltb_lt, <- Z.lt_succ_r.
    split; intros Hlt; [|apply Z.div_lt_upper_bound; lia].
    pose proof (Z.mul_succ_div_gt (le_value (Hash d)) value ltac:(lia)). nia.
Qed.

(** ** A coin that stakes is mature and has not staked lately *)
Section Fresh.
Variable m : memory.
Hypothesis Hm : tree_ok m.

(** The loop sees the last [n] headers. *)
Lemma last_stake_spec n : forall p b prevout,
  m !! p = Some b ->
  exists h, last_stake m n p prevout = Some h
    /\ ((h = -1 /\ forall i q bq, (i < n)%nat -> back m i p = Some q -> m !! q = Some bq -> bi_prevoutStake bq <> prevout)
        \/ exists j, (j < n)%nat /\ h = bi_nHeight b - Z.of_nat j /\ 0 <= h
             /\ forall i q bq, (i < j)%nat -> back m i p = Some q -> m !! q = Some bq -> bi_prevoutStake bq <> prevout).
Proof.
  induction n as [|n IH]; intros p b prevout Hp; cbn [last_stake].
  { exists (-1). split; [done|]. left. split; [done|lia]. }
  rewrite Hp. pose proof (height_nonneg m Hm p b Hp). case_bool_decide as E.
  { exists (bi_nHeight b). split; [done|]. right. exists 0%nat. split_and!; [lia|lia|done|lia]. }
  destruct (bi_pprev b) as [q|] eqn:Eq.
  - destruct (Hm p b Hp) as (_ & Hq & _). rewrite Eq in Hq. destruct Hq as (bq & Hq & Eh).
    destruct (IH q bq prevout Hq) as (h & -> & Hh). exists h. split; [done|].
    assert (Hstep : forall k, (forall i r br, (i < k)%nat -> back m i q = Some r -> m !! r = Some br -> bi_prevoutStake br <> prevout) ->
              forall i r br, (i < S k)%nat -> back m i p = Some r -> m !! r = Some br -> bi_prevoutStake br <> prevout).
    { intros k Hk [|i] r br Hi; cbn [back].
      - intros [= <-] Hr. by simplify_eq.
      - rewrite Hp. cbn. rewrite Eq. cbn. apply Hk. lia. }
    destruct Hh as [[-> Hh]|(j & Hj & -> & H0 & Hh)]; [left; split; [done|by apply Hstep]|].
    right. exists (S j). split_and!; [lia|lia|done|by apply Hstep].
  - exists (-1). split; [done|]. left. split; [done|]. intros [|i] r br Hi; cbn [back].
    + intros [= <-] Hr. by simplify_eq.
    + rewrite Hp. cbn. by rewrite Eq.
Qed.
End Fresh.

(** C13: A coin accepted for staking is unspent and mature, and none of the last
    maturity - 1 headers has staked it, so even a delegated coin, which stays
    unspent, stakes at most once in that span; its block is the ancestor at the
    height of the coin, and looking it up does not change the coins. *)
Theorem stake_coin_fresh {V : Type} `{CoinsViewLaws V} (usage : Coin -> Z) (params : Params.Params) (m : memory)
    (view view' : CCoinsViewCache V) (prevout : COutPoint) (p : nat) (b : CBlockIndex) (coin : Coin) (q : nat) :
  tree_ok m -> m !! p = Some b -> cache_ok usage view ->
  GetStakeCoin usage params m view prevout p = Some (inl (coin, q), view') ->
  cache_utxo view !! prevout = Some coin /\ cache_utxo view' = cache_utxo view
  /\ CoinbaseMaturity params (bi_nHeight b + 1) <= bi_nHeight b + 1 - Coins.nHeight coin
  /\ back m (Z.to_nat (bi_nHeight b - Coins.nHeight coin)) p = Some q
  /\ forall i r br, Z.of_nat i + 1 < CoinbaseMaturity params (bi_nHeight b + 1) ->
       back m i p = Some r -> m !! r = Some br -> bi_prevoutStake br <> prevout.
Proof.
  intros Hm Hp Hc. unfold GetStakeCoin. pose proof (GetCoin_spec usage view prevout Hc) as (G1 & _ & G3 & _).
  destruct (GetCoin usage view prevout) as [found v]. cbn [fst snd] in *.
  destruct found as [x|]; [|by intros [=]]. rewrite Hp.
  destruct (Z.ltb_spec (bi_nHeight b + 1 - Coins.nHeight x) (CoinbaseMaturity params (bi_nHeight b + 1))) as [|Hmat];
    [by intros [=]|].
  pose proof (GetAncestor_back m Hm p b (Coins.nHeight x) Hp) as Ha.
  destruct (GetAncestor m p (Coins.nHeight x)) as [[a|]|]; [|by intros [=]|by intros [=]].
  destruct (last_stake_spec m Hm (Z.to_nat (CoinbaseMaturity params (bi_nHeight b + 1))) p b prevout Hp) as (h & -> & Hh).
  destruct (negb (h =? -1) && _) eqn:Er; [by intros [=]|]. intros [= -> -> ->].
  split_and!; [done|done|lia| |].
  - destruct ((0 <=? _) && _); [congruence|done].
  - intros i r br Hi. destruct Hh as [[_ Hh]|(j & Hj & -> & Hpos & Hh)]; apply Hh; [lia|].
    apply andb_false_iff in Er as [Er|Er]; [apply negb_false_iff, Z.eqb_eq in Er; lia|].
    apply Z.ltb_ge in Er. lia.
Qed.

(** ** The cache of kernels *)

(** An entry records what the lookup without the cache finds. *)
Definition kernel_entry (params : Params.Params) (m : memory) (coins : gmap COutPoint Coin) (p : nat) (b : CBlockIndex)
    (prevout : COutPoint) (stake : CStakeCache) : Prop :=
  exists x q bq, coins !! prevout = Some x
    /\ CoinbaseMaturity params (bi_nHeight b + 1) <= bi_nHeight b + 1 - Coins.nHeight x
    /\ GetAncestor m p (Coins.nHeight x) = Some (Some q) /\ m !! q = Some bq
    /\ stake = mkStakeCache (bi_nTime bq) (nValue (out x)).

Definition kernels_ok (params : Params.Params) (m : memory) (coins : gmap COutPoint Coin) (p : nat) (b : CBlockIndex)
    (cache : gmap COutPoint CStakeCache) : Prop :=
  map_Forall (kernel_entry params m coins p b) cache.

Section KernelCache.
Context {V : Type} `{Laws : CoinsViewLaws V}.
Variables (usage : Coin -> Z) (params : Params.Params) (m : memory) (chainActive : CChain).
Variables (ReadBlockFromDisk : CBlockIndex -> option CBlock) (UndoReadFromDisk : CBlockIndex -> option (list (list Coin))).
Variables (p : nat) (b : CBlockIndex).
Hypothesis Hp : m !! p = Some b.

Lemma CacheKernel_ok cache prevout view cache' view' :
  cache_ok usage view -> kernels_ok params m (cache_utxo view) p b cache ->
  CacheKernel usage params m cache prevout p view = Some (cache', view') ->
  cache_ok usage view' /\ cache_utxo view' = cache_utxo view /\ kernels_ok params m (cache_utxo view) p b cache'.
Proof using Hp Laws.
  intros Hc Hk. unfold CacheKernel. destruct (cache !! prevout); [by intros [= <- <-]|].
  pose proof (GetCoin_spec usage view prevout Hc) as (G1 & G2 & G3 & _).
  destruct (GetCoin usage view prevout) as [[x|] v]; cbn [fst snd] in *; [|by intros [= <- <-]]. rewrite Hp.
  destruct (Z.ltb_spec (bi_nHeight b + 1 - Coins.nHeight x) (CoinbaseMaturity params (bi_nHeight b + 1)));
    [by intros [= <- <-]|].
  destruct (GetAncestor m p (Coins.nHeight x)) as [[q|]|] eqn:Ea; [|by intros [= <- <-]|done].
  destruct (m !! q) as [bq|] eqn:Eq; [|done]. intros [= <- <-]. split_and!; [done|done|].
  apply map_Forall_insert_2; [|done]. by exists x, q, bq.
Qed.

(** Where the coin is in the view, the lookup comes down to the kernel hash. *)
Lemma CheckKernel_entry view prevout nBits time stake :
  cache_ok usage view -> kernel_entry params m (cache_utxo view) p b prevout stake ->
  option_map fst (CheckKernel usage params m chainActive ReadBlockFromDisk UndoReadFromDisk view p nBits time prevout)
  = option_map (fun r => fst (fst r)) (CheckStakeKernelHash params b nBits (blockFromTime stake) (amount stake) prevout
      time null256 null256).
Proof using Hp Laws.
  intros Hc (x & q & bq & Hx & Hmat & Ha & Hq & ->). unfold CheckKernel.
  pose proof (GetCoin_spec usage view prevout Hc) as (G1 & _ & _ & _).
  destruct (GetCoin usage view prevout) as [found v]. cbn [fst snd] in G1. rewrite G1, Hx, Hp.
  destruct (Z.ltb_spec (bi_nHeight b + 1 - Coins.nHeight x) (CoinbaseMaturity params (bi_nHeight b + 1))); [lia|].
  rewrite Ha, (cache_utxo_unspent usage view prevout x Hc Hx), Hq. cbn [blockFromTime amount].
  by destruct (CheckStakeKernelHash _ _ _ _ _ _ _ _ _) as [[[? ?] ?]|].
Qed.

(** [CacheKernel] for one coin after the other, as the staker does. *)
Fixpoint cache_kernels (cache : gmap COutPoint CStakeCache) (view : CCoinsViewCache V) (l : list COutPoint)
  : option (gmap COutPoint CStakeCache * CCoinsViewCache V) :=
  match l with
  | [] => Some (cache, view)
  | k :: l' =>
      match CacheKernel usage params m cache k p view with
      | Some (cache, view) => cache_kernels cache view l'
      | None => None
      end
  end.

Lemma cache_kernels_ok l : forall cache view cache' view',
  cache_ok usage view -> kernels_ok params m (cache_utxo view) p b cache ->
  cache_kernels cache view l = Some (cache', view') ->
  cache_ok usage view' /\ cache_utxo view' = cache_utxo view /\ kernels_ok params m (cache_utxo view) p b cache'.
Proof using Hp Laws.
  induction l as [|k l IH]; intros cache view cache' view' Hc Hk; cbn [cache_kernels]; [by intros [= <- <-]|].
  destruct (CacheKernel usage params m cache k p view) as [[c1 v1]|] eqn:E; [|done]. intros El.
  destruct (CacheKernel_ok _ _ _ _ _ Hc Hk E) as (H1 & H2 & H3). rewrite <- H2 in H3 |- *.
  by apply (IH c1 v1 cache' view').
Qed.

(** C19: The cache of kernels is transparent.  With entries made by [CacheKernel] on
    the same tip and the same coins, [CheckKernel] gives the verdict it gives
    without the cache, exceptions included; and whatever the cache holds, one
    left from another chain included, it accepts no kernel that the check
    without the cache rejects. *)
Theorem kernel_cache_transparent (l : list COutPoint) (cache stale : gmap COutPoint CStakeCache)
    (view0 view view' : CCoinsViewCache V) (nBits time : Z) (prevout : COutPoint) :
  cache_ok usage view0 -> cache_kernels ∅ view0 l = Some (cache, view) ->
  let check := CheckKernel usage params m chainActive ReadBlockFromDisk UndoReadFromDisk view p nBits time prevout in
  let cached := CheckKernel_cached usage params m chainActive ReadBlockFromDisk UndoReadFromDisk view p nBits time prevout in
  option_map fst (cached cache) = option_map fst check
  /\ (cached stale = Some (true, view') -> check = Some (true, view')).
Proof using Hp Laws.
  intros Hc El check cached.
  destruct (cache_kernels_ok l ∅ view0 cache view Hc (map_Forall_empty _) El) as (Hv & Eu & Hk).
  split; unfold cached, CheckKernel_cached; rewrite Hp; fold check.
  - destruct (cache !! prevout) as [stake|] eqn:Es; [|done].
    pose proof (Hk prevout stake Es) as He. cbn beta in He. rewrite <- Eu in He.
    pose proof (CheckKernel_entry view prevout nBits time stake Hv He) as Ec. fold check in Ec.
    destruct (CheckStakeKernelHash _ _ _ _ _ _ _ _ _) as [[[[] ?] ?]|]; done.
  - destruct (stale !! prevout) as [stake|]; [|done].
    by destruct (CheckStakeKernelHash _ _ _ _ _ _ _ _ _) as [[[[] ?] ?]|].
Qed.
End KernelCache.

(** ** The reward of a delegated stake *)

Lemma fee_rounds_up r f : 100 <= r -> 0 <= f <= 100 -> (r * f / 100 * 100 + r - 1) / r = f.
Proof.
  intros Hr Hf. pose proof (Z.div_mod (r * f) 100 ltac:(lia)). pose proof (Z.mod_pos_bound (r * f) 100 ltac:(lia)).
  symmetry. apply Z.div_unique_pos with (r := r * f / 100 * 100 + r - 1 - r * f); lia.
Qed.

(** C22: The fee of a delegated stake survives the split of the reward.  The
    shares [SplitOfflineStakeReward] computes are not negative and add up to the
    reward; and from a coinstake that pays them, [GetDelegationFeeTx] recovers
    the fee that was agreed on, for every reward of at least 100 units and every
    fee below 100 percent. *)
Theorem delegation_fee_roundtrip (tx : CTransaction) (coin : Coin) (o0 o1 o2 : CTxOut) (outs : list CTxOut)
    (nReward fee nRewardOffline nRewardStaker : Z) :
  100 <= nReward <= MAX_MONEY -> 0 <= fee < 100 -> 0 < nValue (out coin) <= MAX_MONEY ->
  SplitOfflineStakeReward nReward fee = Some (nRewardOffline, nRewardStaker) ->
  vout tx = o0 :: o1 :: o2 :: outs -> IsCoinStake tx = true ->
  nValue o1 = nValue (out coin) + nRewardStaker -> nValue o2 = nRewardOffline ->
  0 <= nRewardStaker /\ 0 <= nRewardOffline /\ nRewardOffline + nRewardStaker = nReward
  /\ GetDelegationFeeTx tx coin (IsDelegateOutputExist fee) = fee.
Proof.
  intros Hr Hf Hc Hs Eo Hcs E1 E2. unfold SplitOfflineStakeReward in Hs.
  destruct (Z.ltb_spec 100 fee); [lia|]. change MAX_MONEY with 10782240625000000 in *.
  assert (Hq : Z.quot (i64 (nReward * fee)) 100 = nReward * fee / 100).
  { rewrite i64_small by (unfold is_i64; nia). apply Z.quot_div_nonneg; nia. }
  rewrite Hq in Hs. pose proof (fee_rounds_up nReward fee ltac:(lia) ltac:(lia)) as Hfee.
  assert (Hb : 0 <= nReward * fee / 100 <= nReward) by (split; [apply Z.div_pos|apply Z.div_le_upper_bound]; nia).
  revert Hs Hfee Hb. clear Hq. generalize (nReward * fee / 100) as s. intros s Hs Hfee Hb. revert Hs Hfee.
  rewrite (i64_small (nReward - s)) by (unfold is_i64; lia). intros [= <- <-] Hfee.
  split_and!; [lia|lia|lia|]. unfold GetDelegationFeeTx, IsDelegateOutputExist. rewrite Hcs, Eo.
  destruct (Z.leb_spec 0 fee), (Z.ltb_spec fee 100), (Z.leb_spec (nValue (out coin)) 0); try lia.
  cbn [andb negb orb length Nat.ltb Nat.leb lookup list_lookup]. rewrite E1, E2.
  rewrite (i64_small (_ + s - _)) by (unfold is_i64; lia).
  replace (nValue (out coin) + s - nValue (out coin)) with s by lia.
  replace (s + (nReward - s)) with nReward by lia.
  rewrite (i64_small nReward), (i64_small (s * 100)), (i64_small (s * 100 + nReward)),
    (i64_small (s * 100 + nReward - 1)) by (unfold is_i64; lia).
  destruct (Z.leb_spec nReward 0); [lia|].
  rewrite Z.quot_div_nonneg by lia. rewrite Hfee. apply i32_small. unfold is_i32. lia.
Qed.

(** ** Witnesses: a coin of block 1 stakes on top of block 3 *)

(** The main network, but coins mature in two blocks. *)
Definition short_params : Params.Params := {|
  QIP5Height := QIP5Height mainnet; QIP9Height := QIP9Height mainnet; nReduceBlocktimeHeight :=
  nReduceBlocktimeHeight mainnet; nContractOutsHeight := nContractOutsHeight mainnet; nRefundFixHeight :=
  nRefundFixHeight mainnet; nDelegationsGasFixHeight := nDelegationsGasFixHeight mainnet; powLimit := powLimit
  mainnet; posLimit := posLimit mainnet; fPowAllowMinDifficultyBlocks := fPowAllowMinDifficultyBlocks mainnet;
  fPowNoRetargeting := fPowNoRetargeting mainnet; fPoSNoRetargeting := fPoSNoRetargeting mainnet;
  nPowTargetSpacing := nPowTargetSpacing mainnet; nRBTPowTargetSpacing := nRBTPowTargetSpacing mainnet;
  nPowTargetTimespan := nPowTargetTimespan mainnet; nPowTargetTimespanV2 := nPowTargetTimespanV2 mainnet;
  nRBTPowTargetTimespan := nRBTPowTargetTimespan mainnet; nRBTPowTargetTimespanV2 := nRBTPowTargetTimespanV2
  mainnet; nLastPOWBlock := nLastPOWBlock mainnet; totalCoinsSupply := totalCoinsSupply mainnet; initialCoinsSupply := initialCoinsSupply mainnet; blocksPerYear := blocksPerYear mainnet;
  nRewardFixHeight := nRewardFixHeight mainnet; nRewardOffsetHeight := nRewardOffsetHeight mainnet; nRewardOffsetAmount := nRewardOffsetAmount mainnet;
  nFirstMPoSBlock := nFirstMPoSBlock mainnet; nLastMPoSBlock := nLastMPoSBlock mainnet; nMPoSRewardRecipients
  := nMPoSRewardRecipients mainnet; nCheckpointSpan := nCheckpointSpan mainnet; nRBTCheckpointSpan :=
  nRBTCheckpointSpan mainnet; delegationsAddress := delegationsAddress mainnet; delegationsAddressGasFix :=
  delegationsAddressGasFix mainnet; nStakeTimestampMask := nStakeTimestampMask mainnet; nRBTStakeTimestampMask
  := nRBTStakeTimestampMask mainnet; nBlocktimeDownscaleFactor := nBlocktimeDownscaleFactor mainnet;
  nCoinbaseMaturity := 2; nRBTCoinbaseMaturity := nRBTCoinbaseMaturity mainnet
|}.

Definition stake_key : COutPoint := mkOutPoint (repeat 2 32) 0.
Definition stake_coin : Coin := new_Coin (mkTxOut 500000000 [OP_1]) 1 false false.
Definition stake_db : CCoinsViewDB := mkDB {[ stake_key := stake_coin ]} (Some (repeat 1 32)) [].
Definition stake_tip : CBlockIndex := demo_index (Some 2%nat) 3 1600000656 true.

Lemma stake_db_ok : @view_ok _ _ (db_laws (fun _ => false)) stake_db.
Proof. split; [done|apply map_Forall_singleton; reflexivity]. Qed.

Lemma stake_cache_ok : @cache_ok _ _ (db_laws (fun _ => false)) sample_usage (new_cache stake_db).
Proof. apply (@new_cache_spec _ _ (db_laws (fun _ => false))), stake_db_ok. Qed.

Lemma kernel_weighted_witness :
  option_map (fun r => fst (fst r))
    (CheckStakeKernelHash mainnet stake_tip 0x1d00ffff 1600000128 500000000 stake_key 1600000800 null256 null256)
  = Some (kernel_number stake_tip 1600000128 stake_key 1600000800
          <=? (val (compact_target 0x1d00ffff) * 500000000) mod 2 ^ 256).
Proof.
  apply (kernel_weighted mainnet stake_tip 0x1d00ffff 1600000128 500000000 1600000800 stake_key null256 null256);
    [split; [lia|reflexivity]|lia].
Defined.

Lemma stake_coin_fresh_witness :
  exists view', @GetStakeCoin _ (db_view (fun _ => false)) sample_usage short_params demo_tree (new_cache stake_db)
      stake_key 3 = Some (inl (stake_coin, 1%nat), view')
    /\ back demo_tree 2 3 = Some 1%nat.
Proof.
  eexists. split; [reflexivity|].
  apply (@stake_coin_fresh _ _ (db_laws (fun _ => false)) sample_usage short_params demo_tree (new_cache stake_db)
    _ stake_key 3 stake_tip stake_coin 1 demo_tree_ok eq_refl stake_cache_ok eq_refl).
Defined.

Lemma kernel_cache_transparent_witness :
  exists cache view,
    @cache_kernels _ (db_view (fun _ => false)) sample_usage short_params demo_tree 3 ∅ (new_cache stake_db) [stake_key]
      = Some (cache, view)
    /\ cache !! stake_key = Some (mkStakeCache 1600000128 500000000)
    /\ option_map fst (@CheckKernel_cached _ (db_view (fun _ => false)) sample_usage short_params demo_tree []
          (fun _ => None) (fun _ => None) view 3 0x1d00ffff 1600000800 stake_key cache)
       = option_map fst (@CheckKernel _ (db_view (fun _ => false)) sample_usage short_params demo_tree []
          (fun _ => None) (fun _ => None) view 3 0x1d00ffff 1600000800 stake_key).
Proof.
  eexists _, _. split; [reflexivity|]. split; [reflexivity|].
  apply (@kernel_cache_transparent _ _ (db_laws (fun _ => false)) sample_usage short_params demo_tree [] (fun _ => None)
    (fun _ => None) 3 stake_tip eq_refl [stake_key] _ ∅ (new_cache stake_db) _ (new_cache stake_db) 0x1d00ffff 1600000800
    stake_key stake_cache_ok eq_refl).
Defined.

Definition reward_tx : CTransaction :=
  mkTransaction [mkTxIn stake_key [] 0 []] [TxOut_SetEmpty; mkTxOut 500000033 [OP_1]; mkTxOut 301 [OP_1]] 2 0.

Lemma delegation_fee_roundtrip_witness :
  SplitOfflineStakeReward 334 10 = Some (301, 33) /\ GetDelegationFeeTx reward_tx stake_coin true = 10.
Proof.
  split; [reflexivity|].
  apply (delegation_fee_roundtrip reward_tx stake_coin TxOut_SetEmpty (mkTxOut 500000033 [OP_1]) (mkTxOut 301 [OP_1]) []
    334 10 301 33); first [reflexivity|lia|change MAX_MONEY with 10782240625000000; cbn; lia].
Defined.
