(* ===== verification/Block.v ===== *)
(** * Checks of a block by itself: [CheckBlock] of [src/src/validation.cpp]

    What can be checked of a block without its predecessor: the proof of work, the
    merkle root, the place of the coinbase and of the coinstake, the signature
    and the transactions.  It establishes the shape that connecting the block
    relies on. *)
From Stdlib Require Import ZArith Lia List Bool String.
From S2P Require Import Prelude Serialize ArithUint256 Script Hash Interpreter Primitives Sighash Standard Coins Chain Params TxVerify Undo Connect Merkle Work.
From stdpp Require Import base tactics list numbers.
#[local] Open Scope Z_scope.

Definition FutureDrift (params : Params.Params) (nTime nHeight : Z) : Z := nTime + StakeTimestampMask params nHeight.

(** The script commits to the witness: OP_RETURN, 36 bytes, and the header aa21a9ed. *)
Definition is_commitment (script : list Z) : bool :=
  (38 <=? length script)%nat && bool_decide (take 6 script = [OP_RETURN; 0x24; 0xaa; 0x21; 0xa9; 0xed]).

(** The last such output, or -1. *)
Fixpoint commitment_from (o : Z) (outs : list CTxOut) (commitpos : Z) : Z :=
  match outs with
  | [] => commitpos
  | x :: outs' => commitment_from (o + 1) outs' (if is_commitment (scriptPubKey x) then o else commitpos)
  end.

Definition GetWitnessCommitmentIndex (block : CBlock) : Z :=
  match vtx block with [] => -1 | tx :: _ => commitment_from 0 (vout tx) (-1) end.

(** [None] is an access to a transaction that is not there. *)
Definition CheckFirstCoinstakeOutput (block : CBlock) : option bool :=
  match vtx block with
  | [] => None
  | tx :: _ =>
      Some (if GetWitnessCommitmentIndex block <? 0 then
              match vout tx with [o] => TxOut_IsEmpty o | _ => false end
            else match vout tx with [o; o'] => TxOut_IsEmpty o && (nValue o' =? 0) | _ => false end)
  end.

Definition GetBlockPublicKey (block : CBlock) : option (option (list Z)) :=
  if IsProofOfWork (header block) then Some None
  else
    match vchBlockSigDlgt (header block) with
    | [] => Some None
    | _ =>
        match (tx ← vtx block !! 1%nat; vout tx !! 1%nat) with
        | None => None
        | Some txout =>
            let '(whichType, vSolutions) := Solver false false (scriptPubKey txout) in
            match whichType with
            | TX_NONSTANDARD => Some None
            | TX_PUBKEY => Some (head vSolutions)
            | _ =>
                match Scr.GetScriptOp (scriptPubKey txout) with
                | Some (pc, opcode, _) =>
                    if negb (opcode =? OP_RETURN) then Some None
                    else match Scr.GetScriptOp pc with
                         | Some (_, _, vchPubKey) =>
                             Some (if IsCompressedOrUncompressedPubKey vchPubKey then Some vchPubKey else None)
                         | None => Some None
                         end
                | None => Some None
                end
            end
        end
    end.

Section Check.
Variables (params : Params.Params) (dgpMaxBlockWeight dgpMaxBlockSigOps : Z).

(** What libsecp256k1 answers: the key a compact signature of a hash is from, and
    whether a signature of a hash is by a key. *)
Variables (Recover : list Z -> list Z -> option (list Z)) (Verify : list Z -> list Z -> list Z -> bool).

(** [GetAdjustedTime()] and [chainActive.Height()]. *)
Variables (adjusted_time active_height : Z).

Definition CheckBlockSignature (block : CBlock) : option bool :=
  let vchBlockSig := GetBlockSignature (header block) in
  if IsProofOfWork (header block) then Some (match vchBlockSig with [] => true | _ => false end)
  else
    match GetBlockPublicKey block with
    | None => None
    | Some None => Some false
    | Some (Some vchPubKey) =>
        let hash := GetHashWithoutSign (header block) in
        Some (match CPubKey vchPubKey with
              | None => false
              | Some key =>
                  ((length vchBlockSig =? COMPACT_SIGNATURE_SIZE)%nat
                   && bool_decide (Recover hash vchBlockSig = Some key))
                  || Verify key hash vchBlockSig
              end)
    end.

Definition CheckHeaderPoW (block : CBlockHeader) : bool :=
  CheckProofOfWork params (Header_GetHash block) (nBits block).

(** The loop over the transactions; [Some] is a rejection. *)
Fixpoint check_transactions (txs : list CTransaction) (state : CValidationState) (lastWasContract : bool)
  : option CValidationState :=
  match txs with
  | [] => None
  | tx :: txs' =>
      let '(fine, state') := CheckTransaction params dgpMaxBlockWeight tx state (active_height + 1) true in
      if negb fine then Some (Invalid state' (chRejectCode state') (strRejectReason state'))
      else if HasOpSpend tx && negb lastWasContract then
        Some (DoS state' 100 REJECT_INVALID "bad-opspend-tx" false)
      else check_transactions txs' state' (HasCreateOrCall tx || HasOpSpend tx)
  end.

Definition has_contract_op (tx : CTransaction) : bool := HasOpSpend tx || HasCreateOrCall tx || HasOpSender tx.

(** The checks of the places of coinbase and coinstake: a rejection, or [None]. *)
Definition place_rejection (block : CBlock) (state : CValidationState) : option CValidationState :=
  let bad reason := Some (DoS state 100 REJECT_INVALID reason false) in
  match vtx block with
  | [] => bad "bad-cb-missing"%string
  | tx0 :: rest =>
      if negb (IsCoinBase tx0) then bad "bad-cb-missing"%string
      else if existsb IsCoinBase rest then bad "bad-cb-multiple"%string
      else if has_contract_op tx0 then bad "bad-cb-contract"%string
      else if IsProofOfStake (header block) then
        if negb (default false (CheckFirstCoinstakeOutput block)) then bad "bad-cb-missing"%string
        else
          match rest with
          | [] => bad "bad-cs-missing"%string
          | tx1 :: rest' =>
              if negb (IsCoinStake tx1) then bad "bad-cs-missing"%string
              else if negb (HasProofOfDelegation (header block))
                      && match vin tx1 with
                         | [] => true
                         | i :: _ => negb (bool_decide (prevoutStake (header block) = prevout i))
                         end
              then Some (Invalid state REJECT_INVALID "bad-cs-invalid")
              else if existsb IsCoinStake rest' then bad "bad-cs-multiple"%string
              else if has_contract_op tx1 then bad "bad-cs-contract"%string
              else None
          end
      else None
  end.

Definition sigops_of (txs : list CTransaction) : Z := fold_left (fun n tx => u32 (n + GetLegacySigOpCount tx)) txs 0.

(** The verdict, the state and [block.fChecked]; [None] is an access out of range. *)
Definition CheckBlock (block : CBlock) (fChecked : bool) (state : CValidationState)
    (fCheckPOW fCheckMerkleRoot fCheckSig : bool) : option (bool * CValidationState * bool) :=
  let bad level reason corruption := Some (false, DoS state level REJECT_INVALID reason corruption, fChecked) in
  if fChecked then Some (true, state, fChecked)
  else if fCheckPOW && IsProofOfWork (header block) && negb (CheckHeaderPoW (header block)) then
    bad 50 "high-hash"%string false
  else if IsProofOfStake (header block)
          && (FutureDrift params (u32 adjusted_time) (active_height + 1) <? Primitives.GetBlockTime (header block)) then
    Some (false, state, fChecked)
  else
    match (if fCheckMerkleRoot then BlockMerkleRoot block else Some (hashMerkleRoot (header block), false)) with
    | None => None
    | Some (hashMerkleRoot2, mutated) =>
        if negb (blob_eqb (hashMerkleRoot (header block)) hashMerkleRoot2) then bad 100 "bad-txnmrklroot"%string true
        else if mutated then bad 100 "bad-txns-duplicate"%string true
        else
          match place_rejection block state with
          | Some state => Some (false, state, fChecked)
          | None =>
              match (if fCheckSig then CheckBlockSignature block else Some true) with
              | None => None
              | Some false => bad 100 "bad-blk-signature"%string false
              | Some true =>
                  match check_transactions (vtx block) state false with
                  | Some state => Some (false, state, fChecked)
                  | None =>
                      if dgpMaxBlockSigOps <? u32 (sigops_of (vtx block) * WITNESS_SCALE_FACTOR) then
                        bad 100 "bad-blk-sigops"%string false
                      else Some (true, state, (fCheckPOW && fCheckMerkleRoot) || fChecked)
                  end
              end
          end
    end.
End Check.

(** ** What an accepted block looks like *)
Section Shape.
Variables (params : Params.Params) (dgpMaxBlockWeight dgpMaxBlockSigOps : Z).
Variables (Recover : list Z -> list Z -> option (list Z)) (Verify : list Z -> list Z -> list Z -> bool).
Variables (adjusted_time active_height : Z).

Lemma check_transactions_ok txs : forall state contract,
  check_transactions params dgpMaxBlockWeight active_height txs state contract = None ->
  Forall (fun tx => tx_ok params dgpMaxBlockWeight tx (active_height + 1) true) txs.
Proof.
  induction txs as [|tx txs IH]; intros state contract; cbn [check_transactions]; [constructor|].
  unfold CheckTransaction.
  destruct (tx_rejection params dgpMaxBlockWeight tx (active_height + 1) true) as [[level reason]|] eqn:E; [done|].
  cbn [negb]. destruct (_ && _); [done|]. intros H. constructor; [by apply tx_rejection_iff|by eapply IH].
Qed.

Lemma tx_ok_shape tx nHeight : tx_ok params dgpMaxBlockWeight tx nHeight true -> tx_shape tx.
Proof.
  intros (_ & _ & _ & _ & _ & Ho & _ & _ & Hd & _). split; [by apply Hd|].
  revert Ho. apply Forall_impl. intros o (_ & Hv & _). unfold TxOut_IsNull. apply Z.eqb_neq. lia.
Qed.

(** The coinstake of a staked block follows the coinbase, and there is no other of either. *)
Lemma place_shape block state :
  place_rejection block state = None ->
  match vtx block with
  | [] => False
  | tx0 :: rest => IsCoinBase tx0 = true /\ Forall (fun tx => IsCoinBase tx = false) rest
  end
  /\ (IsProofOfStake (header block) = true ->
      (exists tx1, vtx block !! 1%nat = Some tx1 /\ IsCoinStake tx1 = true
        /\ (HasProofOfDelegation (header block) = false ->
            exists i ins, vin tx1 = i :: ins /\ prevoutStake (header block) = prevout i))
      /\ Forall (fun tx => IsCoinStake tx = false) (drop 2 (vtx block))).
Proof.
  unfold place_rejection. destruct (vtx block) as [|tx0 rest] eqn:Ev; [done|].
  destruct (IsCoinBase tx0) eqn:E0; [|done]. destruct (existsb IsCoinBase rest) eqn:Er; [done|]. cbn [negb].
  destruct (has_contract_op tx0); [done|]. apply existsb_false in Er. intros H. split; [done|]. intros Hp. revert H.
  rewrite Hp. destruct (negb (default false _)); [done|]. destruct rest as [|tx1 rest']; [done|].
  destruct (IsCoinStake tx1) eqn:E1; [|done]. cbn [negb].
  destruct (negb (HasProofOfDelegation (header block)) && _) eqn:Ed; [done|].
  destruct (existsb IsCoinStake rest') eqn:E2; [done|]. intros _. cbn [drop lookup list_lookup].
  split; [|by apply existsb_false]. exists tx1. split_and!; [done|done|]. intros Hd. rewrite Hd in Ed. cbn [negb andb] in Ed.
  destruct (vin tx1) as [|i ins]; [done|]. apply negb_false_iff, bool_decide_eq_true in Ed. by exists i, ins.
Qed.
End Shape.

(** C8: What [CheckBlock] guarantees to [ConnectBlock].  A staked block that is accepted
    with its merkle root checked has exactly the shape connecting relies
    on: one coinbase, then the coinstake, then neither; transactions that
    are well formed and do not spend a coin twice.  Without a delegation the header
    names the coin the coinstake spends; and the merkle root in the header is that of the
    transactions, with no two equal hashes paired. *)
Theorem check_block_shape (params : Params.Params) (dgpMaxBlockWeight dgpMaxBlockSigOps : Z)
    (Recover : list Z -> list Z -> option (list Z)) (Verify : list Z -> list Z -> list Z -> bool)
    (adjusted_time active_height : Z) (block : CBlock) (state state' : CValidationState) (fCheckPOW fCheckSig checked' : bool) :
  IsProofOfStake (header block) = true ->
  CheckBlock params dgpMaxBlockWeight dgpMaxBlockSigOps Recover Verify adjusted_time active_height block false state
    fCheckPOW true fCheckSig = Some (true, state', checked') ->
  block_shape block
  /\ Forall (fun tx => tx_ok params dgpMaxBlockWeight tx (active_height + 1) true) (vtx block)
  /\ BlockMerkleRoot block = Some (hashMerkleRoot (header block), false)
  /\ exists tx1, vtx block !! 1%nat = Some tx1 /\ IsCoinStake tx1 = true
     /\ (HasProofOfDelegation (header block) = false ->
         exists i ins, vin tx1 = i :: ins /\ prevoutStake (header block) = prevout i).
Proof.
  intros Hp. unfold CheckBlock. destruct (fCheckPOW && _ && _); [done|]. destruct (IsProofOfStake _ && _); [done|].
  destruct (BlockMerkleRoot block) as [[root mutated]|]; [|done].
  destruct (blob_eqb (hashMerkleRoot (header block)) root) eqn:Er; [|done]. apply blob_eqb_spec in Er as <-. cbn [negb].
  destruct mutated; [done|]. destruct (place_rejection block state) eqn:Ep; [done|].
  destruct (if fCheckSig then _ else _) as [[]|]; [|done..].
  destruct (check_transactions _ _ _ _ _ _) eqn:Et; [done|]. intros _.
  destruct (place_shape block state Ep) as [H1 H2]. destruct (H2 Hp) as [H3 H4].
  pose proof (check_transactions_ok params dgpMaxBlockWeight active_height _ _ _ Et) as Hok.
  split_and!; [|done|done|done]. split; [done|]. rewrite Hp. split; [|done].
  revert Hok. apply Forall_impl. intros tx. apply tx_ok_shape.
Qed.

(** ** Witness: the block of [Connect], under its merkle root *)

Definition with_root (block : CBlock) : CBlock :=
  let h := header block in
  mkBlock (mkHeader (hdr_nVersion h) (hashPrevBlock h) (default [] (fst <$> BlockMerkleRoot block)) (nTime h) (nBits h)
    (nNonce h) (hashStateRoot h) (hashUTXORoot h) (prevoutStake h) (vchBlockSigDlgt h)) (vtx block).

(** [CheckBlock] on the main network, the signature apart. *)
Definition demo_check (block : CBlock) : option (bool * CValidationState * bool) :=
  CheckBlock mainnet 8000000 80000 (fun _ _ => None) (fun _ _ _ => false) 1600000000 6000 block false new_state true true false.

Definition demo_shaped (block : CBlock) : Prop := block_shape block /\ demo_check block = Some (true, new_state, true).

Lemma check_block_shape_witness : demo_shaped (with_root (demo_block 1)).
Proof.
  assert (H : forall block, IsProofOfStake (header block) = true -> demo_check block = Some (true, new_state, true) ->
    demo_shaped block).
  { intros block Hp Hc. split; [|exact Hc]. unfold demo_check in Hc.
    apply (check_block_shape mainnet 8000000 80000 (fun _ _ => None) (fun _ _ _ => false) 1600000000 6000 block new_state
      new_state true false true Hp Hc). }
  apply H; vm_compute; reflexivity.
Defined.
