(* ===== verification/Reward.v ===== *)
(** * Block rewards: [GetBlockSubsidy] and [CheckReward] of [src/src/validation.cpp]

    What a block may create, and the check that it creates exactly that.  The
    votes on the reward, the burn rate and the outputs that contracts demand
    come from the governance contracts and are arguments. *)
From Stdlib Require Import ZArith Lia List Bool String.
From S2P Require Import Prelude Serialize ArithUint256 Script Interpreter Primitives Coins Chain Params TxVerify Connect Block.
From stdpp Require Import base tactics list numbers gmap.
#[local] Open Scope Z_scope.

Section Subsidy.
Variable params : Params.Params.

(** [blockRewardVoteBlocks] and [blockRewardVotePercentages] *)
Variables (blocks percentages : list Z).

(** The product with a percentage, which is a [uint64_t], is unsigned. *)
Definition vote_growth (percentage supply : Z) : Z :=
  i64 (supply + u64 (percentage * u64 supply) / u64 (blocksPerYear params * 100)).

(** The loop over [j], which tests and increments [i]; [None] is an access
    beyond the end of a vector. *)
Fixpoint vote_inner (fuel : nat) (i : nat) (supply : Z) : option (nat * Z) :=
  match blocks !! i with
  | None => None
  | Some height =>
      if Z.of_nat i <? height then
        match percentages !! i, fuel with
        | Some percentage, S fuel' => vote_inner fuel' (S i) (vote_growth percentage supply)
        | _, _ => None
        end
      else Some (i, supply)
  end.

Fixpoint vote_outer (fuel : nat) (i : nat) (supply : Z) : option Z :=
  if (i <? length percentages)%nat then
    match blocks !! (i - 1)%nat, fuel with
    | Some _, S fuel' =>
        match vote_inner (length blocks) i supply with
        | Some (i, supply) => vote_outer fuel' (S i) supply
        | None => None
        end
    | _, _ => None
    end
  else Some supply.

(** The blocks from height [i] on, [n] of them. *)
Fixpoint height_loop (n : nat) (i lastPercentage supply : Z) : Z :=
  match n with
  | O => supply
  | S n' =>
      let year := blocksPerYear params * 100 in
      let divisor := if nRewardFixHeight params <=? i then i64 (year * 4) else year in
      height_loop n' (i + 1) lastPercentage (i64 (supply + Z.quot (i64 (lastPercentage * supply)) divisor))
  end.

Definition GetBlockSubsidy (nHeight : Z) : option Z :=
  if nHeight <=? nLastPOWBlock params then
    let divisionRemainder :=
      if nHeight =? nLastPOWBlock params then Z.rem (totalCoinsSupply params) (nLastPOWBlock params) else 0 in
    Some (Z.quot (totalCoinsSupply params) (nLastPOWBlock params) + divisionRemainder)
  else
    let year := blocksPerYear params * 100 in
    match (match blocks with
           | [] => Some (20, 5001)
           | _ => match last percentages, last blocks with
                  | Some percentage, Some height => Some (i32 percentage, i32 height)
                  | _, _ => None
                  end
           end) with
    | None => None
    | Some (lastPercentage, lastHeight) =>
        match vote_outer (length percentages) 1 (i64 (initialCoinsSupply params * 100)) with
        | None => None
        | Some supply =>
            let supply := height_loop (Z.to_nat (nHeight - lastHeight)) lastHeight lastPercentage supply in
            let supply := if nRewardOffsetHeight params <=? nHeight then i64 (supply - nRewardOffsetAmount params) else supply in
            let reward := Z.quot (i64 (lastPercentage * supply)) year in
            Some (Z.quot reward (100 * BlocktimeDownscaleFactor params nHeight))
        end
    end.
End Subsidy.

#[local] Instance CTxOut_eq_dec : EqDecision CTxOut.
Proof. solve_decision. Defined.

(** [std::find] and [erase] for each output of a list: what is left, or [None]
    where one is missing. *)
Fixpoint take_outputs (vouts vTempVouts : list CTxOut) : option (list CTxOut) :=
  match vouts with
  | [] => Some vTempVouts
  | o :: vouts' =>
      match list_find (o =.) vTempVouts with
      | None => None
      | Some (i, _) => take_outputs vouts' (delete i vTempVouts)
      end
  end.

Section Reward.
Variable params : Params.Params.

(** [GetBlockSubsidy] with the votes of the contract, and the list
    [GetMPoSOutputs] makes of the recent blocks. *)
Variables (subsidy_at : Z -> option Z) (GetMPoSOutputs : Z -> Z -> option (list CTxOut)).

Definition burned_coins (nFees gasRefunds dividents percentage : Z) : Z :=
  let percentage := if (100 <? percentage) || (percentage <? 0) then 0 else percentage in
  u64 (Z.quot (nFees - gasRefunds - dividents) 100 * percentage).

(** The verdict, the validation state and [burnedCoins], both passed by reference;
    [None] is an exception or an access out of range.  [nValueOut] and [nValueIn]
    are unsigned.  A plain [error] leaves the state as it is. *)
Definition CheckReward (block : CBlock) (state : CValidationState) (nHeight nFees gasRefunds contractOwnersDividents nActualStakeReward : Z)
    (vouts : list CTxOut) (cached_coinBurnPercentage nValueOut nValueIn burnedCoins nValueCoinPrev : Z)
    (delegateOutputExist : bool) : option (bool * CValidationState * Z) :=
  let bad reason := DoS state 100 REJECT_INVALID reason false in
  let offset := if IsProofOfStake (header block) then 1%nat else 0%nat in
  match vtx block !! offset with
  | None => None
  | Some tx =>
      match take_outputs vouts (vout tx) with
      | None => Some (false, DoS state 100 0 EmptyString false, burnedCoins)
      | Some vTempVouts =>
          let burned := burned_coins nFees gasRefunds contractOwnersDividents cached_coinBurnPercentage in
          let nFeesAfterBurn := i64 (nFees - burned) in
          match subsidy_at nHeight with
          | None => None
          | Some subsidy =>
              let blockReward := i64 (nFeesAfterBurn + subsidy) in
              if IsProofOfWork (header block) then
                match GetValueOut tx with
                | None => None
                | Some value =>
                    if blockReward <? value then Some (false, bad "bad-cb-amount"%string, i64 burned)
                    else Some (true, state, i64 burned)
                end
              else if blockReward <? nActualStakeReward then Some (false, bad "bad-cs-amount"%string, i64 burned)
              else if negb (u64 (nValueOut - nValueIn) =? u64 (subsidy - burned))
              then Some (false, bad "incorrect-block-reward"%string, i64 burned)
              else
                let nPrevHeight := nHeight - 1 in
                let rewardRecipients :=
                  if (nFirstMPoSBlock params <=? nPrevHeight) && (nPrevHeight <? nLastMPoSBlock params)
                  then nMPoSRewardRecipients params else 1 in
                if rewardRecipients <? 1 then Some (false, state, i64 burned)
                else if blockReward <? gasRefunds then Some (false, bad "bad-cs-gas-greater-than-reward"%string, i64 burned)
                else
                  let nReward := i64 (blockReward - i64 (gasRefunds + contractOwnersDividents)) in
                  let splitReward := Z.quot nReward rewardRecipients in
                  match (if HasProofOfDelegation (header block) then
                           match vout tx !! 1%nat, (if delegateOutputExist then nValue <$> vout tx !! 2%nat else Some 0) with
                           | Some o, Some nValueDelegate =>
                               Some (nReward =? i64 (i64 (nValue o + nValueDelegate) - nValueCoinPrev))
                           | _, _ => None
                           end
                         else Some true) with
                  | None => None
                  | Some false => Some (false, Invalid state REJECT_INVALID "bad-cs-delegate-reward"%string, i64 burned)
                  | Some true =>
                      if rewardRecipients =? 1 then Some (true, state, i64 burned)
                      else
                        match GetMPoSOutputs splitReward nPrevHeight with
                        | None => Some (false, state, i64 burned)
                        | Some mposOutputList =>
                            match take_outputs mposOutputList vTempVouts with
                            | Some _ => Some (true, state, i64 burned)
                            | None => Some (false, bad "bad-cs-mpos-missing"%string, i64 burned)
                            end
                        end
                  end
          end
      end
  end.
End Reward.

(** ** Sums *)

Lemma sum_app (l k : list Z) : foldr Z.add 0 (l ++ k) = foldr Z.add 0 l + foldr Z.add 0 k.
Proof. induction l as [|x l IH]; cbn; [done|]. rewrite IH. lia. Qed.

(** A sum whose terms are all the same but for the last. *)
Lemma sum_seqZ (s : Z -> Z) (n q : Z) :
  0 < n -> (forall h, h < n -> s h = q) -> foldr Z.add 0 (s <$> seqZ 1 n) = (n - 1) * q + s n.
Proof.
  intros Hn Hs.
  assert (Hsnoc : forall k, 0 <= k -> seqZ 1 (k + 1) = seqZ 1 k ++ [k + 1]).
  { intros k Hk. rewrite seqZ_app by lia. f_equal. rewrite seqZ_cons by lia. rewrite seqZ_nil by lia. f_equal. lia. }
  assert (Hsum : forall k : nat, Z.of_nat k < n -> foldr Z.add 0 (s <$> seqZ 1 (Z.of_nat k)) = Z.of_nat k * q).
  { induction k as [|k IH]; intros Hk; [done|].
    replace (Z.of_nat (S k)) with (Z.of_nat k + 1) by lia. rewrite Hsnoc by lia. rewrite fmap_app, sum_app, IH by lia.
    cbn [fmap list_fmap foldr]. rewrite Hs by lia. lia. }
  pose proof (Hsnoc (n - 1) ltac:(lia)) as E. replace (n - 1 + 1) with n in E by lia. rewrite E, fmap_app, sum_app.
  pose proof (Hsum (Z.to_nat (n - 1)) ltac:(lia)) as E'. rewrite Z2Nat.id in E' by lia. rewrite E'.
  cbn [fmap list_fmap foldr]. lia.
Qed.

(** ** The votes on the reward *)

Lemma vote_inner_overrun params blocks percentages fuel : forall i supply,
  (forall k h, blocks !! k = Some h -> Z.of_nat (length blocks) <= h) ->
  vote_inner params blocks percentages fuel i supply = None.
Proof.
  induction fuel as [|fuel IH]; intros i supply Hb; cbn [vote_inner];
    (destruct (blocks !! i) as [h|] eqn:E; [|done]); pose proof (Hb i h E); apply lookup_lt_Some in E;
    (destruct (Z.ltb_spec (Z.of_nat i) h); [|lia]); destruct (percentages !! i); auto.
Qed.

(** C20: Once a second vote on the reward is recorded, [GetBlockSubsidy] reads
    past the end of the vote vectors: the inner loop advances the index [i] instead of
    [j], and as the vote heights exceed the number of votes, its condition
    does not become false while [i] is within the vector.  This is so for every
    height after the proof-of-work blocks and for all percentages. *)
Theorem subsidy_votes_overrun (params : Params.Params) (blocks percentages : list Z) (nHeight : Z) :
  nLastPOWBlock params < nHeight -> (2 <= length percentages)%nat ->
  Forall (fun h => Z.of_nat (length blocks) <= h) blocks ->
  GetBlockSubsidy params blocks percentages nHeight = None.
Proof.
  intros Hh Hl Hb. unfold GetBlockSubsidy. destruct (Z.leb_spec nHeight (nLastPOWBlock params)); [lia|].
  destruct (match blocks with [] => _ | _ => _ end) as [[? ?]|]; [|done].
  assert (E : vote_outer params blocks percentages (length percentages) 1 (i64 (initialCoinsSupply params * 100)) = None).
  { destruct percentages as [|p1 [|p2 ps]]; [cbn in Hl; lia..|]. cbn [vote_outer length Nat.ltb Nat.leb].
    destruct (blocks !! (1 - 1)%nat); [|done].
    rewrite vote_inner_overrun; [done|]. intros k h Hk. by apply (proj1 (Forall_lookup _ _) Hb k h). }
  by rewrite E.
Qed.

Lemma subsidy_votes_overrun_witness :
  GetBlockSubsidy mainnet [5001; 300000] [20; 10] 300001 = None
  /\ is_Some (GetBlockSubsidy mainnet [5001] [20] 5010).
Proof.
  split.
  - apply (subsidy_votes_overrun mainnet [5001; 300000] [20; 10] 300001); [reflexivity|cbn; lia|].
    repeat constructor; cbn; lia.
  - vm_compute. by eexists.
Defined.

(** The proof-of-work blocks issue the initial supply exactly: their subsidies
    add up to [totalCoinsSupply], the last block paying the remainder. *)
Theorem pow_subsidies_total (params : Params.Params) (blocks percentages : list Z) :
  0 < nLastPOWBlock params -> 0 <= totalCoinsSupply params ->
  foldr Z.add 0 ((fun h => default 0 (GetBlockSubsidy params blocks percentages h)) <$> seqZ 1 (nLastPOWBlock params))
  = totalCoinsSupply params.
Proof.
  intros Hn Ht. set (N := nLastPOWBlock params) in *. set (s := fun h => default 0 _).
  set (q := Z.quot (totalCoinsSupply params) N).
  assert (Hlow : forall h, h < N -> s h = q).
  { intros h Hh. unfold s, GetBlockSubsidy. fold N q. destruct (Z.leb_spec h N), (Z.eqb_spec h N); try lia. cbn. lia. }
  assert (Hlast : s N = q + Z.rem (totalCoinsSupply params) N).
  { unfold s, GetBlockSubsidy. fold N q. destruct (Z.leb_spec N N), (Z.eqb_spec N N); try lia. done. }
  rewrite (sum_seqZ s N q), Hlast by (done || lia). pose proof (Z.quot_rem (totalCoinsSupply params) N ltac:(lia)). lia.
Qed.

Lemma pow_subsidies_total_witness :
  foldr Z.add 0 ((fun h => default 0 (GetBlockSubsidy mainnet [] [] h)) <$> seqZ 1 5000) = 1858593274150085.
Proof. apply (pow_subsidies_total mainnet [] []); [reflexivity|discriminate]. Defined.

(** ** What an accepted reward means for the supply *)

(** C11: A staked block that passes [CheckReward] creates exactly its subsidy less what is
    burned: with the sums of [ConnectBlock], the money supply it records is
    that of the previous block plus the subsidy minus [burnedCoins], at 64
    bits, and the coinstake gains at most the subsidy and the fees that are
    not burned.  The validation state is as before. *)
Theorem stake_reward_exact {V : Type} (params : Params.Params) (subsidy_at : Z -> option Z)
    (GetMPoSOutputs : Z -> Z -> option (list CTxOut)) (block : CBlock) (cn : connection V)
    (state state' : CValidationState) (nHeight gasRefunds dividents actual : Z) (vouts : list CTxOut) (percentage before coinPrev : Z)
    (delegate : bool) (prev burned : Z) :
  IsProofOfStake (header block) = true ->
  CheckReward params subsidy_at GetMPoSOutputs block state nHeight (nFees cn) gasRefunds dividents actual vouts percentage
    (nValueOut cn) (nValueIn cn) before coinPrev delegate = Some (true, state', burned) ->
  state' = state /\
  exists subsidy, subsidy_at nHeight = Some subsidy
    /\ nMoneySupply prev cn = u64 (prev + subsidy - burned)
    /\ actual <= i64 (i64 (nFees cn - burned_coins (nFees cn) gasRefunds dividents percentage) + subsidy).
Proof.
  intros Hpos. unfold CheckReward, IsProofOfWork. rewrite Hpos. cbn [negb].
  destruct (vtx block !! 1%nat) as [tx|]; [|done]. destruct (take_outputs vouts (vout tx)) as [rest|]; [|done].
  destruct (subsidy_at nHeight) as [s|]; [|done]. set (B := burned_coins _ _ _ _).
  destruct (Z.ltb_spec (i64 (i64 (nFees cn - B) + s)) actual); [done|].
  destruct (Z.eqb_spec (u64 (nValueOut cn - nValueIn cn)) (u64 (s - B))) as [E|]; [|done]. cbn [negb].
  intros Hacc. assert (Hb : state' = state /\ burned = i64 B) by (clear -Hacc; repeat case_match; split; congruence).
  destruct Hb as [-> Hb]. split; [done|]. exists s. split_and!; [done| |done]. unfold nMoneySupply. rewrite Hb.
  assert (Hu : u64 (i64 B) = u64 B) by exact (i64_mod B).
  unfold u64 in *. rewrite Zminus_mod_idemp_l.
  replace (prev + nValueOut cn - nValueIn cn) with (prev + (nValueOut cn - nValueIn cn)) by lia.
  rewrite <- Zplus_mod_idemp_r, E, Zplus_mod_idemp_r, <- (Zminus_mod_idemp_r (prev + s) (i64 B)), Hu, Zminus_mod_idemp_r.
  f_equal. lia.
Qed.

(** ** A rewarded block that spends a coin twice *)

(** The blocks of [Connect], with a coinstake that takes the subsidy and the fee. *)
Definition rewarded_coinstake : CTransaction :=
  mkTransaction [mkTxIn (sample_key 0) demo_sig SEQUENCE_FINAL []]
    [mkTxOut 0 []; mkTxOut (50000 + 371718654830 + 10000) demo_spk; mkTxOut 0 demo_call] 2 0.
Definition rewarded_block (n : Z) : CBlock :=
  with_root (mkBlock (header (demo_block n)) [demo_coinbase; rewarded_coinstake; demo_spend n]).
Definition rewarded_connect (n : Z) : checked (connection CCoinsViewDB) :=
  @ConnectBlock _ (db_view (fun _ => false)) sample_usage (fun _ => true) (fun _ _ _ => true) (fun _ => false) [] mainnet
    (mem demo_state) 2 (Connect.demo_index 2) new_state true true 1 0 1000 (rewarded_block n) demo_view.

(** [CheckReward] with the sums of [ConnectBlock], no contract demanding an
    output and nothing burned. *)
Definition rewarded_sums (n : Z) (cn : connection CCoinsViewDB) : option (bool * CValidationState * Z) :=
  CheckReward mainnet (GetBlockSubsidy mainnet [] []) (fun _ _ => None) (rewarded_block n) new_state 2 (nFees cn) 0 0
    (371718654830 + 10000) [] 0 (nValueOut cn) (nValueIn cn) 0 0 false.
Definition sums_checked (n : Z) (r : checked (connection CCoinsViewDB)) : option (bool * CValidationState * Z) :=
  match r with Accepted cn => rewarded_sums n cn | _ => None end.
Definition rewarded_check (n : Z) : option (bool * CValidationState * Z) := sums_checked n (rewarded_connect n).

(** C10: Neither [CheckBlock] nor the handling of the coins nor the reward check
    notices that a coin is spent twice in a block, if the first spender is a
    coinstake that calls a contract.  The coinstake is checked while the coin is there and applied
    after the later transaction has spent it, and [SpendCoin] finds the
    spent entry of the cache; the sums of the block count the coin both times,
    so [CheckReward] accepts the block that spends one coin twice (0) as it
    does the block with two coins (1).  The coins then hold 50000 more than
    the reward accounts for.  The signature of the
    block and the execution of the call are not part of what is shown. *)
Theorem double_spend_unnoticed :
  ~ no_double_spend (rewarded_block 0) /\ no_double_spend (rewarded_block 1)
  /\ demo_check (rewarded_block 0) = Some (true, new_state, true)
  /\ rewarded_check 0 = Some (true, new_state, 0) /\ rewarded_check 1 = Some (true, new_state, 0)
  /\ total_value (@cache_utxo _ _ (db_laws (fun _ => false)) demo_view) = 100000
  /\ demo_total (rewarded_connect 0) = Some (100000 + 371718654830 + 50000)
  /\ demo_total (rewarded_connect 1) = Some (100000 + 371718654830).
Proof.
  split_and!; try (vm_compute; reflexivity).
  - unfold no_double_spend. cbn. intros [Hn _]%NoDup_cons. apply Hn. left.
  - unfold no_double_spend. apply (bool_decide_eq_true_1 _). vm_compute. reflexivity.
Qed.

Definition supply_grown (r : checked (connection CCoinsViewDB)) : Prop :=
  match r with Accepted cn => nMoneySupply 0 cn = u64 (0 + 371718654830 - 0) | _ => False end.

Lemma stake_reward_exact_witness : supply_grown (rewarded_connect 1).
Proof.
  assert (H : forall r, sums_checked 1 r = Some (true, new_state, 0) -> supply_grown r).
  { intros [cn| |] Hc; [|discriminate Hc..].
    destruct (stake_reward_exact mainnet (GetBlockSubsidy mainnet [] []) (fun _ _ => None) (rewarded_block 1) cn
      new_state new_state 2 0 0 (371718654830 + 10000) [] 0 0 0 false 0 0 eq_refl Hc) as (_ & s & Es & H & _).
    cbn [supply_grown]. rewrite H. injection Es as <-. reflexivity. }
  apply H. vm_compute. reflexivity.
Defined.
